(* ===== verification/_CoqProject ===== *)
-Q . S2P
Prelude.v
StdIo.v
BufOut.v
Text.v
Maps.v
BufIo.v
Transport.v
SampleJson.v
Server.v
TaskModel.v
TaskTree.v
View.v
GoRuntime.v
GoWalk.v
AsyncLayout.v
AsyncDecode.v
TokioWalk.v
Tokio.v
Gimli.v
GoDwarf.v
AsyncDwarf.v
Registry.v
TraceFormat.v
Crc32.v
TraceLog.v
Payload.v
Ptrace.v
Capture.v
Timer.v
TimedKernel.v
Discipline.v
Ebpf.v
EbpfRecord.v
Sched.v
ToyKernel.v
SchedLog.v
Recording.v
SchedTurns.v
Watchpoint.v
Schedule.v
Replay.v
Session.v
Mt.v
Follow.v
Machine.v
Solo.v
EndToEnd.v
Threads.v
ThreadSteps.v
ThreadLog.v
ThreadReplay.v
Navigate.v
Halts.v
Output.v
Arch.v
WatchArm.v
ReplayBackend.v
Unwind.v
LiveView.v
Cli.v
