(* ===== verification/Prelude.v ===== *)
(** * Mirrorscope: a verification development

    Mirrorscope is a record-and-replay debugger for Linux programs.  A recorder
    runs a program under ptrace, one thread at a time on one CPU, and writes
    what the kernel did to it (syscall results, signals, scheduling) to a trace
    file; a replay engine runs the program again and feeds it the trace; an
    eBPF collector records syscalls at lower cost; decoders turn a stopped
    process into the tasks its language runtime schedules; a DAP server and a
    command line show the result.  This library models all of these and proves
    what they owe each other.

    ** How the parts fit

      - [crates/recorder/src/trace]: the file format, its writer and reader;
      - [crates/recorder/src/capture]: the scheduler that produces events, and
        the payloads of events;
      - [crates/recorder-ebpf-common], [-programs], [recorder-ebpf]: the kernel
        side and the user side of the ring buffer;
      - [crates/replay]: launch, drive, stop, checkpoint, go back, watch;
      - [crates/unwind]: the modules of a process, symbols, stacks;
      - [crates/decoder]: the task model, the view of a stopped process, the
        native, Go and Tokio decoders, and the choice among them;
      - [crates/dap]: framing, the server, and the backend that moves a replay;
      - [crates/mirrorscope-cli]: the commands.

    The recorder appends [Event]s to the writer; the reader turns the bytes
    into [LogRecord]s; a replay session walks the records.  The contract in
    between is [Discipline]: what the recorder guarantees of a log and the
    replay relies on.  The server drives a [DebugBackend]; the replay backend
    moves a session between the exits of system calls and, where it stops,
    asks a [SemanticDecoder] about a [ProcessView].

    ** Files

    Recording and replay:

      - [Prelude]: results with panics, a state monad whose state survives
        errors, machine integers as [Z], little-endian bytes, UTF-8, slices;
        the tactic [st_inv] and the databases [stm] and [keeps].
      - [StdIo]: sources and sinks of bytes as scripts of what each call does;
        [BufIo]: [BufReader] over them; [BufOut]: [BufWriter], whose drop
        ignores a failing flush.
      - [TraceFormat], [Crc32], [TraceLog]: [trace/format.rs], the checksum
        (a parameter, with the IEEE function as the instance used in
        witnesses), [trace/writer.rs] and [trace/reader.rs].
      - [Payload]: [capture/payload.rs]; the interface [Codec].
      - [Ptrace]: the system calls of the tracer as a class [Kernel], and
        [TracerLaws], what ptrace(2) promises of them.
      - [Capture]: [capture/syscall.rs], [affinity.rs], [error.rs]; the
        interface [TraceSink] between the scheduler and the writer.
      - [Timer]: [capture/timer.rs], and what the armed alarm does to a wait;
        [TimedKernel], a kernel with that timer for its three timer calls, as
        lawful as the kernel it is made from.
      - [Discipline]: the schedule discipline of a log.
      - [Ebpf]: the wire format, the kernel-side programs and the draining of
        their ring; [EbpfRecord]: [recorder-ebpf/capture.rs] as a whole and
        [error.rs], over the class [Aya].
      - [Sched]: [capture/sched.rs]; [ToyKernel], a lawful scripted kernel for
        witnesses; [SchedLog], the scheduler's invariant and its log;
        [Recording], [capture/ptrace.rs] down to the file; [SchedTurns], turns,
        aborts and termination of the scheduler.
      - [Watchpoint]: [replay/watchpoint.rs], [watchpoint_hw.rs];
        [Schedule]: [replay/schedule.rs], [checkpoint_select.rs];
        [Replay]: [replay/error.rs], [regs.rs], [inject.rs], [checkpoint.rs]
        and the state of a session; [Session]: the single-threaded driver of
        [replay/session.rs]; [Mt]: [replay/mt.rs], the public moves, [scan.rs].
      - [Follow]: the invariant of a session and what each turn consumes;
        [Navigate]: the public moves, and the recorder's schedule as the
        replay enforces it.
      - [Halts]: how many turns a replay can take, its waits taken to return;
        [Output]: the pipes of the replayed program and the threads that read
        them; [Arch]: the aarch64 halves, and the interface [RegisterPort] of
        both; [WatchArm]: which accesses the armed registers trap.
      - [Machine]: a deterministic program as a [Kernel], with what the manual
        pages say the kernel writes for the calls that bring in outside data;
        [Solo]: recording it; [EndToEnd]: recording, reading back and replaying
        it.
      - [Threads]: a program of several threads as a [Kernel], with the alarms
        and the order of reports as choices; [ThreadSteps]: its steps, one per
        record, and those between that no record tells of; [ThreadLog]: what
        recording it writes; [ThreadReplay]: replaying that, under other pids.

    Decoders:

      - [Text]: what the sources use of [str].
      - [Maps]: [unwind/maps.rs], the load bias of [unwind/elf.rs].
      - [TaskModel], [TaskTree]: [decoder/model], [error.rs]; [View]:
        [process_view.rs], [decoder_trait.rs], [native.rs], with the contract
        of a view, [ViewLaws], and of a decoder, [AnswersTasks].
      - [GoRuntime]: [go/status.rs], [version.rs], [offsets.rs]; [GoWalk]:
        [go/gwalk.rs], [go/decoder.rs].
      - [AsyncLayout]: [async_rust/layout.rs], [roots.rs], [rustc_version.rs],
        [state.rs]; [AsyncDecode]: [decode.rs]; [TokioWalk]: [enumerate/];
        [Tokio]: [decoder.rs], and the choice of [registry.rs].
      - [Gimli]: the answers of an object file and its debug entries, as data;
        [GoDwarf]: [go/dwarf.rs], [go/mod.rs]; [AsyncDwarf]:
        [async_rust/dwarf.rs], [mod.rs]; [Registry]: [enumerate/dwarf.rs] and
        the constructors from an image.
      - [Unwind]: the rest of [unwind/src], over the class [UnwindLibs];
        [LiveView]: [ptrace_view.rs], which keeps [ViewLaws].

    Front ends:

      - [Transport]: [dap/transport.rs], over the class [SerdeJson], which says
        what is used of serde_json; [SampleJson], a lawful instance.
      - [Server]: [dap/protocol.rs], [backend.rs], [stub.rs], [server.rs], with
        the class [DebugBackend]; [ReplayBackend]: [dap/replay_backend.rs], its
        instance over a [ReplaySession].
      - [Cli]: [mirrorscope-cli/src/main.rs].

    A struct is a [Record] with the source's fields; a method on [&mut self]
    is a computation in [stm], which keeps the mutations made before an error;
    a loop is a [Fixpoint] on fuel and [None] is out of fuel, or structural on
    the list it runs over.

    ** Properties

      - The trace: what is written is read back, a cut log yields its complete
        records, arbitrary bytes never panic the reader, and what an accepted
        record was made of ([TraceLog]); the payloads round-trip and refuse
        what is cut ([Payload]).
      - The recorder: at most one tracee runs, the log keeps the discipline,
        the file, if it takes every write, reads back, a command line too long
        for the header is lost, the loop terminates, two ways it stalls or
        aborts ([SchedLog], [Recording], [SchedTurns]), and
        what the preemption timer interrupts and when its alarm is lost
        ([Timer]).
      - eBPF: the wire format round-trips, a capture without overflow is
        complete and pairs exits with entries ([Ebpf]), and a recording reads
        back to exactly the firings the ring took, once the filter was set
        ([EbpfRecord]).
      - The replay: the position is exact after any moves, [run_to] lands on
        the first record at or past its target, a schedule-enforced replay that
        ends followed the schedule, the schedule accepts a recording exactly
        when exits are recorded while scheduled, and a recording of
        [exit_group] that no replay finishes ([Navigate]); what is read of the
        output is what was printed ([Output]); a snapshot leaves the process as
        it was on both architectures ([Arch]); the registers arming writes
        trap exactly the accesses asked for ([WatchArm]); the thread table is a
        bijection and the chosen checkpoint is the nearest ([Schedule]).
      - Recording and replay together: a deterministic single-threaded program
        recorded against any outside world is replayed from its file to the
        same final state ([EndToEnd]), the sender of a [recvfrom] apart, which
        is lost; so is a program of several threads, whatever the alarms and the
        order in which stops are reported did to the recording ([ThreadReplay]).
      - The decoders: which node lists are trees and how they flatten
        ([TaskTree]); the walks of the Go runtime and of Tokio's task lists
        read exactly what a memory stores ([GoWalk], [TokioWalk]); the await
        stack is the chain of suspended coroutines ([AsyncDecode]); the tables
        read from a binary are what its debug information describes ([GoDwarf],
        [AsyncDwarf], [Registry]); the view of a stopped process keeps the
        contract the decoders assume, and the threads a client is shown are its
        threads ([LiveView]); modules come out of the
        kernel's map as they are ([Maps]).
      - The front ends: frames survive any cutting of the stream ([Transport]);
        every request is answered, in order and numbered ([Server]); the
        backend stops exactly at the events it names and stepping undoes
        stepping ([ReplayBackend]); the command lines accepted are exactly
        those of the grammars ([Cli]).

    ** Fuel and bounds

    The recording loop takes one unit per iteration; it ends within the number
    of reports the kernel has left ([SchedTurns]), and the other theorems hold
    at any fuel.  The replay loops take one unit per stop or record and
    [step_thread] one per stop it swallows; the end-to-end theorem needs more
    than the number of records and then the replay does end, and [Halts] bounds
    the turns of any move whose waits return.  The eBPF loop and each of its drains take one unit
    per poll and per item, bounded by what the world has left.  A backend's
    answer is [None] when its session ran out.  The readers' fuel is the length
    of what is left to read plus one, which never runs out; so is that of the
    server's loop, since a frame takes up at least a byte.  Flattening a tree
    takes one unit per node.  The bounds of the code are the code's: 2^20 tasks
    of a Tokio walk, 2^16 of an expansion, 64 awaits, 8 wrappers, 2^20
    goroutines; the walks' fuel is past them and is proved enough.  Counters
    and addresses are [u64]: their overflow is a panic, as in a debug build, or
    the wrap the source writes.

    ** Arguments of the models

    Code outside the repository is an argument: the kernel ([Kernel]; the
    answers about a stopped process, [proc]; POSIX timers, [Timers]; the
    regsets of aarch64, [Regsets]), the unwinding of a session (the class
    [Unwind], with no laws) and of a process ([UnwindLibs]), [aya] and the
    target it spawns ([Aya]), object files and debug information ([object_file],
    [unit_info] and [node] in [Gimli]: what the parsers answer, errors
    included), JSON ([SerdeJson], whose laws are the round trip and totality of
    serde_json), the order a [HashSet] is iterated in, and the texts of errors.

    ** Not modelled

    The kernel itself, the dynamic linker and what [execve] and [fork] do to
    memory: they are behind [Kernel].  The kernel's [waitpid] is a function of
    its state, its flags apart: a wait that blocks for ever, as that for a
    leader whose siblings live, is not a behaviour of the models.  In the
    end-to-end theorems system calls other than [read], [pread64], [recvfrom],
    [getrandom] and [clock_gettime] are deterministic, and no [recvfrom] asks
    for the sender.  In that on threads a thread stopped by an alarm has
    written no memory since its last call and goes on as it would have from
    there; a call does not wait for another thread; no signal comes but the tracer's
    [SIGSTOP]; the leader dies last (it is otherwise [Navigate.exit_group_diverges]);
    and the program sees its threads by number, not by the pids of the host.  [Debug] impls, and the texts of the
    recorder's and the replay's errors.  The scheduler's wait may
    fail with [EINTR] at any time; that it does so only when the alarm of
    [Timer] comes is not a hypothesis of its theorems.  A program may not
    end, and neither does its replay then. *)

From Stdlib Require Export ZArith Lia.
From Stdlib Require Export Strings.Byte.
From stdpp Require Export base tactics option list numbers gmap.
From stdpp Require Export sorting.

#[global] Open Scope Z_scope.

(** ** Results of Rust computations

    [Ok] and [Err] are the two constructors of Rust's [Result]; [Panic] is the
    third way a call can end: an out-of-range slice, a failed [expect].  It is
    a value of the model so that "never panics" is a statement. *)

Inductive result (E A : Type) : Type :=
| Ok (a : A)
| Err (e : E)
| Panic.
Arguments Ok {E A} a.
Arguments Err {E A} e.
Arguments Panic {E A}.

#[export] Instance result_ret {E} : MRet (result E) := λ A a, Ok a.
#[export] Instance result_bind {E} : MBind (result E) := λ A B f m,
  match m with Ok a => f a | Err e => Err e | Panic => Panic end.
#[export] Instance result_fmap {E} : FMap (result E) := λ A B f m,
  match m with Ok a => Ok (f a) | Err e => Err e | Panic => Panic end.
#[export] Instance result_eq_dec {E A} `{EqDecision E, EqDecision A} :
  EqDecision (result E A).
Proof. solve_decision. Defined.

(** The keys of a [BTreeMap], in its order. *)
Definition sorted_keys {A} (m : gmap Z A) : list Z := merge_sort Z.le (map_to_list m).*1.

Lemma elem_of_sorted_keys {A} (m : gmap Z A) k : k ∈ sorted_keys m ↔ is_Some (m !! k).
Proof.
  unfold sorted_keys. rewrite merge_sort_Permutation, list_elem_of_fmap. split.
  - intros [[k' x] [-> Hx%elem_of_map_to_list]]. eauto.
  - intros [x Hx]. exists (k, x). split; [done|]. by apply elem_of_map_to_list.
Qed.

Lemma NoDup_sorted_keys {A} (m : gmap Z A) : NoDup (sorted_keys m).
Proof. unfold sorted_keys. rewrite merge_sort_Permutation. apply NoDup_fst_map_to_list. Qed.

Lemma StronglySorted_filter {A} (R : relation A) (P : A → Prop) `{∀ x, Decision (P x)} l :
  StronglySorted R l → StronglySorted R (filter P l).
Proof.
  induction 1 as [|x l Hl IH Hx]; [constructor|]. rewrite filter_cons.
  destruct (decide (P x)); [|done]. constructor; [done|].
  rewrite Forall_forall in Hx |- *. intros y [_ Hy]%list_elem_of_filter. by apply Hx.
Qed.

Lemma sorted_NoDup_lt (l : list Z) : NoDup l → StronglySorted Z.lt (merge_sort Z.le l).
Proof.
  intros Hnd. assert (Hs : StronglySorted Z.le (merge_sort Z.le l)).
  { apply (Sorted_StronglySorted Z.le), (Sorted_merge_sort Z.le). }
  rewrite <- (merge_sort_Permutation Z.le) in Hnd. revert Hs Hnd. generalize (merge_sort Z.le l) as k.
  induction 1 as [|x k Hk IH Hx]; intros Hnd; [constructor|]. apply NoDup_cons in Hnd as [Hn Hnd].
  constructor; [by apply IH|]. rewrite Forall_forall in Hx |- *. intros y Hy. specialize (Hx y Hy).
  assert (x ≠ y) by (by intros ->). lia.
Qed.

Lemma sorted_keys_lt {A} (m : gmap Z A) : StronglySorted Z.lt (sorted_keys m).
Proof. apply sorted_NoDup_lt, NoDup_fst_map_to_list. Qed.

Lemma StronglySorted_lt_NoDup (l : list Z) : StronglySorted Z.lt l → NoDup l.
Proof.
  induction 1 as [|x l Hl IH Hx]; constructor; [|done]. intros Hin. rewrite Forall_forall in Hx.
  specialize (Hx _ Hin). lia.
Qed.

(** A strictly sorted list is its elements. *)
Lemma lt_sorted_unique (l1 l2 : list Z) :
  StronglySorted Z.lt l1 → StronglySorted Z.lt l2 → (∀ x, x ∈ l1 ↔ x ∈ l2) → l1 = l2.
Proof.
  intros H1. revert l2. induction H1 as [|x l1 Hl1 IH Hx]; intros l2 H2 Hin.
  - destruct l2 as [|y l2]; [done|]. destruct (not_elem_of_nil y). apply Hin. left.
  - destruct H2 as [|y l2 Hl2 Hy]; [destruct (not_elem_of_nil x); apply Hin; left|].
    rewrite Forall_forall in Hx, Hy.
    assert (x = y) as ->.
    { destruct (proj1 (elem_of_cons _ _ _) (proj1 (Hin x) ltac:(left))) as [|H]; [done|].
      destruct (proj1 (elem_of_cons _ _ _) (proj2 (Hin y) ltac:(left))) as [|H']; [done|].
      specialize (Hx _ H'). specialize (Hy _ H). lia. }
    f_equal. apply IH; [done|]. intros z. specialize (Hin z). rewrite !elem_of_cons in Hin.
    split; intros Hz.
    + destruct (proj1 Hin (or_intror Hz)) as [->|]; [|done]. specialize (Hx _ Hz). lia.
    + destruct (proj2 Hin (or_intror Hz)) as [->|]; [|done]. specialize (Hy _ Hz). lia.
Qed.

(** [Option::ok_or]. *)
Definition ok_or {E A} (e : E) (o : option A) : result E A :=
  match o with Some a => Ok a | None => Err e end.

(** [Result::map_err], which is also what [?] does with a [From] conversion. *)
Definition map_err {E F A} (f : E → F) (m : result E A) : result F A :=
  match m with Ok a => Ok a | Err e => Err (f e) | Panic => Panic end.

(** [.expect(..)] and slice indexing: a missing value is a panic. *)
Definition expect {E A} (o : option A) : result E A :=
  match o with Some a => Ok a | None => Panic end.

(** ** A state monad whose state survives errors

    A method on [&mut self] that returns [Err] keeps every mutation it made
    before the error, so the state is returned on all three outcomes. *)

Definition stm (S E A : Type) : Type := S → result E A * S.

#[export] Instance stm_ret {S E} : MRet (stm S E) := λ A a s, (Ok a, s).
#[export] Instance stm_bind {S E} : MBind (stm S E) := λ A B f m s,
  match m s with
  | (Ok a, s') => f a s'
  | (Err e, s') => (Err e, s')
  | (Panic, s') => (Panic, s')
  end.

Definition st_get {S E} : stm S E S := λ s, (Ok s, s).
Definition st_gets {S E A} (f : S → A) : stm S E A := λ s, (Ok (f s), s).
Definition st_modify {S E} (f : S → S) : stm S E unit := λ s, (Ok tt, f s).
Definition st_throw {S E A} (e : E) : stm S E A := λ s, (Err e, s).
Definition st_lift {S E A} (r : result E A) : stm S E A := λ s, (r, s).
Definition st_when {S E} (b : bool) (m : stm S E unit) : stm S E unit :=
  if b then m else mret tt.

(** Forward reasoning: what an [Ok] outcome says of each step. *)
Lemma st_bind_ok {S E A B} (m : stm S E A) (f : A → stm S E B) s b s' :
  mbind f m s = (Ok b, s') → ∃ a s1, m s = (Ok a, s1) ∧ f a s1 = (Ok b, s').
Proof.
  unfold mbind, stm_bind. destruct (m s) as [[a| |] s1]; intros Hb; try done. eauto.
Qed.

Lemma st_ret_ok {S E A} (a b : A) (s s' : S) :
  (mret a : stm S E A) s = (Ok b, s') → b = a ∧ s' = s.
Proof. by intros [= <- <-]. Qed.

Lemma st_gets_ok {S E A} (f : S → A) b (s s' : S) :
  (st_gets f : stm S E A) s = (Ok b, s') → b = f s ∧ s' = s.
Proof. by intros [= <- <-]. Qed.

Lemma st_modify_ok {S E} (f : S → S) b (s s' : S) :
  (st_modify f : stm S E unit) s = (Ok b, s') → b = tt ∧ s' = f s.
Proof. by intros [= <- <-]. Qed.

Lemma st_lift_ok {S E A} (r : result E A) a (s s' : S) :
  st_lift r s = (Ok a, s') → r = Ok a ∧ s' = s.
Proof. by intros [= -> <-]. Qed.

Lemma st_when_ok {S E} (b : bool) (m : stm S E unit) u s s' :
  st_when b m s = (Ok u, s') → if b then m s = (Ok u, s') else s' = s.
Proof. destruct b; [done|]. by intros [= _ <-]. Qed.

Lemma st_throw_ok {S E A} (e : E) (a : A) (s s' : S) : st_throw e s = (Ok a, s') → False.
Proof. done. Qed.

(** Backward reasoning: computing through a bind. *)
Lemma bind_run {S E A B} (m : stm S E A) (f : A → stm S E B) s a s' :
  m s = (Ok a, s') → mbind f m s = f a s'.
Proof. unfold mbind, stm_bind. by intros ->. Qed.

Lemma bind_err {S E A B} (m : stm S E A) (f : A → stm S E B) s e s' :
  m s = (Err e, s') → mbind f m s = (Err e, s').
Proof. unfold mbind, stm_bind. by intros ->. Qed.

Lemma bind_gets {S E A B} (g : S → A) (f : A → stm S E B) s : mbind f (st_gets g) s = f (g s) s.
Proof. done. Qed.

Lemma bind_modify {S E B} (g : S → S) (f : unit → stm S E B) s : mbind f (st_modify g) s = f tt (g s).
Proof. done. Qed.

Lemma bind_lift {S E A B} (a : A) (f : A → stm S E B) s : mbind f (st_lift (Ok a)) s = f a s.
Proof. done. Qed.

Lemma bind_ret {S E A B} (a : A) (f : A → stm S E B) s : mbind f (mret a : stm S E A) s = f a s.
Proof. done. Qed.

Lemma bind_throw {S E A B} (e : E) (f : A → stm S E B) s : mbind f (st_throw e) s = (Err e, s).
Proof. done. Qed.

Lemma bind_assoc {S E A B C} (m : stm S E A) (f : A → stm S E B) (g : B → stm S E C) s :
  mbind g (mbind f m) s = mbind (λ a, mbind g (f a)) m s.
Proof. unfold mbind, stm_bind. by destruct (m s) as [[]]. Qed.

(** What a computation leaves alone, whatever its outcome. *)
Definition keeps {S T E A} (f : S → T) (m : stm S E A) : Prop := ∀ s, f (m s).2 = f s.

Lemma keeps_run {S T E A} (f : S → T) (m : stm S E A) s r s' : keeps f m → m s = (r, s') → f s' = f s.
Proof. intros Hk Hm. specialize (Hk s). by rewrite Hm in Hk. Qed.

Lemma keeps_bind {S T E A B} (f : S → T) (m : stm S E A) (k : A → stm S E B) :
  keeps f m → (∀ a, keeps f (k a)) → keeps f (mbind k m).
Proof.
  intros Hm Hk s. unfold mbind, stm_bind. specialize (Hm s). destruct (m s) as [[a| |] s1]; [|done..].
  by rewrite (Hk a s1).
Qed.

Lemma keeps_ret {S T E A} (f : S → T) (a : A) : keeps f (mret a : stm S E A).
Proof. done. Qed.

Lemma keeps_gets {S T E A} (f : S → T) (g : S → A) : keeps f (st_gets g : stm S E A).
Proof. done. Qed.

Lemma keeps_lift {S T E A} (f : S → T) (r : result E A) : keeps f (st_lift r).
Proof. done. Qed.

Lemma keeps_throw {S T E A} (f : S → T) (e : E) : keeps f (st_throw e : stm S E A).
Proof. done. Qed.

Lemma keeps_modify {S T E} (f : S → T) (g : S → S) :
  (∀ s, f (g s) = f s) → keeps f (st_modify g : stm S E unit).
Proof. intros Hg s. apply Hg. Qed.

Lemma keeps_when {S T E} (f : S → T) b (m : stm S E unit) : keeps f m → keeps f (st_when b m).
Proof. intros Hm. destruct b; [done|]. apply keeps_ret. Qed.

Create HintDb keeps.
#[export] Hint Resolve keeps_bind keeps_ret keeps_gets keeps_lift keeps_throw keeps_when : keeps.
#[export] Hint Extern 1 (keeps _ (st_modify _)) => (apply keeps_modify; done) : keeps.
#[export] Hint Extern 2 (keeps _ (match ?x with _ => _ end)) => destruct x : keeps.

(** A measure of the state that a computation does not raise, whatever its
    outcome. *)
Definition lowers {S E A} (f : S → nat) (m : stm S E A) : Prop := ∀ s, (f (m s).2 ≤ f s)%nat.

Lemma lowers_run {S E A} (f : S → nat) (m : stm S E A) s r s' :
  lowers f m → m s = (r, s') → (f s' ≤ f s)%nat.
Proof. intros Hl Hm. specialize (Hl s). by rewrite Hm in Hl. Qed.

Lemma lowers_keeps {S E A} (f : S → nat) (m : stm S E A) : keeps f m → lowers f m.
Proof. intros Hk s. rewrite (Hk s). lia. Qed.

Lemma lowers_bind {S E A B} (f : S → nat) (m : stm S E A) (k : A → stm S E B) :
  lowers f m → (∀ a, lowers f (k a)) → lowers f (mbind k m).
Proof.
  intros Hm Hk s. unfold mbind, stm_bind. specialize (Hm s). destruct (m s) as [[a| |] s1]; [|done..].
  cbn in *. specialize (Hk a s1). lia.
Qed.

Lemma lowers_ret {S E A} (f : S → nat) (a : A) : lowers f (mret a : stm S E A).
Proof. intros s. done. Qed.

Lemma lowers_gets {S E A} (f : S → nat) (g : S → A) : lowers f (st_gets g : stm S E A).
Proof. intros s. done. Qed.

Lemma lowers_lift {S E A} (f : S → nat) (r : result E A) : lowers f (st_lift r).
Proof. intros s. done. Qed.

Lemma lowers_throw {S E A} (f : S → nat) (e : E) : lowers f (st_throw e : stm S E A).
Proof. intros s. done. Qed.

Lemma lowers_modify {S E} (f : S → nat) (g : S → S) :
  (∀ s, (f (g s) ≤ f s)%nat) → lowers f (st_modify g : stm S E unit).
Proof. intros Hg s. apply Hg. Qed.

Lemma lowers_when {S E} (f : S → nat) b (m : stm S E unit) : lowers f m → lowers f (st_when b m).
Proof. intros Hm. destruct b; [done|]. apply lowers_ret. Qed.

Create HintDb lowers.
#[export] Hint Resolve lowers_bind lowers_ret lowers_gets lowers_lift lowers_throw lowers_when : lowers.
#[export] Hint Extern 1 (lowers _ (st_modify _)) => (apply lowers_modify; intros; done) : lowers.
#[export] Hint Extern 2 (lowers _ (match ?x with _ => _ end)) => destruct x : lowers.

Create Rewrite HintDb stm.
#[export] Hint Rewrite @bind_gets @bind_modify @bind_lift @bind_ret @bind_throw @bind_assoc : stm.

Ltac st_inv :=
  repeat match goal with
  | H : @mbind _ stm_bind _ _ _ _ _ = (Ok _, _) |- _ =>
      let a := fresh "a" in let s := fresh "s" in let Hm := fresh "Hm" in
      apply st_bind_ok in H as (a & s & Hm & H)
  | H : @mret _ stm_ret _ _ _ = (Ok _, _) |- _ => first [apply st_ret_ok in H as [-> ->] | apply st_ret_ok in H as [? ->] | apply st_ret_ok in H as [? ?]]
  | H : st_gets _ _ = (Ok _, _) |- _ => first [apply st_gets_ok in H as [-> ->] | apply st_gets_ok in H as [? ->] | apply st_gets_ok in H as [? ?]]
  | H : st_modify _ _ = (Ok _, _) |- _ => first [apply st_modify_ok in H as [-> ->] | apply st_modify_ok in H as [? ->] | apply st_modify_ok in H as [? ?]]
  | H : st_lift _ _ = (Ok _, _) |- _ => first [apply st_lift_ok in H as [-> ->] | apply st_lift_ok in H as [? ->] | apply st_lift_ok in H as [? ?]]
  | H : st_throw _ _ = (Ok _, _) |- _ => destruct (st_throw_ok _ _ _ _ H)
  end.

(** ** Machine integers

    A [w]-bit unsigned integer is a [Z] in [0, 2^w); a signed one is a [Z] in
    [-2^(w-1), 2^(w-1)).  Conversions wrap the way Rust's [as] does. *)

Definition in_u (w z : Z) : Prop := 0 ≤ z < 2 ^ w.
Definition in_i (w z : Z) : Prop := - 2 ^ (w - 1) ≤ z < 2 ^ (w - 1).

#[export] Instance in_u_dec w z : Decision (in_u w z).
Proof. unfold in_u. apply _. Defined.
#[export] Instance in_i_dec w z : Decision (in_i w z).
Proof. unfold in_i. apply _. Defined.

Definition as_u (w z : Z) : Z := z mod 2 ^ w.
Definition as_i (w z : Z) : Z :=
  let u := z mod 2 ^ w in if u <? 2 ^ (w - 1) then u else u - 2 ^ w.

Definition U64_MAX : Z := 2 ^ 64 - 1.

(** [u64::saturating_add], [usize::checked_add] (64-bit targets). *)
Definition saturating_add (w a b : Z) : Z := Z.min (a + b) (2 ^ w - 1).
Definition checked_add (w a b : Z) : option Z :=
  if a + b <? 2 ^ w then Some (a + b) else None.

(** ** Bytes and little-endian integers *)

#[export] Instance byte_eq_dec : EqDecision byte := Byte.byte_eq_dec.

Definition Z_of_byte (b : byte) : Z := Z.of_N (Byte.to_N b).
Definition byte_of_Z (z : Z) : byte :=
  default x00 (Byte.of_N (Z.to_N (z mod 256))).

(** [to_le_bytes] of an [n]-byte integer (two's complement for negatives). *)
Fixpoint le_bytes (n : nat) (z : Z) : list byte :=
  match n with
  | O => []
  | S n => byte_of_Z z :: le_bytes n (z / 256)
  end.

(** [from_le_bytes], read as unsigned. *)
Fixpoint le_value (bs : list byte) : Z :=
  match bs with
  | [] => 0
  | b :: bs => Z_of_byte b + 256 * le_value bs
  end.

(** [slice.len()] as a [usize]. *)
Definition blen {A} (l : list A) : Z := Z.of_nat (length l).

(** [slice.get(a..b)]: [None] when the range is not inside the slice. *)
Definition get_range {A} (l : list A) (a b : Z) : option (list A) :=
  if (0 <=? a) && (a <=? b) && (b <=? blen l)
  then Some (take (Z.to_nat (b - a)) (drop (Z.to_nat a) l))
  else None.

(** [slice.get(a)]. *)
Definition get_at {A} (l : list A) (a : Z) : option A :=
  if 0 <=? a then l !! Z.to_nat a else None.

(** ** UTF-8: what [String::from_utf8] accepts

    The well-formed byte sequences of the Unicode standard, which is the
    documented behaviour of [core::str::from_utf8]. *)

Definition byte_in (lo hi : Z) (b : byte) : bool :=
  (lo <=? Z_of_byte b) && (Z_of_byte b <=? hi).
Definition cont (b : byte) : bool := byte_in 0x80 0xBF b.

Fixpoint utf8_valid (bs : list byte) : bool :=
  match bs with
  | [] => true
  | b0 :: r0 =>
    if byte_in 0x00 0x7F b0 then utf8_valid r0
    else match r0 with
    | [] => false
    | b1 :: r1 =>
      if byte_in 0xC2 0xDF b0 then cont b1 && utf8_valid r1
      else match r1 with
      | [] => false
      | b2 :: r2 =>
        let three :=
          (byte_in 0xE0 0xE0 b0 && byte_in 0xA0 0xBF b1)
          || (byte_in 0xE1 0xEC b0 && cont b1)
          || (byte_in 0xED 0xED b0 && byte_in 0x80 0x9F b1)
          || (byte_in 0xEE 0xEF b0 && cont b1) in
        if three then cont b2 && utf8_valid r2
        else match r2 with
        | [] => false
        | b3 :: r3 =>
          let four :=
            (byte_in 0xF0 0xF0 b0 && byte_in 0x90 0xBF b1)
            || (byte_in 0xF1 0xF3 b0 && cont b1)
            || (byte_in 0xF4 0xF4 b0 && byte_in 0x80 0x8F b1) in
          four && cont b2 && cont b3 && utf8_valid r3
        end
      end
    end
  end.

(** A Rust [String] is a byte vector that is valid UTF-8. *)
Definition string_wf (s : list byte) : Prop := utf8_valid s = true.

(** ** Lemmas: bytes *)

Create HintDb le.
Create Rewrite HintDb le.

Lemma Z_of_byte_range b : 0 ≤ Z_of_byte b < 256.
Proof.
  unfold Z_of_byte. pose proof (Byte.to_N_bounded b). lia.
Qed.

Lemma byte_of_Z_of_byte b : byte_of_Z (Z_of_byte b) = b.
Proof.
  unfold byte_of_Z. rewrite Z.mod_small by apply Z_of_byte_range.
  unfold Z_of_byte. rewrite N2Z.id, Byte.of_to_N. done.
Qed.

Lemma Z_of_byte_of_Z z : Z_of_byte (byte_of_Z z) = z mod 256.
Proof.
  unfold byte_of_Z, Z_of_byte.
  pose proof (Z.mod_pos_bound z 256 ltac:(lia)) as Hb.
  destruct (Byte.of_N (Z.to_N (z mod 256))) as [b|] eqn:E; simpl.
  - apply Byte.to_of_N in E. rewrite E. lia.
  - apply Byte.of_N_None_iff in E. lia.
Qed.

Lemma length_le_bytes n z : length (le_bytes n z) = n.
Proof. revert z. induction n as [|n IH]; intros z; simpl; [done|]. by rewrite IH. Qed.

Lemma blen_le_bytes n z : blen (le_bytes n z) = Z.of_nat n.
Proof. unfold blen. by rewrite length_le_bytes. Qed.

Lemma le_value_le_bytes n z : le_value (le_bytes n z) = z mod 256 ^ Z.of_nat n.
Proof.
  revert z. induction n as [|n IH]; intros z; cbn [le_bytes le_value].
  - by rewrite Z.mod_1_r.
  - rewrite IH, Z_of_byte_of_Z, Nat2Z.inj_succ, Z.pow_succ_r by lia.
    rewrite Z.rem_mul_r by lia. lia.
Qed.

Lemma le_value_range bs : 0 ≤ le_value bs < 256 ^ Z.of_nat (length bs).
Proof.
  induction bs as [|b bs IH]; cbn [le_value length]; [lia|].
  rewrite Nat2Z.inj_succ, Z.pow_succ_r by lia.
  pose proof (Z_of_byte_range b). lia.
Qed.

Lemma le_bytes_le_value bs : le_bytes (length bs) (le_value bs) = bs.
Proof.
  induction bs as [|b bs IH]; cbn [le_bytes le_value length]; [done|].
  pose proof (Z_of_byte_range b).
  replace (Z_of_byte b + 256 * le_value bs) with (le_value bs * 256 + Z_of_byte b) by lia.
  rewrite Z.div_add_l, (Z.div_small (Z_of_byte b)), Z.add_0_r, IH by lia.
  f_equal. unfold byte_of_Z. rewrite Z.add_comm, Z.mod_add by lia.
  apply byte_of_Z_of_byte.
Qed.

Lemma le_roundtrip_u n z :
  0 ≤ z < 256 ^ Z.of_nat n → le_value (le_bytes n z) = z.
Proof. intros. rewrite le_value_le_bytes. by apply Z.mod_small. Qed.

Lemma le_u16 z : in_u 16 z → le_value (le_bytes 2 z) = z.
Proof. intros H. apply le_roundtrip_u. exact H. Qed.
Lemma le_u32 z : in_u 32 z → le_value (le_bytes 4 z) = z.
Proof. intros H. apply le_roundtrip_u. exact H. Qed.
Lemma le_u64 z : in_u 64 z → le_value (le_bytes 8 z) = z.
Proof. intros H. apply le_roundtrip_u. exact H. Qed.

Lemma as_i_range w z : 0 < w → in_i w (as_i w z).
Proof.
  intros Hw. unfold as_i, in_i. pose proof (Z.mod_pos_bound z (2 ^ w) ltac:(apply Z.pow_pos_nonneg; lia)).
  assert (2 ^ w = 2 * 2 ^ (w - 1)) by (rewrite <- Z.pow_succ_r by lia; f_equal; lia).
  cbv zeta. destruct (Z.ltb_spec (z mod 2 ^ w) (2 ^ (w - 1))); lia.
Qed.

Lemma as_i_mod w z : 0 < w → in_i w z → as_i w (z mod 2 ^ w) = z.
Proof.
  unfold in_i, as_i. intros Hw Hz. rewrite Z.mod_mod by lia.
  assert (Hp : 2 ^ w = 2 * 2 ^ (w - 1)).
  { rewrite <- Z.pow_succ_r by lia. f_equal. lia. }
  destruct (Z.ltb_spec z 0).
  - assert (Hm : z mod 2 ^ w = z + 2 ^ w).
    { symmetry. apply Z.mod_unique with (q := -1); lia. }
    rewrite Hm. destruct (Z.ltb_spec (z + 2 ^ w) (2 ^ (w - 1))); lia.
  - rewrite Z.mod_small by lia.
    destruct (Z.ltb_spec z (2 ^ (w - 1))); lia.
Qed.

Lemma le_i32 z : in_i 32 z → as_i 32 (le_value (le_bytes 4 z)) = z.
Proof. intros H. rewrite le_value_le_bytes. by apply as_i_mod. Qed.
Lemma le_i64 z : in_i 64 z → as_i 64 (le_value (le_bytes 8 z)) = z.
Proof. intros H. rewrite le_value_le_bytes. by apply as_i_mod. Qed.

#[export] Hint Rewrite length_le_bytes @blen_le_bytes : le.
#[export] Hint Resolve le_u16 le_u32 le_u64 le_i32 le_i64 : le.

(** ** Lemmas: lengths and slices *)

Lemma blen_nil {A} : blen (@nil A) = 0.
Proof. done. Qed.
Lemma blen_cons {A} (x : A) l : blen (x :: l) = 1 + blen l.
Proof. unfold blen. cbn [length]. lia. Qed.
Lemma blen_app {A} (l k : list A) : blen (l ++ k) = blen l + blen k.
Proof. unfold blen. rewrite length_app. lia. Qed.
Lemma blen_nonneg {A} (l : list A) : 0 ≤ blen l.
Proof. unfold blen. lia. Qed.

(** A slice that covers exactly one segment of a concatenation. *)
Lemma get_range_app {A} (pre mid post : list A) a b :
  a = blen pre → b = blen pre + blen mid →
  get_range (pre ++ mid ++ post) a b = Some mid.
Proof.
  intros -> ->. unfold get_range. rewrite !blen_app.
  pose proof (blen_nonneg pre). pose proof (blen_nonneg mid).
  pose proof (blen_nonneg post).
  rewrite !(proj2 (Z.leb_le _ _)) by lia. cbn [andb].
  replace (blen pre + blen mid - blen pre) with (blen mid) by lia.
  unfold blen. rewrite !Nat2Z.id, drop_app_length. by rewrite take_app_length.
Qed.

(** The last segment. *)
Lemma get_range_suffix {A} (pre mid : list A) a b :
  a = blen pre → b = blen pre + blen mid → get_range (pre ++ mid) a b = Some mid.
Proof. intros. rewrite <- (app_nil_r mid) at 1. by apply get_range_app. Qed.

Lemma get_range_Some {A} (l r : list A) a b :
  get_range l a b = Some r →
  0 ≤ a ≤ b ∧ b ≤ blen l ∧ blen r = b - a ∧
  r = take (Z.to_nat (b - a)) (drop (Z.to_nat a) l).
Proof.
  unfold get_range.
  destruct (Z.leb_spec 0 a), (Z.leb_spec a b), (Z.leb_spec b (blen l));
    cbn [andb]; intros [= <-].
  split_and!; try done.
  unfold blen in *. rewrite length_take, length_drop. lia.
Qed.

Lemma get_range_None {A} (l : list A) a b :
  get_range l a b = None ↔ a < 0 ∨ b < a ∨ blen l < b.
Proof.
  unfold get_range.
  destruct (Z.leb_spec 0 a), (Z.leb_spec a b), (Z.leb_spec b (blen l));
    cbn [andb]; split; try done; lia.
Qed.

Lemma get_range_is_Some {A} (l : list A) a b :
  0 ≤ a → a ≤ b → b ≤ blen l → is_Some (get_range l a b).
Proof.
  intros. destruct (get_range l a b) eqn:E; [eauto|].
  apply get_range_None in E. lia.
Qed.

(** A slice of a prefix is the slice of the whole. *)
Lemma get_range_prefix {A} (l k r : list A) a b :
  get_range l a b = Some r → get_range (l ++ k) a b = Some r.
Proof.
  intros H. apply get_range_Some in H as (? & ? & _ & ->).
  unfold get_range. rewrite blen_app. pose proof (blen_nonneg k).
  rewrite !(proj2 (Z.leb_le _ _)) by lia. cbn [andb]. f_equal.
  unfold blen in *. rewrite drop_app_le by lia.
  rewrite take_app_le by (rewrite length_drop; lia). done.
Qed.

(** Walking a concatenation segment by segment. *)
Lemma get_range_skip {A} (l k : list A) a b :
  blen l ≤ a → get_range (l ++ k) a b = get_range k (a - blen l) (b - blen l).
Proof.
  intros Ha. pose proof (blen_nonneg l). pose proof (blen_nonneg k).
  destruct (get_range k (a - blen l) (b - blen l)) as [r|] eqn:E.
  - apply get_range_Some in E as (? & ? & _ & ->).
    unfold get_range. rewrite blen_app.
    rewrite !(proj2 (Z.leb_le _ _)) by lia. cbn [andb]. f_equal.
    unfold blen in *. rewrite drop_app_ge by lia. f_equal; [|f_equal]; lia.
  - apply get_range_None in E. apply get_range_None. rewrite blen_app. lia.
Qed.

Lemma get_range_here {A} (l k : list A) a b :
  a = 0 → b = blen l → get_range (l ++ k) a b = Some l.
Proof. intros. by apply (get_range_app [] l k). Qed.

Lemma get_range_all {A} (l : list A) a b :
  a = 0 → b = blen l → get_range l a b = Some l.
Proof. intros. rewrite <- (app_nil_r l) at 1. by apply get_range_here. Qed.

Lemma get_at_skip {A} (l k : list A) a :
  blen l ≤ a → get_at (l ++ k) a = get_at k (a - blen l).
Proof.
  intros Ha. pose proof (blen_nonneg l). unfold get_at.
  rewrite !(proj2 (Z.leb_le _ _)) by lia. unfold blen in *.
  rewrite lookup_app_r by lia. f_equal. lia.
Qed.

Lemma get_at_zero {A} (x : A) l a : a = 0 → get_at (x :: l) a = Some x.
Proof. by intros ->. Qed.

Lemma get_at_succ {A} (x : A) l a : 0 < a → get_at (x :: l) a = get_at l (a - 1).
Proof.
  intros. unfold get_at. rewrite !(proj2 (Z.leb_le _ _)) by lia.
  replace (Z.to_nat a) with (S (Z.to_nat (a - 1))) by lia. done.
Qed.

Lemma get_at_Some_range {A} (l : list A) a :
  0 ≤ a < blen l → is_Some (get_at l a).
Proof.
  intros. unfold get_at. rewrite (proj2 (Z.leb_le _ _)) by lia.
  apply lookup_lt_is_Some. unfold blen in *. lia.
Qed.

(** ** Tactics *)

(** Split every monadic bind of a successful run in the context. *)
Ltac inv_bind :=
  repeat match goal with
  | H : mbind _ ?m = Ok _ |- _ =>
      let E := fresh "E" in destruct m eqn:E; cbn [mbind result_bind] in H; try discriminate H
  | H : Ok _ = Ok _ |- _ => injection H as H; subst
  | H : Some _ = Some _ |- _ => injection H as H; subst
  | H : ok_or _ ?o = Ok _ |- _ =>
      let E := fresh "E" in destruct o eqn:E; cbn [ok_or] in H; try discriminate H
  | H : expect ?o = Ok _ |- _ =>
      let E := fresh "E" in destruct o eqn:E; cbn [expect] in H; try discriminate H
  end.

(** Turn boolean comparisons into arithmetic. *)
Ltac zbool :=
  repeat match goal with
  | H : (_ <? _) = true |- _ => apply Z.ltb_lt in H
  | H : (_ <? _) = false |- _ => apply Z.ltb_ge in H
  | H : (_ <=? _) = true |- _ => apply Z.leb_le in H
  | H : (_ <=? _) = false |- _ => apply Z.leb_gt in H
  | H : (_ =? _) = true |- _ => apply Z.eqb_eq in H
  | H : (_ =? _) = false |- _ => apply Z.eqb_neq in H
  | H : (_ && _) = true |- _ => apply andb_prop in H; destruct H
  | H : negb _ = true |- _ => apply negb_true_iff in H
  | H : negb _ = false |- _ => apply negb_false_iff in H
  end.

(** Lengths of concatenations of fixed-width fields. *)
Ltac blens := rewrite ?blen_app, ?blen_le_bytes, ?blen_cons, ?blen_nil.

(** Bounds of literals, conjoined or listed. *)
Ltac eval_bounds :=
  repeat first
  [ match goal with
    | |- _ ∧ _ => split
    | |- Forall _ (_ :: _) => apply Forall_cons_2
    | |- Forall _ [] => apply Forall_nil_2
    | |- (_ <= _) => apply Z.leb_le; reflexivity
    | |- (_ < _) => apply Z.ltb_lt; reflexivity
    | |- _ = _ => reflexivity
    | |- in_u _ _ => red
    | |- in_i _ _ => red
    end ].

(** Evaluate the slices of a concatenation whose segments have known length. *)
Ltac slices :=
  repeat first
  [ match goal with
    | |- context [get_range (?l ++ ?k) ?a ?b] =>
        first [ rewrite (get_range_skip l k a b) by (blens; lia); blens
              | rewrite (get_range_here l k a b) by (blens; lia) ]
    | |- context [get_range ?l ?a ?b] =>
        rewrite (get_range_all l a b) by (blens; lia)
    | |- context [get_at (?l ++ ?k) ?a] =>
        rewrite (get_at_skip l k a) by (blens; lia); blens
    | |- context [get_at (?x :: ?l) ?a] =>
        first [ rewrite (get_at_zero x l a) by lia
              | rewrite (get_at_succ x l a) by lia ]
    end
  | progress cbn [expect ok_or mbind result_bind mret result_ret] ].

#[global] Arguments le_bytes : simpl never.
#[global] Arguments le_value : simpl never.
#[global] Arguments get_range : simpl never.
#[global] Arguments get_at : simpl never.
#[global] Arguments blen : simpl never.
