(* ===== verification/StdIo.v ===== *)
(** * Byte streams: what the trace code uses of [std::io]

    A reader [R: Read] is modelled as the bytes it will deliver together with a
    script that decides how each [read] call behaves (how many bytes it hands
    over, whether it is interrupted, whether it fails), so a theorem about all
    [source]s is a theorem about every chunking.  A writer [W: Write] is the
    bytes written so far with a script of [write_all] outcomes.  [read_exact]
    is the loop of the standard library's default method. *)

From S2P Require Import Prelude.

(** ** Data *)

Inductive io_error :=
| UnexpectedEof
| InterruptedError
| OsError (code : Z).

#[export] Instance io_error_eq_dec : EqDecision io_error.
Proof. solve_decision. Defined.

(** One scripted answer of [Read::read]. *)
Inductive read_step :=
| Chunk (max : nat)          (** deliver at most [S max] bytes *)
| ReadInterrupted            (** [Err(ErrorKind::Interrupted)] *)
| ReadFail (code : Z).       (** any other error *)

Record source := Source { src_data : list byte; src_script : list read_step }.

(** One scripted answer of [Write::write_all]: success, or an error after some
    prefix of the buffer reached the sink. *)
Inductive write_step :=
| WriteOk
| WriteFail (accepted : nat) (code : Z).

Record sink := Sink { snk_data : list byte; snk_script : list write_step }.

(** ** Operations *)

(** [Read::read] on a buffer of [n] bytes; past the script every call delivers
    all it can. *)
Definition read (n : nat) (s : source) : result io_error (list byte) * source :=
  match src_script s with
  | [] => (Ok (take n (src_data s)), Source (drop n (src_data s)) [])
  | Chunk m :: sc =>
      let k := Nat.min n (S m) in
      (Ok (take k (src_data s)), Source (drop k (src_data s)) sc)
  | ReadInterrupted :: sc => (Err InterruptedError, Source (src_data s) sc)
  | ReadFail c :: sc => (Err (OsError c), Source (src_data s) sc)
  end.

(** Enough iterations for any loop that asks for [n] bytes. *)
Definition read_fuel (n : nat) (s : source) : nat := S (n + length (src_script s)).

(** [Read::read_exact]: retry on interruption, fail on end of file. *)
Fixpoint read_exact_loop (fuel n : nat) (acc : list byte) (s : source)
    : result io_error (list byte) * source :=
  match n, fuel with
  | O, _ => (Ok acc, s)
  | _, O => (Panic, s)
  | _, S fuel =>
      match read n s with
      | (Ok [], s') => (Err UnexpectedEof, s')
      | (Ok bs, s') => read_exact_loop fuel (n - length bs) (acc ++ bs) s'
      | (Err InterruptedError, s') => read_exact_loop fuel n acc s'
      | (Err e, s') => (Err e, s')
      | (Panic, s') => (Panic, s')
      end
  end.

Definition read_exact (n : nat) (s : source) : result io_error (list byte) * source :=
  read_exact_loop (read_fuel n s) n [] s.

(** [Write::write_all]. *)
Class Write (I : Type) := write_all : list byte → I → result io_error unit * I.

#[export] Instance sink_write : Write sink := λ bs w,
  match snk_script w with
  | [] => (Ok tt, Sink (snk_data w ++ bs) [])
  | WriteOk :: sc => (Ok tt, Sink (snk_data w ++ bs) sc)
  | WriteFail k c :: sc => (Err (OsError c), Sink (snk_data w ++ take k bs) sc)
  end.

(** A source whose script only chops the data up. *)
Definition only_chunks (s : source) : bool :=
  forallb (λ st, match st with Chunk _ => true | _ => false end) (src_script s).

(** A source whose [read] never fails other than by interruption. *)
Definition no_failures (s : source) : bool :=
  forallb (λ st, match st with ReadFail _ => false | _ => true end) (src_script s).

(** Every call of the script succeeds. *)
Definition accepts_all (w : sink) : Prop := Forall (λ st, st = WriteOk) (snk_script w).

(** [File::create] on the file at a path, whose script then starts with the
    outcome of the open: it truncates. *)
Definition File_create (f : sink) : result io_error unit * sink :=
  match snk_script f with
  | [] => (Ok tt, Sink [] [])
  | WriteOk :: sc => (Ok tt, Sink [] sc)
  | WriteFail _ c :: sc => (Err (OsError c), Sink (snk_data f) sc)
  end.

(** What a writer owes: [written] is all it has accepted, in order, and a failed
    call accepted a prefix of its bytes. *)
Class WriteLaws (I : Type) `{Write I} := {
  written : I → list byte;
  write_all_law bs w r w' : write_all bs w = (r, w') →
    match r with
    | Ok _ => written w' = written w ++ bs
    | Err _ => ∃ k, written w' = written w ++ take k bs
    | Panic => False
    end;
}.

#[export, program] Instance sink_laws : WriteLaws sink := {| written := snk_data |}.
Next Obligation.
  intros bs w r w' Hx. unfold write_all, sink_write in Hx.
  destruct (snk_script w) as [|[|k c] sc]; injection Hx as <- <-; cbn; eauto.
Qed.

(** ** Lemmas *)

Lemma File_create_ok f r f' :
  File_create f = (Ok r, f') → snk_data f' = [] ∧ (accepts_all f → accepts_all f').
Proof.
  unfold File_create, accepts_all. destruct (snk_script f) as [|[|k c] sc]; intros [= _ <-]; [done|..].
  split; [done|]. by intros [_ ?]%Forall_cons_iff.
Qed.

Lemma read_data_length n s bs s' :
  read n s = (Ok bs, s') →
  src_data s = bs ++ src_data s' ∧ (length bs ≤ n)%nat.
Proof.
  unfold read. destruct (src_script s) as [|[m| |c] sc]; intros [= <- <-]; simpl.
  - rewrite take_drop, length_take. split; [done|lia].
  - rewrite take_drop, length_take. split; [done|lia].
Qed.

Lemma read_nil_eof n s s' :
  (0 < n)%nat → read n s = (Ok [], s') → src_data s = [] ∧ src_data s' = [].
Proof.
  unfold read. intros Hn.
  destruct (src_script s) as [|[m| |c] sc]; intros H; try discriminate H;
    injection H as Ht <-; simpl;
    (destruct (src_data s) as [|b l];
      [by rewrite drop_nil | destruct n; [lia|discriminate Ht]]).
Qed.

Lemma read_script n s r s' :
  read n s = (r, s') → (length (src_script s') ≤ length (src_script s))%nat ∧
  (length (src_script s') < length (src_script s) ∨ src_script s = [])%nat.
Proof.
  unfold read. destruct (src_script s) as [|[m| |c] sc]; intros [= <- <-]; simpl;
    (split; [lia|]); first [by right | left; lia].
Qed.

Lemma read_err_data n s e s' : read n s = (Err e, s') → src_data s' = src_data s.
Proof. unfold read. destruct (src_script s) as [|[m| |c] sc]; intros [= <- <-]; done. Qed.

Lemma read_flags n s r s' :
  read n s = (r, s') →
  (only_chunks s = true → only_chunks s' = true ∧ ∃ bs, r = Ok bs) ∧
  (no_failures s = true → no_failures s' = true ∧
     (r = Err InterruptedError ∨ ∃ bs, r = Ok bs)).
Proof.
  unfold read, only_chunks, no_failures.
  destruct (src_script s) as [|[m| |c] sc]; intros [= <- <-]; simpl;
    split; intros; try discriminate; eauto.
Qed.

Lemma read_no_panic n s : (read n s).1 ≠ Panic.
Proof. unfold read. by destruct (src_script s) as [|[m| |c] sc]. Qed.

(** Each iteration of a reading loop uses up script or delivers bytes. *)
Lemma read_progress n s r s' :
  (0 < n)%nat → read n s = (r, s') →
  match r with
  | Ok [] => True
  | Ok bs => (read_fuel (n - length bs) s' < read_fuel n s)%nat
  | _ => (read_fuel n s' < read_fuel n s)%nat
  end.
Proof.
  intros Hn H. pose proof (read_script _ _ _ _ H) as [Hle Hlt].
  unfold read_fuel. destruct r as [[|b bs]|e|]; [done|..].
  - apply read_data_length in H as [_ Hb]. simpl in *. lia.
  - unfold read in H. destruct (src_script s) as [|[m| |c] sc]; simplify_eq/=; lia.
  - unfold read in H. by destruct (src_script s) as [|[m| |c] sc].
Qed.

(** [read_exact]: with enough fuel it never gets stuck, and on a source that
    may interrupt but not fail it delivers the first [n] bytes or, when there
    are fewer, consumes everything and reports the end of file. *)
Lemma read_exact_loop_spec fuel n acc s :
  (read_fuel n s ≤ fuel)%nat →
  let '(r, s') := read_exact_loop fuel n acc s in
  (length (src_script s') ≤ length (src_script s))%nat ∧
  match r with
  | Ok bs => bs = acc ++ take n (src_data s) ∧ (n ≤ length (src_data s))%nat ∧
             src_data s' = drop n (src_data s)
  | Err UnexpectedEof => (length (src_data s) < n)%nat
  | Err InterruptedError => False
  | Err (OsError _) => no_failures s = false
  | Panic => False
  end ∧
  (only_chunks s = true → only_chunks s' = true) ∧
  (no_failures s = true → no_failures s' = true).
Proof.
  revert n acc s. induction fuel as [|fuel IH]; intros n acc s Hf.
  { unfold read_fuel in Hf. lia. }
  destruct n as [|n]; cbn [read_exact_loop].
  { rewrite take_0, drop_0, app_nil_r. split_and!; try done; lia. }
  destruct (read (S n) s) as [r s1] eqn:Hr.
  pose proof (read_progress (S n) _ _ _ ltac:(lia) Hr) as Hp.
  pose proof (read_flags _ _ _ _ Hr) as [Hoc Hnf].
  pose proof (read_script _ _ _ _ Hr) as [Hsc _].
  destruct r as [[|b bs]|e|].
  - apply read_nil_eof in Hr as [Hd Hd']; [|lia]. rewrite Hd.
    split_and!; try done; try (simpl; lia).
    + intros H. by destruct (Hoc H).
    + intros H. by destruct (Hnf H).
  - apply read_data_length in Hr as [Hd Hb].
    set (k := length (b :: bs)) in *.
    specialize (IH (S n - k)%nat (acc ++ b :: bs) s1 ltac:(lia)).
    destruct (read_exact_loop fuel (S n - k) (acc ++ b :: bs) s1) as [r' s2].
    destruct IH as (Hsc' & Hr' & Hoc' & Hnf').
    assert (Hlen : length (src_data s) = (k + length (src_data s1))%nat).
    { rewrite Hd, length_app. done. }
    split_and!.
    + lia.
    + destruct r' as [bs'|[| |c]|]; try done.
      * destruct Hr' as (-> & Hle & ->). split_and!; [|lia|].
        -- rewrite <- app_assoc. f_equal. rewrite Hd, take_app. f_equal.
           by rewrite take_ge by (fold k; lia).
        -- rewrite Hd, drop_app. rewrite (drop_ge (b :: bs)) by (fold k; lia). done.
      * lia.
      * destruct (no_failures s) eqn:E; [|done]. destruct (Hnf eq_refl). congruence.
    + intros H. apply Hoc'. by destruct (Hoc H).
    + intros H. apply Hnf'. by destruct (Hnf H).
  - pose proof (read_err_data _ _ _ _ Hr) as Hd.
    destruct e as [| |c].
    + unfold read in Hr. by destruct (src_script s) as [|[m| |c] sc].
    + specialize (IH (S n) acc s1 ltac:(lia)).
      destruct (read_exact_loop fuel (S n) acc s1) as [r' s2].
      rewrite Hd in IH. destruct IH as (Hsc' & Hr' & Hoc' & Hnf'). split_and!.
      * lia.
      * destruct r' as [bs'|[| |c]|]; try done.
        destruct (no_failures s) eqn:E; [|done]. destruct (Hnf eq_refl). congruence.
      * intros H. apply Hoc'. by destruct (Hoc H).
      * intros H. apply Hnf'. by destruct (Hnf H).
    + split_and!; try done.
      * destruct (no_failures s) eqn:E; [|done].
        destruct (Hnf eq_refl) as [_ [H|[? H]]]; discriminate H.
      * intros H. by destruct (Hoc H).
      * intros H. by destruct (Hnf H).
  - by pose proof (read_no_panic (S n) s) as H; rewrite Hr in H.
Qed.

Lemma read_exact_spec n s :
  let '(r, s') := read_exact n s in
  (length (src_script s') ≤ length (src_script s))%nat ∧
  match r with
  | Ok bs => bs = take n (src_data s) ∧ (n ≤ length (src_data s))%nat ∧
             src_data s' = drop n (src_data s)
  | Err UnexpectedEof => (length (src_data s) < n)%nat
  | Err InterruptedError => False
  | Err (OsError _) => no_failures s = false
  | Panic => False
  end ∧
  (only_chunks s = true → only_chunks s' = true) ∧
  (no_failures s = true → no_failures s' = true).
Proof. apply (read_exact_loop_spec _ n [] s). done. Qed.

(** On a source that only chops, [read_exact] is [take]/[drop]. *)
Lemma read_exact_chunks n s :
  only_chunks s = true →
  ∃ s', only_chunks s' = true ∧
    ((n ≤ length (src_data s))%nat →
       read_exact n s = (Ok (take n (src_data s)), s') ∧ src_data s' = drop n (src_data s)) ∧
    ((length (src_data s) < n)%nat → read_exact n s = (Err UnexpectedEof, s')).
Proof.
  intros Hc. assert (Hn : no_failures s = true).
  { revert Hc. unfold only_chunks, no_failures. rewrite !forallb_forall.
    intros H x Hx. specialize (H x Hx). by destruct x. }
  pose proof (read_exact_spec n s) as H. destruct (read_exact n s) as [r s'].
  destruct H as (_ & Hr & Hoc & _). exists s'. split; [auto|].
  destruct r as [bs|[| |c]|]; try done; try congruence.
  - destruct Hr as (-> & ? & ?). split; [done|]. intros. lia.
  - split; [intros; lia|done].
Qed.

Lemma read_exact_app pre rest s :
  only_chunks s = true → src_data s = pre ++ rest →
  ∃ s', read_exact (length pre) s = (Ok pre, s') ∧ src_data s' = rest ∧
        only_chunks s' = true.
Proof.
  intros Hc Hd. destruct (read_exact_chunks (length pre) s Hc) as (s' & Hc' & H & _).
  rewrite Hd in H. exists s'. rewrite length_app in H.
  destruct H as [H1 H2]; [lia|]. rewrite take_app_length in H1.
  rewrite drop_app_length in H2. done.
Qed.

#[global] Arguments read_exact : simpl never.
