(* ===== verification/BufOut.v ===== *)
(** * Buffered writing: what the recorders use of [std::io::BufWriter]

    [BufWriter] over a file ([StdIo]): the bytes it has accepted and not handed
    on, and the file.  The recorders write their trace through one and let its
    drop flush it, which ignores errors; so the file is a prefix of what was
    written, and all of it when no write fails. *)

From S2P Require Import Prelude StdIo.

Record bufwriter := BufWriter { bw_buf : list byte; bw_inner : sink }.

(** [BufWriter::new]: 8 KiB. *)
Definition BUF_SIZE : Z := 8 * 1024.
Definition BufWriter_new (w : sink) : bufwriter := BufWriter [] w.

(** [flush_buf]: what the file took of the buffer leaves it, even on error. *)
Definition flush_buf (b : bufwriter) : result io_error unit * bufwriter :=
  match bw_buf b with
  | [] => (Ok tt, b)
  | bs =>
      let '(r, w) := write_all bs (bw_inner b) in
      (r, BufWriter (drop (length (snk_data w) - length (snk_data (bw_inner b))) bs) w)
  end.

(** [write_all]: into the buffer when it has room, after a flush if not, past it
    when the bytes would fill it alone. *)
#[export] Instance bufwriter_write : Write bufwriter := λ bs b,
  let spare := BUF_SIZE - blen (bw_buf b) in
  if blen bs <? spare then (Ok tt, BufWriter (bw_buf b ++ bs) (bw_inner b))
  else
    let '(r, b) := if spare <? blen bs then flush_buf b else (Ok tt, b) in
    match r with
    | Ok _ =>
        if BUF_SIZE <=? blen bs then let '(r, w) := write_all bs (bw_inner b) in (r, BufWriter (bw_buf b) w)
        else (Ok tt, BufWriter (bw_buf b ++ bs) (bw_inner b))
    | r => (r, b)
    end.

(** [Drop]: a flush whose error is ignored. *)
Definition bw_drop (b : bufwriter) : sink := bw_inner (flush_buf b).2.

(** ** Lemmas *)

Definition bw_written (b : bufwriter) : list byte := snk_data (bw_inner b) ++ bw_buf b.

Lemma write_all_taken bs (w : sink) r w' :
  write_all bs w = (r, w') →
  (∃ k, snk_data w' = snk_data w ++ take k bs ∧
     drop (length (snk_data w') - length (snk_data w)) bs = drop k bs ∧ (r = Ok tt → drop k bs = [])) ∧
  (accepts_all w → r = Ok tt ∧ accepts_all w') ∧ r ≠ Panic.
Proof.
  unfold write_all, sink_write, accepts_all.
  destruct (snk_script w) as [|[|k c] sc]; intros [= <- <-]; cbn [snk_data snk_script].
  - split; [|done]. exists (length bs). rewrite take_ge, length_app, drop_ge, drop_ge by lia. done.
  - split; [|split; [|done]].
    + exists (length bs). rewrite take_ge, length_app, drop_ge, drop_ge by lia. done.
    + intros Ha. apply Forall_cons_iff in Ha as [_ Ha]. done.
  - split; [|split; [|done]].
    + exists k. split; [done|]. split; [|done]. rewrite length_app, length_take.
      replace (length (snk_data w) + Nat.min k (length bs) - length (snk_data w))%nat with (Nat.min k (length bs)) by lia.
      destruct (Nat.min_spec k (length bs)) as [[? ->]|[? ->]]; [done|]. by rewrite !drop_ge by lia.
    + intros Ha. by apply Forall_cons_iff in Ha as [? _].
Qed.

Lemma flush_buf_spec b r b' :
  flush_buf b = (r, b') →
  bw_written b' = bw_written b ∧ (r = Ok tt → bw_buf b' = []) ∧ r ≠ Panic ∧
  (accepts_all (bw_inner b) → r = Ok tt ∧ accepts_all (bw_inner b')).
Proof.
  unfold flush_buf, bw_written. destruct (bw_buf b) as [|x bs] eqn:Hb.
  { intros [= <- <-]. by rewrite Hb. }
  destruct (write_all (x :: bs) (bw_inner b)) as [r1 w] eqn:Hw.
  apply write_all_taken in Hw as ((k & Hd & Ht & Hok) & Ha & Hp). intros [= <- <-].
  cbn [bw_inner bw_buf]. rewrite Ht. split; [|done]. by rewrite Hd, <- app_assoc, take_drop.
Qed.

#[export, program] Instance bufwriter_laws : WriteLaws bufwriter := {| written := bw_written |}.
Next Obligation.
  intros bs b r b' Hx. unfold write_all, bufwriter_write in Hx. unfold BUF_SIZE in Hx.
  destruct (Z.ltb_spec (blen bs) (8 * 1024 - blen (bw_buf b))) as [Hr|Hr].
  { injection Hx as <- <-. unfold bw_written. cbn. by rewrite app_assoc. }
  destruct (if 8 * 1024 - blen (bw_buf b) <? blen bs then flush_buf b else (Ok tt, b)) as [r1 b1] eqn:Hf.
  assert (H1 : bw_written b1 = bw_written b ∧ r1 ≠ Panic ∧ (r1 = Ok tt → 8 * 1024 <= blen bs → bw_buf b1 = [])).
  { destruct (Z.ltb_spec (8 * 1024 - blen (bw_buf b)) (blen bs)).
    - apply flush_buf_spec in Hf as (? & ? & ? & _). auto.
    - injection Hf as <- <-. split; [done|]. split; [done|]. intros _ Hbs. destruct (bw_buf b); [done|].
      rewrite blen_cons in Hr. pose proof (blen_nonneg l). rewrite blen_cons in *. lia. }
  destruct H1 as (Hw & Hp & He). destruct r1 as [[]|e|]; [|injection Hx as <- <-; exists 0%nat; by rewrite app_nil_r|done].
  destruct (Z.leb_spec (8 * 1024) (blen bs)) as [Hb|Hb].
  - destruct (write_all bs (bw_inner b1)) as [r2 w] eqn:Hi. injection Hx as <- <-.
    apply write_all_law in Hi. rewrite <- Hw. unfold bw_written. cbn. rewrite (He eq_refl Hb), !app_nil_r in *.
    destruct r2; done.
  - injection Hx as <- <-. rewrite <- Hw. unfold bw_written. cbn. by rewrite app_assoc.
Qed.

(** The dropped file holds a prefix of what was written. *)
Lemma bw_drop_prefix b : ∃ n, snk_data (bw_drop b) = take n (bw_written b).
Proof.
  unfold bw_drop. destruct (flush_buf b) as [r b'] eqn:Hf. apply flush_buf_spec in Hf as (<- & _).
  exists (length (snk_data (bw_inner b'))). unfold bw_written. cbn. by rewrite take_app_length.
Qed.

Lemma bw_drop_whole b : accepts_all (bw_inner b) → snk_data (bw_drop b) = bw_written b.
Proof.
  intros Ha. unfold bw_drop. destruct (flush_buf b) as [r b'] eqn:Hf. apply flush_buf_spec in Hf as (<- & Hb & _ & H).
  destruct (H Ha) as [-> _]. unfold bw_written. cbn. by rewrite Hb, app_nil_r.
Qed.

(** A file that accepts everything goes on doing so. *)
Lemma bw_accepts bs b r b' :
  write_all bs b = (r, b') → accepts_all (bw_inner b) → accepts_all (bw_inner b').
Proof.
  unfold write_all at 1, bufwriter_write. intros Hx Ha. destruct (_ <? _) in Hx; [by injection Hx as <- <-|].
  destruct (if BUF_SIZE - blen (bw_buf b) <? blen bs then flush_buf b else (Ok tt, b)) as [r1 b1] eqn:Hf.
  assert (H1 : accepts_all (bw_inner b1)).
  { destruct (_ <? _) in Hf; [|by injection Hf as <- <-]. apply flush_buf_spec in Hf as (_ & _ & _ & H). by apply H. }
  destruct r1 as [[]|e|]; [|by injection Hx as <- <-..]. destruct (_ <=? _) in Hx; [|by injection Hx as <- <-].
  destruct (write_all bs (bw_inner b1)) as [r2 w] eqn:Hi. injection Hx as <- <-.
  apply write_all_taken in Hi as (_ & H & _). by apply H.
Qed.
