(* ===== verification/Text.v ===== *)
(** * Text: what the decoder, the DAP server and the parsers use of [str]

    A Rust [&str] is a list of bytes (valid UTF-8 where the source has a
    [String]).  This file has the literals, decimal and hexadecimal printing,
    [str::parse] on unsigned integers, and the searches and splits of [str]
    that the sources call, with the round trip of printing and parsing. *)

From S2P Require Import Prelude.
From Stdlib Require Strings.String.
Export String.StringSyntax.

Delimit Scope string_scope with string.

(** Strings are keys of the [HashMap]s of the sources. *)
#[export] Instance byte_countable : Countable byte.
Proof. apply (inj_countable Byte.to_N Byte.of_N). intros b. apply Byte.of_to_N. Defined.

(** ** Literals *)

Definition str (s : String.string) : list byte := String.list_byte_of_string s.
Arguments str s%_string.

(** ** Searching and splitting *)

(** [str::strip_prefix] and [str::starts_with]. *)
Fixpoint strip_prefix (p s : list byte) : option (list byte) :=
  match p, s with
  | [], _ => Some s
  | _ :: _, [] => None
  | a :: p, b :: s => if bool_decide (a = b) then strip_prefix p s else None
  end.

Definition starts_with (p s : list byte) : bool :=
  match strip_prefix p s with Some _ => true | None => false end.

(** [str::find] of a substring: the offset of its first occurrence. *)
Fixpoint find_sub (needle s : list byte) : option nat :=
  if starts_with needle s then Some 0%nat
  else match s with
       | [] => None
       | _ :: s => S <$> find_sub needle s
       end.

(** [str::contains]. *)
Definition contains (needle s : list byte) : bool :=
  match find_sub needle s with Some _ => true | None => false end.

(** [str::split_once]: around the first occurrence. *)
Definition split_once (sep s : list byte) : option (list byte * list byte) :=
  match find_sub sep s with
  | Some i => Some (take i s, drop (i + length sep) s)
  | None => None
  end.

(** [s.split(sep).next()]: what precedes the first separator. *)
Definition before_first (sep s : list byte) : list byte :=
  match split_once sep s with Some (a, _) => a | None => s end.

(** [s.rsplit(sep).next()]: what follows the last separator. *)
Fixpoint after_last_loop (fuel : nat) (sep s : list byte) : list byte :=
  match fuel with
  | O => s
  | S fuel =>
      match s with
      | [] => s
      | _ :: rest =>
          if contains sep rest then after_last_loop fuel sep rest
          else match split_once sep s with Some (_, b) => b | None => s end
      end
  end.

Definition after_last (sep s : list byte) : list byte := after_last_loop (length s) sep s.

(** [s.split(char)]. *)
Fixpoint split_on (f : byte → bool) (s : list byte) : list (list byte) :=
  match s with
  | [] => [[]]
  | b :: s =>
      if f b then [] :: split_on f s
      else match split_on f s with
           | p :: ps => (b :: p) :: ps
           | [] => [[b]]
           end
  end.

(** [chars().take_while(..)] on an ASCII predicate, and its complement. *)
Fixpoint take_while (f : byte → bool) (s : list byte) : list byte :=
  match s with
  | [] => []
  | b :: s => if f b then b :: take_while f s else []
  end.

Fixpoint drop_while (f : byte → bool) (s : list byte) : list byte :=
  match s with
  | [] => []
  | b :: s' => if f b then drop_while f s' else s
  end.

Definition byte_is (a b : byte) : bool := bool_decide (a = b).

(** [str::trim_start], [trim_end] and [trim]: the characters with the Unicode
    property [White_Space], in UTF-8. *)
Definition space1 (a : byte) : bool := byte_in 0x09 0x0d a || byte_is x20 a.
Definition space2 (a b : byte) : bool := byte_is xc2 a && (byte_is x85 b || byte_is xa0 b).
Definition space3 (a b c : byte) : bool :=
  (byte_is xe1 a && byte_is x9a b && byte_is x80 c)
  || (byte_is xe2 a && byte_is x80 b
      && (byte_in 0x80 0x8a c || byte_is xa8 c || byte_is xa9 c || byte_is xaf c))
  || (byte_is xe2 a && byte_is x81 b && byte_is x9f c)
  || (byte_is xe3 a && byte_is x80 b && byte_is x80 c).

Fixpoint trim_by (p1 : byte → bool) (p2 : byte → byte → bool) (p3 : byte → byte → byte → bool)
    (s : list byte) : list byte :=
  match s with
  | a :: sa =>
      if p1 a then trim_by p1 p2 p3 sa
      else match sa with
           | b :: sb =>
               if p2 a b then trim_by p1 p2 p3 sb
               else match sb with
                    | c :: sc => if p3 a b c then trim_by p1 p2 p3 sc else s
                    | [] => s
                    end
           | [] => s
           end
  | [] => []
  end.

Definition trim_start (s : list byte) : list byte := trim_by space1 space2 space3 s.
Definition trim_end (s : list byte) : list byte :=
  rev (trim_by space1 (λ a b, space2 b a) (λ a b c, space3 c b a) (rev s)).
Definition trim (s : list byte) : list byte := trim_end (trim_start s).

(** ** Numbers *)

Definition is_ascii_digit (b : byte) : bool := byte_in 0x30 0x39 b.

(** [char::to_digit]. *)
Definition digit_value (radix : Z) (b : byte) : option Z :=
  let c := Z_of_byte b in
  let d := if (0x30 <=? c) && (c <=? 0x39) then c - 0x30
           else if (0x61 <=? c) && (c <=? 0x7a) then c - 0x61 + 10
           else if (0x41 <=? c) && (c <=? 0x5a) then c - 0x41 + 10
           else radix in
  if d <? radix then Some d else None.

(** The digit of a value below 16, in lower case. *)
Definition digit (d : Z) : byte :=
  byte_of_Z (if d <? 10 then 0x30 + d else 0x61 + (d - 10)).

(** Printing: [{}] and [{:x}] of an unsigned integer. *)
Fixpoint digits_loop (fuel : nat) (radix n : Z) (acc : list byte) : list byte :=
  match fuel with
  | O => acc
  | S fuel =>
      let acc := digit (n mod radix) :: acc in
      if n / radix =? 0 then acc else digits_loop fuel radix (n / radix) acc
  end.

Definition digits (radix n : Z) : list byte :=
  digits_loop (S (Z.to_nat (Z.log2 n))) radix n [].

Definition dec (n : Z) : list byte := digits 10 n.
Definition hex (n : Z) : list byte := digits 16 n.

(** [{}] of a signed integer. *)
Definition dec_i (n : Z) : list byte := if n <? 0 then str "-" ++ dec (- n) else dec n.

(** [uN::from_str_radix]: an optional [+], at least one digit, no overflow. *)
Fixpoint parse_digits (w radix : Z) (s : list byte) (acc : Z) : option Z :=
  match s with
  | [] => Some acc
  | b :: s =>
      d ← digit_value radix b;
      let acc := acc * radix + d in
      if acc <? 2 ^ w then parse_digits w radix s acc else None
  end.

Definition from_str_radix (w radix : Z) (s : list byte) : option Z :=
  match s with
  | [] => None
  | b :: rest =>
      if byte_is x2b b
      then match rest with [] => None | _ => parse_digits w radix rest 0 end
      else parse_digits w radix s 0
  end.

(** [s.parse::<uN>()]. *)
Definition parse_u (w : Z) (s : list byte) : option Z := from_str_radix w 10 s.

(** ** Lemmas: prefixes and searches *)

Lemma strip_prefix_Some p s r : strip_prefix p s = Some r ↔ s = p ++ r.
Proof.
  revert s. induction p as [|a p IH]; intros s; cbn.
  - split; [by intros [= ->]|by intros ->].
  - destruct s as [|b s]; cbn; [done|]. case_bool_decide as Hab.
    + rewrite IH. subst. split; [by intros ->|by intros [= ->]].
    + split; [done|]. intros [= -> ->]. done.
Qed.

Lemma starts_with_spec p s : starts_with p s = true ↔ ∃ r, s = p ++ r.
Proof.
  unfold starts_with. destruct (strip_prefix p s) as [r|] eqn:E.
  - apply strip_prefix_Some in E. split; eauto.
  - split; [done|]. intros [r Hr]. apply strip_prefix_Some in Hr. congruence.
Qed.

Lemma find_sub_Some needle s i :
  find_sub needle s = Some i → s = take i s ++ needle ++ drop (i + length needle) s.
Proof.
  assert (Hhere : ∀ t, starts_with needle t = true → t = needle ++ drop (length needle) t).
  { intros t [r ->]%starts_with_spec. by rewrite drop_app_length. }
  revert i. induction s as [|b s IH]; intros i; cbn [find_sub].
  - destruct (starts_with needle []) eqn:E; [|done]. intros [= <-]. cbn. by apply Hhere.
  - destruct (starts_with needle (b :: s)) eqn:E.
    + intros [= <-]. cbn [take app Nat.add]. by apply Hhere.
    + intros H. destruct (find_sub needle s) as [j|] eqn:Ej; [|done]. injection H as <-.
      cbn [take app Nat.add drop]. f_equal. by apply IH.
Qed.

Lemma contains_spec needle s : contains needle s = true ↔ ∃ a b, s = a ++ needle ++ b.
Proof.
  unfold contains. split.
  - destruct (find_sub needle s) as [i|] eqn:E; [|done]. intros _. apply find_sub_Some in E. eauto.
  - intros (a & b & ->). revert needle b. induction a as [|x a IH]; intros needle b.
    + cbn [app]. destruct needle as [|n needle].
      * by destruct b.
      * cbn [find_sub app]. assert (Hs : starts_with (n :: needle) (n :: needle ++ b) = true).
        { apply starts_with_spec. by exists b. } by rewrite Hs.
    + cbn [app find_sub]. destruct (starts_with _ _); [done|]. specialize (IH needle b).
      by destruct (find_sub needle (a ++ needle ++ b)).
Qed.

(** ** Lemmas: printing and parsing *)

Lemma digit_value_digit radix d :
  radix ≤ 16 → 0 ≤ d < radix → digit_value radix (digit d) = Some d.
Proof.
  intros Hr Hd. unfold digit_value, digit. rewrite Z_of_byte_of_Z.
  destruct (Z.ltb_spec d 10).
  - rewrite Z.mod_small by lia.
    rewrite !(proj2 (Z.leb_le _ _)) by lia. cbn [andb].
    replace (0x30 + d - 0x30) with d by lia. by rewrite (proj2 (Z.ltb_lt d radix)) by lia.
  - rewrite Z.mod_small by lia.
    rewrite (proj2 (Z.leb_gt _ 0x39)), andb_false_r by lia.
    rewrite !(proj2 (Z.leb_le _ _)) by lia. cbn [andb].
    replace (0x61 + (d - 10) - 0x61 + 10) with d by lia. by rewrite (proj2 (Z.ltb_lt d radix)) by lia.
Qed.

(** Reading back what the loop prints, most significant digit first. *)
Lemma parse_digits_loop w radix fuel n acc :
  2 ≤ radix ≤ 16 → 0 ≤ n < 2 ^ w → n < 2 ^ Z.of_nat fuel → (0 < fuel)%nat →
  parse_digits w radix (digits_loop fuel radix n acc) 0 = parse_digits w radix acc n.
Proof.
  intros Hr. revert n acc. induction fuel as [|fuel IH]; intros n acc Hn Hf Hpos; [lia|].
  cbn [digits_loop]. pose proof (Z.mod_pos_bound n radix ltac:(lia)).
  pose proof (Z.div_mod n radix ltac:(lia)) as Hdm.
  assert (Hstep : ∀ q, 0 ≤ q → q = n / radix →
    parse_digits w radix (digit (n mod radix) :: acc) q = parse_digits w radix acc n).
  { intros q Hq ->. cbn [parse_digits]. rewrite digit_value_digit by lia. cbn [mbind option_bind].
    replace (n / radix * radix + n mod radix) with n by lia.
    by rewrite (proj2 (Z.ltb_lt _ _)) by lia. }
  assert (0 ≤ n / radix) by (apply Z.div_pos; lia).
  destruct (Z.eqb_spec (n / radix) 0) as [Hz|Hz]; [by apply Hstep|].
  rewrite Nat2Z.inj_succ, Z.pow_succ_r in Hf by lia.
  assert (n / radix ≤ n / 2) by (apply Z.div_le_compat_l; lia).
  assert (n / 2 < 2 ^ Z.of_nat fuel) by (apply Z.div_lt_upper_bound; lia).
  rewrite IH; [by apply Hstep| |lia|].
  - split; [lia|]. assert (n / 2 ≤ n) by (apply Z.div_le_upper_bound; lia). lia.
  - destruct fuel; [|lia]. cbn in *. lia.
Qed.

Lemma digits_loop_digits fuel radix n acc :
  2 ≤ radix ≤ 16 → Forall (λ b, is_Some (digit_value radix b)) acc →
  Forall (λ b, is_Some (digit_value radix b)) (digits_loop fuel radix n acc).
Proof.
  intros Hr. revert n acc. induction fuel as [|fuel IH]; intros n acc Hacc; cbn [digits_loop]; [done|].
  assert (Hc : Forall (λ b, is_Some (digit_value radix b)) (digit (n mod radix) :: acc)).
  { constructor; [|done]. rewrite digit_value_digit; eauto; [lia|].
    apply Z.mod_pos_bound. lia. }
  destruct (n / radix =? 0); [done|]. by apply IH.
Qed.

Lemma digits_loop_length fuel radix n acc :
  (0 < fuel)%nat → (length acc < length (digits_loop fuel radix n acc))%nat.
Proof.
  revert n acc. induction fuel as [|fuel IH]; intros n acc Hf; [lia|]. cbn [digits_loop].
  destruct (n / radix =? 0); [cbn; lia|]. destruct fuel as [|fuel]; [cbn; lia|].
  specialize (IH (n / radix) (digit (n mod radix) :: acc) ltac:(lia)). cbn [length] in IH. lia.
Qed.

Lemma digits_digits radix n :
  2 ≤ radix ≤ 16 → Forall (λ b, is_Some (digit_value radix b)) (digits radix n).
Proof. intros. by apply digits_loop_digits. Qed.

Lemma digits_nonempty radix n : digits radix n ≠ [].
Proof.
  intros H. pose proof (digits_loop_length (S (Z.to_nat (Z.log2 n))) radix n [] ltac:(lia)).
  unfold digits in H. rewrite H in *. cbn in *. lia.
Qed.

Lemma digits_fuel_enough n : 0 ≤ n → n < 2 ^ Z.of_nat (S (Z.to_nat (Z.log2 n))).
Proof.
  intros Hn. rewrite Nat2Z.inj_succ, Z2Nat.id by apply Z.log2_nonneg.
  destruct (Z.eq_dec n 0) as [->|]; [done|]. apply Z.log2_spec. lia.
Qed.

(** [str::parse] and [from_str_radix] undo [{}] and [{:x}]. *)
Lemma from_str_radix_digits w radix n :
  2 ≤ radix ≤ 16 → in_u w n → from_str_radix w radix (digits radix n) = Some n.
Proof.
  intros Hr [Hn0 Hn]. pose proof (digits_nonempty radix n) as Hne.
  pose proof (digits_digits radix n Hr) as Hd.
  assert (Hp : parse_digits w radix (digits radix n) 0 = Some n).
  { unfold digits. rewrite parse_digits_loop; [done|lia|lia| |lia]. by apply digits_fuel_enough. }
  destruct (digits radix n) as [|b rest]; [done|]. cbn [from_str_radix].
  unfold byte_is. case_bool_decide as Hb; [|done]. subst b.
  apply Forall_cons_1 in Hd as [[d Hd] _].
  assert (Hx : digit_value radix x2b = None).
  { unfold digit_value. change (Z_of_byte x2b) with 43. cbn [Z.leb Z.compare Pos.compare Pos.compare_cont andb].
    by rewrite Z.ltb_irrefl. }
  congruence.
Qed.

Lemma parse_u_dec w n : in_u w n → parse_u w (dec n) = Some n.
Proof. intros. by apply from_str_radix_digits. Qed.
