(* ===== verification/Maps.v ===== *)
(** * Where modules are loaded: [unwind/src/maps.rs], [elf.rs], and
    [executable_base] of [decoder/src/ptrace_view.rs]

    The lines of [/proc/<pid>/maps], the modules read from them, and the load
    bias derived from a module's loadable segments (which the [object] crate
    lists). *)

From S2P Require Import Prelude.
From S2P Require Import Text.

(** ** Lines and words *)

(** [str::lines]: a final newline ends no further line, a carriage return before
    one is dropped. *)
Definition strip_cr (l : list byte) : list byte :=
  match last l with Some b => if byte_is x0d b then removelast l else l | None => l end.

Fixpoint lines_loop (s cur : list byte) : list (list byte) :=
  match s with
  | [] => match cur with [] => [] | _ => [cur] end
  | b :: s => if byte_is x0a b then strip_cr cur :: lines_loop s [] else lines_loop s (cur ++ [b])
  end.
Definition lines (s : list byte) : list (list byte) := lines_loop s [].

(** [str::split_whitespace]. *)
Definition flush (word : list byte) (words : list (list byte)) : list (list byte) :=
  match word with [] => words | _ => word :: words end.

Fixpoint words_loop (s word : list byte) : list (list byte) :=
  match s with
  | [] => flush word []
  | a :: sa =>
      if space1 a then flush word (words_loop sa [])
      else match sa with
           | b :: sb =>
               if space2 a b then flush word (words_loop sb [])
               else match sb with
                    | c :: sc =>
                        if space3 a b c then flush word (words_loop sc [])
                        else words_loop sa (word ++ [a])
                    | [] => words_loop sa (word ++ [a])
                    end
           | [] => words_loop sa (word ++ [a])
           end
  end.
Definition split_whitespace (s : list byte) : list (list byte) := words_loop s [].

(** [join]. *)
Definition join (sep : list byte) (l : list (list byte)) : list byte :=
  match l with [] => [] | x :: l => x ++ (l ≫= λ y, sep ++ y) end.

(** ** [maps.rs] *)

Record ModuleMapping := MkModuleMapping { mm_path : list byte; mm_base : Z }.

Definition parse_line (line : list byte) : option (list byte * Z) :=
  match split_whitespace line with
  | addr_range :: _ :: offset :: _ :: _ :: rest =>
      let path := join (str " ") rest in
      if negb (starts_with (str "/") path) then None
      else
        offset ← from_str_radix 64 16 offset;
        if negb (offset =? 0) then None
        else
          start ← from_str_radix 64 16 (before_first (str "-") addr_range);
          Some (path, start)
  | _ => None
  end.

(** One line's effect on the list: the first entry of the path keeps the lower
    base, a new path goes last. *)
Fixpoint add_module (path : list byte) (base : Z) (modules : list ModuleMapping) : list ModuleMapping :=
  match modules with
  | [] => [MkModuleMapping path base]
  | m :: modules =>
      if bool_decide (mm_path m = path)
      then MkModuleMapping (mm_path m) (Z.min (mm_base m) base) :: modules
      else m :: add_module path base modules
  end.

Definition parse_maps (content : list byte) : list ModuleMapping :=
  foldl (λ modules line,
    match parse_line line with Some (path, base) => add_module path base modules | None => modules end)
    [] (lines content).

(** ** [ptrace_view.rs] *)

Definition ends_with (suffix s : list byte) : bool := starts_with (rev suffix) (rev s).

(** [executable_base], on what [/proc/<pid>/exe] points to and [maps] holds. *)
Definition minimum (l : list Z) : option Z :=
  match l with [] => None | x :: l => Some (foldl Z.min x l) end.

Definition executable_base (exe maps : list byte) : option Z :=
  minimum (omap (λ line, from_str_radix 64 16 (before_first (str "-") line))
             (filter (λ line, ends_with exe line = true) (lines maps))).

(** ** [elf.rs] *)

Inductive elf_error := NoLoadableSegments.

(** The least address and the greatest end of the segments, given as address
    and size; an end past the address space panics. *)
Fixpoint segment_extent (segments : list (Z * Z)) (lo hi : Z) : result elf_error (Z * Z) :=
  match segments with
  | [] => Ok (lo, hi)
  | (start, size) :: segments =>
      e ← expect (checked_add 64 start size);
      segment_extent segments (Z.min lo start) (Z.max hi e)
  end.

(** [bounds]: the bias wraps, the range is computed with checked additions. *)
Definition bounds (segments : list (Z * Z)) (mapping_base : Z) : result elf_error (Z * (Z * Z)) :=
  '(min_vaddr, max_vaddr_end) ← segment_extent segments (2 ^ 64 - 1) 0;
  if min_vaddr =? 2 ^ 64 - 1 then Err NoLoadableSegments
  else
    let base_avma := (mapping_base - min_vaddr) mod 2 ^ 64 in
    lo ← expect (checked_add 64 base_avma min_vaddr);
    hi ← expect (checked_add 64 base_avma max_vaddr_end);
    Ok (base_avma, (lo, hi)).

(** ** What the kernel writes

    The lines of [/proc/<pid>/maps]: addresses and offset in hexadecimal, at
    least eight digits, and after some blanks the path, here of visible ASCII
    words between single spaces (no words for an anonymous mapping, a bracketed
    one for a pseudo mapping). *)
Record map_entry := MkMapEntry {
  me_start : Z;
  me_end : Z;
  me_perms : list byte;
  me_offset : Z;
  me_dev : list byte;
  me_inode : list byte;
  me_blanks : nat;
  me_words : list (list byte)
}.

Definition hex8 (n : Z) : list byte := replicate (8 - length (hex n)) x30 ++ hex n.

Definition entry_path (e : map_entry) : list byte := join (str " ") (me_words e).

Definition entry_line (e : map_entry) : list byte :=
  hex8 (me_start e) ++ str "-" ++ hex8 (me_end e) ++ x20 :: me_perms e ++ x20 :: hex8 (me_offset e) ++
  x20 :: me_dev e ++ x20 :: me_inode e ++ x20 :: replicate (me_blanks e) x20 ++ entry_path e.

Definition maps_text (es : list map_entry) : list byte := es ≫= λ e, entry_line e ++ [x0a].

Definition visible (b : byte) : bool := byte_in 0x21 0x7e b.
Definition word_wf (w : list byte) : Prop := w ≠ [] ∧ Forall (λ b, visible b = true) w.

Record entry_wf (e : map_entry) : Prop := {
  we_start : in_u 64 (me_start e);
  we_end : in_u 64 (me_end e);
  we_offset : in_u 64 (me_offset e);
  we_perms : word_wf (me_perms e);
  we_dev : word_wf (me_dev e);
  we_inode : word_wf (me_inode e);
  we_words : Forall word_wf (me_words e)
}.

(** The mapping that holds a file's ELF header. *)
Definition maps_header (e : map_entry) (p : list byte) : Prop :=
  me_offset e = 0 ∧ entry_path e = p ∧ starts_with (str "/") p = true.
#[export] Instance maps_header_dec e p : Decision (maps_header e p).
Proof. unfold maps_header. apply _. Defined.

(** ** Lemmas: words *)

Lemma visible_plain b :
  visible b = true → space1 b = false ∧ (∀ c, space2 b c = false) ∧ (∀ c d, space3 b c d = false) ∧
  b ≠ x0a ∧ b ≠ x0d ∧ b ≠ x20.
Proof. intros H. destruct b; try (vm_compute in H; discriminate H); repeat split; done. Qed.

Lemma words_loop_word w acc s :
  Forall (λ b, visible b = true) w → words_loop (w ++ x20 :: s) acc = flush (acc ++ w) (words_loop s []).
Proof.
  intros Hw. revert acc. induction Hw as [|a w Ha Hw IH]; intros acc.
  { rewrite app_nil_r. cbn. done. }
  apply visible_plain in Ha as (H1 & H2 & H3 & _).
  replace (acc ++ a :: w) with ((acc ++ [a]) ++ w) by (by rewrite <- app_assoc).
  rewrite <- IH. cbn [app words_loop]. rewrite H1.
  destruct (w ++ x20 :: s) as [|b r] eqn:E; [by destruct w|]. rewrite H2.
  destruct r as [|c r]; [done|]. by rewrite H3.
Qed.

Lemma words_loop_last w acc :
  Forall (λ b, visible b = true) w → words_loop w acc = flush (acc ++ w) [].
Proof.
  intros Hw. revert acc. induction Hw as [|a w Ha Hw IH]; intros acc; [by rewrite app_nil_r|].
  apply visible_plain in Ha as (H1 & H2 & H3 & _).
  replace (acc ++ a :: w) with ((acc ++ [a]) ++ w) by (by rewrite <- app_assoc).
  rewrite <- IH. cbn [words_loop]. rewrite H1. destruct w as [|b r]; [done|]. rewrite H2.
  destruct r as [|c r]; [done|]. by rewrite H3.
Qed.

Lemma words_loop_blanks n s : words_loop (replicate n x20 ++ s) [] = words_loop s [].
Proof. induction n as [|n IH]; [done|]. cbn. exact IH. Qed.

Lemma split_word w s :
  word_wf w → split_whitespace (w ++ x20 :: s) = w :: split_whitespace s.
Proof. intros [Hn Hw]. unfold split_whitespace. rewrite words_loop_word by done. by destruct w. Qed.

Lemma split_joined ws : Forall word_wf ws → split_whitespace (join (str " ") ws) = ws.
Proof.
  induction 1 as [|w ws [Hn Hw] Hws IH]; [done|]. destruct ws as [|v ws]; cbn [join].
  - cbn. rewrite app_nil_r. unfold split_whitespace. rewrite words_loop_last by done. by destruct w.
  - cbn [mbind list_bind]. change (str " " ++ v) with (x20 :: v). cbn [app].
    rewrite split_word by done. f_equal. exact IH.
Qed.

(** ** Lemmas: numbers and separators *)

Lemma hex_visible n : Forall (λ b, visible b = true) (hex n).
Proof.
  eapply Forall_impl; [apply (digits_digits 16 n); lia|]. intros b [z Hz].
  destruct b; try (vm_compute in Hz; discriminate Hz); reflexivity.
Qed.

Lemma hex8_wf n : word_wf (hex8 n).
Proof.
  unfold hex8. split.
  - destruct (8 - length (hex n))%nat; [|done]. cbn. apply digits_nonempty.
  - apply Forall_app. split; [by apply Forall_replicate|apply hex_visible].
Qed.

Lemma parse_digits_zeros w n s : 0 < w → parse_digits w 16 (replicate n x30 ++ s) 0 = parse_digits w 16 s 0.
Proof.
  intros Hw. induction n as [|n IH]; [done|]. cbn [replicate app parse_digits].
  change (digit_value 16 x30) with (Some 0). cbn [mbind option_bind]. change (0 * 16 + 0) with 0.
  rewrite (proj2 (Z.ltb_lt _ _)) by (apply Z.pow_pos_nonneg; lia). exact IH.
Qed.

Lemma from_str_radix_parse w s : s ≠ [] → Forall (λ b, is_Some (digit_value 16 b)) s →
  from_str_radix w 16 s = parse_digits w 16 s 0.
Proof.
  destruct s as [|b s]; [done|]. intros _ [[z Hz] _]%Forall_cons_1. cbn [from_str_radix].
  unfold byte_is. case_bool_decide as Hb; [subst; by vm_compute in Hz|done].
Qed.

Lemma from_str_radix_hex8 n : in_u 64 n → from_str_radix 64 16 (hex8 n) = Some n.
Proof.
  intros Hn. pose proof (digits_digits 16 n ltac:(lia)) as Hd. fold (hex n) in Hd.
  rewrite from_str_radix_parse; [|apply hex8_wf|].
  - unfold hex8. rewrite parse_digits_zeros by lia.
    rewrite <- from_str_radix_parse; [by apply from_str_radix_digits|apply digits_nonempty|done].
  - apply Forall_app. split; [apply Forall_replicate; by exists 0|done].
Qed.

Lemma find_sub_byte c a r : Forall (λ b, b ≠ c) a → find_sub [c] (a ++ c :: r) = Some (length a).
Proof.
  induction 1 as [|b a Hb _ IH]; cbn [find_sub app].
  - unfold starts_with. cbn. by rewrite bool_decide_true.
  - unfold starts_with. cbn [strip_prefix]. rewrite bool_decide_false by done. by rewrite IH.
Qed.

Lemma hex8_before n s : before_first (str "-") (hex8 n ++ str "-" ++ s) = hex8 n.
Proof.
  unfold before_first, split_once. change (str "-" ++ s) with (x2d :: s). change (str "-") with [x2d].
  rewrite find_sub_byte; [by rewrite take_app_length|].
  apply Forall_app. split; [by apply Forall_replicate|].
  eapply Forall_impl; [apply (digits_digits 16 n); lia|]. intros b [z Hz] ->. by vm_compute in Hz.
Qed.

(** ** Lemmas: one line *)

Lemma split_entry e :
  entry_wf e →
  split_whitespace (entry_line e) =
    (hex8 (me_start e) ++ str "-" ++ hex8 (me_end e)) :: me_perms e :: hex8 (me_offset e) :: me_dev e
    :: me_inode e :: me_words e.
Proof.
  intros [Hs He Ho Hp Hd Hi Hw].
  assert (Hline : entry_line e = (hex8 (me_start e) ++ str "-" ++ hex8 (me_end e)) ++ x20 ::
    (me_perms e ++ x20 :: hex8 (me_offset e) ++ x20 :: me_dev e ++ x20 :: me_inode e ++ x20 ::
     replicate (me_blanks e) x20 ++ entry_path e)) by (unfold entry_line; by rewrite <- !app_assoc).
  assert (Hr : word_wf (hex8 (me_start e) ++ str "-" ++ hex8 (me_end e))).
  { destruct (hex8_wf (me_start e)) as [H1 H2], (hex8_wf (me_end e)) as [H3 H4]. split.
    - by destruct (hex8 (me_start e)).
    - apply Forall_app. split; [done|]. apply Forall_app. split; [by repeat constructor|done]. }
  rewrite Hline, !split_word by (done || apply hex8_wf). do 5 f_equal.
  unfold split_whitespace. rewrite words_loop_blanks. by apply split_joined.
Qed.

Lemma parse_entry e :
  entry_wf e →
  parse_line (entry_line e) =
    if bool_decide (me_offset e = 0) && starts_with (str "/") (entry_path e)
    then Some (entry_path e, me_start e) else None.
Proof.
  intros Hwf. unfold parse_line. rewrite (split_entry e Hwf). destruct Hwf as [Hs He Ho _ _ _ _].
  fold (entry_path e). rewrite andb_comm. destruct (starts_with (str "/") (entry_path e)); [|done]. cbn [negb andb].
  rewrite from_str_radix_hex8 by done. cbn [mbind option_bind].
  case_bool_decide as Hz; [rewrite Hz|].
  - cbn [Z.eqb negb]. rewrite hex8_before, from_str_radix_hex8 by done. done.
  - by rewrite (proj2 (Z.eqb_neq _ _)).
Qed.

Lemma entry_line_plain e : entry_wf e → Forall (λ b, b ≠ x0a ∧ b ≠ x0d) (entry_line e).
Proof.
  intros [Hs He Ho Hp Hd Hi Hw].
  assert (Hv : ∀ w, Forall (λ b, visible b = true) w → Forall (λ b, b ≠ x0a ∧ b ≠ x0d) w).
  { intros w Hw'. eapply Forall_impl; [exact Hw'|]. intros b (_ & _ & _ & ? & ? & _)%visible_plain. done. }
  assert (Hb : x20 ≠ x0a ∧ x20 ≠ x0d) by done.
  assert (Hpath : Forall (λ b, b ≠ x0a ∧ b ≠ x0d) (entry_path e)).
  { unfold entry_path. destruct (me_words e) as [|w ws]; [constructor|]. apply Forall_cons_iff in Hw as [[_ Hw0] Hws].
    cbn [join]. apply Forall_app. split; [by apply Hv|]. clear Hw0.
    induction Hws as [|v ws [_ Hv0] _ IH]; [constructor|]. cbn [mbind list_bind].
    apply Forall_app. split; [|exact IH]. apply Forall_app. split; [by repeat constructor|by apply Hv]. }
  unfold entry_line. repeat (first [apply (Hv (hex8 _)), hex8_wf | apply (Hv _ (proj2 Hp)) | apply (Hv _ (proj2 Hd))
    | apply (Hv _ (proj2 Hi)) | apply Forall_app; split | apply Forall_cons_2; [done|] | apply Forall_nil_2
    | by apply Forall_replicate | exact Hpath]).
Qed.

Lemma lines_loop_line l cur s :
  Forall (λ b, b ≠ x0a ∧ b ≠ x0d) l → Forall (λ b, b ≠ x0a ∧ b ≠ x0d) cur →
  lines_loop (l ++ x0a :: s) cur = (cur ++ l) :: lines_loop s [].
Proof.
  intros Hl. revert cur. induction Hl as [|b l [Hb1 Hb2] _ IH]; intros cur Hcur; cbn [lines_loop app].
  - unfold byte_is at 1. rewrite bool_decide_true, app_nil_r by done. f_equal. unfold strip_cr.
    destruct (last cur) as [c|] eqn:E; [|done]. apply last_Some_elem_of in E. rewrite Forall_forall in Hcur.
    apply Hcur in E as [_ E]. unfold byte_is. by rewrite bool_decide_false.
  - unfold byte_is at 1. rewrite bool_decide_false by done. rewrite IH.
    + by rewrite <- app_assoc.
    + apply Forall_app. split; [done|]. by apply Forall_singleton.
Qed.

Lemma lines_maps es : Forall entry_wf es → lines (maps_text es) = map entry_line es.
Proof.
  induction 1 as [|e es He _ IH]; [done|]. unfold lines, maps_text in *. cbn [mbind list_bind map].
  rewrite <- app_assoc. cbn [app]. rewrite lines_loop_line; [|by apply entry_line_plain|done].
  cbn [app]. f_equal. exact IH.
Qed.

(** ** Lemmas: the list of modules *)

(** The base a list of modules gives a path. *)
Fixpoint module_base (ms : list ModuleMapping) (p : list byte) : option Z :=
  match ms with
  | [] => None
  | m :: ms => if bool_decide (mm_path m = p) then Some (mm_base m) else module_base ms p
  end.

Lemma module_base_add p b ms q :
  module_base (add_module p b ms) q =
    if bool_decide (q = p) then Some (from_option (λ c, Z.min c b) b (module_base ms p)) else module_base ms q.
Proof.
  induction ms as [|m ms IH]; cbn [add_module module_base mm_path mm_base].
  { destruct (decide (q = p)) as [->|Hne]; [by rewrite !bool_decide_true by done|].
    by rewrite !bool_decide_false by congruence. }
  destruct (decide (mm_path m = p)) as [<-|Hmp].
  - rewrite (bool_decide_true (mm_path m = mm_path m)) by done. cbn [module_base mm_path mm_base].
    destruct (decide (q = mm_path m)) as [->|Hne]; [by rewrite !bool_decide_true by done|].
    by rewrite !bool_decide_false by congruence.
  - rewrite (bool_decide_false (mm_path m = p)) by done. cbn [module_base].
    destruct (decide (q = p)) as [->|Hne].
    + rewrite (bool_decide_false (mm_path m = p)) by done. exact IH.
    + rewrite IH. by rewrite (bool_decide_false (q = p)) by done.
Qed.

Lemma minimum_snoc l b : minimum (l ++ [b]) = Some (from_option (λ c, Z.min c b) b (minimum l)).
Proof. destruct l as [|x l]; [done|]. cbn. by rewrite foldl_app. Qed.

(** The addresses of the mappings that hold the header of [p]. *)
Definition header_starts (es : list map_entry) (p : list byte) : list Z :=
  me_start <$> filter (λ e, maps_header e p) es.

Lemma header_starts_snoc es e p :
  header_starts (es ++ [e]) p =
    header_starts es p ++ (if decide (maps_header e p) then [me_start e] else []).
Proof.
  unfold header_starts. rewrite filter_app, fmap_app. f_equal. cbn. by destruct (decide (maps_header e p)).
Qed.

(** The lines that map a file from its start, in the order of the text. *)
Definition header_paths (es : list map_entry) : list (list byte) :=
  entry_path <$> filter (λ e, maps_header e (entry_path e)) es.

(** A list's elements, each at its first occurrence. *)
Fixpoint first_occurrences {A} `{EqDecision A} (l : list A) : list A :=
  match l with
  | [] => []
  | x :: l => x :: filter (λ y, y ≠ x) (first_occurrences l)
  end.

Lemma first_occurrences_elem {A} `{EqDecision A} (l : list A) x : x ∈ first_occurrences l ↔ x ∈ l.
Proof.
  induction l as [|y l IH]; [done|]. cbn [first_occurrences]. rewrite !elem_of_cons, list_elem_of_filter, IH.
  destruct (decide (x = y)); tauto.
Qed.

Lemma first_occurrences_snoc {A} `{EqDecision A} (l : list A) x :
  first_occurrences (l ++ [x]) =
    if decide (x ∈ l) then first_occurrences l else first_occurrences l ++ [x].
Proof.
  induction l as [|y l IH]; [done|]. cbn [app first_occurrences]. rewrite IH.
  destruct (decide (x ∈ l)) as [Hl|Hl].
  { by rewrite decide_True by (by right). }
  rewrite filter_app. destruct (decide (x = y)) as [->|Hne].
  - rewrite decide_True by (by left). rewrite filter_cons_False by tauto. by rewrite app_nil_r.
  - rewrite decide_False by (rewrite elem_of_cons; tauto). by rewrite filter_cons_True by done.
Qed.

Lemma first_occurrences_nodup {A} `{EqDecision A} (l : list A) : NoDup (first_occurrences l).
Proof.
  induction l as [|y l IH]; cbn [first_occurrences]; constructor; [|by apply NoDup_filter].
  rewrite list_elem_of_filter. tauto.
Qed.

Lemma add_module_paths p b ms :
  mm_path <$> add_module p b ms =
    if decide (p ∈ mm_path <$> ms) then mm_path <$> ms else (mm_path <$> ms) ++ [p].
Proof.
  induction ms as [|m ms IH]; [done|]. cbn [add_module fmap list_fmap app].
  destruct (decide (mm_path m = p)) as [E|E].
  - rewrite bool_decide_true by done. by rewrite decide_True by (rewrite elem_of_cons; auto).
  - rewrite bool_decide_false by done. cbn [fmap list_fmap]. rewrite IH.
    destruct (decide (p ∈ mm_path <$> ms)) as [Hi|Hi].
    + by rewrite decide_True by (by right).
    + rewrite decide_False by (rewrite elem_of_cons; intros [?|?]; [congruence|done]). done.
Qed.

Lemma header_paths_snoc es e :
  header_paths (es ++ [e]) =
    header_paths es ++ (if decide (maps_header e (entry_path e)) then [entry_path e] else []).
Proof.
  unfold header_paths. rewrite filter_app, fmap_app. f_equal. cbn [filter list_filter].
  by destruct (decide (maps_header e (entry_path e))).
Qed.

(** ** Property *)

(** C30. [parse_maps] recovers the modules from what the kernel writes, over
    any lines of mappings whose paths are words of visible ASCII between single
    blanks ([double_blank_collapsed] is what other paths suffer).  The list has
    the paths of the lines that map a file from offset 0, each once, in the
    order of their first such line, and nothing else: anonymous and pseudo
    mappings and files never mapped from offset 0 do not occur.  A path's base
    is the least address of those lines, so every module's base is the mapping
    of its ELF header. *)
Theorem maps_parsed es :
  Forall entry_wf es →
  mm_path <$> parse_maps (maps_text es) = first_occurrences (header_paths es) ∧
  NoDup (mm_path <$> parse_maps (maps_text es)) ∧
  ∀ p, module_base (parse_maps (maps_text es)) p = minimum (header_starts es p).
Proof.
  intros Hes.
  enough (mm_path <$> parse_maps (maps_text es) = first_occurrences (header_paths es) ∧
    ∀ p, module_base (parse_maps (maps_text es)) p = minimum (header_starts es p)) as [Hp Hb].
  { split_and!; [done| |done]. rewrite Hp. apply first_occurrences_nodup. }
  unfold parse_maps. rewrite lines_maps by done.
  induction es as [|e es IH] using rev_ind; [done|].
  apply Forall_app in Hes as [Hes He%Forall_cons_iff]. destruct He as [He _].
  rewrite map_app, foldl_app. cbn [map foldl]. destruct (IH Hes) as [Hord Hb]. rewrite (parse_entry e He).
  set (ms := foldl _ _ _) in *.
  assert (Hh : ∀ p, maps_header e p ↔
    bool_decide (me_offset e = 0) && starts_with (str "/") (entry_path e) = true ∧ p = entry_path e).
  { intros p. unfold maps_header. rewrite andb_true_iff, bool_decide_eq_true. split.
    - by intros (? & <- & ?).
    - by intros [[? ?] ->]. }
  rewrite header_paths_snoc.
  destruct (bool_decide (me_offset e = 0) && starts_with (str "/") (entry_path e)).
  - rewrite (decide_True (P := maps_header e (entry_path e))) by (by apply Hh). split.
    { rewrite add_module_paths, first_occurrences_snoc, Hord.
      apply decide_ext, first_occurrences_elem. }
    intros p. rewrite module_base_add, header_starts_snoc.
    destruct (decide (p = entry_path e)) as [->|Hp].
    + rewrite bool_decide_true, decide_True by (done || by apply Hh). by rewrite minimum_snoc, Hb.
    + rewrite bool_decide_false, decide_False by (done || by rewrite Hh; intros [_ ?]). by rewrite app_nil_r.
  - rewrite decide_False by (rewrite Hh; intros [? _]; done). split; [by rewrite app_nil_r|].
    intros p. rewrite header_starts_snoc, decide_False by (by rewrite Hh; intros [? _]).
    by rewrite app_nil_r.
Qed.

(** ** The load bias *)

Lemma segment_extent_spec segs lo hi :
  Forall (λ s, 0 ≤ s.1 ∧ 0 ≤ s.2 ∧ s.1 + s.2 < 2 ^ 64) segs →
  ∃ lo' hi', segment_extent segs lo hi = Ok (lo', hi') ∧ lo' ≤ lo ∧ hi ≤ hi' ∧
    Forall (λ s, lo' ≤ s.1 ∧ s.1 + s.2 ≤ hi') segs ∧
    (lo' = lo ∨ ∃ s, s ∈ segs ∧ lo' = s.1) ∧ (hi' = hi ∨ ∃ s, s ∈ segs ∧ hi' = s.1 + s.2).
Proof.
  revert lo hi. induction segs as [|[a z] segs IH]; intros lo hi Hs; cbn [segment_extent].
  { exists lo, hi. split_and!; auto; lia. }
  apply Forall_cons_iff in Hs as [(H1 & H2 & H3) Hs]. cbn [fst snd] in *. unfold checked_add.
  rewrite (proj2 (Z.ltb_lt _ _)) by done. cbn [expect mbind result_bind].
  destruct (IH (Z.min lo a) (Z.max hi (a + z)) Hs) as (lo' & hi' & -> & Hlo & Hhi & Hall & Hl & Hh).
  exists lo', hi'. split; [done|]. split; [lia|]. split; [lia|]. split.
  { constructor; [cbn; lia|done]. }
  split.
  - destruct Hl as [->|(s & ? & ->)]; [|right; exists s; split; [by right|done]].
    destruct (Z.min_spec lo a) as [[_ ->]|[_ ->]]; [by left|right]. exists (a, z). split; [by left|done].
  - destruct Hh as [->|(s & ? & ->)]; [|right; exists s; split; [by right|done]].
    destruct (Z.max_spec hi (a + z)) as [[_ ->]|[_ ->]]; [right|by left]. exists (a, z). split; [by left|done].
Qed.

(** A module mapped at or above its least stated address, inside the address
    space: the bias takes every segment into the range, which starts at the
    mapping. *)
Lemma bounds_bias segs mapping_base :
  Forall (λ s, 0 ≤ s.1 ∧ 0 ≤ s.2 ∧ s.1 + s.2 < 2 ^ 64 - 1) segs → segs ≠ [] →
  (∀ s, s ∈ segs → s.1 ≤ mapping_base ∧ mapping_base + s.1 + s.2 < 2 ^ 64) → 0 ≤ mapping_base < 2 ^ 64 →
  ∃ bias hi, bounds segs mapping_base = Ok (bias, (mapping_base, hi)) ∧
    ∀ s, s ∈ segs → mapping_base ≤ bias + s.1 ∧ bias + s.1 + s.2 ≤ hi.
Proof.
  intros Hs Hne Hb Hm. unfold bounds.
  destruct (segment_extent_spec segs (2 ^ 64 - 1) 0) as (lo & hi & -> & Hlo & Hhi & Hall & Hl & Hh).
  { eapply Forall_impl; [exact Hs|]. cbn. intros s. lia. }
  cbn [mbind result_bind].
  assert (Hin : ∃ s, s ∈ segs ∧ lo = s.1).
  { destruct Hl as [->|?]; [|done]. destruct segs as [|s segs]; [done|]. exists s. split; [by left|].
    apply Forall_cons_iff in Hs as [? _]. apply Forall_cons_iff in Hall as [? _]. lia. }
  destruct Hin as (s & Hin & ->). pose proof Hs as Hs0. rewrite Forall_forall in Hs0. pose proof (Hs0 s Hin) as Hsw.
  cbv beta in Hsw.
  rewrite (proj2 (Z.eqb_neq _ _)) by lia. destruct (Hb s Hin) as [Hsb _].
  rewrite Z.mod_small by lia. unfold checked_add.
  rewrite (proj2 (Z.ltb_lt (mapping_base - s.1 + s.1) _)) by lia. cbn [expect mbind result_bind].
  assert (Hfit : mapping_base - s.1 + hi < 2 ^ 64).
  { destruct Hh as [->|(s' & Hin' & ->)]; [lia|]. destruct (Hb s' Hin'). lia. }
  rewrite (proj2 (Z.ltb_lt _ _)) by done. cbn [expect mbind result_bind].
  exists (mapping_base - s.1), (mapping_base - s.1 + hi). split; [do 3 f_equal; lia|].
  intros s' Hin'. rewrite Forall_forall in Hall. destruct (Hall s' Hin'). lia.
Qed.

(** ** Samples *)

(** A program and a library, each mapped in two pieces, the stack, and a file
    whose header is not mapped. *)
Definition sample_maps : list map_entry :=
  [MkMapEntry 0x55e6c0e2a000 0x55e6c0e2b000 (str "r--p") 0 (str "08:01") (str "100") 19 [str "/opt/my"; str "app"];
   MkMapEntry 0x55e6c0e2b000 0x55e6c0e2d000 (str "r-xp") 0x1000 (str "08:01") (str "100") 19 [str "/opt/my"; str "app"];
   MkMapEntry 0x7f0000021000 0x7f00000a5000 (str "r-xp") 0x21000 (str "08:01") (str "200") 19 [str "/lib/libc.so.6"];
   MkMapEntry 0x20000 0x21000 (str "r--p") 0 (str "08:01") (str "5") 19 [str "/lib/x.so"];
   MkMapEntry 0x10000 0x11000 (str "r--p") 0 (str "08:01") (str "5") 19 [str "/lib/x.so"];
   MkMapEntry 0x7ffc00000000 0x7ffc00021000 (str "rw-p") 0 (str "00:00") (str "0") 19 [str "[stack]"];
   MkMapEntry 0x7ffd00000000 0x7ffd00021000 (str "rw-p") 0 (str "00:00") (str "0") 0 []].

Definition word_wf_b (w : list byte) : bool := negb (bool_decide (w = [])) && forallb visible w.
Definition entry_wf_b (e : map_entry) : bool :=
  forallb (λ z, (0 <=? z) && (z <? 2 ^ 64)) [me_start e; me_end e; me_offset e] &&
  forallb word_wf_b (me_perms e :: me_dev e :: me_inode e :: me_words e).

Lemma word_wf_b_ok w : word_wf_b w = true → word_wf w.
Proof.
  unfold word_wf_b. rewrite andb_true_iff, negb_true_iff, bool_decide_eq_false. intros [H1 H2].
  split; [done|]. apply Forall_forall. intros b Hb. rewrite forallb_forall in H2. apply H2. by apply list_elem_of_In.
Qed.

Lemma entry_wf_b_ok e : entry_wf_b e = true → entry_wf e.
Proof.
  unfold entry_wf_b. cbn [forallb]. rewrite !andb_true_iff, !Z.leb_le, !Z.ltb_lt.
  intros [(H1 & H2 & H3 & _) (H4 & H5 & H6 & H7)]. split; try done; try (by apply word_wf_b_ok).
  rewrite forallb_forall in H7. apply Forall_forall. intros w Hw. apply word_wf_b_ok, H7. by apply list_elem_of_In.
Qed.

Lemma maps_parsed_witness :
  Forall entry_wf sample_maps ∧
  module_base (parse_maps (maps_text sample_maps)) (str "/lib/x.so") = minimum (header_starts sample_maps (str "/lib/x.so")).
Proof.
  assert (H : Forall entry_wf sample_maps).
  { apply Forall_forall. intros e He. apply entry_wf_b_ok.
    assert (Hb : forallb entry_wf_b sample_maps = true) by (vm_compute; reflexivity).
    rewrite forallb_forall in Hb. apply Hb. by apply list_elem_of_In. }
  split; [exact H|]. exact (proj2 (proj2 (maps_parsed sample_maps H)) (str "/lib/x.so")).
Defined.

Lemma sample_maps_parsed :
  parse_maps (maps_text sample_maps) =
    [MkModuleMapping (str "/opt/my app") 0x55e6c0e2a000; MkModuleMapping (str "/lib/x.so") 0x10000].
Proof. vm_compute. reflexivity. Qed.

(** Two blanks in a path are read as one. *)
Lemma double_blank_collapsed :
  parse_line (str "10000-11000 r--p 00000000 08:01 5 /opt/my  app") = Some (str "/opt/my app", 0x10000).
Proof. vm_compute. reflexivity. Qed.

(** The executable's base is taken from any mapping whose path ends with the
    executable's, here a library of a sandbox below it. *)
Lemma suffix_module_taken :
  executable_base (str "/bin/app")
    (str "20000-21000 r--p 00000000 08:01 5 /bin/app" ++ [x0a] ++
     str "10000-11000 r--p 00000000 08:01 6 /srv/root/bin/app" ++ [x0a]) = Some 0x10000.
Proof. vm_compute. reflexivity. Qed.

(** A module mapped below its stated address panics: the bias wraps, the next
    addition overflows. *)
Lemma low_mapping_panics : bounds [(0x400000, 0x1000)] 0x200000 = Panic.
Proof. vm_compute. reflexivity. Qed.
