(* ===== verification/BufIo.v ===== *)
(** * Buffered reading: what the debug adapter uses of [std::io::BufRead]

    [BufReader] over a scripted source ([StdIo]): the bytes it has taken and
    not handed out, the capacity it asks for, and the source.  [read_line] and
    [read_exact] are the loops of the standard library over it. *)

From S2P Require Import Prelude.
From S2P Require Import StdIo.

Record bufreader := BufReader { br_buf : list byte; br_more : nat; br_inner : source }.

(** [BufReader::new]: 8 KiB; the capacity is [S br_more]. *)
Definition BufReader_new (s : source) : bufreader := BufReader [] (Z.to_nat 8191) s.

(** [fill_buf]: the buffered bytes, read from the source when there are none. *)
Definition fill_buf (b : bufreader) : result io_error (list byte) * bufreader :=
  match br_buf b with
  | [] =>
      match read (S (br_more b)) (br_inner b) with
      | (Ok bs, s) => (Ok bs, BufReader bs (br_more b) s)
      | (r, s) => (r, BufReader [] (br_more b) s)
      end
  | bs => (Ok bs, b)
  end.

Definition consume (n : nat) (b : bufreader) : bufreader :=
  BufReader (drop n (br_buf b)) (br_more b) (br_inner b).

(** [memchr] of the newline: the bytes up to and including it. *)
Fixpoint to_newline (bs : list byte) : option (list byte) :=
  match bs with
  | [] => None
  | b :: bs => if bool_decide (b = x0a) then Some [b] else cons b <$> to_newline bs
  end.

(** Enough iterations for a loop that stops at the end of the bytes. *)
Definition br_fuel (b : bufreader) : nat :=
  S (length (br_buf b) + length (src_data (br_inner b)) + length (src_script (br_inner b))).

(** [read_until] the newline: retry on interruption, stop after the newline or
    at the end of the source. *)
Fixpoint read_until_loop (fuel : nat) (acc : list byte) (b : bufreader)
    : result io_error (list byte) * bufreader :=
  match fuel with
  | O => (Panic, b)
  | S fuel =>
      match fill_buf b with
      | (Ok [], b) => (Ok acc, b)
      | (Ok available, b) =>
          match to_newline available with
          | Some l => (Ok (acc ++ l), consume (length l) b)
          | None => read_until_loop fuel (acc ++ available) (consume (length available) b)
          end
      | (Err InterruptedError, b) => read_until_loop fuel acc b
      | (Err e, b) => (Err e, b)
      | (Panic, b) => (Panic, b)
      end
  end.

Definition read_until_newline (b : bufreader) : result io_error (list byte) * bufreader :=
  read_until_loop (br_fuel b) [] b.

(** [BufReader::read]: past an empty buffer a request of at least the capacity
    goes to the source. *)
Definition br_read (n : nat) (b : bufreader) : result io_error (list byte) * bufreader :=
  match br_buf b with
  | [] =>
      if (S (br_more b) <=? n)%nat then
        let '(r, s) := read n (br_inner b) in (r, BufReader [] (br_more b) s)
      else
        match fill_buf b with
        | (Ok bs, b) => (Ok (take n bs), consume n b)
        | (r, b) => (r, b)
        end
  | bs => (Ok (take n bs), consume n b)
  end.

(** [read_exact]. *)
Fixpoint br_read_exact_loop (fuel n : nat) (acc : list byte) (b : bufreader)
    : result io_error (list byte) * bufreader :=
  match n, fuel with
  | O, _ => (Ok acc, b)
  | _, O => (Panic, b)
  | _, S fuel =>
      match br_read n b with
      | (Ok [], b) => (Err UnexpectedEof, b)
      | (Ok bs, b) => br_read_exact_loop fuel (n - length bs) (acc ++ bs) b
      | (Err InterruptedError, b) => br_read_exact_loop fuel n acc b
      | (Err e, b) => (Err e, b)
      | (Panic, b) => (Panic, b)
      end
  end.

Definition br_read_exact (n : nat) (b : bufreader) : result io_error (list byte) * bufreader :=
  br_read_exact_loop (br_fuel b) n [] b.

(** ** The bytes still to come *)

Definition br_data (b : bufreader) : list byte := br_buf b ++ src_data (br_inner b).
Definition br_quiet (b : bufreader) : bool := no_failures (br_inner b).

(** The first line with its newline, and what follows. *)
Definition first_line (d : list byte) : list byte := default d (to_newline d).
Definition after_line (d : list byte) : list byte := drop (length (first_line d)) d.

(** What one read costs: bytes and script are only used up. *)
Definition br_left (b : bufreader) : nat := length (br_data b) + length (src_script (br_inner b)).

Lemma br_fuel_left b : br_fuel b = S (br_left b).
Proof. unfold br_fuel, br_left, br_data. rewrite length_app. lia. Qed.

Lemma to_newline_prefix d l : to_newline d = Some l → ∃ r, d = l ++ r ∧ l ≠ [].
Proof.
  revert l. induction d as [|b d IH]; intros l; cbn; [done|]. case_bool_decide as E.
  - intros [= <-]. by exists d.
  - destruct (to_newline d) as [m|]; [|done]. intros [= <-]. destruct (IH m eq_refl) as (r & -> & _).
    by exists r.
Qed.

Lemma to_newline_app d e : to_newline (d ++ e) =
  match to_newline d with Some l => Some l | None => app d <$> to_newline e end.
Proof.
  induction d as [|b d IH]; cbn; [by destruct (to_newline e)|]. case_bool_decide; [done|].
  rewrite IH. destruct (to_newline d); [done|]. by destruct (to_newline e).
Qed.

Lemma first_line_app d e : to_newline d = None → first_line (d ++ e) = d ++ first_line e.
Proof.
  intros H. unfold first_line. rewrite to_newline_app, H. by destruct (to_newline e).
Qed.

Lemma first_line_here d e l : to_newline d = Some l → first_line (d ++ e) = l.
Proof. intros H. unfold first_line. by rewrite to_newline_app, H. Qed.

Lemma first_line_split d : d = first_line d ++ after_line d.
Proof.
  unfold after_line. assert (∃ r, d = first_line d ++ r) as [r Hr].
  { unfold first_line. destruct (to_newline d) as [l|] eqn:E; cbn.
    - apply to_newline_prefix in E as (r & -> & _). by exists r.
    - exists []. by rewrite app_nil_r. }
  revert Hr. generalize (first_line d). intros l ->. by rewrite drop_app_length.
Qed.

Lemma first_line_nil d : first_line d = [] → d = [].
Proof.
  unfold first_line. destruct (to_newline d) as [l|] eqn:E; cbn; [|done].
  apply to_newline_prefix in E as (_ & _ & ?). done.
Qed.

(** ** The loops *)

(** What a call leaves: nothing lost, nothing new to fail. *)
Definition br_after (b b' : bufreader) (taken : list byte) : Prop :=
  br_data b = taken ++ br_data b' ∧
  (length (src_script (br_inner b')) ≤ length (src_script (br_inner b)))%nat ∧
  (br_quiet b = true → br_quiet b' = true).

Lemma br_after_refl b : br_after b b [].
Proof. done. Qed.

Lemma br_after_trans b b1 b2 x y : br_after b b1 x → br_after b1 b2 y → br_after b b2 (x ++ y).
Proof.
  intros (D1 & S1 & Q1) (D2 & S2 & Q2). split; [|split; [lia|auto]]. by rewrite D1, D2, app_assoc.
Qed.

Lemma br_after_left b b' x : br_after b b' x → (br_left b' + length x ≤ br_left b)%nat.
Proof. intros (D & S' & _). unfold br_left. rewrite D, length_app. lia. Qed.

Lemma read_after n m s s' r :
  read n s = (r, s') →
  match r with
  | Ok bs => br_after (BufReader [] m s) (BufReader [] m s') bs ∧
             (bs = [] → (0 < n)%nat → src_data s = [])
  | Err InterruptedError => br_after (BufReader [] m s) (BufReader [] m s') [] ∧
             (length (src_script s') < length (src_script s))%nat
  | Err UnexpectedEof => False
  | Err (OsError _) => no_failures s = false
  | Panic => False
  end.
Proof.
  intros Hr. pose proof (read_script _ _ _ _ Hr) as [Hs Hlt]. pose proof (read_flags _ _ _ _ Hr) as [_ Hq].
  assert (Hq' : no_failures s = true → no_failures s' = true) by (intros H; by destruct (Hq H)).
  destruct r as [bs|e|].
  - split.
    + split; [|split; [done|exact Hq']]. unfold br_data. cbn. by apply read_data_length in Hr as [-> _].
    + intros -> Hn. by apply read_nil_eof in Hr as [? _].
  - pose proof (read_err_data _ _ _ _ Hr) as Hd.
    assert (Hnf : e ≠ InterruptedError → no_failures s = false).
    { intros He. destruct (no_failures s); [|done]. destruct (Hq eq_refl) as [_ [[= ->]|[? [=]]]]. done. }
    destruct e; [| |by apply Hnf].
    { unfold read in Hr. by destruct (src_script s) as [|[| |] ?]. }
    split; [split; [unfold br_data; cbn; by rewrite Hd|done]|].
    unfold read in Hr. destruct (src_script s) as [|[| |] ?]; simplify_eq/=; lia.
  - by apply (read_no_panic n s); rewrite Hr.
Qed.

Lemma fill_buf_after b :
  let '(r, b') := fill_buf b in
  match r with
  | Ok bs => br_after b b' [] ∧ br_buf b' = bs ∧ (bs = [] → br_data b = [])
  | Err InterruptedError => br_after b b' [] ∧ (br_left b' < br_left b)%nat
  | Err UnexpectedEof => False
  | Err (OsError _) => br_quiet b = false
  | Panic => False
  end.
Proof.
  destruct b as [[|x bs] m s]; cbn [fill_buf br_buf br_more br_inner]; [|split; [apply br_after_refl|done]].
  unfold fill_buf. cbn [br_buf br_more br_inner].
  destruct (read (S m) s) as [r s'] eqn:Hr. apply (read_after _ m) in Hr.
  destruct r as [bs|e|]; [|destruct e|done].
  - destruct Hr as [(D & Hs & Q) Hz]. split; [|split; [done|]].
    + split; [|split; [done|exact Q]]. exact D.
    + intros ->. apply Hz; [done|lia].
  - done.
  - destruct Hr as [Ha Hl]. split; [done|]. destruct Ha as (D & _). unfold br_left. rewrite D. cbn in *. lia.
  - done.
Qed.

Lemma consume_after b n : (n ≤ length (br_buf b))%nat → br_after b (consume n b) (take n (br_buf b)).
Proof.
  intros Hn. split; [|done]. unfold br_data, consume. cbn. by rewrite app_assoc, take_drop.
Qed.

(** Taking up to [n] of the buffer. *)
Lemma consume_upto b n : br_after b (consume n b) (take n (br_buf b)).
Proof.
  destruct (decide (n ≤ length (br_buf b))%nat) as [H|H]; [by apply consume_after|].
  pose proof (consume_after b (length (br_buf b)) ltac:(lia)) as Hc. rewrite take_ge in Hc |- * by lia.
  destruct Hc as (D & ? & ?). split; [|done]. rewrite D. f_equal. unfold br_data, consume. cbn.
  by rewrite !drop_ge by lia.
Qed.

(** [read_line]'s bytes: the first line of what is to come, however it is cut. *)
Lemma read_until_loop_spec fuel acc b :
  (br_left b < fuel)%nat →
  let '(r, b') := read_until_loop fuel acc b in
  match r with
  | Ok l => l = acc ++ first_line (br_data b) ∧ br_after b b' (first_line (br_data b))
  | Err _ => br_quiet b = false
  | Panic => False
  end.
Proof.
  revert acc b. induction fuel as [|fuel IH]; intros acc b Hf; [lia|]. cbn [read_until_loop].
  pose proof (fill_buf_after b) as Hfill. destruct (fill_buf b) as [r b1].
  destruct r as [avail|e|]; [|destruct e|done].
  - destruct Hfill as (Ha & Hb & Hz). pose proof Ha as (D & _). cbn [app] in D.
    destruct avail as [|x avail]; [rewrite (Hz eq_refl) in *|].
    { split; [cbn; by rewrite app_nil_r|]. cbn. destruct Ha as (? & ? & ?). done. }
    rewrite <- Hb. destruct (to_newline (br_buf b1)) as [l|] eqn:El.
    + assert (Hl : first_line (br_data b) = l) by (rewrite D; unfold br_data; by apply first_line_here).
      rewrite Hl. split; [done|].
      apply to_newline_prefix in El as (rest & Er & _).
      replace l with ([] ++ take (length l) (br_buf b1)) at 2.
      2:{ cbn. by rewrite Er, take_app_length. }
      eapply br_after_trans; [done|]. apply consume_after. rewrite Er, length_app. lia.
    + pose proof (consume_after b1 (length (br_buf b1)) ltac:(lia)) as Hc. rewrite take_ge in Hc by lia.
      pose proof (br_after_trans _ _ _ _ _ Ha Hc) as Ht. cbn [app] in Ht.
      pose proof (br_after_left _ _ _ Ht) as Hleft. rewrite Hb in Hleft at 2. cbn [length] in Hleft.
      specialize (IH (acc ++ br_buf b1) (consume (length (br_buf b1)) b1) ltac:(lia)).
      destruct (read_until_loop fuel _ _) as [r b2].
      assert (Hd : br_data b = br_buf b1 ++ br_data (consume (length (br_buf b1)) b1)) by apply Ht.
      assert (Hl : first_line (br_data b) = br_buf b1 ++ first_line (br_data (consume (length (br_buf b1)) b1))).
      { rewrite Hd at 1. by apply first_line_app. }
      destruct r as [l|e|]; [|..].
      * destruct IH as [-> Hi]. rewrite Hl. split; [by rewrite app_assoc|].
        by eapply br_after_trans.
      * destruct (br_quiet b) eqn:Eq; [|done]. destruct Ht as (_ & _ & Q). rewrite (Q Eq) in IH. done.
      * done.
  - done.
  - destruct Hfill as [Ha Hl]. specialize (IH acc b1 ltac:(lia)).
    destruct (read_until_loop fuel acc b1) as [r b2]. pose proof Ha as (D & _ & Q). cbn [app] in D. rewrite D.
    destruct r as [l|e|].
    + destruct IH as [-> Hi]. split; [done|]. eapply (br_after_trans _ _ _ []); done.
    + destruct (br_quiet b) eqn:Eq; [|done]. rewrite (Q eq_refl) in IH. done.
    + done.
  - done.
Qed.

Lemma read_until_spec b :
  let '(r, b') := read_until_newline b in
  match r with
  | Ok l => l = first_line (br_data b) ∧ br_after b b' l
  | Err _ => br_quiet b = false
  | Panic => False
  end.
Proof.
  unfold read_until_newline.
  pose proof (read_until_loop_spec (br_fuel b) [] b ltac:(rewrite br_fuel_left; lia)) as H.
  destruct (read_until_loop _ _ _) as [[l| |] b']; [|done..]. destruct H as [-> H]. done.
Qed.

Lemma br_read_after n b :
  (0 < n)%nat →
  let '(r, b') := br_read n b in
  match r with
  | Ok bs => br_after b b' bs ∧ (length bs ≤ n)%nat ∧ (bs = [] → br_data b = [])
  | Err InterruptedError => br_after b b' [] ∧ (br_left b' < br_left b)%nat
  | Err UnexpectedEof => False
  | Err (OsError _) => br_quiet b = false
  | Panic => False
  end.
Proof.
  intros Hn. destruct b as [[|x bs] m s]; unfold br_read; cbn [br_buf br_more br_inner].
  2:{ split; [apply (consume_upto (BufReader (x :: bs) m s))|].
      split; [rewrite length_take; lia|intros Hx; destruct n; [lia|done]]. }
  destruct (S m <=? n)%nat.
  - destruct (read n s) as [r s'] eqn:Hr. pose proof (read_data_length n s) as Hlen. rewrite Hr in Hlen.
    apply (read_after _ m) in Hr. destruct r as [bs|e|]; [|destruct e|done].
    + destruct Hr as [Ha Hz]. split; [done|]. split; [by eapply Hlen|]. intros ->. by apply Hz.
    + done.
    + destruct Hr as [Ha Hl]. split; [done|]. destruct Ha as (D & _). unfold br_left. rewrite D. cbn in *. lia.
    + done.
  - pose proof (fill_buf_after (BufReader [] m s)) as Hf. destruct (fill_buf _) as [[bs|e|] b1].
    + destruct Hf as (Ha & <- & Hz).
      pose proof (consume_upto b1 n) as Hc.
      split; [by eapply (br_after_trans _ _ _ [])|]. split; [rewrite length_take; lia|].
      intros H. apply Hz. destruct (br_buf b1); [done|]. intros; destruct n; [lia|done].
    + by destruct e.
    + done.
Qed.

Lemma br_read_exact_loop_spec fuel n acc b :
  (br_left b < fuel)%nat →
  let '(r, b') := br_read_exact_loop fuel n acc b in
  match r with
  | Ok bs => bs = acc ++ take n (br_data b) ∧ (n ≤ length (br_data b))%nat ∧ br_after b b' (take n (br_data b))
  | Err UnexpectedEof => (length (br_data b) < n)%nat
  | Err InterruptedError => False
  | Err (OsError _) => br_quiet b = false
  | Panic => False
  end.
Proof.
  revert n acc b. induction fuel as [|fuel IH]; intros n acc b Hf; [lia|].
  destruct n as [|n]; cbn [br_read_exact_loop].
  { rewrite take_0, app_nil_r. split; [done|]. split; [lia|]. apply br_after_refl. }
  pose proof (br_read_after (S n) b ltac:(lia)) as Hr. destruct (br_read (S n) b) as [[bs|e|] b1]; [|destruct e|done].
  - destruct Hr as (Ha & Hle & Hz). pose proof Ha as (D & _ & Q). destruct bs as [|x bs].
    { rewrite (Hz eq_refl). cbn. lia. }
    pose proof (br_after_left _ _ _ Ha) as Hl. set (k := length (x :: bs)) in *.
    assert (0 < k)%nat by (cbn; lia).
    specialize (IH (S n - k)%nat (acc ++ x :: bs) b1 ltac:(lia)).
    destruct (br_read_exact_loop fuel (S n - k) _ _) as [r b2].
    assert (Hlen : length (br_data b) = (k + length (br_data b1))%nat) by (rewrite D, length_app; done).
    assert (Ht : take (S n) (br_data b) = (x :: bs) ++ take (S n - k) (br_data b1)).
    { rewrite D, take_app. f_equal. rewrite take_ge by (fold k; lia). done. }
    rewrite Ht. destruct r as [bs'|[| |c]|]; try done.
    + destruct IH as (-> & ? & Hi). split; [by rewrite <- app_assoc|]. split; [lia|]. by eapply br_after_trans.
    + lia.
    + destruct (br_quiet b) eqn:Eq; [|done]. rewrite (Q eq_refl) in IH. done.
  - done.
  - destruct Hr as [Ha Hl]. pose proof Ha as (D & _ & Q). cbn [app] in D. specialize (IH (S n) acc b1 ltac:(lia)).
    destruct (br_read_exact_loop fuel (S n) acc b1) as [r b2]. rewrite D. destruct r as [bs'|[| |c]|]; try done.
    + destruct IH as (-> & ? & Hi). split; [done|]. split; [done|]. by eapply (br_after_trans _ _ _ []).
    + destruct (br_quiet b) eqn:Eq; [|done]. rewrite (Q eq_refl) in IH. done.
  - done.
Qed.

Lemma br_read_exact_spec n b :
  let '(r, b') := br_read_exact n b in
  match r with
  | Ok bs => bs = take n (br_data b) ∧ (n ≤ length (br_data b))%nat ∧ br_after b b' bs
  | Err UnexpectedEof => (length (br_data b) < n)%nat
  | Err InterruptedError => False
  | Err (OsError _) => br_quiet b = false
  | Panic => False
  end.
Proof.
  unfold br_read_exact.
  pose proof (br_read_exact_loop_spec (br_fuel b) n [] b ltac:(rewrite br_fuel_left; lia)) as H.
  destruct (br_read_exact_loop _ _ _ _) as [[l|[| |c]|] b']; try done. destruct H as (-> & ? & ?). done.
Qed.

#[global] Arguments read_until_newline : simpl never.
#[global] Arguments br_read_exact : simpl never.
