(* ===== verification/Transport.v ===== *)
(** * The debug adapter's framing: [dap/src/transport.rs]

    [Content-Length: N], a blank line, [N] bytes of JSON.  The JSON library is
    a parameter ([SerdeJson]): its value type, its constructors and accessors,
    and the two conversions with bytes.  [frame_at] reads one message from
    plain bytes; the code's loops over a [BufRead] are proved to compute it
    however the bytes arrive. *)

From S2P Require Import Prelude.
From S2P Require Import StdIo.
From S2P Require Import Text.
From S2P Require Import BufIo.

(** ** What the code uses of [serde_json] *)

Class SerdeJson := {
  Value : Type;
  json_error : Type;
  to_vec : Value → result json_error (list byte);
  from_slice : list byte → result json_error Value;
  to_vec_total v : to_vec v ≠ Panic;
  from_slice_total bs : from_slice bs ≠ Panic;
  (** [json!] literals. *)
  j_null : Value;
  j_bool : bool → Value;
  j_int : Z → Value;
  j_string : list byte → Value;
  j_array : list Value → Value;
  j_object : list (list byte * Value) → Value;
  (** [Value::get], [as_str], [as_u64]. *)
  j_get : Value → list byte → option Value;
  as_str : Value → option (list byte);
  as_u64 : Value → option Z
}.

Section transport.
Context {SJ : SerdeJson}.

Inductive transport_error :=
| MissingContentLength
| InvalidContentLength (value : list byte)
| MalformedJson (e : json_error)
| Io (e : io_error)
| IoNotUtf8.     (** [Io] with [read_line]'s error for bytes that are not UTF-8 *)

(** ** Writing *)

Definition wr (bs : list byte) : stm sink transport_error unit := λ w,
  let '(r, w) := write_all bs w in (map_err Io r, w).

Fixpoint wrs (pieces : list (list byte)) : stm sink transport_error unit :=
  match pieces with
  | [] => mret tt
  | p :: pieces => wr p;; wrs pieces
  end.

(** [write!] hands over its three pieces in turn; [flush] is a call that may
    fail and writes nothing. *)
Definition write_frame (message : Value) : stm sink transport_error unit :=
  payload ← st_lift (map_err MalformedJson (to_vec message));
  wrs [str "Content-Length: "; dec (blen payload); [x0d; x0a; x0d; x0a]; payload; []].

(** ** Reading *)

(** One line of the header block. *)
Inductive header_step := More (content_length : option Z) | Done (content_length : Z).

Definition header_line (content_length : option Z) (line : list byte)
    : result transport_error header_step :=
  let line := trim_end line in
  if bool_decide (line = []) then
    match content_length with Some n => Ok (Done n) | None => Err MissingContentLength end
  else
    match strip_prefix (str "Content-Length:") line with
    | Some value =>
        let value := trim value in
        match parse_u 64 value with
        | Some n => Ok (More (Some n))
        | None => Err (InvalidContentLength value)
        end
    | None => Ok (More content_length)
    end.

Definition read_line (b : bufreader) : result transport_error (list byte) * bufreader :=
  match read_until_newline b with
  | (Ok line, b) => (if utf8_valid line then Ok line else Err IoNotUtf8, b)
  | (r, b) => (map_err Io r, b)
  end.

Fixpoint read_headers_loop (fuel : nat) (content_length : option Z) (saw_any_byte : bool) (b : bufreader)
    : result transport_error (option Z) * bufreader :=
  match fuel with
  | O => (Panic, b)
  | S fuel =>
      match read_line b with
      | (Ok [], b) => (if saw_any_byte then Err MissingContentLength else Ok None, b)
      | (Ok line, b) =>
          match header_line content_length line with
          | Ok (Done n) => (Ok (Some n), b)
          | Ok (More content_length) => read_headers_loop fuel content_length true b
          | Err e => (Err e, b)
          | Panic => (Panic, b)
          end
      | (Err e, b) => (Err e, b)
      | (Panic, b) => (Panic, b)
      end
  end.

(** Every line but the last takes at least a byte. *)
Definition read_headers (b : bufreader) : result transport_error (option Z) * bufreader :=
  read_headers_loop (S (length (br_data b))) None false b.

(** [vec![0u8; n]] panics past [isize::MAX]. *)
Definition ISIZE_MAX : Z := 2 ^ 63 - 1.

Definition read_frame (b : bufreader) : result transport_error (option Value) * bufreader :=
  match read_headers b with
  | (Ok None, b) => (Ok None, b)
  | (Ok (Some content_length), b) =>
      if ISIZE_MAX <? content_length then (Panic, b)
      else
        match br_read_exact (Z.to_nat content_length) b with
        | (Ok payload, b) => (v ← map_err MalformedJson (from_slice payload); Ok (Some v), b)
        | (Err e, b) => (Err (Io e), b)
        | (Panic, b) => (Panic, b)
        end
  | (Err e, b) => (Err e, b)
  | (Panic, b) => (Panic, b)
  end.

(** ** One message of plain bytes *)

Fixpoint headers_at (fuel : nat) (content_length : option Z) (saw_any_byte : bool) (d : list byte)
    : result transport_error (option Z) * list byte :=
  match fuel with
  | O => (Panic, d)
  | S fuel =>
      let line := first_line d in
      let rest := after_line d in
      if negb (utf8_valid line) then (Err IoNotUtf8, rest)
      else if bool_decide (line = []) then
        (if saw_any_byte then Err MissingContentLength else Ok None, rest)
      else
        match header_line content_length line with
        | Ok (Done n) => (Ok (Some n), rest)
        | Ok (More content_length) => headers_at fuel content_length true rest
        | Err e => (Err e, rest)
        | Panic => (Panic, rest)
        end
  end.

Definition payload_at (n : Z) (d : list byte) : result transport_error (option Value) * list byte :=
  if ISIZE_MAX <? n then (Panic, d)
  else if blen d <? n then (Err (Io UnexpectedEof), [])
  else (v ← map_err MalformedJson (from_slice (take (Z.to_nat n) d)); Ok (Some v), drop (Z.to_nat n) d).

Definition frame_at (d : list byte) : result transport_error (option Value) * list byte :=
  match headers_at (S (length d)) None false d with
  | (Ok None, rest) => (Ok None, rest)
  | (Ok (Some n), rest) => payload_at n rest
  | (Err e, rest) => (Err e, rest)
  | (Panic, rest) => (Panic, rest)
  end.

(** The bytes of a message. *)
Definition frame (payload : list byte) : list byte :=
  str "Content-Length: " ++ dec (blen payload) ++ [x0d; x0a; x0d; x0a] ++ payload.

(** ** Lemmas: trimming and digits *)

Lemma ascii_utf8 l : Forall (λ b, byte_in 0x00 0x7F b = true) l → utf8_valid l = true.
Proof. induction 1 as [|b l Hb _ IH]; cbn; [done|]. by rewrite Hb. Qed.

Lemma utf8_ascii_app l k : Forall (λ b, byte_in 0x00 0x7F b = true) l → utf8_valid (l ++ k) = utf8_valid k.
Proof. induction 1 as [|b l Hb _ IH]; cbn; [done|]. by rewrite Hb. Qed.

Lemma no_newline d : Forall (λ b, b ≠ x0a) d → to_newline d = None.
Proof. induction 1 as [|b l Hb _ IH]; cbn; [done|]. by rewrite bool_decide_false, IH. Qed.

Lemma digit_plain b :
  is_Some (digit_value 10 b) →
  byte_in 0x00 0x7F b = true ∧ b ≠ x0a ∧ space1 b = false ∧
  (∀ c, space2 b c = false) ∧ (∀ c, space2 c b = false) ∧
  (∀ c d, space3 b c d = false) ∧ (∀ c d, space3 d c b = false).
Proof.
  intros [z Hz]. destruct b; try (vm_compute in Hz; discriminate Hz);
    (split_and!; [reflexivity|discriminate|reflexivity|..]);
    intros; unfold space2, space3; cbn [byte_is bool_decide]; rewrite ?andb_false_r; reflexivity.
Qed.

Lemma trim_end_digits l b ws :
  is_Some (digit_value 10 b) → Forall (λ a, space1 a = true) ws → trim_end ((l ++ [b]) ++ ws) = l ++ [b].
Proof.
  intros Hb Hws. apply digit_plain in Hb as (_ & _ & H1 & _ & H2 & _ & H3).
  unfold trim_end. rewrite rev_app_distr. apply Forall_rev in Hws.
  assert (Hstop : trim_by space1 (λ a b, space2 b a) (λ a b c, space3 c b a) (rev (l ++ [b])) = rev (l ++ [b])).
  { rewrite rev_app_distr. cbn. rewrite H1. destruct (rev l) as [|c r]; [done|].
    rewrite H2. destruct r as [|d r]; [done|]. by rewrite H3. }
  rewrite <- (rev_involutive (l ++ [b])) at 2. f_equal.
  induction (rev ws) as [|a r IH]; [exact Hstop|]. apply Forall_cons_iff in Hws as [Ha Hws].
  cbn [app trim_by]. rewrite Ha. by apply IH.
Qed.

Lemma trim_start_digits ws b l :
  is_Some (digit_value 10 b) → Forall (λ a, space1 a = true) ws → trim_start (ws ++ b :: l) = b :: l.
Proof.
  intros Hb Hws. apply digit_plain in Hb as (_ & _ & H1 & H2 & _ & H3 & _).
  unfold trim_start. induction Hws as [|a ws Ha _ IH]; cbn [app trim_by].
  - rewrite H1. destruct l as [|c l]; [done|]. rewrite H2. destruct l as [|d l]; [done|]. by rewrite H3.
  - by rewrite Ha.
Qed.

(** ** Reading is a function of the bytes *)

Lemma first_line_length d : first_line d ≠ [] → (length (after_line d) < length d)%nat.
Proof.
  intros H. rewrite (first_line_split d) at 2. rewrite length_app. destruct (first_line d); [done|cbn; lia].
Qed.

Lemma read_line_spec b :
  let '(r, b') := read_line b in
  (br_quiet b = true → br_quiet b' = true) ∧
  ((br_quiet b = false ∧ ∃ e, r = Err (Io e)) ∨
   br_data b' = after_line (br_data b) ∧
   r = if utf8_valid (first_line (br_data b)) then Ok (first_line (br_data b)) else Err IoNotUtf8).
Proof.
  unfold read_line. pose proof (read_until_spec b) as H. destruct (read_until_newline b) as [[l|e|] b1]; [|..|done].
  - destruct H as [-> (D & _ & Q)]. split; [exact Q|]. right. split; [|done].
    rewrite (first_line_split (br_data b)) in D at 1. by apply app_inv_head in D.
  - split; [congruence|]. left. split; [done|]. by exists e.
Qed.

Lemma read_headers_loop_spec fuel len saw b :
  (length (br_data b) < fuel)%nat →
  let '(r, b') := read_headers_loop fuel len saw b in
  (br_quiet b = true → br_quiet b' = true) ∧
  ((br_quiet b = false ∧ ∃ e, r = Err (Io e)) ∨ (r, br_data b') = headers_at fuel len saw (br_data b)).
Proof.
  revert len saw b. induction fuel as [|fuel IH]; intros len saw b Hf; [lia|].
  cbn [read_headers_loop headers_at]. pose proof (read_line_spec b) as H.
  destruct (read_line b) as [r b1]. destruct H as [Q [[Hq [e ->]]|[Hd ->]]]; [by eauto|].
  rewrite <- Hd. destruct (utf8_valid _); cbn [negb]; [|by eauto].
  pose proof (first_line_length (br_data b)) as Hlen. rewrite <- Hd in Hlen.
  destruct (first_line (br_data b)) as [|x l]; [by eauto|]. rewrite bool_decide_false by done.
  destruct (header_line len (x :: l)) as [[len'|n]|e|]; [|by eauto..].
  specialize (IH len' true b1). destruct (read_headers_loop fuel len' true b1) as [r b2].
  destruct IH as [Q2 IH]; [specialize (Hlen ltac:(done)); lia|]. split; [auto|].
  destruct IH as [[Hq IH]|IH]; [left|by right]. split; [|done].
  destruct (br_quiet b); [|done]. by rewrite Q in Hq.
Qed.

Lemma header_line_no_panic len l : header_line len l ≠ Panic.
Proof.
  unfold header_line. repeat case_match; done.
Qed.

Lemma headers_at_no_panic fuel len saw d : (length d < fuel)%nat → (headers_at fuel len saw d).1 ≠ Panic.
Proof.
  revert len saw d. induction fuel as [|fuel IH]; intros len saw d Hf; [lia|]. cbn [headers_at].
  destruct (negb _); [done|]. case_bool_decide as Hl; [by destruct saw|].
  pose proof (header_line_no_panic len (first_line d)).
  destruct (header_line len (first_line d)) as [[|]| |]; [|done..].
  apply IH. pose proof (first_line_length d Hl). lia.
Qed.

(** The header block of a written message. *)
Lemma headers_at_frame fuel n rest :
  in_u 64 n → (2 ≤ fuel)%nat →
  headers_at fuel None false (str "Content-Length: " ++ dec n ++ [x0d; x0a; x0d; x0a] ++ rest) = (Ok (Some n), rest).
Proof.
  intros Hn Hf. destruct fuel as [|[|fuel]]; [lia..|]. cbn [headers_at].
  pose proof (digits_digits 10 n ltac:(lia)) as Hd. pose proof (digits_nonempty 10 n) as Hne. fold (dec n) in *.
  assert (Hasc : Forall (λ b, byte_in 0x00 0x7F b = true ∧ b ≠ x0a) (dec n)).
  { eapply Forall_impl; [exact Hd|]. intros b (? & ? & _)%digit_plain. done. }
  set (line := str "Content-Length: " ++ dec n ++ [x0d; x0a]).
  assert (Hline : first_line (str "Content-Length: " ++ dec n ++ [x0d; x0a; x0d; x0a] ++ rest) = line).
  { replace (str "Content-Length: " ++ dec n ++ [x0d; x0a; x0d; x0a] ++ rest)
      with ((str "Content-Length: " ++ dec n ++ [x0d]) ++ x0a :: x0d :: x0a :: rest) by (by rewrite <- !app_assoc).
    rewrite first_line_app; [unfold line; by rewrite <- !app_assoc|]. apply no_newline.
    apply Forall_app. split; [by repeat constructor|]. apply Forall_app. split; [|by repeat constructor].
    eapply Forall_impl; [exact Hasc|]. by intros b [_ ?]. }
  assert (Hafter : after_line (str "Content-Length: " ++ dec n ++ [x0d; x0a; x0d; x0a] ++ rest) = x0d :: x0a :: rest).
  { unfold after_line. rewrite Hline.
    replace (str "Content-Length: " ++ dec n ++ [x0d; x0a; x0d; x0a] ++ rest) with (line ++ x0d :: x0a :: rest)
      by (unfold line; by rewrite <- !app_assoc).
    apply drop_app_length. }
  rewrite Hline, Hafter.
  assert (Hutf : utf8_valid line = true).
  { apply ascii_utf8. apply Forall_app. split; [by repeat constructor|]. apply Forall_app. split; [|by repeat constructor].
    eapply Forall_impl; [exact Hasc|]. by intros b [? _]. }
  rewrite Hutf. cbn [negb]. rewrite bool_decide_false by done.
  assert (Hhd : header_line None line = Ok (More (Some n))).
  { destruct (exists_last Hne) as (l & b & Hlb).
    assert (Hb : is_Some (digit_value 10 b)).
    { rewrite Hlb in Hd. apply Forall_app in Hd as [_ Hd]. by apply Forall_cons_iff in Hd as [? _]. }
    assert (Htrim : trim_end line = str "Content-Length: " ++ dec n).
    { unfold line. rewrite Hlb. pose proof (trim_end_digits (str "Content-Length: " ++ l) b [x0d; x0a] Hb) as H.
      rewrite <- !app_assoc in H |- *. apply H. by repeat constructor. }
    unfold header_line. rewrite Htrim, bool_decide_false by done.
    assert (Hstrip : strip_prefix (str "Content-Length:") (str "Content-Length: " ++ dec n) = Some (str " " ++ dec n)).
    { by apply strip_prefix_Some. }
    rewrite Hstrip.
    assert (Hval : trim (str " " ++ dec n) = dec n).
    { unfold trim. destruct (dec n) as [|c k] eqn:Ec; [done|].
      rewrite trim_start_digits; [| |by repeat constructor].
      - rewrite Hlb. pose proof (trim_end_digits l b [] Hb) as H. rewrite app_nil_r in H. apply H. constructor.
      - by apply Forall_cons_iff in Hd as [? _]. }
    rewrite Hval, parse_u_dec by done. done. }
  rewrite Hhd. cbn [headers_at].
  assert (Hf2 : first_line (x0d :: x0a :: rest) = [x0d; x0a]) by done.
  assert (Ha2 : after_line (x0d :: x0a :: rest) = rest) by (unfold after_line; by rewrite Hf2).
  rewrite Hf2, Ha2. done.
Qed.

Lemma headers_at_shrinks fuel len saw d n rest :
  headers_at fuel len saw d = (Ok (Some n), rest) → (length rest < length d)%nat.
Proof.
  revert len saw d. induction fuel as [|fuel IH]; intros len saw d; [done|]. cbn [headers_at].
  destruct (negb _); [done|]. case_bool_decide as Hl; [by destruct saw|].
  pose proof (first_line_length d Hl).
  destruct (header_line len (first_line d)) as [[len'|m]| |]; [|by intros [= _ <-]|done..].
  intros H1%IH. lia.
Qed.

(** A message takes up bytes, so a loop over messages ends. *)
Lemma frame_at_shrinks d v rest : frame_at d = (Ok (Some v), rest) → (length rest < length d)%nat.
Proof.
  unfold frame_at, payload_at. destruct (headers_at _ _ _ _) as [[[n|]| |] r] eqn:E; [|done..].
  apply headers_at_shrinks in E. destruct (_ <? _); [done|]. destruct (_ <? _); [done|].
  intros [= _ <-]. rewrite length_drop. lia.
Qed.

Lemma read_frame_spec b :
  let '(r, b') := read_frame b in
  (br_quiet b = false ∧ ∃ e, r = Err (Io e)) ∨
  r = (frame_at (br_data b)).1 ∧
  ∀ v, r = Ok v → br_data b' = (frame_at (br_data b)).2 ∧ (br_quiet b = true → br_quiet b' = true).
Proof.
  unfold read_frame, frame_at, read_headers.
  pose proof (read_headers_loop_spec (S (length (br_data b))) None false b ltac:(lia)) as H.
  destruct (read_headers_loop _ _ _ _) as [r b1]. destruct H as [Q [[Hq [e ->]]|Hh]]; [by eauto|].
  rewrite <- Hh. destruct r as [[n|]|e|]; [|by eauto..]. unfold payload_at.
  destruct (ISIZE_MAX <? n); [by eauto|].
  pose proof (br_read_exact_spec (Z.to_nat n) b1) as Hx. destruct (br_read_exact _ b1) as [[p|e|] b2]; [|..|done].
  - destruct Hx as (-> & Hle & D & _ & Q2). right.
    rewrite (proj2 (Z.ltb_ge _ _)) by (unfold blen; lia). split; [done|]. intros v _. split; [|auto]. cbn [snd].
    assert (Hl : length (take (Z.to_nat n) (br_data b1)) = Z.to_nat n) by (rewrite length_take; lia).
    revert D Hl. generalize (take (Z.to_nat n) (br_data b1)). intros p -> <-. by rewrite drop_app_length.
  - destruct e as [| |c]; [right|done|left].
    + rewrite (proj2 (Z.ltb_lt _ _)) by (unfold blen; lia). done.
    + destruct (br_quiet b); [by rewrite Q in Hx|eauto].
Qed.

(** ** Writing *)

Lemma wr_spec bs w :
  let '(r, w') := wr bs w in
  (accepts_all w → r = Ok tt ∧ accepts_all w') ∧
  match r with
  | Ok _ => snk_data w' = snk_data w ++ bs
  | Err _ => ∃ k, snk_data w' = snk_data w ++ take k bs
  | Panic => False
  end.
Proof.
  unfold wr, write_all, sink_write, accepts_all. destruct (snk_script w) as [|[|k c] sc]; cbn; [by split|split|split].
  - by intros [_ ?]%Forall_cons_iff.
  - done.
  - by intros [? _]%Forall_cons_iff.
  - by exists k.
Qed.

Lemma wrs_spec ps w :
  let '(r, w') := wrs ps w in
  (accepts_all w → r = Ok tt ∧ accepts_all w') ∧
  match r with
  | Ok _ => snk_data w' = snk_data w ++ concat ps
  | Err (Io _) => ∃ k, snk_data w' = snk_data w ++ take k (concat ps)
  | _ => False
  end.
Proof.
  revert w. induction ps as [|p ps IH]; intros w; cbn [wrs concat].
  { cbn. by rewrite app_nil_r. }
  pose proof (wr_spec p w) as Hw. unfold mbind, stm_bind. destruct (wr p w) as [r w1] eqn:E.
  destruct Hw as [Ha Hr]. destruct r as [[]|e|]; [|..|done].
  - specialize (IH w1). destruct (wrs ps w1) as [r2 w2]. destruct IH as [Ha2 Hr2].
    split; [intros Hw; apply Ha2; by apply Ha|]. rewrite Hr in Hr2.
    destruct r2 as [[]|[| | | |]|]; try done.
    + by rewrite Hr2, app_assoc.
    + destruct Hr2 as [k Hk]. exists (length p + k)%nat. rewrite Hk, take_app_add, app_assoc. done.
  - split; [intros Hw; by destruct (Ha Hw)|]. destruct Hr as [k Hk].
    assert (∃ e', e = Io e') as [e' ->].
    { unfold wr, write_all, sink_write in E. destruct (snk_script w) as [|[|? c] ?]; simplify_eq/=; eauto. }
    exists (k `min` length p)%nat. rewrite Hk. f_equal. rewrite take_app_le by lia.
    destruct (Nat.min_spec k (length p)) as [[_ ->]|[? ->]]; [done|]. by rewrite !take_ge by lia.
Qed.

(** A message reaches the sink whole, or a prefix of it does and the call
    fails; a message that does not serialise writes nothing. *)
Lemma write_frame_spec v w :
  let '(r, w') := write_frame v w in
  (accepts_all w → ∀ p, to_vec v = Ok p → r = Ok tt ∧ accepts_all w') ∧
  match r with
  | Ok _ => ∃ p, to_vec v = Ok p ∧ snk_data w' = snk_data w ++ frame p
  | Err (MalformedJson e) => to_vec v = Err e ∧ w' = w
  | Err (Io _) => ∃ p k, to_vec v = Ok p ∧ snk_data w' = snk_data w ++ take k (frame p)
  | _ => False
  end.
Proof.
  unfold write_frame. pose proof (to_vec_total v) as Ht.
  destruct (to_vec v) as [p|e|] eqn:Ev; cbn [map_err]; [|done..]. rewrite bind_lift.
  set (ps := [str "Content-Length: "; dec (blen p); [x0d; x0a; x0d; x0a]; p; []]).
  assert (Hframe : frame p = concat ps) by (unfold frame; cbn; by rewrite app_nil_r).
  pose proof (wrs_spec ps w) as H. destruct (wrs ps w) as [r w']. destruct H as [Ha Hr].
  split; [by intros Hw q _; apply Ha|].
  destruct r as [[]|[| | | |]|]; try done; [exists p; by rewrite Hframe|].
  destruct Hr as [k Hk]. exists p, k. by rewrite Hframe.
Qed.

(** ** Messages *)

(** Reading message after message. *)
Inductive reads : bufreader → list Value → bufreader → Prop :=
| reads_none b : reads b [] b
| reads_one b v b1 vs b2 : read_frame b = (Ok (Some v), b1) → reads b1 vs b2 → reads b (v :: vs) b2.

(** Writing message after message. *)
Fixpoint write_frames (vs : list Value) : stm sink transport_error unit :=
  match vs with
  | [] => mret tt
  | v :: vs => write_frame v;; write_frames vs
  end.

(** The library reads back the bytes it made of a message. *)
Definition carried (v : Value) : Prop :=
  ∃ p, to_vec v = Ok p ∧ from_slice p = Ok v ∧ blen p ≤ ISIZE_MAX.

Lemma frame_at_frame v p rest :
  from_slice p = Ok v → blen p ≤ ISIZE_MAX → frame_at (frame p ++ rest) = (Ok (Some v), rest).
Proof.
  intros Hv Hp. unfold frame_at, frame. rewrite <- !app_assoc.
  pose proof (blen_nonneg p). rewrite headers_at_frame.
  - unfold payload_at. rewrite (proj2 (Z.ltb_ge _ _)) by done.
    rewrite (proj2 (Z.ltb_ge _ _)) by (rewrite blen_app; pose proof (blen_nonneg rest); lia).
    assert (Hn : Z.to_nat (blen p) = length p) by (unfold blen; lia).
    rewrite Hn, take_app_length, drop_app_length, Hv. done.
  - split; [done|]. unfold ISIZE_MAX in Hp. lia.
  - rewrite length_app. cbn. lia.
Qed.

(** ** Properties *)

(** What [read_frame] answers depends only on the bytes, not on how the
    reads cut or interrupt them: it is [frame_at] of the bytes to come, leaving
    what follows the message, and a message takes up at least a byte.  A source
    that fails adds only I/O errors, and the one panic is a header that
    announces more than [isize::MAX] bytes. *)
Theorem read_frame_bytes b :
  let '(r, b') := read_frame b in
  (br_quiet b = true → r = (frame_at (br_data b)).1) ∧
  (r = (frame_at (br_data b)).1 ∨ ∃ e, r = Err (Io e)) ∧
  (∀ v, r = Ok v → br_data b' = (frame_at (br_data b)).2) ∧
  (∀ v, r = Ok (Some v) → (length (br_data b') < length (br_data b))%nat) ∧
  (r = Panic → ∃ n rest,
     headers_at (S (length (br_data b))) None false (br_data b) = (Ok (Some n), rest) ∧ ISIZE_MAX < n).
Proof.
  pose proof (read_frame_spec b) as H. destruct (read_frame b) as [r b'].
  destruct H as [[Hq [e ->]]|[-> H]]; [by split_and!; eauto; congruence|].
  split_and!; try done; [by left| | |].
  - intros v Hv. by destruct (H v Hv).
  - intros v Hv. destruct (H _ Hv) as [-> _]. apply (frame_at_shrinks _ v).
    rewrite <- Hv. by destruct (frame_at _).
  - unfold frame_at. pose proof (headers_at_no_panic (S (length (br_data b))) None false (br_data b) ltac:(lia)) as Hp.
    destruct (headers_at _ _ _ _) as [[[n|]| |] rest]; [|done..]. unfold payload_at.
    destruct (Z.ltb_spec ISIZE_MAX n); [intros _; eauto|]. destruct (_ <? _); [done|].
    pose proof (from_slice_total (take (Z.to_nat n) rest)). by destruct (from_slice _).
Qed.

(** C26. Messages survive the wire: writing them one after another succeeds on
    a sink that accepts everything, and any reader of the written bytes,
    however they are cut, reads the same messages in order and then the end of
    the stream. *)
Theorem frames_roundtrip vs w b :
  Forall carried vs → accepts_all w → snk_data w = [] →
  br_quiet b = true → br_data b = snk_data (write_frames vs w).2 →
  (write_frames vs w).1 = Ok tt ∧ ∃ b', reads b vs b' ∧ (read_frame b').1 = Ok None.
Proof.
  intros Hvs Hw Hw0 Hq Hb.
  assert (Hwrite : ∀ vs w, Forall carried vs → accepts_all w →
    (write_frames vs w).1 = Ok tt ∧ ∃ ps, Forall2 (λ v p, from_slice p = Ok v ∧ blen p ≤ ISIZE_MAX) vs ps ∧
      snk_data (write_frames vs w).2 = snk_data w ++ concat (map frame ps)).
  { clear. induction vs as [|v vs IH]; intros w Hvs Hw; cbn [write_frames].
    { split; [done|]. exists []. split; [constructor|]. cbn. by rewrite app_nil_r. }
    apply Forall_cons_iff in Hvs as [(p & Hv & Hf & Hl) Hvs]. pose proof (write_frame_spec v w) as H.
    unfold mbind, stm_bind. destruct (write_frame v w) as [r w1]. destruct H as [Ha Hr].
    destruct (Ha Hw p Hv) as [-> Hw1]. destruct Hr as (q & Hq & Hd). assert (q = p) as -> by congruence.
    destruct (IH w1 Hvs Hw1) as (-> & ps & Hps & Hdata). split; [done|]. exists (p :: ps).
    split; [by constructor|]. cbn [map concat]. by rewrite Hdata, Hd, app_assoc. }
  destruct (Hwrite vs w Hvs Hw) as (H1 & ps & Hps & Hd). split; [done|]. rewrite Hw0 in Hd. cbn [app] in Hd.
  rewrite Hd in Hb. clear Hvs Hwrite H1 Hd. revert b Hq Hb. induction Hps as [|v p vs ps [Hf Hl] _ IH]; intros b Hq Hb.
  - exists b. split; [constructor|]. pose proof (read_frame_spec b) as H. cbn in Hb. rewrite Hb in H.
    destruct (read_frame b) as [r b1]. destruct H as [[Hq' _]|[-> _]]; [congruence|done].
  - cbn [map concat] in Hb. pose proof (read_frame_spec b) as H. rewrite Hb, (frame_at_frame v) in H by done.
    destruct (read_frame b) as [r b1] eqn:E. destruct H as [[Hq' _]|[-> H]]; [congruence|]. cbn [fst snd] in H.
    destruct (H _ eq_refl) as [Hd Hq1]. destruct (IH b1 (Hq1 Hq) Hd) as (b' & Hr & Hn).
    exists b'. split; [|done]. by eapply reads_one.
Qed.

End transport.
