(* ===== verification/SampleJson.v ===== *)
(** * A concrete JSON library

    The debug adapter's theorems are about any implementation of [SerdeJson];
    this one prints compact JSON (integers, no fractions) and parses it back.
    It serves the witnesses and the samples, which compute with it. *)

From S2P Require Import Prelude.
From S2P Require Import Text.
From S2P Require Import StdIo.
From S2P Require Import BufIo.
From S2P Require Import Transport.

#[warnings="-register-all"]
Inductive json :=
| JNull
| JBool (b : bool)
| JInt (z : Z)
| JString (s : list byte)
| JArray (l : list json)
| JObject (l : list (list byte * json)).

(** ** Printing *)

Definition escape (b : byte) : list byte :=
  if byte_is x22 b || byte_is x5c b then [x5c; b] else [b].
Definition print_string (s : list byte) : list byte := [x22] ++ (s ≫= escape) ++ [x22].

Definition commas (l : list (list byte)) : list byte :=
  match l with
  | [] => []
  | x :: l => x ++ (l ≫= λ y, str "," ++ y)
  end.

Fixpoint print (v : json) : list byte :=
  match v with
  | JNull => str "null"
  | JBool b => if b then str "true" else str "false"
  | JInt z => dec_i z
  | JString s => print_string s
  | JArray l => str "[" ++ commas (map print l) ++ str "]"
  | JObject l => str "{" ++ commas (map (λ p, print_string p.1 ++ str ":" ++ print p.2) l) ++ str "}"
  end.

(** ** Parsing *)

Fixpoint parse_chars (s acc : list byte) : option (list byte * list byte) :=
  match s with
  | [] => None
  | b :: s =>
      if byte_is x22 b then Some (acc, s)
      else if byte_is x5c b then
        match s with [] => None | c :: s => parse_chars s (acc ++ [c]) end
      else parse_chars s (acc ++ [b])
  end.

Definition parse_string (s : list byte) : option (list byte * list byte) :=
  match s with
  | b :: s => if byte_is x22 b then parse_chars s [] else None
  | [] => None
  end.

Definition parse_int (s : list byte) : option (json * list byte) :=
  let '(sign, s) := match strip_prefix (str "-") s with Some s => (-1, s) | None => (1, s) end in
  n ← parse_u 64 (take_while is_ascii_digit s);
  Some (JInt (sign * n), drop_while is_ascii_digit s).

Section items.
Context {A : Type} (item : list byte → option (A * list byte)) (close : byte).

(** Items separated by commas up to the closing byte. *)
Fixpoint parse_more (fuel : nat) (acc : list A) (s : list byte) : option (list A * list byte) :=
  match fuel, s with
  | S fuel, b :: s =>
      if byte_is close b then Some (acc, s)
      else if byte_is x2c b then '(x, s) ← item s; parse_more fuel (acc ++ [x]) s
      else None
  | _, _ => None
  end.

Definition parse_items (fuel : nat) (s : list byte) : option (list A * list byte) :=
  match s with
  | b :: rest => if byte_is close b then Some ([], rest) else '(x, s) ← item s; parse_more fuel [x] s
  | [] => None
  end.
End items.

Fixpoint parse_value (fuel : nat) (s : list byte) : option (json * list byte) :=
  match fuel with
  | O => None
  | S fuel =>
      match s with
      | [] => None
      | b :: rest =>
          if byte_is x22 b then '(t, s) ← parse_string s; Some (JString t, s)
          else if byte_is x5b b then '(l, s) ← parse_items (parse_value fuel) x5d fuel rest; Some (JArray l, s)
          else if byte_is x7b b then
            '(l, s) ← parse_items
              (λ s, '(k, s) ← parse_string s; s ← strip_prefix (str ":") s;
                    '(v, s) ← parse_value fuel s; Some ((k, v), s)) x7d fuel rest;
            Some (JObject l, s)
          else match strip_prefix (str "null") s, strip_prefix (str "true") s, strip_prefix (str "false") s with
               | Some s, _, _ => Some (JNull, s)
               | _, Some s, _ => Some (JBool true, s)
               | _, _, Some s => Some (JBool false, s)
               | _, _, _ => parse_int s
               end
      end
  end.

Definition parse (s : list byte) : option json :=
  match parse_value (S (length s)) s with Some (v, []) => Some v | _ => None end.

(** ** The instance *)

Definition json_get (v : json) (k : list byte) : option json :=
  match v with JObject l => snd ∘ snd <$> list_find (λ p, p.1 = k) l | _ => None end.

Definition sample_from_slice (s : list byte) : result unit json :=
  match parse s with Some v => Ok v | None => Err tt end.

Lemma sample_from_slice_total s : sample_from_slice s ≠ Panic.
Proof. unfold sample_from_slice. by destruct (parse s). Qed.

#[export] Instance sample_json : SerdeJson.
Proof.
  refine {|
    Value := json; json_error := unit;
    to_vec v := Ok (print v);
    from_slice := sample_from_slice;
    j_null := JNull; j_bool := JBool; j_int := JInt; j_string := JString; j_array := JArray; j_object := JObject;
    j_get := json_get;
    as_str v := match v with JString s => Some s | _ => None end;
    as_u64 v := match v with JInt z => if (0 <=? z) && (z <? 2 ^ 64) then Some z else None | _ => None end |};
  [done|exact sample_from_slice_total].
Defined.

(** ** Samples of the framing *)

Lemma sample_carried v : from_slice (print v) = Ok v → (blen (print v) <=? ISIZE_MAX) = true → carried v.
Proof. intros H Hl%Z.leb_le. by exists (print v). Qed.

Definition initialize_message : json :=
  JObject [(str "seq", JInt 1); (str "type", JString (str "request")); (str "command", JString (str "initialize"))].
Definition launch_message : json :=
  JObject [(str "seq", JInt 2); (str "command", JString (str "launch"));
           (str "arguments", JObject [(str "program", JString (str "./a.out"))])].

(** The two messages in pieces of one to four bytes, with an interruption. *)
Definition chopped (d : list byte) : bufreader :=
  BufReader [] 3 (Source d [StdIo.Chunk 0; StdIo.ReadInterrupted; StdIo.Chunk 2]).

Lemma frames_roundtrip_witness :
  ∃ b', reads (chopped (snk_data (write_frames [initialize_message; launch_message] (Sink [] [])).2))
          [initialize_message; launch_message] b' ∧ (read_frame b').1 = Ok None.
Proof.
  refine (proj2 (frames_roundtrip [initialize_message; launch_message] (Sink [] [])
    (chopped (snk_data (write_frames [initialize_message; launch_message] (Sink [] [])).2)) _ _ _ _ _)).
  - apply Forall_cons_2; [|apply Forall_cons_2; [|apply Forall_nil_2]];
      (apply sample_carried; vm_compute; reflexivity).
  - apply Forall_nil_2.
  - vm_compute. reflexivity.
  - vm_compute. reflexivity.
  - vm_compute. reflexivity.
Defined.

(** A header that announces 2^63 bytes panics the adapter; one byte less and it
    would wait for them. *)
Definition is_panic {E A} (r : result E A) : bool := match r with Panic => true | _ => false end.

Lemma huge_content_length_panics :
  is_panic (read_frame (chopped (str "Content-Length: 9223372036854775808" ++ [x0d; x0a; x0d; x0a]))).1 = true.
Proof. vm_compute. reflexivity. Qed.
