(* ===== verification/Server.v ===== *)
(** * The debug adapter's request loop: [dap/src/protocol.rs], [backend.rs],
    [stub.rs], [server.rs]

    The server holds a backend behind an interface ([DebugBackend]), answers
    each request of a framed stream in turn and numbers what it sends.  The
    backend that replays a trace is in [ReplayBackend]; the stub is here.  How
    a request envelope is decoded ([Deserialize], derived) is a parameter. *)

From S2P Require Import Prelude.
From S2P Require Import StdIo.
From S2P Require Import Text.
From S2P Require Import BufIo.
From S2P Require Import Transport.
From S2P Require Import SampleJson.

(** ** What a backend answers: [backend.rs] *)

Inductive StopInfo :=
| Stopped (reason : list byte) (thread_id : Z)
| Exited (code : Z).

Inductive resume_kind := Continue | ReverseContinue | StepBack | Next | StepIn | StepOut.

#[export] Instance resume_kind_eq_dec : EqDecision resume_kind.
Proof. solve_decision. Defined.

Inductive backend_error :=
| NotSupported (message : list byte)
| Engine (message : list byte)
| NoTracee
| BadArgs (message : list byte).

Definition backend_error_display (e : backend_error) : list byte :=
  match e with
  | NotSupported m | Engine m => m
  | NoTracee => str "no live replay tracee: the target has exited or was not launched from a trace"
  | BadArgs m => str "invalid request arguments: " ++ m
  end.

(** [stub.rs]: [MAIN_THREAD_ID]. *)
Definition MAIN_THREAD_ID : Z := 1.

Definition StopInfo_stopped (reason : list byte) : StopInfo := Stopped reason MAIN_THREAD_ID.

(** [DebugBackend]: an operation that resumes the target answers [None] when
    the target has not come to rest within the fuel the backend was given. *)
Class DebugBackend {SJ : SerdeJson} (B : Type) := {
  bk_launch : Value → stm B backend_error (option StopInfo);
  bk_threads : stm B backend_error Value;
  bk_stack_trace : Value → stm B backend_error Value;
  bk_scopes : Value → stm B backend_error Value;
  bk_variables : Value → stm B backend_error Value;
  bk_resume : resume_kind → stm B backend_error (option StopInfo);
  bk_list_checkpoints : stm B backend_error Value;
  bk_task_timeline : stm B backend_error Value;
  bk_jump_to_event : Value → stm B backend_error (option StopInfo);
  bk_checkpoint_note : B → option (list byte)
}.

(** ** The envelope: [protocol.rs] *)

Section protocol.
Context {SJ : SerdeJson}.

Record Request := MkRequest { rq_seq : Z; rq_command : list byte; rq_arguments : Value }.

Definition success (seq : Z) (request : Request) (body : Value) : Value :=
  j_object [(str "seq", j_int seq); (str "type", j_string (str "response"));
            (str "request_seq", j_int (rq_seq request)); (str "command", j_string (rq_command request));
            (str "success", j_bool true); (str "body", body)].

Definition failure (seq : Z) (request : Request) (message : list byte) : Value :=
  j_object [(str "seq", j_int seq); (str "type", j_string (str "response"));
            (str "request_seq", j_int (rq_seq request)); (str "command", j_string (rq_command request));
            (str "success", j_bool false); (str "message", j_string message)].

Definition event (seq : Z) (name : list byte) (body : Value) : Value :=
  j_object [(str "seq", j_int seq); (str "type", j_string (str "event"));
            (str "event", j_string name); (str "body", body)].

Definition empty_object : Value := j_object [].

(** ** The stub target: [stub.rs], [StubBackend] *)

Definition stub_threads : Value :=
  j_object [(str "threads", j_array [j_object [(str "id", j_int MAIN_THREAD_ID); (str "name", j_string (str "main"))]])].

(** The em dash of the canned texts, in UTF-8. *)
Definition em_dash : list byte := [xe2; x80; x94].

Definition stub_frame (i : Z) (name : list byte) (line column : Z) : Value :=
  j_object [(str "id", j_int i); (str "name", j_string name); (str "line", j_int line); (str "column", j_int column)].

Definition stub_stack_trace : Value :=
  j_object
    [(str "stackFrames", j_array
        [stub_frame 1 (str "main (stub target " ++ em_dash ++ str " recording/replay not yet wired)") 1 1;
         stub_frame 2 (str "_start (stub)") 0 0]);
     (str "totalFrames", j_int 2)].

Definition stub_scopes : Value :=
  j_object [(str "scopes", j_array
    [j_object [(str "name", j_string (str "Locals")); (str "variablesReference", j_int 1);
               (str "expensive", j_bool false)]])].

Definition stub_variables : Value :=
  j_object [(str "variables", j_array
    [j_object [(str "name", j_string (str "mirrorscope"));
               (str "value", j_string (str "stub target " ++ em_dash ++ str " see issues #4/#6 for real state"));
               (str "variablesReference", j_int 0)]])].

(** A quotation mark. *)
Definition quote : list byte := [x22].

Definition REVERSE_STUB_MESSAGE : list byte :=
  str "not wired to the replay engine: reverse execution needs a recording (launch with a "
  ++ quote ++ str "trace" ++ quote ++ str " argument)".

Definition JUMP_STUB_MESSAGE : list byte :=
  str "jumpToEvent needs the replay engine: launch with a " ++ quote ++ str "trace" ++ quote ++ str " argument".

Definition stub_resume (kind : resume_kind) : stm unit backend_error (option StopInfo) :=
  match kind with
  | StepBack | ReverseContinue => st_throw (NotSupported REVERSE_STUB_MESSAGE)
  | Continue | Next | StepIn | StepOut => mret (Some (StopInfo_stopped (str "step")))
  end.

#[export] Instance StubBackend : DebugBackend unit := {|
  bk_launch _ := mret (Some (StopInfo_stopped (str "entry")));
  bk_threads := mret stub_threads;
  bk_stack_trace _ := mret stub_stack_trace;
  bk_scopes _ := mret stub_scopes;
  bk_variables _ := mret stub_variables;
  bk_resume := stub_resume;
  bk_list_checkpoints := mret (j_object [(str "checkpoints", j_array [])]);
  bk_task_timeline := mret (j_object [(str "tasks", j_array [])]);
  bk_jump_to_event _ := st_throw (NotSupported JUMP_STUB_MESSAGE);
  bk_checkpoint_note _ := None |}.

End protocol.

(** ** The server: [server.rs] *)

Definition DEFAULT_CHECKPOINT_INTERVAL : Z := 200.

Section server.
Context {SJ : SerdeJson} {B : Type} {DB : DebugBackend B}.
(** The derived decoding of a request, and [select_replay_backend]: the backend
    that takes over, or none on a platform without a replay engine. *)
Context (request_of : Value → option Request).
Context (select_replay_backend : list byte → Z → stm B (list byte) (option B)).

(** [Server] with the writer it is given. *)
Record conn := MkConn { next_seq : Z; backend : B; out : sink }.
Definition set_next_seq n c := MkConn n (backend c) (out c).
Definition set_backend b c := MkConn (next_seq c) b (out c).
Definition set_out w c := MkConn (next_seq c) (backend c) w.

#[local] Abbreviation M := (stm conn transport_error).

(** A call of the backend: its answer, whichever it is. *)
Definition ask {E A} (op : stm B E A) : M (result E A) := λ c,
  let '(r, b) := op (backend c) in
  match r with
  | Panic => (Panic, set_backend b c)
  | _ => (Ok r, set_backend b c)
  end.

Definition send (v : Value) : M unit := λ c,
  let '(r, w) := write_frame v (out c) in (r, set_out w c).

Definition bump_seq : M Z :=
  n ← st_gets next_seq;
  n ← st_lift (expect (checked_add 64 n 1));
  st_modify (set_next_seq n);;
  mret n.

Definition respond_success (request : Request) (body : Value) : M unit :=
  seq ← bump_seq; send (success seq request body).

Definition respond_failure (request : Request) (message : list byte) : M unit :=
  seq ← bump_seq; send (failure seq request message).

Definition emit_event (name : list byte) (body : Value) : M unit :=
  seq ← bump_seq; send (event seq name body).

Definition output_body (message : list byte) : Value :=
  j_object [(str "category", j_string (str "stderr")); (str "output", j_string (message ++ [x0a]))].

Definition emit_output (message : list byte) : M unit := emit_event (str "output") (output_body message).

Definition stopped_body (reason : list byte) (thread_id : Z) : Value :=
  j_object [(str "reason", j_string reason); (str "threadId", j_int thread_id);
            (str "allThreadsStopped", j_bool true)].

Definition emit_stop (stop : StopInfo) : M unit :=
  match stop with
  | Stopped reason thread_id => emit_event (str "stopped") (stopped_body reason thread_id)
  | Exited code =>
      emit_event (str "exited") (j_object [(str "exitCode", j_int code)]);;
      emit_event (str "terminated") empty_object
  end.

Definition fail (request : Request) (error : backend_error) : M unit :=
  let message := backend_error_display error in
  emit_output message;; respond_failure request message.

Definition answer (request : Request) (op : stm B backend_error Value) : M (option unit) :=
  body ← ask op;
  match body with
  | Ok body => respond_success request body;; mret (Some tt)
  | Err error => fail request error;; mret (Some tt)
  | Panic => st_lift Panic
  end.

(** The common shape of [on_resume] and [on_jump]: the response, then the stop. *)
Definition come_to_rest (request : Request) (body : Value) (op : stm B backend_error (option StopInfo))
    : M (option unit) :=
  r ← ask op;
  match r with
  | Ok (Some stop) => respond_success request body;; emit_stop stop;; mret (Some tt)
  | Ok None => mret None
  | Err error => fail request error;; mret (Some tt)
  | Panic => st_lift Panic
  end.

Definition on_resume (request : Request) (kind : resume_kind) : M (option unit) :=
  let body := if bool_decide (kind = Continue)
              then j_object [(str "allThreadsContinued", j_bool true)] else empty_object in
  come_to_rest request body (bk_resume kind).

Definition on_jump (request : Request) : M (option unit) :=
  come_to_rest request empty_object (bk_jump_to_event (rq_arguments request)).

Definition capabilities : Value :=
  j_object [(str "supportsConfigurationDoneRequest", j_bool true); (str "supportsStepBack", j_bool true);
            (str "supportsRestartRequest", j_bool false); (str "supportsSetVariable", j_bool false)].

Definition on_initialize (request : Request) : M unit :=
  respond_success request capabilities;; emit_event (str "initialized") empty_object.

(** [on_launch], from the call of the backend. *)
Definition launch_backend (request : Request) : M (option unit) :=
  r ← ask (bk_launch (rq_arguments request));
  match r with
  | Ok (Some stop) =>
      respond_success request empty_object;;
      b ← st_gets backend;
      match bk_checkpoint_note b with Some note => emit_output note | None => mret tt end;;
      emit_stop stop;;
      mret (Some tt)
  | Ok None => mret None
  | Err error => fail request error;; mret (Some tt)
  | Panic => st_lift Panic
  end.

Definition UNAVAILABLE : list byte :=
  str "replay backend unavailable on this platform; serving the stub target".

Definition on_launch (request : Request) : M (option unit) :=
  match j_get (rq_arguments request) (str "trace") ≫= as_str with
  | Some trace =>
      let checkpoint_interval :=
        default DEFAULT_CHECKPOINT_INTERVAL
          (j_get (rq_arguments request) (str "checkpointInterval") ≫= as_u64) in
      r ← ask (select_replay_backend trace checkpoint_interval);
      match r with
      | Ok (Some b) => st_modify (set_backend b);; launch_backend request
      | Ok None => emit_output UNAVAILABLE;; launch_backend request
      | Err message => emit_output message;; respond_failure request message;; mret (Some tt)
      | Panic => st_lift Panic
      end
  | None => launch_backend request
  end.

Definition acknowledged : list (list byte) :=
  [str "configurationDone"; str "disconnect"; str "setBreakpoints"; str "setExceptionBreakpoints"].

Definition UNSUPPORTED (command : list byte) : list byte := str "unsupported request: " ++ command.

Definition dispatch (request : Request) : M (option unit) :=
  let is_ s := bool_decide (rq_command request = str s) in
  if is_ "initialize"%string then on_initialize request;; mret (Some tt)
  else if is_ "launch"%string || is_ "attach"%string then on_launch request
  else if bool_decide (rq_command request ∈ acknowledged) then
    respond_success request empty_object;; mret (Some tt)
  else if is_ "threads"%string then answer request bk_threads
  else if is_ "stackTrace"%string then answer request (bk_stack_trace (rq_arguments request))
  else if is_ "scopes"%string then answer request (bk_scopes (rq_arguments request))
  else if is_ "variables"%string then answer request (bk_variables (rq_arguments request))
  else if is_ "listCheckpoints"%string then answer request bk_list_checkpoints
  else if is_ "taskTimeline"%string then answer request bk_task_timeline
  else if is_ "continue"%string then on_resume request Continue
  else if is_ "reverseContinue"%string then on_resume request ReverseContinue
  else if is_ "stepBack"%string then on_resume request StepBack
  else if is_ "next"%string then on_resume request Next
  else if is_ "stepIn"%string then on_resume request StepIn
  else if is_ "stepOut"%string then on_resume request StepOut
  else if is_ "jumpToEvent"%string then on_jump request
  else respond_failure request (UNSUPPORTED (rq_command request));; mret (Some tt).

(** [run_buffered]: one message a turn, until [disconnect] or the end of the
    stream; [None] when a backend call did not come to rest. *)
Fixpoint run_loop (fuel : nat) (b : bufreader) (c : conn)
    : result transport_error (option unit) * bufreader * conn :=
  match fuel with
  | O => (Panic, b, c)
  | S fuel =>
      match read_frame b with
      | (Ok None, b) => (Ok (Some tt), b, c)
      | (Ok (Some message), b) =>
          match request_of message with
          | None => run_loop fuel b c
          | Some request =>
              match dispatch request c with
              | (Ok (Some _), c) =>
                  if bool_decide (rq_command request = str "disconnect") then (Ok (Some tt), b, c)
                  else run_loop fuel b c
              | (r, c) => (r, b, c)
              end
          end
      | (Err e, b) => (Err e, b, c)
      | (Panic, b) => (Panic, b, c)
      end
  end.

(** A message takes up at least a byte ([read_frame_bytes]). *)
Definition run_buffered (b : bufreader) (c : conn) : result transport_error (option unit) * bufreader * conn :=
  run_loop (S (length (br_data b))) b c.

(** [Server::new] and [run]. *)
Definition Server_new (stub : B) (w : sink) : conn := MkConn 0 stub w.
Definition run (reader : source) (c : conn) : result transport_error (option unit) * bufreader * conn :=
  run_buffered (BufReader_new reader) c.

(** [serve_stdio] over the locked standard streams, one with its own buffer and
    one flushed by every message. *)
Definition serve_stdio (stub : B) (stdin : bufreader) (stdout : sink)
    : result transport_error (option unit) * bufreader * conn :=
  run_buffered stdin (Server_new stub stdout).

(** ** The conversation, as the protocol has it

    [inspection] and [control] are the requests the backend answers with a body
    and those that move the target, with the body their response has. *)
Definition assoc {A} (k : list byte) (l : list (list byte * A)) : option A :=
  (λ p, p.2.2) <$> list_find (λ p, p.1 = k) l.

Definition inspection (q : Request) : option (stm B backend_error Value) :=
  assoc (rq_command q)
    [(str "threads", bk_threads);
     (str "stackTrace", bk_stack_trace (rq_arguments q));
     (str "scopes", bk_scopes (rq_arguments q));
     (str "variables", bk_variables (rq_arguments q));
     (str "listCheckpoints", bk_list_checkpoints);
     (str "taskTimeline", bk_task_timeline)].

Definition control (q : Request) : option (Value * stm B backend_error (option StopInfo)) :=
  assoc (rq_command q)
    [(str "continue", (j_object [(str "allThreadsContinued", j_bool true)], bk_resume Continue));
     (str "reverseContinue", (empty_object, bk_resume ReverseContinue));
     (str "stepBack", (empty_object, bk_resume StepBack));
     (str "next", (empty_object, bk_resume Next));
     (str "stepIn", (empty_object, bk_resume StepIn));
     (str "stepOut", (empty_object, bk_resume StepOut));
     (str "jumpToEvent", (empty_object, bk_jump_to_event (rq_arguments q)))].

Definition launching (q : Request) : Prop := rq_command q ∈ [str "launch"; str "attach"].

Definition refusal (n : Z) (q : Request) (message : list byte) : list Value :=
  [event (n + 1) (str "output") (output_body message); failure (n + 2) q message].

Definition stop_events (n : Z) (stop : StopInfo) : list Value :=
  match stop with
  | Stopped reason thread_id => [event (n + 1) (str "stopped") (stopped_body reason thread_id)]
  | Exited code => [event (n + 1) (str "exited") (j_object [(str "exitCode", j_int code)]);
                    event (n + 2) (str "terminated") empty_object]
  end.

Definition note_events (n : Z) (note : option (list byte)) : list Value :=
  match note with Some m => [event (n + 1) (str "output") (output_body m)] | None => [] end.

(** A launch on the backend in place. *)
Inductive starting (b : B) (n : Z) (q : Request) : list Value → B → Prop :=
| started stop b' :
    bk_launch (rq_arguments q) b = (Ok (Some stop), b') →
    starting b n q
      ([success (n + 1) q empty_object] ++ note_events (n + 1) (bk_checkpoint_note b')
       ++ stop_events (n + 1 + blen (note_events (n + 1) (bk_checkpoint_note b'))) stop) b'
| start_failed e b' :
    bk_launch (rq_arguments q) b = (Err e, b') →
    starting b n q (refusal n q (backend_error_display e)) b'.

(** One request, the backend before and after, and what is sent. *)
Inductive exchange (b : B) (n : Z) (q : Request) : list Value → B → Prop :=
| ex_initialize :
    rq_command q = str "initialize" →
    exchange b n q [success (n + 1) q capabilities; event (n + 2) (str "initialized") empty_object] b
| ex_acknowledge :
    rq_command q ∈ acknowledged → exchange b n q [success (n + 1) q empty_object] b
| ex_inspect op body b' :
    inspection q = Some op → op b = (Ok body, b') → exchange b n q [success (n + 1) q body] b'
| ex_inspect_failed op e b' :
    inspection q = Some op → op b = (Err e, b') →
    exchange b n q (refusal n q (backend_error_display e)) b'
| ex_control body op stop b' :
    control q = Some (body, op) → op b = (Ok (Some stop), b') →
    exchange b n q ([success (n + 1) q body] ++ stop_events (n + 1) stop) b'
| ex_control_failed body op e b' :
    control q = Some (body, op) → op b = (Err e, b') →
    exchange b n q (refusal n q (backend_error_display e)) b'
| ex_launch outs b' :
    launching q → j_get (rq_arguments q) (str "trace") ≫= as_str = None →
    starting b n q outs b' → exchange b n q outs b'
| ex_launch_trace trace b1 b2 outs b' :
    launching q → j_get (rq_arguments q) (str "trace") ≫= as_str = Some trace →
    select_replay_backend trace
      (default DEFAULT_CHECKPOINT_INTERVAL (j_get (rq_arguments q) (str "checkpointInterval") ≫= as_u64)) b
      = (Ok (Some b2), b1) →
    starting b2 n q outs b' → exchange b n q outs b'
| ex_launch_unavailable trace b1 outs b' :
    launching q → j_get (rq_arguments q) (str "trace") ≫= as_str = Some trace →
    select_replay_backend trace
      (default DEFAULT_CHECKPOINT_INTERVAL (j_get (rq_arguments q) (str "checkpointInterval") ≫= as_u64)) b
      = (Ok None, b1) →
    starting b1 (n + 1) q outs b' →
    exchange b n q ([event (n + 1) (str "output") (output_body UNAVAILABLE)] ++ outs) b'
| ex_launch_refused trace message b' :
    launching q → j_get (rq_arguments q) (str "trace") ≫= as_str = Some trace →
    select_replay_backend trace
      (default DEFAULT_CHECKPOINT_INTERVAL (j_get (rq_arguments q) (str "checkpointInterval") ≫= as_u64)) b
      = (Err message, b') →
    exchange b n q (refusal n q message) b'
| ex_unsupported :
    rq_command q ≠ str "initialize" → ¬ launching q → rq_command q ∉ acknowledged →
    inspection q = None → control q = None →
    exchange b n q [failure (n + 1) q (UNSUPPORTED (rq_command q))] b.

Inductive conversation : B → Z → list Request → list Value → B → Prop :=
| conv_over b n : conversation b n [] [] b
| conv_next b n q outs b1 qs outs' b2 :
    exchange b n q outs b1 → conversation b1 (n + blen outs) qs outs' b2 →
    conversation b n (q :: qs) (outs ++ outs') b2.

(** The requests among the messages, up to the first [disconnect]. *)
Fixpoint served (vs : list Value) : list Request :=
  match vs with
  | [] => []
  | v :: vs =>
      match request_of v with
      | None => served vs
      | Some q => if bool_decide (rq_command q = str "disconnect") then [q] else q :: served vs
      end
  end.

(** Every value the server sends serialises. *)
Definition serialises : Prop := ∀ v, ∃ p, to_vec v = Ok p.
Definition bytes_of (v : Value) : list byte :=
  match to_vec v with Ok p => frame p | _ => [] end.

(** An operation that always comes to rest, with an answer or an error. *)
Definition rests {E A} (op : stm B E (option A)) : Prop := ∀ b, ∃ r b', op b = (r, b') ∧ r ≠ Panic ∧ r ≠ Ok None.
Definition returns {E A} (op : stm B E A) : Prop := ∀ b, (op b).1 ≠ Panic.

Class BackendReturns : Prop := {
  launch_rests a : rests (bk_launch a);
  threads_returns : returns bk_threads;
  stack_trace_returns a : returns (bk_stack_trace a);
  scopes_returns a : returns (bk_scopes a);
  variables_returns a : returns (bk_variables a);
  resume_rests k : rests (bk_resume k);
  list_checkpoints_returns : returns bk_list_checkpoints;
  task_timeline_returns : returns bk_task_timeline;
  jump_rests a : rests (bk_jump_to_event a);
  select_returns trace interval : returns (select_replay_backend trace interval)
}.

(** ** Lemmas: what a step sends *)

Definition spec {A} (n : Z) (b : B) (m : M A) (a : A) (vs : list Value) (b' : B) : Prop :=
  ∀ w, accepts_all w → ∃ w', m (MkConn n b w) = (Ok a, MkConn (n + blen vs) b' w') ∧
    accepts_all w' ∧ snk_data w' = snk_data w ++ concat (map bytes_of vs).

Lemma spec_bind {A C} n b (m : M A) (f : A → M C) a vs b1 a' vs' b2 :
  spec n b m a vs b1 → spec (n + blen vs) b1 (f a) a' vs' b2 → spec n b (mbind f m) a' (vs ++ vs') b2.
Proof.
  intros H1 H2 w Hw. destruct (H1 w Hw) as (w1 & E1 & Hw1 & D1). destruct (H2 w1 Hw1) as (w2 & E2 & Hw2 & D2).
  exists w2. rewrite (bind_run _ _ _ _ _ E1), E2, blen_app, Z.add_assoc. split; [done|]. split; [done|].
  by rewrite D2, D1, map_app, concat_app, app_assoc.
Qed.

Lemma spec_quiet {A} n b (m : M A) a b' :
  (∀ w, m (MkConn n b w) = (Ok a, MkConn n b' w)) → spec n b m a [] b'.
Proof. intros H w Hw. exists w. rewrite H, Z.add_0_r. cbn. by rewrite app_nil_r. Qed.

Lemma spec_ret {A} n b (a : A) : spec n b (mret a) a [] b.
Proof. by apply spec_quiet. Qed.

Lemma spec_ask {E A} n b (op : stm B E A) r b' : op b = (r, b') → r ≠ Panic → spec n b (ask op) r [] b'.
Proof. intros H Hp. apply spec_quiet. intros w. unfold ask. cbn. rewrite H. by destruct r. Qed.

(** Sequence numbers stay in range. *)
Ltac seqs := unfold blen in *; cbn [length] in *; lia.

Lemma spec_gets {A} n b (f : B → M A) a vs b' :
  spec n b (f b) a vs b' → spec n b (mbind f (st_gets backend)) a vs b'.
Proof. intros H w Hw. rewrite bind_gets. by apply H. Qed.

Lemma spec_replace {A} n b b1 (m : M A) a vs b' :
  spec n b1 m a vs b' → spec n b (st_modify (set_backend b1);; m) a vs b'.
Proof. intros H w Hw. rewrite bind_modify. by apply H. Qed.

Context (Hser : serialises).

Lemma spec_send n b (f : Z → Value) :
  0 ≤ n → n + 1 < 2 ^ 64 → spec n b (seq ← bump_seq; send (f seq)) tt [f (n + 1)] b.
Proof.
  intros Hn Hs w Hw. unfold bump_seq, checked_add. autorewrite with stm. cbn [next_seq].
  rewrite (proj2 (Z.ltb_lt _ _)) by lia. cbn [expect]. autorewrite with stm. unfold send. cbn [out set_next_seq].
  pose proof (write_frame_spec (f (n + 1)) w) as H. destruct (Hser (f (n + 1))) as [p Hp].
  destruct (write_frame _ w) as [r w']. destruct H as [Ha Hr]. destruct (Ha Hw p Hp) as [-> Hw'].
  destruct Hr as (p' & Hp' & Hd). exists w'. split; [done|]. split; [done|].
  cbn. unfold bytes_of. by rewrite Hp', app_nil_r.
Qed.

Lemma spec_success n b q body :
  0 ≤ n → n + 1 < 2 ^ 64 → spec n b (respond_success q body) tt [success (n + 1) q body] b.
Proof. apply (spec_send n b (λ seq, success seq q body)). Qed.

Lemma spec_failure n b q message :
  0 ≤ n → n + 1 < 2 ^ 64 → spec n b (respond_failure q message) tt [failure (n + 1) q message] b.
Proof. apply (spec_send n b (λ seq, failure seq q message)). Qed.

Lemma spec_event n b name body :
  0 ≤ n → n + 1 < 2 ^ 64 → spec n b (emit_event name body) tt [event (n + 1) name body] b.
Proof. apply (spec_send n b (λ seq, event seq name body)). Qed.

Lemma spec_then {A} n b (m : M unit) (k : M A) vs b1 a vs' b2 all :
  spec n b m tt vs b1 → spec (n + blen vs) b1 k a vs' b2 → all = vs ++ vs' → spec n b (m;; k) a all b2.
Proof. intros H1 H2 ->. by eapply spec_bind. Qed.

Lemma spec_answers {E A C} n b (op : stm B E A) r b1 (f : result E A → M C) a vs b2 :
  op b = (r, b1) → r ≠ Panic → spec n b1 (f r) a vs b2 → spec n b (mbind f (ask op)) a vs b2.
Proof.
  intros H1 H2 H3. change vs with ([] ++ vs). eapply spec_bind; [by apply spec_ask|].
  cbn. by rewrite Z.add_0_r.
Qed.

Lemma spec_refusal n b q message :
  0 ≤ n → n + 2 < 2 ^ 64 →
  spec n b (emit_output message;; respond_failure q message) tt (refusal n q message) b.
Proof.
  intros Hn Hb. eapply spec_then; [apply spec_event; seqs|apply spec_failure; seqs|].
  unfold refusal. cbn [app]. do 3 f_equal. seqs.
Qed.

Lemma spec_fail n b q e :
  0 ≤ n → n + 2 < 2 ^ 64 →
  spec n b (fail q e;; mret (Some tt)) (Some tt) (refusal n q (backend_error_display e)) b.
Proof.
  intros Hn Hb. eapply spec_then; [by apply spec_refusal|apply spec_ret|by rewrite app_nil_r].
Qed.

Lemma spec_stop n b stop :
  0 ≤ n → n + 2 < 2 ^ 64 → spec n b (emit_stop stop) tt (stop_events n stop) b.
Proof.
  intros Hn Hb. destruct stop as [reason t|code]; [apply spec_event; seqs|].
  eapply spec_then; [apply spec_event; seqs|apply spec_event; seqs|].
  cbn [app stop_events refusal]. do 3 f_equal. seqs.
Qed.

Lemma spec_answer n b q op :
  0 ≤ n → n + 2 < 2 ^ 64 → returns op → inspection q = Some op →
  ∃ outs b', spec n b (answer q op) (Some tt) outs b' ∧ exchange b n q outs b'.
Proof.
  intros Hn Hb Hr Hi. specialize (Hr b). destruct (op b) as [r b'] eqn:E. cbn in Hr.
  destruct r as [body|e|]; [| |done].
  - exists [success (n + 1) q body], b'. split; [|by eapply ex_inspect].
    eapply spec_answers; [done..|]. eapply spec_then; [apply spec_success; seqs|apply spec_ret|done].
  - exists (refusal n q (backend_error_display e)), b'. split; [|by eapply ex_inspect_failed].
    eapply spec_answers; [done..|]. by apply spec_fail.
Qed.

Lemma spec_rest n b q body op :
  0 ≤ n → n + 3 < 2 ^ 64 → rests op → control q = Some (body, op) →
  ∃ outs b', spec n b (come_to_rest q body op) (Some tt) outs b' ∧ exchange b n q outs b'.
Proof.
  intros Hn Hb Hr Hi. destruct (Hr b) as (r & b' & E & Hp & Hnone).
  destruct r as [[stop|]|e|]; [|done| |done].
  - exists ([success (n + 1) q body] ++ stop_events (n + 1) stop), b'. split; [|by eapply ex_control].
    eapply spec_answers; [done..|]. eapply spec_then; [apply spec_success; seqs| |reflexivity].
    eapply spec_then; [apply spec_stop; seqs|apply spec_ret|by rewrite app_nil_r].
  - exists (refusal n q (backend_error_display e)), b'. split; [|by eapply ex_control_failed].
    eapply spec_answers; [done..|]. apply spec_fail; seqs.
Qed.

Lemma note_events_length n note : 0 ≤ blen (note_events n note) ≤ 1.
Proof. by destruct note. Qed.

Lemma spec_note n b note :
  0 ≤ n → n + 1 < 2 ^ 64 →
  spec n b match note with Some m => emit_output m | None => mret tt end tt (note_events n note) b.
Proof. intros. destruct note; [by apply spec_event|apply spec_ret]. Qed.

Lemma spec_launch_backend n b q :
  0 ≤ n → n + 4 < 2 ^ 64 → rests (bk_launch (rq_arguments q)) →
  ∃ outs b', spec n b (launch_backend q) (Some tt) outs b' ∧ starting b n q outs b'.
Proof.
  intros Hn Hb Hr. destruct (Hr b) as (r & b' & E & Hp & Hnone).
  destruct r as [[stop|]|e|]; [|done| |done].
  - eexists _, b'. split; [|by apply started].
    pose proof (note_events_length (n + 1) (bk_checkpoint_note b')).
    eapply spec_answers; [done..|]. eapply spec_then; [apply spec_success; seqs| |reflexivity].
    apply spec_gets. change (blen [success (n + 1) q empty_object]) with 1.
    eapply spec_then; [apply spec_note; seqs| |].
    + eapply spec_then; [apply spec_stop; seqs|apply spec_ret|reflexivity].
    + by rewrite app_nil_r.
  - exists (refusal n q (backend_error_display e)), b'. split; [|by apply start_failed].
    eapply spec_answers; [done..|]. apply spec_fail; seqs.
Qed.

Context {BR : BackendReturns}.

Lemma spec_launch n b q :
  0 ≤ n → n + 5 < 2 ^ 64 → launching q →
  ∃ outs b', spec n b (on_launch q) (Some tt) outs b' ∧ exchange b n q outs b'.
Proof.
  intros Hn Hb Hl. unfold on_launch. destruct (_ ≫= as_str) as [trace|] eqn:Et.
  2:{ destruct (spec_launch_backend n b q) as (outs & b' & Hs & Hst); [lia..|apply launch_rests|].
      exists outs, b'. split; [done|]. by apply ex_launch. }
  set (interval := default _ _). pose proof (select_returns trace interval b) as Hr.
  destruct (select_replay_backend trace interval b) as [r b1] eqn:Es. cbn in Hr.
  destruct r as [[b2|]|message|]; [| | |done].
  - destruct (spec_launch_backend n b2 q) as (outs & b' & Hs & Hst); [lia..|apply launch_rests|].
    exists outs, b'. split; [|by eapply ex_launch_trace].
    eapply spec_answers; [done..|]. by apply spec_replace.
  - destruct (spec_launch_backend (n + 1) b1 q) as (outs & b' & Hs & Hst); [lia..|apply launch_rests|].
    eexists _, b'. split; [|by eapply ex_launch_unavailable].
    eapply spec_answers; [done..|]. eapply spec_then; [apply spec_event; seqs|done|reflexivity].
  - exists (refusal n q message), b1. split; [|by eapply ex_launch_refused].
    eapply spec_answers; [done..|]. cbv iota.
    rewrite <- (app_nil_r (refusal n q message)). eapply spec_then; [apply spec_event; seqs| |].
    + eapply spec_then; [apply spec_failure; seqs|apply spec_ret|reflexivity].
    + cbn [app refusal]. do 3 f_equal. seqs.
Qed.

Lemma dispatch_spec n b q :
  0 ≤ n → n + 5 < 2 ^ 64 →
  ∃ outs b', spec n b (dispatch q) (Some tt) outs b' ∧ exchange b n q outs b'.
Proof.
  intros Hn Hb. unfold dispatch.
  case_bool_decide as H1.
  { eexists _, b. split; [|by apply ex_initialize]. unfold on_initialize.
    eapply spec_then; [|apply spec_ret|by rewrite app_nil_r].
    eapply spec_then; [apply spec_success; seqs|apply spec_event; seqs|].
    cbn [app stop_events refusal]. do 3 f_equal. seqs. }
  destruct (bool_decide (rq_command q = str "launch") || _) eqn:H2.
  { apply spec_launch; [done..|]. unfold launching. apply orb_prop in H2 as [H2|H2];
      apply bool_decide_eq_true in H2; rewrite H2; set_solver. }
  assert (Hnl : ¬ launching q).
  { apply orb_false_iff in H2 as [Ha%bool_decide_eq_false Hc%bool_decide_eq_false]. unfold launching. set_solver. }
  destruct (bool_decide (rq_command q ∈ acknowledged)) eqn:H3;
    [apply bool_decide_eq_true in H3|apply bool_decide_eq_false in H3].
  { eexists _, b. split; [|by apply ex_acknowledge].
    eapply spec_then; [apply spec_success; seqs|apply spec_ret|done]. }
  unfold on_resume, on_jump.
  repeat (match goal with
    |- context [spec n b (if bool_decide ?P then _ else _)] =>
      let HC := fresh "HC" in destruct (bool_decide P) eqn:HC;
        [apply bool_decide_eq_true in HC|apply bool_decide_eq_false in HC] end;
    [first [ apply spec_answer; [lia|lia|first [apply threads_returns|apply stack_trace_returns|apply scopes_returns
                 |apply variables_returns|apply list_checkpoints_returns|apply task_timeline_returns]
                 |unfold inspection; match goal with H : rq_command q = _ |- _ => by rewrite H end]
           | apply spec_rest; [lia|lia|first [apply resume_rests|apply jump_rests]|unfold control; match goal with H : rq_command q = _ |- _ => by rewrite H end] ]
    |]).
  eexists _, b. split; [eapply spec_then; [apply spec_failure; seqs|apply spec_ret|done]|].
  apply ex_unsupported; [done..| |]; unfold inspection, control, assoc; cbn;
    repeat (rewrite decide_False by done); done.
Qed.

Lemma stop_events_length n stop : 1 ≤ blen (stop_events n stop) ≤ 2.
Proof. by destruct stop. Qed.

Lemma exchange_length b n q outs b' : exchange b n q outs b' → 1 ≤ blen outs ≤ 5.
Proof.
  assert (Hs : ∀ b n outs b', starting b n q outs b' → 1 ≤ blen outs ≤ 4).
  { intros b0 n0 o b0'. destruct 1 as [stop ? _|]; [|done]. rewrite !blen_app.
    pose proof (note_events_length (n0 + 1) (bk_checkpoint_note b'0)).
    pose proof (stop_events_length (n0 + 1 + blen (note_events (n0 + 1) (bk_checkpoint_note b'0))) stop). seqs. }
  destruct 1 as [| | | |? ? stop| |? ? ? ? H|? ? ? ? ? ? ? ? H|? ? ? ? ? ? ? H| |]; try done.
  - rewrite blen_app. pose proof (stop_events_length (n + 1) stop). seqs.
  - apply Hs in H. lia.
  - apply Hs in H. lia.
  - apply Hs in H. rewrite blen_app. seqs.
Qed.

(** The next message of a stream of messages. *)
Lemma read_message v rest rd :
  carried v → br_quiet rd = true → br_data rd = bytes_of v ++ rest →
  ∃ rd', read_frame rd = (Ok (Some v), rd') ∧ br_quiet rd' = true ∧ br_data rd' = rest.
Proof.
  intros (p & Hv & Hp & Hl) Hq Hd. unfold bytes_of in Hd. rewrite Hv in Hd.
  pose proof (read_frame_spec rd) as H. rewrite Hd, (frame_at_frame v) in H by done.
  destruct (read_frame rd) as [r rd']. destruct H as [[Hq' _]|[-> H]]; [congruence|].
  destruct (H _ eq_refl) as [Hd' Hq']. exists rd'. auto.
Qed.

Lemma bytes_of_nonempty v : carried v → (0 < length (bytes_of v))%nat.
Proof. intros (p & Hv & _). unfold bytes_of. rewrite Hv. unfold frame. rewrite length_app. cbn. lia. Qed.

Lemma run_loop_spec fuel vs rd n b w :
  Forall carried vs → br_quiet rd = true → br_data rd = concat (map bytes_of vs) →
  (length (br_data rd) < fuel)%nat → 0 ≤ n → n + 5 * blen vs < 2 ^ 64 → accepts_all w →
  ∃ outs b' rd' w', run_loop fuel rd (MkConn n b w) = (Ok (Some tt), rd', MkConn (n + blen outs) b' w') ∧
    conversation b n (served vs) outs b' ∧ snk_data w' = snk_data w ++ concat (map bytes_of outs).
Proof.
  revert vs rd n b w. induction fuel as [|fuel IH]; intros vs rd n b w Hvs Hq Hd Hf Hn Hb Hw; [lia|].
  cbn [run_loop]. destruct vs as [|v vs].
  { pose proof (read_frame_spec rd) as H. rewrite Hd in H. destruct (read_frame rd) as [r rd'].
    destruct H as [[? _]|[-> _]]; [congruence|]. exists [], b, rd', w. cbn. rewrite Z.add_0_r, app_nil_r.
    split; [done|]. split; [constructor|done]. }
  apply Forall_cons_iff in Hvs as [Hv Hvs]. cbn [map concat] in Hd.
  destruct (read_message v _ rd Hv Hq Hd) as (rd1 & -> & Hq1 & Hd1).
  pose proof (bytes_of_nonempty v Hv). rewrite Hd, length_app in Hf. rewrite blen_cons in Hb.
  cbn [served]. destruct (request_of v) as [q|].
  2:{ apply IH; try done; [rewrite Hd1; lia|lia]. }
  pose proof (blen_nonneg vs).
  destruct (dispatch_spec n b q) as (outs & b1 & Hsp & Hex); [lia|lia|].
  pose proof (exchange_length _ _ _ _ _ Hex).
  destruct (Hsp w Hw) as (w1 & -> & Hw1 & D1). case_bool_decide.
  - exists outs, b1, rd1, w1. split; [done|]. split; [|done]. rewrite <- (app_nil_r outs).
    by eapply conv_next; [|constructor].
  - destruct (IH vs rd1 (n + blen outs) b1 w1) as (outs' & b2 & rd2 & w2 & -> & Hc & D2); try done;
      [rewrite Hd1; lia|lia|lia|].
    exists (outs ++ outs'), b2, rd2, w2. rewrite blen_app, Z.add_assoc. split; [done|].
    split; [by eapply conv_next|]. by rewrite D2, D1, map_app, concat_app, app_assoc.
Qed.

(** ** Property *)

(** C27. Every request is answered.  Given any messages that survive the wire,
    delivered in any pieces, and any backend whose operations come to rest, the
    server ends without error and what it wrote is the conversation: up to the
    first [disconnect] each request, in order, gets exactly the messages the
    protocol has for it, one of them a response that echoes its number and
    command, a backend error is first reported as output with the same text,
    and messages that are not requests are passed over; everything sent is
    numbered from 1 without gaps. *)
Theorem requests_answered vs reader stub :
  Forall carried vs → no_failures reader = true → src_data reader = concat (map bytes_of vs) →
  5 * blen vs < 2 ^ 64 →
  ∃ outs b' rd' w', run reader (Server_new stub (Sink [] [])) =
      (Ok (Some tt), rd', MkConn (blen outs) b' w') ∧
    conversation stub 0 (served vs) outs b' ∧ snk_data w' = concat (map bytes_of outs).
Proof.
  intros Hvs Hq Hd Hb. unfold run, run_buffered, Server_new.
  destruct (run_loop_spec (S (length (br_data (BufReader_new reader)))) vs (BufReader_new reader) 0 stub (Sink [] []))
    as (outs & b' & rd' & w' & E & Hc & D); try done; [lia|constructor|].
  by exists outs, b', rd', w'.
Qed.

End server.

(** ** Samples: the stub target *)

Definition sample_request_of (v : @Value sample_json) : option Request :=
  match json_get v (str "seq"), json_get v (str "command") with
  | Some (JInt s), Some (JString c) => Some (MkRequest s c (default JNull (json_get v (str "arguments"))))
  | _, _ => None
  end.

(** A platform without a replay engine. *)
Definition no_replay (_ : list byte) (_ : Z) : stm unit (list byte) (option unit) := mret None.

#[export] Instance stub_returns : BackendReturns no_replay.
Proof.
  split; try (intros; intros b; cbn; done).
  - intros a b. by eexists _, _.
  - intros k b. destruct k; by eexists _, _.
  - intros a b. by eexists _, _.
Qed.

Lemma sample_serialises : serialises.
Proof. intros v. by exists (print v). Qed.

Definition sample_command (n : Z) (command : list byte) : json :=
  JObject [(str "seq", JInt n); (str "command", JString command)].

(** A session: a stray message, and one request after the disconnect. *)
Definition sample_session : list (@Value sample_json) :=
  [initialize_message; launch_message; JNull; sample_command 3 (str "stepBack"); sample_command 4 (str "threads");
   sample_command 5 (str "disconnect"); sample_command 6 (str "next")].

Definition sample_reader : source :=
  Source (concat (map bytes_of sample_session)) [Chunk 5; ReadInterrupted; Chunk 0].

Lemma requests_answered_witness :
  ∃ outs b' rd' w', run sample_request_of no_replay sample_reader (Server_new tt (Sink [] [])) =
      (Ok (Some tt), rd', MkConn (blen outs) b' w') ∧
    conversation no_replay tt 0 (served sample_request_of sample_session) outs b' ∧
    snk_data w' = concat (map bytes_of outs).
Proof.
  apply (requests_answered sample_request_of no_replay sample_serialises sample_session sample_reader tt).
  - repeat (apply Forall_cons_2; [apply sample_carried; vm_compute; reflexivity|]). apply Forall_nil_2.
  - vm_compute. reflexivity.
  - vm_compute. reflexivity.
  - apply Z.ltb_lt. vm_compute. reflexivity.
Defined.

(** Eight messages go out: the reverse step is refused visibly. *)
Lemma sample_session_runs :
  match run sample_request_of no_replay sample_reader (Server_new tt (Sink [] [])) with
  | (Ok (Some _), _, c) => next_seq c
  | _ => 0
  end = 8.
Proof. vm_compute. reflexivity. Qed.
