(* ===== verification/TaskModel.v ===== *)
(** * The decoder's data model: [decoder/src/model] and [error.rs]

    Tasks, their states and block reasons, logical frames and suspend points,
    wake causes, variables and timeline events, with the constructors and the
    renderings the sources define; the errors of the decoder with their
    messages.  Enums live in modules of their own, since they share
    constructor names, as they do in the source. *)

From S2P Require Import Prelude.
From S2P Require Import Text.

(** ** Identifiers: [ids.rs], [process_view.rs]

    [TaskId] and [ThreadId] are newtypes of [u64]. *)

Abbreviation TaskId := Z (only parsing).
Abbreviation ThreadId := Z (only parsing).

(** [{:?}] of the two newtypes. *)
Definition debug_task (id : TaskId) : list byte := str "TaskId(" ++ dec id ++ str ")".
Definition debug_thread (id : ThreadId) : list byte := str "ThreadId(" ++ dec id ++ str ")".

(** ** Tasks: [task.rs] *)

Module TaskKind.
Inductive task_kind := Thread | AsyncTask | Goroutine | Coroutine.
End TaskKind.
Abbreviation task_kind := TaskKind.task_kind.

Module BlockReason.
Inductive block_reason :=
| Channel (detail : option (list byte))
| Lock (detail : option (list byte))
| Io (detail : option (list byte))
| Join (on : option TaskId)
| Timer
| Unknown.
End BlockReason.
Abbreviation block_reason := BlockReason.block_reason.

Module TaskState.
Inductive task_state :=
| Runnable
| Running
| Blocked (on : block_reason)
| Completed.
End TaskState.
Abbreviation task_state := TaskState.task_state.

Record TaskNode := MkTaskNode {
  id : TaskId;
  name : list byte;
  kind : task_kind;
  state : task_state;
  parent : option TaskId;
}.

Definition TaskNode_root (i : TaskId) (n : list byte) (k : task_kind) (s : task_state) : TaskNode :=
  MkTaskNode i n k s None.

Definition TaskNode_child (i : TaskId) (n : list byte) (k : task_kind) (s : task_state) (p : TaskId)
    : TaskNode :=
  MkTaskNode i n k s (Some p).

(** ** Frames: [frame.rs], [process_view.rs] *)

Record SourceLocation := MkSourceLocation {
  path : list byte;
  line : Z;
  column : Z;
}.

Record PhysicalFrame := MkPhysicalFrame {
  pc : Z;
  sp : Z;
  function_name : option (list byte);
  pf_location : option SourceLocation;
}.

Module SuspendKind.
Inductive suspend_kind :=
| ChannelRecv | ChannelSend | Timer | Io | Join | Select | Lock | Other.
End SuspendKind.
Abbreviation suspend_kind := SuspendKind.suspend_kind.

Record SuspendPoint := MkSuspendPoint {
  sp_kind : suspend_kind;
  sp_detail : option (list byte);
}.

Inductive frame_origin := Physical | Synthesized.

Record LogicalFrame := MkLogicalFrame {
  display_name : list byte;
  location : option SourceLocation;
  suspend : option SuspendPoint;
  origin : frame_origin;
}.

Definition from_physical (frame : PhysicalFrame) : LogicalFrame :=
  {| display_name := match function_name frame with
                     | Some n => n
                     | None => str "0x" ++ hex (pc frame)
                     end;
     location := pf_location frame;
     suspend := None;
     origin := Physical |}.

(** [frames.iter().map(LogicalFrame::from_physical).collect()]. *)
Definition logical_frames (frames : list PhysicalFrame) : list LogicalFrame :=
  from_physical <$> frames.

Definition describe_suspend (frame : LogicalFrame) : option (list byte) :=
  point ← suspend frame;
  let k := match sp_kind point with
           | SuspendKind.ChannelRecv => str "recv on channel"
           | SuspendKind.ChannelSend => str "send on channel"
           | SuspendKind.Timer => str "timer"
           | SuspendKind.Io => str "I/O"
           | SuspendKind.Join => str "join"
           | SuspendKind.Select => str "select"
           | SuspendKind.Lock => str "lock"
           | SuspendKind.Other => str "unknown suspend point"
           end in
  Some match sp_detail point with
       | Some detail => str "awaiting: " ++ k ++ str " " ++ detail
       | None => str "awaiting: " ++ k
       end.

(** ** Wake causes, variables, timeline: [wake.rs], [variable.rs], [timeline.rs] *)

Record IoWakeDetail := MkIoWakeDetail {
  fd : option Z;
  description : option (list byte);
}.

Module WakeCause.
Inductive wake_cause :=
| Timer
| Io (detail : IoWakeDetail)
| Channel (detail : option (list byte))
| Manual
| Unknown.
End WakeCause.
Abbreviation wake_cause := WakeCause.wake_cause.

Record Variable_ := MkVariable {
  var_name : list byte;
  var_value : list byte;
  type_hint : option (list byte);
}.

Definition Variable_new (n v : list byte) : Variable_ := MkVariable n v None.
Definition Variable_with_type (n v t : list byte) : Variable_ := MkVariable n v (Some t).

Record TaskTimelineEvent := MkTaskTimelineEvent {
  tl_task : TaskId;
  seq_start : Z;
  seq_end : Z;
  from_state : task_state;
  to_state : task_state;
}.

Definition covers (e : TaskTimelineEvent) (s : Z) : bool := (seq_start e <=? s) && (s <? seq_end e).

(** ** Errors: [error.rs] *)

Inductive decoder_error :=
| NotApplicable (reason : list byte)
| UnknownTask (task : TaskId)
| UnknownThread (thread : ThreadId)
| MemoryReadFailed (addr len : Z) (reason : list byte)
| InvalidTaskTree (reason : list byte)
| RegisterReadFailed (thread : ThreadId) (reason : list byte)
| PhysicalFramesFailed (thread : ThreadId) (reason : list byte).

(** The [#[error(..)]] messages, which is what [to_string] gives. *)
Definition decoder_error_display (e : decoder_error) : list byte :=
  match e with
  | NotApplicable reason => str "decoder does not apply to this process: " ++ reason
  | UnknownTask t => str "unknown task " ++ debug_task t
  | UnknownThread t => str "unknown thread " ++ debug_thread t
  | MemoryReadFailed addr len reason =>
      str "failed to read " ++ dec len ++ str " byte(s) at address 0x" ++ hex addr ++ str ": " ++ reason
  | InvalidTaskTree reason => str "invalid task tree: " ++ reason
  | RegisterReadFailed t reason =>
      str "failed to read registers for thread " ++ debug_thread t ++ str ": " ++ reason
  | PhysicalFramesFailed t reason =>
      str "failed to unwind physical frames for thread " ++ debug_thread t ++ str ": " ++ reason
  end.

(** ** Decidable equality *)

#[export] Instance task_kind_eq_dec : EqDecision task_kind.
Proof. solve_decision. Defined.
#[export] Instance block_reason_eq_dec : EqDecision block_reason.
Proof. solve_decision. Defined.
#[export] Instance task_state_eq_dec : EqDecision task_state.
Proof. solve_decision. Defined.
#[export] Instance TaskNode_eq_dec : EqDecision TaskNode.
Proof. solve_decision. Defined.
#[export] Instance suspend_kind_eq_dec : EqDecision suspend_kind.
Proof. solve_decision. Defined.
#[export] Instance IoWakeDetail_eq_dec : EqDecision IoWakeDetail.
Proof. solve_decision. Defined.
#[export] Instance wake_cause_eq_dec : EqDecision wake_cause.
Proof. solve_decision. Defined.
#[export] Instance decoder_error_eq_dec : EqDecision decoder_error.
Proof. solve_decision. Defined.
