(* ===== verification/TaskTree.v ===== *)
(** * The task tree: [decoder/src/model/tree.rs]

    [try_from_nodes] indexes a list of nodes by id and by parent; the tree is
    then read by [flatten_preorder].  The [BTreeMap]s are finite maps whose
    iteration is in key order.  The theorems say exactly which lists are
    accepted and what the index holds, and that flattening ends and visits
    each node that hangs off a root once, parents first. *)

From S2P Require Import Prelude.
From S2P Require Import Text.
From S2P Require Import TaskModel.

(** ** Data and construction *)

Record TaskTree := MkTaskTree {
  nodes : gmap Z TaskNode;
  children_map : gmap Z (list TaskId);
  roots : list TaskId;
}.

(** [BTreeMap::values]. *)
Definition values {A} (m : gmap Z A) : list A := omap (λ k, m !! k) (sorted_keys m).

(** The first loop: index by id, refusing a second node of the same id. *)
Fixpoint insert_nodes (ns : list TaskNode) (by_id : gmap Z TaskNode)
    : result decoder_error (gmap Z TaskNode) :=
  match ns with
  | [] => Ok by_id
  | n :: ns =>
      match by_id !! id n with
      | Some _ => Err (InvalidTaskTree (str "duplicate task id"))
      | None => insert_nodes ns (<[id n := n]> by_id)
      end
  end.

(** [children.entry(parent).or_default().push(id)]. *)
Definition push_child (p c : TaskId) (m : gmap Z (list TaskId)) : gmap Z (list TaskId) :=
  <[p := default [] (m !! p) ++ [c]]> m.

(** The second loop: the children of each node and the roots. *)
Fixpoint index_nodes (by_id : gmap Z TaskNode) (ns : list TaskNode)
    (children : gmap Z (list TaskId)) (rs : list TaskId)
    : result decoder_error (gmap Z (list TaskId) * list TaskId) :=
  match ns with
  | [] => Ok (children, rs)
  | n :: ns =>
      match parent n with
      | Some p =>
          match by_id !! p with
          | Some _ => index_nodes by_id ns (push_child p (id n) children) rs
          | None =>
              Err (InvalidTaskTree
                (str "task " ++ debug_task (id n) ++ str " has a dangling parent reference"))
          end
      | None => index_nodes by_id ns children (rs ++ [id n])
      end
  end.

Definition try_from_nodes (ns : list TaskNode) : result decoder_error TaskTree :=
  by_id ← insert_nodes ns ∅;
  '(children, rs) ← index_nodes by_id (values by_id) ∅ [];
  mret (MkTaskTree by_id children rs).

(** ** Queries *)

Definition node (t : TaskTree) (i : TaskId) : option TaskNode := nodes t !! i.
Definition children (t : TaskTree) (i : TaskId) : list TaskId := default [] (children_map t !! i).
Definition len (t : TaskTree) : Z := Z.of_nat (size (nodes t)).
Definition is_empty (t : TaskTree) : bool := bool_decide (nodes t = ∅).

(** [push_preorder] recurses over the children; [None] is out of fuel. *)
Fixpoint push_preorder (fuel : nat) (t : TaskTree) (i : TaskId) (out : list TaskId)
    : option (list TaskId) :=
  match fuel with
  | O => None
  | S fuel =>
      foldl (λ acc c, out ← acc; push_preorder fuel t c out) (Some (out ++ [i])) (children t i)
  end.

Definition flatten_preorder (fuel : nat) (t : TaskTree) : option (list TaskId) :=
  foldl (λ acc r, out ← acc; push_preorder fuel t r out) (Some []) (roots t).

(** ** What the two loops build *)

Definition parent_of (m : gmap Z TaskNode) (i : TaskId) : option TaskId := m !! i ≫= parent.

(** Every entry sits under its own id, and every parent is an entry. *)
Definition keyed (m : gmap Z TaskNode) : Prop := ∀ i n, m !! i = Some n → id n = i.
Definition anchored (m : gmap Z TaskNode) : Prop :=
  ∀ i p, parent_of m i = Some p → is_Some (m !! p).

(** The keys with a given parent, in key order. *)
Definition kids (m : gmap Z TaskNode) (o : option TaskId) : list TaskId :=
  filter (λ i, parent_of m i = o) (sorted_keys m).

Definition dangling (n : TaskNode) : decoder_error :=
  InvalidTaskTree (str "task " ++ debug_task (id n) ++ str " has a dangling parent reference").

Lemma insert_nodes_spec ns m :
  match insert_nodes ns m with
  | Ok m' => NoDup (id <$> ns) ∧ (∀ n, n ∈ ns → m !! id n = None) ∧
             ∀ i n, m' !! i = Some n ↔ (n ∈ ns ∧ id n = i) ∨ m !! i = Some n
  | Err e => e = InvalidTaskTree (str "duplicate task id") ∧
             ¬ (NoDup (id <$> ns) ∧ ∀ n, n ∈ ns → m !! id n = None)
  | Panic => False
  end.
Proof.
  revert m. induction ns as [|n ns IH]; intros m; cbn [insert_nodes].
  { split_and!; [constructor|by intros ? ?%not_elem_of_nil|]. intros i n. set_solver. }
  destruct (m !! id n) as [n0|] eqn:E.
  { split; [done|]. intros [_ H]. specialize (H n ltac:(left)). congruence. }
  specialize (IH (<[id n:=n]> m)). cbn [fmap list_fmap].
  assert (Hfresh : ∀ ns' : list TaskNode, (∀ k, k ∈ ns' → <[id n:=n]> m !! id k = None) ↔
    id n ∉ id <$> ns' ∧ ∀ k, k ∈ ns' → m !! id k = None).
  { intros ns'. split.
    - intros H. split.
      + intros (k & Hk & Hin)%list_elem_of_fmap. specialize (H k Hin).
        rewrite <- Hk, lookup_insert_eq in H. done.
      + intros k Hin. specialize (H k Hin). by apply lookup_insert_None in H as [? _].
    - intros [Hn H] k Hin. rewrite lookup_insert_ne; [by apply H|].
      intros Heq. apply Hn. rewrite Heq. by apply list_elem_of_fmap_2. }
  destruct (insert_nodes ns _) as [m'|e|]; [|..|done].
  - destruct IH as (Hnd & Hfr & Hm). apply Hfresh in Hfr as [Hn Hfr].
    split_and!; [by constructor| |].
    + intros k [->|Hk]%elem_of_cons; [done|by apply Hfr].
    + intros i k. rewrite Hm, elem_of_cons. destruct (decide (id n = i)) as [<-|Hi].
      * rewrite lookup_insert_eq. naive_solver congruence.
      * rewrite lookup_insert_ne by done. naive_solver.
  - destruct IH as [-> H]. split; [done|]. intros [[Hn Hnd]%NoDup_cons Hm]. apply H.
    split; [done|]. apply Hfresh. split; [done|]. intros k Hk. apply Hm. by right.
Qed.

Lemma index_nodes_spec m ns ch rs :
  match index_nodes m ns ch rs with
  | Ok (ch', rs') =>
      (∀ n p, n ∈ ns → parent n = Some p → is_Some (m !! p)) ∧
      rs' = rs ++ (id <$> filter (λ n, parent n = None) ns) ∧
      ∀ p, default [] (ch' !! p) = default [] (ch !! p) ++ (id <$> filter (λ n, parent n = Some p) ns)
  | Err e => ∃ ns1 n ns2 p, ns = ns1 ++ n :: ns2 ∧ parent n = Some p ∧ m !! p = None ∧
      e = dangling n ∧ ∀ k q, k ∈ ns1 → parent k = Some q → is_Some (m !! q)
  | Panic => False
  end.
Proof.
  revert ch rs. induction ns as [|n ns IH]; intros ch rs; cbn [index_nodes].
  { cbn. split_and!; [by intros ? ? ?%not_elem_of_nil|by rewrite app_nil_r|].
    intros p. by rewrite app_nil_r. }
  destruct (parent n) as [p|] eqn:Hp.
  - destruct (m !! p) eqn:E.
    + specialize (IH (push_child p (id n) ch) rs).
      destruct (index_nodes m ns _ _) as [[ch' rs']|e|]; [|..|done].
      * destruct IH as (Hd & Hr & Hc). split_and!.
        -- intros k q [->|Hk]%elem_of_cons Hq; [|by eapply Hd].
           rewrite Hp in Hq. injection Hq as <-. eauto.
        -- rewrite filter_cons, Hp, decide_False by done. done.
        -- intros q. rewrite Hc, filter_cons. unfold push_child. rewrite Hp.
           destruct (decide (p = q)) as [->|Hne].
           ++ rewrite lookup_insert_eq, decide_True by done. cbn. by rewrite <- app_assoc.
           ++ rewrite lookup_insert_ne, decide_False by congruence. done.
      * destruct IH as (ns1 & k & ns2 & q & -> & Hq & Hmq & He & Hd).
        exists (n :: ns1), k, ns2, q. split_and!; try done.
        intros k' q' [->|Hk]%elem_of_cons Hq'; [|by eapply Hd].
        rewrite Hp in Hq'. injection Hq' as <-. eauto.
    + exists [], n, ns, p. split_and!; try done. by intros ? ? ?%not_elem_of_nil.
  - specialize (IH ch (rs ++ [id n])).
    destruct (index_nodes m ns _ _) as [[ch' rs']|e|]; [|..|done].
    + destruct IH as (Hd & Hr & Hc). split_and!.
      * intros k q [->|Hk]%elem_of_cons Hq; [congruence|by eapply Hd].
      * rewrite filter_cons, Hp, decide_True by done. cbn. by rewrite Hr, <- app_assoc.
      * intros q. by rewrite Hc, filter_cons, Hp, decide_False by done.
    + destruct IH as (ns1 & k & ns2 & q & -> & Hq & Hmq & He & Hd).
      exists (n :: ns1), k, ns2, q. split_and!; try done.
      intros k' q' [->|Hk]%elem_of_cons Hq'; [congruence|by eapply Hd].
Qed.

Lemma elem_of_values {A} (m : gmap Z A) x : x ∈ values m ↔ ∃ i, m !! i = Some x.
Proof.
  unfold values. rewrite list_elem_of_omap. split; [intros (i & _ & ?); eauto|].
  intros [i Hi]. exists i. split; [|done]. apply elem_of_sorted_keys. eauto.
Qed.

Lemma values_keys m : keyed m → id <$> values m = sorted_keys m.
Proof.
  intros Hk. unfold values.
  assert (Hs : ∀ ks : list Z, (∀ k, k ∈ ks → is_Some (m !! k)) → id <$> omap (λ k, m !! k) ks = ks).
  { induction ks as [|k ks IH]; intros Hin; [done|]. destruct (Hin k ltac:(left)) as [n Hn].
    cbn [omap list_omap]. rewrite Hn. cbn [fmap list_fmap]. rewrite (Hk k n Hn).
    f_equal. apply IH. intros. apply Hin. by right. }
  apply Hs. intros k Hin. by apply elem_of_sorted_keys.
Qed.

(** Filtering the entries is filtering the keys. *)
Lemma values_kids m o :
  keyed m → id <$> filter (λ n, parent n = o) (values m) = kids m o.
Proof.
  intros Hk. unfold values, kids.
  assert (Hs : ∀ ks : list Z, (∀ k, k ∈ ks → is_Some (m !! k)) →
    id <$> filter (λ n, parent n = o) (omap (λ k, m !! k) ks) = filter (λ i, parent_of m i = o) ks).
  { induction ks as [|k ks IH]; intros Hin; [done|]. destruct (Hin k ltac:(left)) as [n Hn].
    assert (IH' := IH ltac:(intros; apply Hin; by right)). clear IH.
    assert (Hpo : parent_of m k = parent n) by (unfold parent_of; by rewrite Hn).
    cbn [omap list_omap]. rewrite Hn, !filter_cons, Hpo.
    destruct (decide (parent n = o)); [|done]. cbn [fmap list_fmap]. by rewrite IH', (Hk k n). }
  apply Hs. intros k Hin. by apply elem_of_sorted_keys.
Qed.

Lemma elem_of_kids m o i : keyed m → i ∈ kids m o ↔ is_Some (m !! i) ∧ parent_of m i = o.
Proof. intros Hk. unfold kids. rewrite list_elem_of_filter, elem_of_sorted_keys. tauto. Qed.

Lemma kids_sorted m o : StronglySorted Z.lt (kids m o).
Proof. apply StronglySorted_filter, sorted_keys_lt. Qed.

(** ** Well-formed trees

    The invariant of every tree the module hands out. *)

Record tree_wf (t : TaskTree) : Prop := {
  wf_keyed : keyed (nodes t);
  wf_anchored : anchored (nodes t);
  wf_roots : roots t = kids (nodes t) None;
  wf_children : ∀ p, children t p = kids (nodes t) (Some p);
}.

(** The map the first loop leaves is the list, indexed. *)
Definition indexed (ns : list TaskNode) (m : gmap Z TaskNode) : Prop :=
  NoDup (id <$> ns) ∧ keyed m ∧ ∀ i n, m !! i = Some n ↔ n ∈ ns ∧ id n = i.

Lemma try_from_nodes_run ns :
  match try_from_nodes ns with
  | Ok t => indexed ns (nodes t) ∧ tree_wf t
  | Err e =>
      (e = InvalidTaskTree (str "duplicate task id") ∧ ¬ NoDup (id <$> ns)) ∨
      (∃ m ns1 n ns2 p, indexed ns m ∧ values m = ns1 ++ n :: ns2 ∧ parent n = Some p ∧ m !! p = None ∧
         e = dangling n ∧ ∀ k q, k ∈ ns1 → parent k = Some q → is_Some (m !! q))
  | Panic => False
  end.
Proof.
  unfold try_from_nodes. pose proof (insert_nodes_spec ns ∅) as Hi.
  destruct (insert_nodes ns ∅) as [m|e|]; cbn [mbind result_bind]; [| |done].
  2:{ destruct Hi as [-> H]. left. split; [done|]. intros Hnd. apply H. split; [done|].
      intros. apply lookup_empty. }
  destruct Hi as (Hnd & _ & Hm).
  assert (Hix : indexed ns m).
  { assert (Hm' : ∀ i n, m !! i = Some n ↔ n ∈ ns ∧ id n = i).
    { intros i n. rewrite Hm, lookup_empty. naive_solver. }
    split_and!; [done| |done]. by intros i n [_ ?]%Hm'. }
  pose proof (index_nodes_spec m (values m) ∅ []) as Hx.
  destruct (index_nodes m (values m) ∅ []) as [[ch rs]|e|]; cbn [mbind result_bind]; [| |done].
  - split; [done|]. destruct Hx as (Hd & -> & Hc). pose proof Hix as (_ & Hk & _).
    split; cbn [nodes roots].
    + done.
    + intros i p Hp. unfold parent_of in Hp. destruct (m !! i) as [n|] eqn:E; [|done].
      apply (Hd n p); [|done]. apply elem_of_values. eauto.
    + rewrite <- values_kids by done. cbn [app]. f_equal. by apply list_filter_iff.
    + intros p. unfold children. cbn [children_map]. rewrite Hc, lookup_empty. cbn.
      by rewrite values_kids.
  - right. destruct Hx as (ns1 & n & ns2 & p & Hv & Hrest). by exists m, ns1, n, ns2, p.
Qed.

Lemma try_from_nodes_wf ns t : try_from_nodes ns = Ok t → tree_wf t.
Proof. intros H. pose proof (try_from_nodes_run ns) as Hr. rewrite H in Hr. apply Hr. Qed.

Lemma indexed_ids ns m p : indexed ns m → p ∈ id <$> ns ↔ is_Some (m !! p).
Proof.
  intros (_ & _ & Hm). rewrite list_elem_of_fmap. split.
  - intros (n & -> & Hn). exists n. by apply Hm.
  - intros [n [? <-]%Hm]. eauto.
Qed.

Lemma indexed_size ns m : indexed ns m → size m = length ns.
Proof.
  intros Hix. pose proof Hix as (Hnd & _).
  assert (Hp : id <$> ns ≡ₚ (map_to_list m).*1).
  { apply NoDup_Permutation; [done|apply NoDup_fst_map_to_list|]. intros p.
    rewrite (indexed_ids _ _ _ Hix), list_elem_of_fmap. split.
    - intros [n Hn]. exists (p, n). split; [done|]. by apply elem_of_map_to_list.
    - intros ([? n] & -> & Hn%elem_of_map_to_list). eauto. }
  apply Permutation_length in Hp. rewrite !length_fmap, length_map_to_list in Hp. done.
Qed.

Lemma indexed_kids ns m o i :
  indexed ns m → i ∈ kids m o ↔ ∃ n, n ∈ ns ∧ id n = i ∧ parent n = o.
Proof.
  intros (_ & Hk & Hm). rewrite elem_of_kids by done. unfold parent_of. split.
  - intros [[n Hn] Hp]. rewrite Hn in Hp. apply Hm in Hn as [? ?]. eauto.
  - intros (n & Hin & Hid & Hp). assert (m !! i = Some n) as -> by (by apply Hm). eauto.
Qed.

(** ** Flattening

    [at_depth m d i]: following parents from [i] reaches a node without one
    after [d] steps.  In a tree with a cycle of parents some nodes have no
    depth. *)

Fixpoint up (m : gmap Z TaskNode) (n : nat) (i : TaskId) : option TaskId :=
  match n with
  | O => Some i
  | S n => p ← parent_of m i; up m n p
  end.

Definition at_depth (m : gmap Z TaskNode) (d : nat) (i : TaskId) : Prop :=
  ∃ r n, up m d i = Some r ∧ m !! r = Some n ∧ parent n = None.

(** The accumulator-free traversal. *)
Fixpoint preorder (fuel : nat) (t : TaskTree) (i : TaskId) : list TaskId :=
  match fuel with
  | O => []
  | S fuel => i :: (children t i ≫= preorder fuel t)
  end.

Section flatten.
Context (t : TaskTree) (Hwf : tree_wf t).
#[local] Abbreviation m := (nodes t).

Lemma up_S_r n i p j : up m n i = Some p → parent_of m p = Some j → up m (S n) i = Some j.
Proof.
  revert i. induction n as [|n IH]; intros i; cbn [up].
  - intros [= ->] ->. done.
  - destruct (parent_of m i) as [k|]; [|done]. cbn [mbind option_bind]. intros Hu Hp.
    by apply IH.
Qed.

Lemma up_add a b i : up m (a + b) i = (j ← up m a i; up m b j).
Proof.
  revert i. induction a as [|a IH]; intros i; [done|]. cbn [up Nat.add].
  destruct (parent_of m i) as [p|]; [|done]. cbn [mbind option_bind]. apply IH.
Qed.

Lemma at_depth_unique d d' i : at_depth m d i → at_depth m d' i → d = d'.
Proof.
  assert (Hlt : ∀ a b, at_depth m a i → at_depth m (S (a + b)) i → False).
  { intros a b (r & n & Hr & Hn & Hp) (r' & n' & Hr' & _).
    replace (S (a + b)) with (a + S b)%nat in Hr' by lia.
    rewrite up_add, Hr in Hr'. cbn [mbind option_bind up] in Hr'.
    unfold parent_of in Hr'. rewrite Hn in Hr'. cbn in Hr'. by rewrite Hp in Hr'. }
  intros H H'. destruct (Nat.lt_trichotomy d d') as [Hd|[Hd|Hd]]; [|done|]; exfalso.
  - apply (Hlt d (d' - d - 1)%nat); [done|]. by replace (S (d + (d' - d - 1))) with d' by lia.
  - apply (Hlt d' (d - d' - 1)%nat); [done|]. by replace (S (d' + (d - d' - 1))) with d by lia.
Qed.

Lemma at_depth_child d i c : at_depth m d i → parent_of m c = Some i → at_depth m (S d) c.
Proof. intros (r & n & Hr & ?) Hc. exists r, n. split; [|done]. cbn [up]. by rewrite Hc. Qed.

Lemma at_depth_in d i : at_depth m d i → is_Some (m !! i).
Proof.
  intros (r & n & Hr & Hn & _). destruct d as [|d]; cbn [up] in Hr.
  - injection Hr as ->. eauto.
  - unfold parent_of in Hr. by destruct (m !! i); eauto.
Qed.

(** Ancestors have all the smaller depths, so depths are below the size. *)
Lemma at_depth_lt d i : at_depth m d i → (d < size m)%nat.
Proof.
  assert (Hchain : ∀ d i, at_depth m d i → ∃ l, NoDup l ∧ length l = S d ∧
    ∀ x, x ∈ l → is_Some (m !! x) ∧ ∃ e, (e ≤ d)%nat ∧ at_depth m e x).
  { clear d i. induction d as [|d IH]; intros i Hi.
    - exists [i]. split_and!; [apply NoDup_singleton|done|].
      intros x ->%list_elem_of_singleton. split; [by eapply at_depth_in|]. eauto.
    - pose proof Hi as (r & n & Hr & Hn & Hp). cbn [up] in Hr.
      destruct (parent_of m i) as [p|] eqn:Ep; [|done]. cbn in Hr.
      destruct (IH p) as (l & Hnd & Hl & Hx); [by exists r, n|].
      exists (i :: l). split_and!.
      + constructor; [|done]. intros Hin. apply Hx in Hin as [_ (e & He & Hde)].
        pose proof (at_depth_unique _ _ _ Hi Hde). lia.
      + cbn. by rewrite Hl.
      + intros x [->|Hin]%elem_of_cons; [split; [by eapply at_depth_in|eauto]|].
        apply Hx in Hin as (? & e & ? & ?). eauto 10. }
  intros Hi. destruct (Hchain d i Hi) as (l & Hnd & Hl & Hx).
  assert (Hsub : l ⊆+ (map_to_list m).*1).
  { apply NoDup_submseteq; [done|]. intros x Hin. apply Hx in Hin as [[n Hn] _].
    apply list_elem_of_fmap. exists (x, n). split; [done|]. by apply elem_of_map_to_list. }
  apply submseteq_length in Hsub. rewrite length_fmap, length_map_to_list in Hsub.
  lia.
Qed.

(** With fuel for the levels below, the traversal is the plain one. *)
Lemma push_preorder_run fuel d i out :
  at_depth m d i → (size m ≤ d + fuel)%nat →
  push_preorder fuel t i out = Some (out ++ preorder fuel t i).
Proof.
  revert d i out. induction fuel as [|fuel IH]; intros d i out Hi Hf.
  { apply at_depth_lt in Hi. lia. }
  cbn [push_preorder preorder].
  assert (Hc : Forall (λ c, at_depth m (S d) c) (children t i)).
  { apply Forall_forall. intros c Hc. rewrite (wf_children _ Hwf), elem_of_kids in Hc by apply Hwf.
    eapply at_depth_child; [done|]. apply Hc. }
  replace (out ++ i :: (children t i ≫= preorder fuel t))
    with ((out ++ [i]) ++ (children t i ≫= preorder fuel t)) by by rewrite <- app_assoc.
  revert Hc. generalize (out ++ [i]) as acc, (children t i) as cs.
  intros acc cs; revert acc; induction cs as [|c cs IHcs]; intros acc Hc; [cbn; by rewrite app_nil_r|].
  apply Forall_cons_iff in Hc as [Hc Hcs]. cbn [foldl mbind list_bind option_bind].
  rewrite (IH (S d)) by (done || lia). rewrite IHcs by done. by rewrite <- app_assoc.
Qed.

Lemma flatten_run fuel :
  (size m ≤ fuel)%nat → flatten_preorder fuel t = Some (roots t ≫= preorder fuel t).
Proof.
  intros Hf. unfold flatten_preorder.
  assert (Hr : Forall (λ r, at_depth m 0 r) (roots t)).
  { apply Forall_forall. intros r Hr. rewrite (wf_roots _ Hwf), elem_of_kids in Hr by apply Hwf.
    destruct Hr as [[n Hn] Hp]. exists r, n. split_and!; [done..|].
    unfold parent_of in Hp. by rewrite Hn in Hp. }
  change (roots t ≫= preorder fuel t) with ([] ++ (roots t ≫= preorder fuel t)).
  revert Hr. generalize (@nil Z) as acc, (roots t) as rs.
  intros acc rs; revert acc; induction rs as [|r rs IH]; intros acc Hr; [cbn; by rewrite app_nil_r|].
  apply Forall_cons_iff in Hr as [Hr Hrs]. cbn [foldl mbind list_bind option_bind].
  rewrite (push_preorder_run _ 0) by (done || lia). rewrite IH by done. by rewrite <- app_assoc.
Qed.

Lemma at_depth_up n d x i : up m n x = Some i → at_depth m d i → at_depth m (n + d) x.
Proof.
  intros Hu (r & k & Hr & ?). exists r, k. split; [|done]. by rewrite up_add, Hu.
Qed.

(** What hangs off a node: the nodes whose parents lead to it. *)
Lemma elem_of_preorder fuel d i x :
  at_depth m d i → (size m ≤ d + fuel)%nat → x ∈ preorder fuel t i ↔ ∃ n, up m n x = Some i.
Proof.
  revert d i. induction fuel as [|fuel IH]; intros d i Hi Hf.
  { apply at_depth_lt in Hi. lia. }
  cbn [preorder]. rewrite elem_of_cons, list_elem_of_bind. split.
  - intros [->|(c & Hx & Hc)]; [by exists 0%nat|].
    rewrite (wf_children _ Hwf), elem_of_kids in Hc by apply Hwf. destruct Hc as [_ Hc].
    apply (IH (S d)) in Hx as [n Hn]; [|by eapply at_depth_child|lia].
    exists (S n). by eapply up_S_r.
  - intros [[|n] Hn]; [left; by injection Hn|right].
    replace (S n) with (n + 1)%nat in Hn by lia. rewrite up_add in Hn.
    destruct (up m n x) as [c|] eqn:Ec; [|done]. cbn [mbind option_bind up] in Hn.
    destruct (parent_of m c) as [j|] eqn:Ep; [|done]. injection Hn as ->.
    exists c. split; [apply (IH (S d)); [by eapply at_depth_child|lia|eauto]|].
    rewrite (wf_children _ Hwf), elem_of_kids by apply Hwf. split; [|done].
    unfold parent_of in Ep. by destruct (m !! c); eauto.
Qed.

(** Two nodes of the same depth share no descendant. *)
Lemma up_same_depth n n' d i i' x :
  at_depth m d i → at_depth m d i' → up m n x = Some i → up m n' x = Some i' → i = i'.
Proof.
  intros Hi Hi' Hn Hn'.
  pose proof (at_depth_unique _ _ _ (at_depth_up _ _ _ _ Hn Hi) (at_depth_up _ _ _ _ Hn' Hi')).
  assert (n = n') as -> by lia. congruence.
Qed.

Lemma NoDup_preorder fuel d i :
  at_depth m d i → (size m ≤ d + fuel)%nat → NoDup (preorder fuel t i).
Proof.
  revert d i. induction fuel as [|fuel IH]; intros d i Hi Hf; [constructor|].
  assert (Hc : ∀ c, c ∈ children t i → at_depth m (S d) c).
  { intros c Hc. rewrite (wf_children _ Hwf), elem_of_kids in Hc by apply Hwf.
    eapply at_depth_child; [done|]. apply Hc. }
  cbn [preorder]. constructor.
  - intros (c & Hx & Hin)%list_elem_of_bind. specialize (Hc c Hin).
    apply (elem_of_preorder _ (S d)) in Hx as [n Hn]; [|done|lia].
    pose proof (at_depth_unique _ _ _ (at_depth_up _ _ _ _ Hn Hc) Hi). lia.
  - apply NoDup_bind.
    + intros c c' x Hin Hin' Hx Hx'. apply (elem_of_preorder _ (S d)) in Hx as [n Hn]; [|auto|lia].
      apply (elem_of_preorder _ (S d)) in Hx' as [n' Hn']; [|auto|lia].
      by eapply up_same_depth; [..|exact Hn|exact Hn']; auto.
    + intros c Hin. apply (IH (S d)); [auto|lia].
    + rewrite (wf_children _ Hwf). apply NoDup_filter, NoDup_sorted_keys.
Qed.

(** A node comes after its parent. *)
Lemma preorder_parent_first fuel d i x p :
  at_depth m d i → (size m ≤ d + fuel)%nat → x ∈ preorder fuel t i → x ≠ i →
  parent_of m x = Some p → ∃ l1 l2 l3, preorder fuel t i = l1 ++ p :: l2 ++ x :: l3.
Proof.
  revert d i. induction fuel as [|fuel IH]; intros d i Hi Hf Hx Hne Hp.
  { by apply not_elem_of_nil in Hx. }
  cbn [preorder] in *. apply elem_of_cons in Hx as [->|Hx]; [done|].
  pose proof Hx as (c & Hxc & Hin)%list_elem_of_bind.
  destruct (list_elem_of_split _ _ Hin) as (cs1 & cs2 & Hcs).
  assert (Hc : at_depth m (S d) c ∧ parent_of m c = Some i).
  { rewrite (wf_children _ Hwf), elem_of_kids in Hin by apply Hwf.
    split; [eapply at_depth_child; [done|]|]; apply Hin. }
  destruct (decide (x = c)) as [->|Hxne].
  - destruct Hc as [_ Hc]. rewrite Hp in Hc. injection Hc as ->.
    destruct (list_elem_of_split _ _ Hx) as (l2 & l3 & ->). by exists [], l2, l3.
  - destruct (IH (S d) c) as (l1 & l2 & l3 & Hl); [apply Hc|lia|done..|].
    exists (i :: (cs1 ≫= preorder fuel t) ++ l1), l2, (l3 ++ (cs2 ≫= preorder fuel t)).
    rewrite Hcs, bind_app. cbn [mbind list_bind]. rewrite Hl. cbn.
    by rewrite <- !app_assoc; cbn; rewrite <- !app_assoc.
Qed.
End flatten.

(** What the construction answers about a list of nodes. *)
Definition built_from (ns : list TaskNode) (r : result decoder_error TaskTree) : Prop :=
  match r with
  | Ok t =>
      NoDup (id <$> ns) ∧ (∀ n p, n ∈ ns → parent n = Some p → p ∈ id <$> ns) ∧
      (∀ i n, node t i = Some n ↔ n ∈ ns ∧ id n = i) ∧
      StronglySorted Z.lt (roots t) ∧
      (∀ i, i ∈ roots t ↔ ∃ n, n ∈ ns ∧ id n = i ∧ parent n = None) ∧
      ∀ p, StronglySorted Z.lt (children t p) ∧
           ∀ i, i ∈ children t p ↔ ∃ n, n ∈ ns ∧ id n = i ∧ parent n = Some p
  | Err e =>
      (e = InvalidTaskTree (str "duplicate task id") ∧ ¬ NoDup (id <$> ns)) ∨
      (NoDup (id <$> ns) ∧ ∃ n p, n ∈ ns ∧ parent n = Some p ∧ p ∉ id <$> ns ∧ e = dangling n ∧
         ∀ k q, k ∈ ns → parent k = Some q → q ∉ id <$> ns → id n ≤ id k)
  | Panic => False
  end.

Lemma try_from_nodes_spec ns : built_from ns (try_from_nodes ns).
Proof.
  unfold built_from.
  pose proof (try_from_nodes_run ns) as Hr. destruct (try_from_nodes ns) as [t|e|]; [..|done].
  - destruct Hr as [Hix [Hk Ha Hroots Hch]]. pose proof Hix as (Hnd & _ & Hm).
    split_and!; [done| | | | |].
    + intros n p Hn Hp. apply (indexed_ids _ _ _ Hix), (Ha (id n)). unfold parent_of.
      assert (nodes t !! id n = Some n) as -> by (by apply Hm). done.
    + apply Hm.
    + rewrite Hroots. apply kids_sorted.
    + intros i. rewrite Hroots. by apply indexed_kids.
    + intros p. rewrite Hch. split; [apply kids_sorted|]. intros i. by apply indexed_kids.
  - destruct Hr as [?|(m & ns1 & n & ns2 & p & Hix & Hv & Hp & Hmp & -> & Hd)]; [by left|right].
    pose proof Hix as (Hnd & Hk & Hm).
    assert (Hval : ∀ k, k ∈ values m ↔ k ∈ ns).
    { intros k. rewrite elem_of_values. split; [by intros [i [? _]%Hm]|]. intros Hin.
      exists (id k). by apply Hm. }
    split; [done|]. exists n, p. split_and!; try done.
    + apply Hval. rewrite Hv. set_solver.
    + rewrite (indexed_ids _ _ _ Hix), Hmp. by intros [? ?].
    + intros k q Hin Hq Hnq. rewrite (indexed_ids _ _ _ Hix) in Hnq.
      apply Hval in Hin. rewrite Hv in Hin. apply elem_of_app in Hin as [Hin|Hin].
      { destruct Hnq. by eapply Hd. }
      pose proof (sorted_keys_lt m) as Hs. rewrite <- (values_keys m Hk), Hv, fmap_app in Hs.
      apply StronglySorted_app in Hs as (_ & _ & Hs). cbn in Hs.
      apply StronglySorted_inv in Hs as [_ Hs]. apply elem_of_cons in Hin as [->|Hin]; [lia|].
      rewrite Forall_forall in Hs. specialize (Hs (id k) ltac:(by apply list_elem_of_fmap_2)). lia.
Qed.

(** ** Properties *)

(** C19. [try_from_nodes] accepts a list exactly when its ids are distinct and
    every parent is in it; the tree then holds the given nodes, its roots are
    the nodes without a parent and the children of a node the nodes that name
    it, both in increasing order of id, whatever the order of the list.  It
    refuses otherwise, reporting a duplicate first and else the dangling node
    of least id; it never panics. *)
Theorem try_from_nodes_exact ns :
  match try_from_nodes ns with
  | Ok t =>
      NoDup (id <$> ns) ∧ (∀ n p, n ∈ ns → parent n = Some p → p ∈ id <$> ns) ∧
      (∀ i n, node t i = Some n ↔ n ∈ ns ∧ id n = i) ∧
      StronglySorted Z.lt (roots t) ∧
      (∀ i, i ∈ roots t ↔ ∃ n, n ∈ ns ∧ id n = i ∧ parent n = None) ∧
      ∀ p, StronglySorted Z.lt (children t p) ∧
           ∀ i, i ∈ children t p ↔ ∃ n, n ∈ ns ∧ id n = i ∧ parent n = Some p
  | Err e =>
      (e = InvalidTaskTree (str "duplicate task id") ∧ ¬ NoDup (id <$> ns)) ∨
      (NoDup (id <$> ns) ∧ ∃ n p, n ∈ ns ∧ parent n = Some p ∧ p ∉ id <$> ns ∧ e = dangling n ∧
         ∀ k q, k ∈ ns → parent k = Some q → q ∉ id <$> ns → id n ≤ id k)
  | Panic => False
  end.
Proof. exact (try_from_nodes_spec ns). Qed.

(** A node is reached from a root when following its parents ends. *)
Definition rooted (t : TaskTree) (x : TaskId) : Prop := ∃ d, at_depth (nodes t) d x.

Section flat.
Context (t : TaskTree) (Hwf : tree_wf t) (fuel : nat) (Hf : (size (nodes t) ≤ fuel)%nat).
#[local] Abbreviation flat := (roots t ≫= preorder fuel t).

Lemma root_depth r : r ∈ roots t → at_depth (nodes t) 0 r.
Proof.
  intros Hr. rewrite (wf_roots _ Hwf), elem_of_kids in Hr by apply Hwf. destruct Hr as [[n Hn] Hp].
  exists r, n. split_and!; [done..|]. unfold parent_of in Hp. by rewrite Hn in Hp.
Qed.

Lemma elem_of_flat x : x ∈ flat ↔ rooted t x.
Proof.
  rewrite list_elem_of_bind. split.
  - intros (r & Hx & Hr%root_depth). apply (elem_of_preorder _ Hwf _ 0) in Hx as [n Hn]; [|done|lia].
    exists (n + 0)%nat. by eapply at_depth_up.
  - intros (d & r & n & Hr & Hn & Hp).
    assert (Hroot : r ∈ roots t).
    { rewrite (wf_roots _ Hwf), elem_of_kids by apply Hwf. split; [eauto|]. unfold parent_of. by rewrite Hn. }
    exists r. split; [|done]. apply (elem_of_preorder _ Hwf _ 0); [by apply root_depth|lia|eauto].
Qed.

Lemma NoDup_flat : NoDup flat.
Proof.
  apply NoDup_bind.
  - intros r r' x Hr%root_depth Hr'%root_depth Hx Hx'.
    apply (elem_of_preorder _ Hwf _ 0) in Hx as [n Hn]; [|done|lia].
    apply (elem_of_preorder _ Hwf _ 0) in Hx' as [n' Hn']; [|done|lia].
    by eapply up_same_depth.
  - intros r Hr%root_depth. by apply (NoDup_preorder _ Hwf _ 0); [|lia].
  - rewrite (wf_roots _ Hwf). apply NoDup_filter, NoDup_sorted_keys.
Qed.

Lemma flat_parent_first x p :
  x ∈ flat → parent_of (nodes t) x = Some p → ∃ l1 l2 l3, flat = l1 ++ p :: l2 ++ x :: l3.
Proof.
  intros (r & Hx & Hr)%list_elem_of_bind Hp.
  destruct (list_elem_of_split _ _ Hr) as (rs1 & rs2 & Hrs).
  assert (Hne : x ≠ r).
  { intros ->. pose proof (root_depth _ Hr) as (? & n & [= <-] & Hn & Hpn).
    unfold parent_of in Hp. rewrite Hn in Hp. cbn in Hp. congruence. }
  apply root_depth in Hr.
  destruct (preorder_parent_first _ Hwf fuel 0 r x p) as (l1 & l2 & l3 & Hl); [done|lia|done..|].
  exists ((rs1 ≫= preorder fuel t) ++ l1), l2, (l3 ++ (rs2 ≫= preorder fuel t)).
  rewrite Hrs, bind_app. cbn [mbind list_bind]. rewrite Hl.
  by rewrite <- !app_assoc; cbn; rewrite <- !app_assoc.
Qed.

Lemma length_flat : length flat = size (nodes t) ↔ ∀ x, is_Some (nodes t !! x) → rooted t x.
Proof.
  assert (Hsub : flat ⊆ (map_to_list (nodes t)).*1).
  { intros x Hx%elem_of_flat. destruct Hx as [d Hd]. apply at_depth_in in Hd as [n Hn].
    apply list_elem_of_fmap. exists (x, n). split; [done|]. by apply elem_of_map_to_list. }
  assert (Hlen : length (map_to_list (nodes t)).*1 = size (nodes t)).
  { by rewrite length_fmap, length_map_to_list. }
  split.
  - intros Hl x [n Hn]. apply elem_of_flat.
    assert (Hp : flat ≡ₚ (map_to_list (nodes t)).*1).
    { apply submseteq_length_Permutation; [apply NoDup_submseteq; [apply NoDup_flat|done]|lia]. }
    rewrite Hp. apply list_elem_of_fmap. exists (x, n). split; [done|]. by apply elem_of_map_to_list.
  - intros Hall. apply Nat.le_antisymm.
    + rewrite <- Hlen. apply submseteq_length, NoDup_submseteq; [apply NoDup_flat|done].
    + rewrite <- Hlen. apply submseteq_length, NoDup_submseteq; [apply NoDup_fst_map_to_list|].
      intros x ([? n] & -> & Hn%elem_of_map_to_list)%list_elem_of_fmap. apply elem_of_flat, Hall. eauto.
Qed.
End flat.

(** C20. On every tree [try_from_nodes] returns, [flatten_preorder] ends, within
    one recursion level per node; it lists each node whose parents lead to a
    root exactly once, each after its parent, and no other node.  So it lists
    all the [len] nodes exactly when no node is on or below a cycle of
    parents. *)
Theorem flatten_preorder_visits ns t fuel :
  try_from_nodes ns = Ok t → len t ≤ Z.of_nat fuel →
  ∃ out, flatten_preorder fuel t = Some out ∧ NoDup out ∧ (∀ x, x ∈ out ↔ rooted t x) ∧
    (∀ x p, x ∈ out → parent_of (nodes t) x = Some p → ∃ l1 l2 l3, out = l1 ++ p :: l2 ++ x :: l3) ∧
    (Z.of_nat (length out) = len t ↔ ∀ x, is_Some (node t x) → rooted t x).
Proof.
  intros Hwf%try_from_nodes_wf Hf. unfold len in *. assert (Hf' : (size (nodes t) ≤ fuel)%nat) by lia.
  exists (roots t ≫= preorder fuel t). split_and!.
  - by apply flatten_run.
  - by apply NoDup_flat.
  - by apply elem_of_flat.
  - by apply flat_parent_first.
  - rewrite Nat2Z.inj_iff. by apply length_flat.
Qed.

(** ** Samples *)

(** The shape of the tests: a task by id and parent. *)
Definition task_node (i : TaskId) (p : option TaskId) : TaskNode :=
  MkTaskNode i (str "task-" ++ dec i) TaskKind.AsyncTask TaskState.Runnable p.

(** Branches given in the order 3, 2: the code lists them in the order of ids. *)
Definition select_nodes : list TaskNode :=
  [task_node 1 None; task_node 3 (Some 1); task_node 2 (Some 1); task_node 4 (Some 3)].

Example select_children :
  (t ← try_from_nodes select_nodes; Ok (children t 1, flatten_preorder 4 t))
  = Ok (E := decoder_error) ([2; 3], Some [1; 2; 3; 4]).
Proof. vm_compute. reflexivity. Qed.

(** Two tasks that name each other as parents are a tree of two nodes, with no
    root and nothing to flatten. *)
Lemma cyclic_parents_accepted :
  ∃ t, try_from_nodes [task_node 1 (Some 2); task_node 2 (Some 1)] = Ok t ∧
       len t = 2 ∧ roots t = [] ∧ flatten_preorder 2 t = Some [].
Proof. eexists. split_and!; vm_compute; reflexivity. Qed.

Lemma flatten_preorder_visits_witness :
  ∃ t out, try_from_nodes select_nodes = Ok t ∧ flatten_preorder 4 t = Some out ∧ NoDup out.
Proof.
  destruct (try_from_nodes select_nodes) as [t| |] eqn:E; [|vm_compute in E; discriminate E..].
  assert (Hl : match try_from_nodes select_nodes with Ok t => len t <=? 4 | _ => false end = true)
    by (vm_compute; reflexivity).
  rewrite E in Hl. apply Z.leb_le in Hl.
  destruct (flatten_preorder_visits select_nodes t 4 E Hl) as (out & Ho & Hnd & _).
  exists t, out. split_and!; done.
Defined.
