(* ===== verification/View.v ===== *)
(** * Process views and decoders: [process_view.rs], [decoder_trait.rs], [native.rs]

    [ProcessView] is the trait a decoder reads a paused process through and
    [SemanticDecoder] the trait every language decoder implements; both are
    records of operations.  [AnswersTasks] is the law a client relies on: a
    task of the tree can be asked about.  The native decoder, one root task
    per thread, is the first implementation. *)

From S2P Require Import Prelude.
From S2P Require Import Text.
From S2P Require Import TaskModel.
From S2P Require Import TaskTree.

(** ** [ProcessView] *)

Record Registers := MkRegisters { reg_pc : Z; reg_sp : Z }.

Record ProcessView := MkProcessView {
  thread_ids : list ThreadId;
  registers : ThreadId → result decoder_error Registers;
  read_memory : Z → Z → result decoder_error (list byte);
  physical_frames : ThreadId → result decoder_error (list PhysicalFrame);
  thread_pointer : ThreadId → result decoder_error (option Z);
  executable_base : option Z;
}.

(** The provided methods. *)
Definition default_thread_pointer (_ : ThreadId) : result decoder_error (option Z) := Ok None.
Definition default_executable_base : option Z := None.

(** ** [SemanticDecoder] *)

Record SemanticDecoder := MkSemanticDecoder {
  decode_tasks : ProcessView → result decoder_error TaskTree;
  logical_stack : ProcessView → TaskId → result decoder_error (list LogicalFrame);
  decoder_wake_cause : ProcessView → TaskId → result decoder_error wake_cause;
  locals_at : ProcessView → TaskId → LogicalFrame → result decoder_error (list Variable_);
}.

(** What the documentation of the trait promises of a task of the tree: no
    query calls it unknown. *)
Class AnswersTasks (d : SemanticDecoder) (v : ProcessView) : Prop := {
  stack_known : ∀ t i, decode_tasks d v = Ok t → is_Some (node t i) →
    logical_stack d v i ≠ Err (UnknownTask i);
  wake_known : ∀ t i, decode_tasks d v = Ok t → is_Some (node t i) →
    ∃ w, decoder_wake_cause d v i = Ok w;
  locals_known : ∀ t i f, decode_tasks d v = Ok t → is_Some (node t i) →
    ∃ l, locals_at d v i f = Ok l;
}.

(** ** Addresses

    The sources add offsets to addresses with [+] on [u64]. *)

Definition addr_add (a b : Z) : result decoder_error Z := expect (checked_add 64 a b).

(** ** [NativeThreadsDecoder] *)

Definition thread_for (task : TaskId) : ThreadId := task.

Definition thread_node (thread : ThreadId) : TaskNode :=
  TaskNode_root thread (str "thread " ++ dec thread) TaskKind.Thread TaskState.Running.

Definition native_decode_tasks (v : ProcessView) : result decoder_error TaskTree :=
  try_from_nodes (thread_node <$> thread_ids v).

Definition native_logical_stack (v : ProcessView) (task : TaskId)
    : result decoder_error (list LogicalFrame) :=
  frames ← map_err (λ _, UnknownTask task) (physical_frames v (thread_for task));
  Ok (logical_frames frames).

Definition is_err {E A} (r : result E A) : bool := match r with Err _ => true | _ => false end.

Definition native_wake_cause (v : ProcessView) (task : TaskId) : result decoder_error wake_cause :=
  if is_err (registers v (thread_for task)) then Err (UnknownTask task) else Ok WakeCause.Unknown.

Definition native_locals_at (v : ProcessView) (task : TaskId) (_ : LogicalFrame)
    : result decoder_error (list Variable_) :=
  if is_err (registers v (thread_for task)) then Err (UnknownTask task) else Ok [].

Definition NativeThreadsDecoder : SemanticDecoder :=
  {| decode_tasks := native_decode_tasks;
     logical_stack := native_logical_stack;
     decoder_wake_cause := native_wake_cause;
     locals_at := native_locals_at |}.

(** What the decoders rely on of a view: the threads it lists can be read, a
    query about any other is an unknown thread, and a failed read of memory says
    which.  That every read of a range not mapped fails, as [process_view.rs]
    has it, is not among them. *)
Class ViewLaws (v : ProcessView) : Prop := {
  listed_registers : ∀ t, t ∈ thread_ids v → ∃ r, registers v t = Ok r;
  unlisted_registers : ∀ t, t ∉ thread_ids v → registers v t = Err (UnknownThread t);
  listed_frames : ∀ t, t ∈ thread_ids v → ∃ fs, physical_frames v t = Ok fs;
  unlisted_frames : ∀ t, t ∉ thread_ids v → physical_frames v t = Err (UnknownThread t);
  read_errors : ∀ a n e, read_memory v a n = Err e → ∃ r, e = MemoryReadFailed a n r;
}.

Lemma thread_node_ids (l : list ThreadId) : id <$> (thread_node <$> l) = l.
Proof. induction l as [|t l IH]; [done|]. cbn. by rewrite IH. Qed.

Lemma native_node v t i :
  native_decode_tasks v = Ok t → node t i = (if decide (i ∈ thread_ids v) then Some (thread_node i) else None).
Proof.
  unfold native_decode_tasks. intros H.
  pose proof (try_from_nodes_run (thread_node <$> thread_ids v)) as Hr. rewrite H in Hr.
  destruct Hr as [(_ & _ & Hm) _]. unfold node. destruct (decide (i ∈ thread_ids v)) as [Hi|Hi].
  - apply Hm. split; [by apply list_elem_of_fmap_2|done].
  - destruct (nodes t !! i) as [n|] eqn:E; [|done].
    apply Hm in E as [(k & -> & Hk)%list_elem_of_fmap <-]. done.
Qed.

#[export] Instance native_answers v : ViewLaws v → AnswersTasks NativeThreadsDecoder v.
Proof.
  intros Hv. split; cbn; intros t i; [..|intros f]; intros Ht [n Hn];
    rewrite (native_node _ _ _ Ht) in Hn; destruct (decide _) as [Hi|]; try done.
  - unfold native_logical_stack, thread_for.
    destruct (listed_frames _ Hi) as [fs ->]. done.
  - unfold native_wake_cause, thread_for. destruct (listed_registers _ Hi) as [r ->]. eauto.
  - unfold native_locals_at, thread_for. destruct (listed_registers _ Hi) as [r ->]. eauto.
Qed.

(** The tree of a view whose threads are listed once, in order. *)
Lemma native_tree v :
  StronglySorted Z.lt (thread_ids v) →
  ∃ t, native_decode_tasks v = Ok t ∧ roots t = thread_ids v ∧
    ∀ i, i ∈ thread_ids v → node t i = Some (thread_node i).
Proof.
  intros Hs. pose proof (try_from_nodes_spec (thread_node <$> thread_ids v)) as H. unfold built_from in H.
  destruct (native_decode_tasks v) as [t|e|] eqn:Ht; unfold native_decode_tasks in Ht; rewrite Ht in H;
    [..|done]; rewrite ?thread_node_ids in H.
  - destruct H as (_ & _ & _ & Hrs & Hr & _). exists t. split; [done|]. split.
    + apply lt_sorted_unique; [done..|]. intros i. rewrite Hr. split.
      * by intros (n & (k & -> & Hk)%list_elem_of_fmap & <- & _).
      * intros Hi. exists (thread_node i). split; [by apply list_elem_of_fmap_2|done].
    + intros i Hi. rewrite (native_node v t i Ht). by rewrite decide_True.
  - destruct H as [[_ []]|(_ & n & p & (k & -> & Hk)%list_elem_of_fmap & Hp & _)]; [|done].
    by apply StronglySorted_lt_NoDup.
Qed.

(** ** Properties *)

(** Over a view that keeps its contract, the native decoder accepts exactly
    the views whose thread ids are distinct; its tree has one root task per
    thread and no children, and each of the three queries answers exactly the
    tasks of that tree: a listed thread's stack is its physical frames in
    order, one logical frame each, and every other id is refused as unknown. *)
Theorem native_decoder_exact v :
  ViewLaws v →
  match native_decode_tasks v with
  | Ok t =>
      NoDup (thread_ids v) ∧
      (∀ i, i ∈ roots t ↔ i ∈ thread_ids v) ∧ (∀ i, children t i = []) ∧
      ∀ i f,
        if decide (i ∈ thread_ids v) then
          node t i = Some (thread_node i) ∧
          (∃ fs, physical_frames v i = Ok fs ∧ native_logical_stack v i = Ok (logical_frames fs)) ∧
          native_wake_cause v i = Ok WakeCause.Unknown ∧ native_locals_at v i f = Ok []
        else
          node t i = None ∧ native_logical_stack v i = Err (UnknownTask i) ∧
          native_wake_cause v i = Err (UnknownTask i) ∧ native_locals_at v i f = Err (UnknownTask i)
  | Err e => e = InvalidTaskTree (str "duplicate task id") ∧ ¬ NoDup (thread_ids v)
  | Panic => False
  end.
Proof.
  intros Hv. destruct (native_decode_tasks v) as [t|e|] eqn:Ht;
    pose proof (try_from_nodes_spec (thread_node <$> thread_ids v)) as H;
    unfold native_decode_tasks in Ht; rewrite Ht in H; [..|done]; unfold built_from in H; cbv iota in H; rewrite thread_node_ids in H.
  - destruct H as (Hnd & _ & _ & _ & Hr & Hc). split_and!; [done| | |].
    + intros i. rewrite Hr. split.
      * by intros (n & (k & -> & Hk)%list_elem_of_fmap & <- & _).
      * intros Hi. exists (thread_node i). split; [by apply list_elem_of_fmap_2|done].
    + intros i. destruct (Hc i) as [_ Hci]. destruct (children t i) as [|c cs]; [done|].
      destruct (proj1 (Hci c) ltac:(left)) as (n & (k & -> & Hk)%list_elem_of_fmap & _ & Hp). done.
    + intros i f. pose proof (native_node v t i Ht) as Hn.
      unfold native_logical_stack, native_wake_cause, native_locals_at, thread_for.
      destruct (decide (i ∈ thread_ids v)) as [Hi|Hi].
      * destruct (listed_registers _ Hi) as [r ->], (listed_frames _ Hi) as [fs ->]. eauto 10.
      * rewrite (unlisted_registers _ Hi), (unlisted_frames _ Hi). done.
  - destruct H as [?|(_ & n & p & (k & -> & Hk)%list_elem_of_fmap & Hp & _)]; [done|]. done.
Qed.

(** ** Samples *)

(** A process image as a map of bytes, as the tests have it. *)
Definition poke (a : Z) (bs : list byte) (m : gmap Z byte) : gmap Z byte :=
  list_to_map (zip (seqZ a (blen bs)) bs) ∪ m.

Definition image_view (m : gmap Z byte) (threads : list ThreadId) (frames : list PhysicalFrame)
    : ProcessView :=
  {| thread_ids := threads;
     registers := λ t, if decide (t ∈ threads) then Ok (MkRegisters 0 0) else Err (UnknownThread t);
     read_memory := λ a n,
       match mapM (λ i, m !! i) (seqZ a n) with
       | Some bs => Ok bs
       | None => Err (MemoryReadFailed a n (str "unmapped"))
       end;
     physical_frames := λ t, if decide (t ∈ threads) then Ok frames else Err (UnknownThread t);
     thread_pointer := default_thread_pointer;
     executable_base := default_executable_base |}.

(** Two threads with one frame each. *)
Definition two_threads : ProcessView :=
  image_view ∅ [7; 9] [MkPhysicalFrame 0x1000 0x7fff (Some (str "main")) None].

#[export] Instance image_view_lawful m threads frames : ViewLaws (image_view m threads frames).
Proof.
  split; cbn [thread_ids registers physical_frames read_memory image_view].
  - intros t Ht. rewrite decide_True by done. eauto.
  - intros t Ht. by rewrite decide_False.
  - intros t Ht. rewrite decide_True by done. eauto.
  - intros t Ht. by rewrite decide_False.
  - intros a n e. destruct (mapM _ _); [done|]. intros [= <-]. eauto.
Qed.

#[export] Instance two_threads_lawful : ViewLaws two_threads := image_view_lawful _ _ _.

Lemma native_decoder_exact_witness :
  ViewLaws two_threads ∧ NoDup (thread_ids two_threads) ∧
  native_logical_stack two_threads 9 =
    Ok [MkLogicalFrame (str "main") None None Physical].
Proof.
  split; [apply _|]. pose proof (native_decoder_exact two_threads two_threads_lawful) as H.
  destruct (native_decode_tasks two_threads) as [t|e|] eqn:E; [|vm_compute in E; discriminate E..].
  destruct H as (Hnd & _ & _ & Hq). split; [exact Hnd|].
  destruct (Hq 9 (MkLogicalFrame [] None None Physical)) as (_ & (fs & Hfs & Hs) & _).
  rewrite Hs. injection Hfs as <-. reflexivity.
Defined.
