(* ===== verification/GoRuntime.v ===== *)
(** * The Go runtime's constants: [decoder/src/go/status.rs], [version.rs], [offsets.rs]

    Goroutine statuses and wait reasons and their portable reading, the
    toolchain version found in a binary, and the offsets of [runtime.g] keyed
    by it. *)

From S2P Require Import Prelude.
From S2P Require Import Text.
From S2P Require Import TaskModel.

(** ** [status.rs] *)

Definition G_SCAN : Z := 0x1000.

Module GoStatus.
Inductive go_status :=
| Idle | Runnable | Running | Syscall | Waiting | Dead | Copystack | Preempted
| Other (raw : Z).
End GoStatus.
Abbreviation go_status := GoStatus.go_status.

#[export] Instance go_status_eq_dec : EqDecision go_status.
Proof. solve_decision. Defined.

Definition from_raw (raw : Z) : go_status :=
  match Z.ldiff raw G_SCAN with
  | 0 => GoStatus.Idle
  | 1 => GoStatus.Runnable
  | 2 => GoStatus.Running
  | 3 => GoStatus.Syscall
  | 4 => GoStatus.Waiting
  | 6 => GoStatus.Dead
  | 8 => GoStatus.Copystack
  | 9 => GoStatus.Preempted
  | other => GoStatus.Other other
  end.

Definition is_dead (s : go_status) : bool :=
  match s with
  | GoStatus.Dead | GoStatus.Other 5 | GoStatus.Other 7 => true
  | _ => false
  end.

Definition WAIT_REASON_STRINGS : list (list byte) :=
  [ []; str "GC assist marking"; str "IO wait"; str "chan receive (nil chan)";
    str "chan send (nil chan)"; str "dumping heap"; str "garbage collection";
    str "garbage collection scan"; str "panicwait"; str "select"; str "select (no cases)";
    str "GC assist wait"; str "GC sweep wait"; str "GC scavenge wait"; str "chan receive";
    str "chan send"; str "finalizer wait"; str "force gc (idle)"; str "semacquire"; str "sleep";
    str "sync.Cond.Wait"; str "sync.Mutex.Lock"; str "sync.RWMutex.RLock"; str "sync.RWMutex.Lock";
    str "sync.WaitGroup.Wait"; str "trace reader (blocked)"; str "wait for GC cycle";
    str "GC worker (idle)"; str "GC worker (active)"; str "preempted"; str "debug call";
    str "GC mark termination"; str "stopping the world"; str "flushing proc caches";
    str "trace goroutine status"; str "trace proc status"; str "page trace flush"; str "coroutine";
    str "GC weak to strong wait"; str "synctest.Run"; str "synctest.Wait";
    str "chan receive (synctest)"; str "chan send (synctest)"; str "select (synctest)" ].

Definition wait_reason_str (wait_reason : Z) : list byte :=
  default (str "?") (get_at WAIT_REASON_STRINGS wait_reason).

(** The match arms of the two classifications. *)
Definition channel_reasons : list Z := [3; 4; 9; 10; 14; 15; 41; 42; 43].
Definition lock_reasons : list Z := [18; 20; 21; 22; 23].

Definition go_block_reason (wait_reason : Z) : block_reason :=
  let detail := Some (wait_reason_str wait_reason) in
  if decide (wait_reason ∈ channel_reasons) then BlockReason.Channel detail
  else if decide (wait_reason = 2) then BlockReason.Io detail
  else if decide (wait_reason ∈ lock_reasons) then BlockReason.Lock detail
  else if decide (wait_reason = 24) then BlockReason.Join None
  else if decide (wait_reason = 19) then BlockReason.Timer
  else BlockReason.Unknown.

Definition go_wake_cause (wait_reason : Z) : wake_cause :=
  if decide (wait_reason ∈ channel_reasons) then WakeCause.Channel (Some (wait_reason_str wait_reason))
  else if decide (wait_reason = 2) then
    WakeCause.Io (MkIoWakeDetail None (Some (wait_reason_str wait_reason)))
  else if decide (wait_reason = 19) then WakeCause.Timer
  else if decide (wait_reason ∈ lock_reasons ++ [24]) then WakeCause.Manual
  else WakeCause.Unknown.

Definition to_task_state (s : go_status) (wait_reason : Z) : task_state :=
  match s with
  | GoStatus.Running | GoStatus.Syscall => TaskState.Running
  | GoStatus.Runnable | GoStatus.Copystack | GoStatus.Preempted | GoStatus.Idle => TaskState.Runnable
  | GoStatus.Waiting => TaskState.Blocked (go_block_reason wait_reason)
  | GoStatus.Dead | GoStatus.Other _ => TaskState.Completed
  end.

(** ** [version.rs] *)

Record GoVersion := MkGoVersion { major : Z; minor : Z; patch : Z }.

Definition parse_leading_number (s : list byte) : option Z :=
  match take_while is_ascii_digit s with
  | [] => None
  | ds => parse_u 16 ds
  end.

(** The numbers of a [major.minor[.patch]] token. *)
Definition version_parts (text : list byte) : option (Z * Z * Z) :=
  let parts := split_on (byte_is x2e) text in
  a ← get_at parts 0 ≫= parse_leading_number;
  b ← get_at parts 1 ≫= parse_leading_number;
  let c := default 0 (get_at parts 2 ≫= parse_leading_number) in
  Some (a, b, c).

Definition GoVersion_parse (text : list byte) : option GoVersion :=
  '(a, b, c) ← version_parts (default text (strip_prefix (str "go") text));
  Some (MkGoVersion a b c).

(** One candidate: the 16 bytes at a needle, when they are UTF-8. *)
Definition go_candidate (image : list byte) (start : nat) : option GoVersion :=
  let text := take 16 (drop start image) in
  if utf8_valid text then GoVersion_parse text else None.

(** The scan; a round of the loop moves [from] past a needle. *)
Fixpoint go_detect_loop (fuel : nat) (image : list byte) (from : nat) : option GoVersion :=
  match fuel with
  | O => None
  | S fuel =>
      match find_sub (str "go1.") (drop from image) with
      | None => None
      | Some pos =>
          let start := (from + pos)%nat in
          match go_candidate image start with
          | Some version => Some version
          | None => go_detect_loop fuel image (start + 4)
          end
      end
  end.

Definition GoVersion_detect_in_bytes (image : list byte) : option GoVersion :=
  go_detect_loop (S (length image)) image 0.

(** ** [offsets.rs] *)

Inductive layout_source := Dwarf | Vendored (v : GoVersion).

Record GStructOffsets := MkGStructOffsets {
  go_goid : Z;
  go_atomicstatus : Z;
  go_waitreason : Z;
  go_stack_lo : Z;
  go_stack_hi : Z;
  go_sched_pc : Z;
  go_sched_sp : Z;
  go_gopc : Z;
  go_startpc : Z;
  go_m : Z;
  go_parent_goid : option Z;
}.

Definition GStructOffsets_vendored (version : GoVersion) : option GStructOffsets :=
  match major version, minor version with
  | 1, 24 => Some {| go_goid := 160; go_atomicstatus := 152; go_waitreason := 184;
                     go_stack_lo := 0; go_stack_hi := 8; go_sched_pc := 64; go_sched_sp := 56;
                     go_gopc := 288; go_startpc := 304; go_m := 48; go_parent_goid := Some 280 |}
  | _, _ => None
  end.

Definition vendored_m_procid (version : GoVersion) : option Z :=
  match major version, minor version with
  | 1, 24 => Some 72
  | _, _ => None
  end.

Record GoLayout := MkGoLayout {
  ptr_size : Z;
  allgs_addr : Z;
  allglen_addr : option Z;
  load_bias : Z;
  g_offsets : GStructOffsets;
  m_procid : option Z;
  layout_src : layout_source;
}.

Definition slice_len_offset (l : GoLayout) : Z := ptr_size l.

(** ** Lemmas *)

(** A scan bit does not change the decoded status. *)
Lemma from_raw_scan raw : from_raw (Z.lor raw G_SCAN) = from_raw raw.
Proof.
  unfold from_raw. f_equal.
  assert (Z.ldiff (Z.lor raw G_SCAN) G_SCAN = Z.ldiff raw G_SCAN) as ->; [|done].
  apply Z.bits_inj'. intros n Hn. rewrite !Z.ldiff_spec, Z.lor_spec.
  destruct (Z.testbit raw n), (Z.testbit G_SCAN n); done.
Qed.

(** ** Samples: the tests of the three files *)

Example go_block_reason_samples :
  go_block_reason 14 = BlockReason.Channel (Some (str "chan receive"))
  ∧ go_block_reason 21 = BlockReason.Lock (Some (str "sync.Mutex.Lock"))
  ∧ go_block_reason 19 = BlockReason.Timer ∧ go_wake_cause 19 = WakeCause.Timer
  ∧ go_block_reason 250 = BlockReason.Unknown ∧ wait_reason_str 250 = str "?".
Proof. vm_compute. split_and!; reflexivity. Qed.

Example go_version_samples :
  GoVersion_parse (str "go1.24.13") = Some (MkGoVersion 1 24 13)
  ∧ GoVersion_parse (str "1.21.0") = Some (MkGoVersion 1 21 0)
  ∧ GoVersion_parse (str "gofmt") = None
  ∧ GoVersion_detect_in_bytes (str "xx some rodata go1.24.13 padding") = Some (MkGoVersion 1 24 13).
Proof. vm_compute. split_and!; reflexivity. Qed.

(** A version token closely followed by bytes that are not UTF-8 is not found. *)
Lemma version_before_binary_missed :
  GoVersion_detect_in_bytes (str "go1.24.13" ++ [xff; xff; xff; xff; xff; xff; xff]) = None.
Proof. vm_compute. reflexivity. Qed.
