(* ===== verification/GoWalk.v ===== *)
(** * The goroutine decoder: [decoder/src/go/gwalk.rs], [go/decoder.rs]

    [walk_goroutines] reads [runtime.allgs] through a view into one
    [GoroutineInfo] per live goroutine; the decoder turns them into a task
    tree and answers queries by walking again.  Additions on addresses
    overflow into a panic, as in a debug build. *)

From S2P Require Import Prelude.
From S2P Require Import Text.
From S2P Require Import TaskModel.
From S2P Require Import TaskTree.
From S2P Require Import View.
From S2P Require Import GoRuntime.

(** ** Reading: [gwalk.rs] *)

Definition MAX_GOROUTINES : Z := Z.shiftl 1 20.

Record GoroutineInfo := MkGoroutineInfo {
  gi_goid : Z;
  gi_raw_status : Z;
  gi_status : go_status;
  gi_state : task_state;
  gi_wait_reason : Z;
  gi_wait_reason_str : list byte;
  gi_gopc : Z;
  gi_startpc : Z;
  gi_sched_pc : Z;
  gi_sched_sp : Z;
  gi_stack_lo : Z;
  gi_stack_hi : Z;
  gi_m_ptr : Z;
  gi_parent_goid : option Z;
  gi_thread : option ThreadId;
}.

Definition short_read (addr n : Z) : decoder_error :=
  MemoryReadFailed addr n (str "short read from process view").

(** The three readers: [n] little-endian bytes at [addr]. *)
Definition read_le (v : ProcessView) (n addr : Z) : result decoder_error Z :=
  bytes ← read_memory v addr n;
  if blen bytes =? n then Ok (le_value bytes) else Err (short_read addr n).

Definition read_u64 (v : ProcessView) (addr : Z) : result decoder_error Z := read_le v 8 addr.
Definition read_u32 (v : ProcessView) (addr : Z) : result decoder_error Z := read_le v 4 addr.

(** [bytes.first()]: a longer answer is not refused. *)
Definition read_u8 (v : ProcessView) (addr : Z) : result decoder_error Z :=
  bytes ← read_memory v addr 1;
  match bytes with
  | b :: _ => Ok (Z_of_byte b)
  | [] => Err (short_read addr 1)
  end.

Definition read_allgs_header (v : ProcessView) (l : GoLayout) : result decoder_error (Z * Z) :=
  allgs ← addr_add (allgs_addr l) (load_bias l);
  data ← read_u64 v allgs;
  len_at ← addr_add allgs (slice_len_offset l);
  n ← read_u64 v len_at;
  if MAX_GOROUTINES <? n then
    Err (NotApplicable (str "runtime.allgs length " ++ dec n
                        ++ str " is implausible; layout likely misresolved"))
  else Ok (data, n).

(** A field of the [g] at [gp]. *)
Definition g_u64 (v : ProcessView) (gp off : Z) : result decoder_error Z :=
  a ← addr_add gp off; read_u64 v a.

Definition on_m (s : go_status) : bool :=
  match s with GoStatus.Running | GoStatus.Syscall => true | _ => false end.

Definition resolve_thread (v : ProcessView) (l : GoLayout) (s : go_status) (m_ptr : Z)
    : result decoder_error (option ThreadId) :=
  match m_procid l with
  | Some off =>
      if on_m s && negb (m_ptr =? 0) then
        procid ← g_u64 v m_ptr off;
        Ok (Some procid)
      else Ok None
  | None => Ok None
  end.

Definition read_goroutine (v : ProcessView) (l : GoLayout) (gp : Z)
    : result decoder_error GoroutineInfo :=
  let g := g_offsets l in
  status_at ← addr_add gp (go_atomicstatus g);
  raw_status ← read_u32 v status_at;
  let status := from_raw raw_status in
  wait_at ← addr_add gp (go_waitreason g);
  wait_reason ← read_u8 v wait_at;
  m_ptr ← g_u64 v gp (go_m g);
  parent_goid ← match go_parent_goid g with
                | Some off => p ← g_u64 v gp off; Ok (Some (as_i 64 p))
                | None => Ok None
                end;
  thread ← resolve_thread v l status m_ptr;
  goid ← g_u64 v gp (go_goid g);
  gopc ← g_u64 v gp (go_gopc g);
  startpc ← g_u64 v gp (go_startpc g);
  sched_pc ← g_u64 v gp (go_sched_pc g);
  sched_sp ← g_u64 v gp (go_sched_sp g);
  stack_lo ← g_u64 v gp (go_stack_lo g);
  stack_hi ← g_u64 v gp (go_stack_hi g);
  Ok (MkGoroutineInfo (as_i 64 goid) raw_status status (to_task_state status wait_reason) wait_reason
        (wait_reason_str wait_reason) gopc startpc sched_pc sched_sp stack_lo stack_hi m_ptr
        parent_goid thread).

(** One round of the loop, and the loop over [0..len]. *)
Definition read_slot (v : ProcessView) (l : GoLayout) (data index : Z)
    : result decoder_error (list GoroutineInfo) :=
  slot ← addr_add data (index * ptr_size l);
  gp ← read_u64 v slot;
  if gp =? 0 then Ok []
  else
    info ← read_goroutine v l gp;
    Ok (if is_dead (gi_status info) then [] else [info]).

Fixpoint walk_slots (v : ProcessView) (l : GoLayout) (data : Z) (indices : list Z)
    (out : list GoroutineInfo) : result decoder_error (list GoroutineInfo) :=
  match indices with
  | [] => Ok out
  | i :: indices =>
      found ← read_slot v l data i;
      walk_slots v l data indices (out ++ found)
  end.

Definition walk_goroutines (v : ProcessView) (l : GoLayout)
    : result decoder_error (list GoroutineInfo) :=
  '(data, n) ← read_allgs_header v l;
  walk_slots v l data (seqZ 0 n) [].

(** ** The decoder: [decoder.rs] *)

Definition goroutine (l : GoLayout) (v : ProcessView) (task : TaskId)
    : result decoder_error GoroutineInfo :=
  gs ← walk_goroutines v l;
  match list_find (λ g, gi_goid g = as_i 64 task) gs with
  | Some (_, g) => Ok g
  | None => Err (UnknownTask task)
  end.

Definition node_for (g : GoroutineInfo) (live : gset Z) : TaskNode :=
  let p := gi_parent_goid g ≫= λ p,
    if bool_decide (0 < p) && bool_decide (p ≠ gi_goid g) && bool_decide (p ∈ live)
    then Some (as_u 64 p) else None in
  {| id := as_u 64 (gi_goid g);
     name := str "goroutine " ++ dec_i (gi_goid g);
     kind := TaskKind.Goroutine;
     state := gi_state g;
     parent := p |}.

(** [live]: the positive goids; [goroutine_nodes]: the first goroutine of each. *)
Definition live_goids (gs : list GoroutineInfo) : gset Z :=
  list_to_set (filter (λ i, 0 < i) (gi_goid <$> gs)).

Fixpoint goroutine_nodes (live : gset Z) (gs : list GoroutineInfo) (seen : gset Z) : list TaskNode :=
  match gs with
  | [] => []
  | g :: gs =>
      if bool_decide (gi_goid g ≤ 0) || bool_decide (gi_goid g ∈ seen)
      then goroutine_nodes live gs seen
      else node_for g live :: goroutine_nodes live gs ({[ gi_goid g ]} ∪ seen)
  end.

Definition go_decode_tasks (l : GoLayout) (v : ProcessView) : result decoder_error TaskTree :=
  gs ← walk_goroutines v l;
  try_from_nodes (goroutine_nodes (live_goids gs) gs ∅).

Definition running_stack (v : ProcessView) (thread : ThreadId)
    : result decoder_error (list LogicalFrame) :=
  frames ← map_err (λ _, UnknownThread thread) (physical_frames v thread);
  Ok (logical_frames frames).

Definition go_suspend_kind (reason : block_reason) : suspend_kind :=
  match reason with
  | BlockReason.Channel _ => SuspendKind.ChannelRecv
  | BlockReason.Lock _ => SuspendKind.Lock
  | BlockReason.Io _ => SuspendKind.Io
  | BlockReason.Join _ => SuspendKind.Join
  | BlockReason.Timer => SuspendKind.Timer
  | BlockReason.Unknown => SuspendKind.Other
  end.

Definition parked_start_frame (g : GoroutineInfo) : LogicalFrame :=
  {| display_name := str "goroutine " ++ dec_i (gi_goid g) ++ str " (parked @ 0x"
                     ++ hex (gi_sched_pc g) ++ str ")";
     location := None;
     suspend := match gi_state g with
                | TaskState.Blocked on =>
                    Some (MkSuspendPoint (go_suspend_kind on) (Some (gi_wait_reason_str g)))
                | _ => None
                end;
     origin := Synthesized |}.

Definition go_logical_stack (l : GoLayout) (v : ProcessView) (task : TaskId)
    : result decoder_error (list LogicalFrame) :=
  g ← goroutine l v task;
  match gi_thread g with
  | Some thread => running_stack v thread
  | None => Ok [parked_start_frame g]
  end.

Definition go_decoder_wake_cause (l : GoLayout) (v : ProcessView) (task : TaskId)
    : result decoder_error wake_cause :=
  g ← goroutine l v task;
  Ok match gi_state g with
     | TaskState.Blocked _ => go_wake_cause (gi_wait_reason g)
     | _ => WakeCause.Unknown
     end.

Definition go_locals_at (l : GoLayout) (v : ProcessView) (task : TaskId) (_ : LogicalFrame)
    : result decoder_error (list Variable_) :=
  _ ← goroutine l v task; Ok [].

Definition GoroutineDecoder_from_layout (l : GoLayout) : SemanticDecoder :=
  {| decode_tasks := go_decode_tasks l;
     logical_stack := go_logical_stack l;
     decoder_wake_cause := go_decoder_wake_cause l;
     locals_at := go_locals_at l |}.

(** ** Reading back what a runtime stores

    [holds v a bs]: the view delivers [bs] at [a].  [stored v l s p] is a slot
    of [allgs]: empty, or a [g] whose fields hold an abstract goroutine. *)

Definition holds (v : ProcessView) (a : Z) (bs : list byte) : Prop :=
  0 ≤ a ∧ a < 2 ^ 64 ∧ read_memory v a (blen bs) = Ok bs.

(** Field [off] of the structure at [base]. *)
Definition field (v : ProcessView) (base off : Z) (bs : list byte) : Prop :=
  holds v (base + off) bs.

Record g_value := MkGValue {
  a_goid : Z; a_status : Z; a_wait : Z; a_gopc : Z; a_startpc : Z; a_sched_pc : Z; a_sched_sp : Z;
  a_stack_lo : Z; a_stack_hi : Z; a_m : Z; a_parent : Z; a_procid : Z;
}.

Record g_wf (x : g_value) : Prop := {
  wf_goid : in_i 64 (a_goid x);
  wf_status : in_u 32 (a_status x);
  wf_wait : in_u 8 (a_wait x);
  wf_words : Forall (in_u 64) [a_gopc x; a_startpc x; a_sched_pc x; a_sched_sp x; a_stack_lo x;
                               a_stack_hi x; a_m x; a_procid x];
  wf_parent : in_i 64 (a_parent x);
}.

(** The structure at [gp], and the [procid] of its M when it is on one. *)
Record g_stored (v : ProcessView) (l : GoLayout) (gp : Z) (x : g_value) : Prop := {
  st_wf : g_wf x;
  st_gp : gp ≠ 0;
  st_status : field v gp (go_atomicstatus (g_offsets l)) (le_bytes 4 (a_status x));
  st_wait : field v gp (go_waitreason (g_offsets l)) [byte_of_Z (a_wait x)];
  st_goid : field v gp (go_goid (g_offsets l)) (le_bytes 8 (a_goid x));
  st_gopc : field v gp (go_gopc (g_offsets l)) (le_bytes 8 (a_gopc x));
  st_startpc : field v gp (go_startpc (g_offsets l)) (le_bytes 8 (a_startpc x));
  st_sched_pc : field v gp (go_sched_pc (g_offsets l)) (le_bytes 8 (a_sched_pc x));
  st_sched_sp : field v gp (go_sched_sp (g_offsets l)) (le_bytes 8 (a_sched_sp x));
  st_stack_lo : field v gp (go_stack_lo (g_offsets l)) (le_bytes 8 (a_stack_lo x));
  st_stack_hi : field v gp (go_stack_hi (g_offsets l)) (le_bytes 8 (a_stack_hi x));
  st_m : field v gp (go_m (g_offsets l)) (le_bytes 8 (a_m x));
  st_parent : ∀ off, go_parent_goid (g_offsets l) = Some off → field v gp off (le_bytes 8 (a_parent x));
  st_procid : ∀ off, m_procid l = Some off → on_m (from_raw (a_status x)) = true → a_m x ≠ 0 →
    field v (a_m x) off (le_bytes 8 (a_procid x));
}.

(** What the walk should make of it. *)
Definition info_of (l : GoLayout) (x : g_value) : GoroutineInfo :=
  let status := from_raw (a_status x) in
  {| gi_goid := a_goid x; gi_raw_status := a_status x; gi_status := status;
     gi_state := to_task_state status (a_wait x); gi_wait_reason := a_wait x;
     gi_wait_reason_str := wait_reason_str (a_wait x); gi_gopc := a_gopc x; gi_startpc := a_startpc x;
     gi_sched_pc := a_sched_pc x; gi_sched_sp := a_sched_sp x; gi_stack_lo := a_stack_lo x;
     gi_stack_hi := a_stack_hi x; gi_m_ptr := a_m x;
     gi_parent_goid := (λ _, a_parent x) <$> go_parent_goid (g_offsets l);
     gi_thread := if on_m status && negb (a_m x =? 0)
                  then (λ _, a_procid x) <$> m_procid l else None |}.

Definition slot_info (l : GoLayout) (s : option g_value) : list GoroutineInfo :=
  match s with
  | Some x => if is_dead (from_raw (a_status x)) then [] else [info_of l x]
  | None => []
  end.

(** [allgs]: a header, and a pointer array whose [i]th entry is null or a [g]. *)
Record allgs_stored (v : ProcessView) (l : GoLayout) (data : Z) (slots : list (option g_value)) : Prop := {
  as_len : blen slots ≤ MAX_GOROUTINES;
  as_ptr : 0 ≤ ptr_size l;
  as_data : in_u 64 data;
  as_header : field v (allgs_addr l) (load_bias l) (le_bytes 8 data);
  as_header_len : field v (allgs_addr l + load_bias l) (ptr_size l) (le_bytes 8 (blen slots));
  as_slots : ∀ i s, slots !! i = Some s →
    ∃ gp, in_u 64 gp ∧ field v data (Z.of_nat i * ptr_size l) (le_bytes 8 gp) ∧
      match s with None => gp = 0 | Some x => g_stored v l gp x end;
}.

Section walk.
Context (v : ProcessView) (l : GoLayout).

Lemma addr_add_field base off bs : field v base off bs → addr_add base off = Ok (base + off).
Proof.
  intros (_ & H & _). unfold addr_add, checked_add. by rewrite (proj2 (Z.ltb_lt _ _) H).
Qed.

Lemma read_le_field n base off z :
  field v base off (le_bytes n z) → read_le v (Z.of_nat n) (base + off) = Ok (z mod 256 ^ Z.of_nat n).
Proof.
  intros (_ & _ & H). rewrite blen_le_bytes in H. unfold read_le. rewrite H. cbn [mbind result_bind].
  by rewrite blen_le_bytes, Z.eqb_refl, le_value_le_bytes.
Qed.

Lemma read_u64_field base off z :
  field v base off (le_bytes 8 z) → in_u 64 z → read_u64 v (base + off) = Ok z.
Proof.
  intros H%read_le_field Hz. unfold read_u64. change 8 with (Z.of_nat 8). by rewrite H, Z.mod_small.
Qed.

Lemma g_u64_field base off z :
  field v base off (le_bytes 8 z) → in_u 64 z → g_u64 v base off = Ok z.
Proof.
  intros H Hz. unfold g_u64. rewrite (addr_add_field _ _ _ H). by apply read_u64_field.
Qed.

Lemma g_u64_field_i base off z :
  in_i 64 z → field v base off (le_bytes 8 z) →
  ∃ u, g_u64 v base off = Ok u ∧ as_i 64 u = z.
Proof.
  intros Hz H. unfold g_u64. rewrite (addr_add_field _ _ _ H).
  apply read_le_field in H. exists (z mod 2 ^ 64). split; [exact H|]. by apply as_i_mod.
Qed.

Lemma read_goroutine_stored gp x :
  g_stored v l gp x → read_goroutine v l gp = Ok (info_of l x).
Proof.
  intros [[Hgoid Hst Hw Hws Hpar] Hgp Hs Hwt Hg Hc1 Hc2 Hc3 Hc4 Hc5 Hc6 Hm Hp Hproc].
  repeat (apply Forall_cons_iff in Hws as [? Hws]). unfold read_goroutine.
  rewrite (addr_add_field _ _ _ Hs). cbn [mbind result_bind].
  pose proof (read_le_field 4 _ _ _ Hs) as Hs'. unfold read_u32. change (Z.of_nat 4) with 4 in Hs'.
  rewrite Hs', Z.mod_small by exact Hst. cbn [mbind result_bind].
  rewrite (addr_add_field _ _ _ Hwt). cbn [mbind result_bind]. unfold read_u8.
  destruct Hwt as (_ & _ & Hwt). change (blen [byte_of_Z (a_wait x)]) with 1 in Hwt. rewrite Hwt.
  cbn [mbind result_bind]. rewrite Z_of_byte_of_Z, Z.mod_small by exact Hw.
  rewrite (g_u64_field _ _ _ Hm) by done. cbn [mbind result_bind].
  destruct (g_u64_field_i _ _ _ Hgoid Hg) as (u & Hu & Hui).
  assert (Hpr : ∀ k : option Z → result decoder_error GoroutineInfo,
    mbind k (match go_parent_goid (g_offsets l) with
             | Some off => p ← g_u64 v gp off; Ok (Some (as_i 64 p))
             | None => Ok None end) = k ((λ _, a_parent x) <$> go_parent_goid (g_offsets l))).
  { intros k. destruct (go_parent_goid (g_offsets l)) as [off|]; [|done].
    destruct (g_u64_field_i _ _ _ Hpar (Hp off eq_refl)) as (w & -> & <-). done. }
  rewrite Hpr.
  assert (Ht : resolve_thread v l (from_raw (a_status x)) (a_m x) =
    Ok (if on_m (from_raw (a_status x)) && negb (a_m x =? 0)
        then (λ _, a_procid x) <$> m_procid l else None)).
  { unfold resolve_thread. destruct (m_procid l) as [off|] eqn:Eo; [|by destruct (_ && _)].
    destruct (on_m _) eqn:Em, (Z.eqb_spec (a_m x) 0); cbn [andb negb]; try done.
    by rewrite (g_u64_field _ _ (a_procid x)) by auto. }
  rewrite Ht. cbn [mbind result_bind]. rewrite Hu. cbn [mbind result_bind].
  rewrite (g_u64_field _ _ _ Hc1) by done. cbn [mbind result_bind].
  rewrite (g_u64_field _ _ _ Hc2) by done. cbn [mbind result_bind].
  rewrite (g_u64_field _ _ _ Hc3) by done. cbn [mbind result_bind].
  rewrite (g_u64_field _ _ _ Hc4) by done. cbn [mbind result_bind].
  rewrite (g_u64_field _ _ _ Hc5) by done. cbn [mbind result_bind].
  rewrite (g_u64_field _ _ _ Hc6) by done. cbn [mbind result_bind].
  unfold info_of. by rewrite Hui.
Qed.

Lemma read_slot_stored data i gp s :
  in_u 64 gp → field v data (i * ptr_size l) (le_bytes 8 gp) →
  match s with None => gp = 0 | Some x => g_stored v l gp x end →
  read_slot v l data i = Ok (slot_info l s).
Proof.
  intros Hgp Hf Hs. unfold read_slot. rewrite (addr_add_field _ _ _ Hf). cbn [mbind result_bind].
  rewrite (read_u64_field _ _ _ Hf Hgp). cbn [mbind result_bind].
  destruct s as [x|]; [|by rewrite Hs].
  rewrite (proj2 (Z.eqb_neq _ _)) by apply Hs. rewrite (read_goroutine_stored _ _ Hs). done.
Qed.

Lemma walk_slots_stored data slots k out :
  (∀ i s, slots !! i = Some s → ∃ gp, in_u 64 gp ∧
     field v data ((k + Z.of_nat i) * ptr_size l) (le_bytes 8 gp) ∧
     match s with None => gp = 0 | Some x => g_stored v l gp x end) →
  walk_slots v l data (seqZ k (blen slots)) out = Ok (out ++ (slots ≫= slot_info l)).
Proof.
  revert k out. induction slots as [|s slots IH]; intros k out H.
  { cbn. by rewrite app_nil_r. }
  rewrite blen_cons, seqZ_cons by (pose proof (blen_nonneg slots); lia). cbn [walk_slots].
  destruct (H 0%nat s eq_refl) as (gp & Hgp & Hf & Hs). rewrite Z.add_0_r in Hf.
  rewrite (read_slot_stored _ _ _ _ Hgp Hf Hs). cbn [mbind result_bind list_bind].
  replace (Z.pred (1 + blen slots)) with (blen slots) by lia. rewrite IH.
  - by rewrite <- app_assoc.
  - intros i s' Hi. replace (Z.succ k + Z.of_nat i) with (k + Z.of_nat (S i)) by lia. by apply H.
Qed.
End walk.

(** ** Properties *)

(** C21. Whatever goroutines a runtime keeps in memory under a layout, the walk
    reads back exactly the live ones, in slot order and with every field:
    signed ids, the status under its scan bit, the state from the wait reason,
    the creator when the layout has the field, and the thread of a goroutine
    that is on an M; null slots and dead goroutines are left out. *)
Theorem walk_goroutines_reads v l data slots :
  allgs_stored v l data slots → walk_goroutines v l = Ok (slots ≫= slot_info l).
Proof.
  intros [Hlen Hptr Hd Hh Hhl Hs]. unfold walk_goroutines, read_allgs_header.
  rewrite (addr_add_field _ _ _ _ Hh). cbn [mbind result_bind].
  rewrite (read_u64_field _ _ _ _ Hh Hd). cbn [mbind result_bind]. unfold slice_len_offset.
  rewrite (addr_add_field _ _ _ _ Hhl). cbn [mbind result_bind].
  assert (in_u 64 (blen slots)).
  { split; [apply blen_nonneg|]. assert (MAX_GOROUTINES < 2 ^ 64) by (vm_compute; reflexivity). lia. }
  rewrite (read_u64_field _ _ _ _ Hhl) by done. cbn [mbind result_bind].
  rewrite (proj2 (Z.ltb_ge _ _)) by done. cbn [mbind result_bind]. by apply walk_slots_stored.
Qed.

(** ** The tree *)

Definition goid_wf (gs : list GoroutineInfo) : Prop := Forall (λ g, in_i 64 (gi_goid g)) gs.

(** The goroutine the tree shows under [i]. *)
Definition first_of (gs : list GoroutineInfo) (i : Z) : option GoroutineInfo :=
  snd <$> list_find (λ g, gi_goid g = i) gs.

Lemma read_slot_goids v l data i gs : read_slot v l data i = Ok gs → goid_wf gs.
Proof.
  unfold read_slot, read_goroutine. intros H. inv_bind.
  destruct (_ =? 0); [injection H as <-; constructor|]. inv_bind.
  destruct (is_dead _); [constructor|]. constructor; [|constructor]. cbn. by apply as_i_range.
Qed.

Lemma walk_goroutines_goids v l gs : walk_goroutines v l = Ok gs → goid_wf gs.
Proof.
  unfold walk_goroutines. intros H. destruct (read_allgs_header v l) as [[data n]| |]; try done.
  cbn [mbind result_bind] in H. revert H. generalize (seqZ 0 n) as idx.
  assert (Hout : goid_wf []) by constructor. revert Hout. generalize (@nil GoroutineInfo) as out.
  intros out Hout idx; revert out Hout; induction idx as [|i idx IH]; cbn [walk_slots]; intros out Hout H.
  { by injection H as <-. }
  destruct (read_slot v l data i) as [found| |] eqn:E; cbn [mbind result_bind] in H; try done.
  eapply IH; [|done]. apply Forall_app. split; [done|]. by eapply read_slot_goids.
Qed.

Lemma positive_goid i : in_i 64 i → 0 < i → as_u 64 i = i.
Proof. unfold in_i, as_u. intros. apply Z.mod_small. lia. Qed.

Lemma elem_of_live gs i : i ∈ live_goids gs ↔ 0 < i ∧ i ∈ gi_goid <$> gs.
Proof. unfold live_goids. by rewrite elem_of_list_to_set, list_elem_of_filter. Qed.

Lemma first_of_Some gs i : i ∈ gi_goid <$> gs → ∃ g, first_of gs i = Some g ∧ gi_goid g = i ∧ g ∈ gs.
Proof.
  intros (g & -> & Hg)%list_elem_of_fmap. unfold first_of.
  destruct (list_find _ gs) as [[k g']|] eqn:E.
  - apply list_find_Some in E as (Hk & Hi & _). exists g'. split_and!; [done..|].
    by eapply list_elem_of_lookup_2.
  - apply list_find_None in E. rewrite Forall_forall in E. by destruct (E g Hg).
Qed.

(** The nodes are the first goroutine of each positive id not seen yet. *)
Lemma goroutine_nodes_spec live gs seen n :
  n ∈ goroutine_nodes live gs seen ↔
  ∃ i g, 0 < i ∧ i ∉ seen ∧ first_of gs i = Some g ∧ n = node_for g live.
Proof.
  revert seen. induction gs as [|g gs IH]; intros seen; cbn [goroutine_nodes].
  { split; [by intros ?%not_elem_of_nil|by intros (? & ? & _ & _ & ? & _)]. }
  assert (Hf : ∀ i, first_of (g :: gs) i = if decide (gi_goid g = i) then Some g else first_of gs i).
  { intros i. unfold first_of. cbn [list_find]. destruct (decide (gi_goid g = i)); [done|].
    by destruct (list_find _ gs) as [[]|]. }
  case_bool_decide as Hpos; cbn [orb].
  { rewrite IH. split; intros (i & g' & Hi & Hs & Hg & ->); exists i, g'; split_and!; try done;
      rewrite Hf in *; by destruct (decide (gi_goid g = i)); [lia|]. }
  case_bool_decide as Hseen; [|rewrite elem_of_cons, IH].
  - rewrite IH. split; intros (i & g' & Hi & Hs & Hg & ->); exists i, g'; split_and!; try done;
      rewrite Hf in *; by destruct (decide (gi_goid g = i)) as [<-|]; [done|].
  - split.
    + intros [->|(i & g' & Hi & Hs & Hg & ->)].
      * exists (gi_goid g), g. rewrite Hf, decide_True by done. split_and!; try done; lia.
      * exists i, g'. rewrite Hf, decide_False by set_solver. split_and!; try done. set_solver.
    + intros (i & g' & Hi & Hs & Hg & ->). rewrite Hf in Hg.
      destruct (decide (gi_goid g = i)) as [<-|Hne]; [injection Hg as <-; by left|].
      right. exists i, g'. split_and!; try done. set_solver.
Qed.

Lemma first_of_goid gs i g : first_of gs i = Some g → gi_goid g = i ∧ g ∈ gs.
Proof.
  unfold first_of. destruct (list_find _ gs) as [[k g']|] eqn:E; [|done]. intros [= <-].
  apply list_find_Some in E as (Hk & Hi & _). split; [done|]. by eapply list_elem_of_lookup_2.
Qed.

(** A node carries its goid, and its parent is another live one. *)
Lemma node_for_id gs i g live :
  goid_wf gs → 0 < i → first_of gs i = Some g → id (node_for g live) = i.
Proof.
  intros Hwf Hi [<- Hg]%first_of_goid. cbn. apply positive_goid; [|done].
  unfold goid_wf in Hwf. rewrite Forall_forall in Hwf. by apply Hwf.
Qed.

Lemma NoDup_goroutine_nodes live gs seen :
  goid_wf gs → NoDup (id <$> goroutine_nodes live gs seen).
Proof.
  revert seen. induction gs as [|g gs IH]; intros seen Hwf; cbn [goroutine_nodes]; [constructor|].
  pose proof Hwf as [Hg Hgs]%Forall_cons_iff.
  case_bool_decide as Hpos; cbn [orb]; [by apply IH|].
  case_bool_decide; [by apply IH|]. cbn [fmap list_fmap]. constructor; [|by apply IH].
  intros (n & Hid & Hn)%list_elem_of_fmap. apply goroutine_nodes_spec in Hn as (i & g' & Hi & Hs & Hf & ->).
  rewrite (node_for_id gs i g' live Hgs Hi Hf) in Hid. cbn in Hid.
  rewrite positive_goid in Hid by (done || lia). subst i. set_solver.
Qed.

Lemma node_for_parent gs g p :
  goid_wf gs → parent (node_for g (live_goids gs)) = Some p →
  gi_parent_goid g = Some p ∧ 0 < p ∧ p ≠ gi_goid g ∧ p ∈ gi_goid <$> gs.
Proof.
  intros Hwf. unfold node_for. cbn [parent]. destruct (gi_parent_goid g) as [q|]; [|done].
  cbn [mbind option_bind]. case_bool_decide as H1; [|done]. case_bool_decide as H2; [|done].
  case_bool_decide as H3; [|done]. cbn [andb]. intros [= <-].
  apply elem_of_live in H3 as [_ H3]. rewrite positive_goid; [done| |done].
  apply list_elem_of_fmap in H3 as (g' & -> & Hg'). unfold goid_wf in Hwf.
  rewrite Forall_forall in Hwf. by apply Hwf.
Qed.

Lemma go_decode_tasks_tree v l :
  match go_decode_tasks l v with
  | Ok t => ∃ gs, walk_goroutines v l = Ok gs ∧
      ∀ i n, node t i = Some n → 0 < i ∧ ∃ g, first_of gs i = Some g ∧ n = node_for g (live_goids gs)
  | _ => True
  end.
Proof.
  unfold go_decode_tasks. destruct (walk_goroutines v l) as [gs| |] eqn:Hw; [|done..].
  cbn [mbind result_bind]. apply walk_goroutines_goids in Hw as Hwf.
  set (ns := goroutine_nodes (live_goids gs) gs ∅).
  pose proof (try_from_nodes_spec ns) as H; unfold built_from in H. destruct (try_from_nodes ns) as [t| |]; [|done..].
  destruct H as (_ & _ & Hnode & _). exists gs. split; [done|]. intros i n [Hin Hid]%Hnode.
  apply goroutine_nodes_spec in Hin as (j & g & Hj & _ & Hf & ->).
  rewrite (node_for_id gs j) in Hid by done. subst j. eauto.
Qed.

(** C22. The tree of a Go target is exactly its user goroutines: whenever the
    walk succeeds decoding does (the duplicate and dangling checks of the tree
    never fire), task [i] is there exactly when some live goroutine has the
    positive id [i], as the node of the first one, and a parent edge goes to
    the recorded creator, which is another live goroutine; when the walk fails,
    its error is the answer. *)
Theorem go_decode_tasks_exact v l :
  match walk_goroutines v l with
  | Ok gs => ∃ t, go_decode_tasks l v = Ok t ∧
      (∀ i n, node t i = Some n ↔
         0 < i ∧ ∃ g, first_of gs i = Some g ∧ n = node_for g (live_goids gs)) ∧
      ∀ i n p, node t i = Some n → parent n = Some p →
        is_Some (node t p) ∧ p ≠ i ∧ ∃ g, first_of gs i = Some g ∧ gi_parent_goid g = Some p
  | Err e => go_decode_tasks l v = Err e
  | Panic => go_decode_tasks l v = Panic
  end.
Proof.
  unfold go_decode_tasks. destruct (walk_goroutines v l) as [gs| |] eqn:Hw; [|done..].
  cbn [mbind result_bind]. apply walk_goroutines_goids in Hw as Hwf.
  set (ns := goroutine_nodes (live_goids gs) gs ∅).
  assert (Hns : ∀ i n, n ∈ ns ∧ id n = i ↔
    0 < i ∧ ∃ g, first_of gs i = Some g ∧ n = node_for g (live_goids gs)).
  { intros i n. unfold ns. rewrite goroutine_nodes_spec. split.
    - intros [(j & g & Hj & _ & Hf & ->) Hid]. rewrite (node_for_id gs j) in Hid by done. subst j. eauto.
    - intros (Hi & g & Hf & ->). split; [|by apply (node_for_id gs i g)]. exists i, g. split_and!; (done || set_solver). }
  assert (Hanch : ∀ n p, n ∈ ns → parent n = Some p → p ∈ id <$> ns).
  { intros n p Hn Hp. destruct (proj1 (Hns (id n) n) (conj Hn eq_refl)) as (_ & g & Hf & ->).
    apply node_for_parent in Hp as (_ & Hp & _ & Hin); [|done].
    destruct (first_of_Some gs p Hin) as (g' & Hg' & _).
    destruct (proj2 (Hns p (node_for g' (live_goids gs)))) as [Hin' Hid]; [eauto|].
    apply list_elem_of_fmap. eauto. }
  pose proof (NoDup_goroutine_nodes (live_goids gs) gs ∅ Hwf : NoDup (id <$> ns)) as Hnd.
  pose proof (try_from_nodes_spec ns) as H; unfold built_from in H. destruct (try_from_nodes ns) as [t|e|]; [| |done].
  - destruct H as (_ & _ & Hnode & _). exists t. split_and!; [done| |].
    + intros i n. by rewrite Hnode, Hns.
    + intros i n p Hn Hp. apply Hnode in Hn as [Hin Hid].
      destruct (proj1 (Hns i n) (conj Hin Hid)) as (Hi & g & Hf & ->).
      apply (Hanch _ _ Hin) in Hp as Hpn.
      apply node_for_parent in Hp as (Hpg & Hp & Hne & _); [|done].
      apply first_of_goid in Hf as Hg. destruct Hg as [Hg _]. split_and!.
      * apply list_elem_of_fmap in Hpn as (k & -> & Hk). exists k. by apply Hnode.
      * congruence.
      * eauto.
  - exfalso. destruct H as [[_ ?]|(_ & n & p & Hn & Hp & Hnp & _)]; [done|]. apply Hnp. by eapply Hanch.
Qed.

Lemma goroutine_in_tree v l t i :
  go_decode_tasks l v = Ok t → is_Some (node t i) → ∃ g, goroutine l v i = Ok g.
Proof.
  intros Ht [n Hn]. pose proof (go_decode_tasks_tree v l) as Hq. rewrite Ht in Hq. cbv iota in Hq.
  destruct Hq as (gs & Hw & Hnode). destruct (Hnode i n Hn) as (Hi & g & Hf & _).
  unfold goroutine. rewrite Hw. cbn [mbind result_bind].
  apply walk_goroutines_goids in Hw. apply first_of_goid in Hf as [Hg Hin].
  assert (as_i 64 i = i) as ->.
  { unfold goid_wf in Hw. rewrite Forall_forall in Hw. specialize (Hw g Hin). rewrite Hg in Hw.
    rewrite <- (as_i_mod 64 i) at 2 by (done || lia). unfold as_i. by rewrite Z.mod_mod by lia. }
  destruct (first_of_Some gs i) as (g' & Hf & _); [apply list_elem_of_fmap; eauto|].
  unfold first_of in Hf. destruct (list_find _ gs) as [[k g'']|]; [|done]. eauto.
Qed.

(** The Go decoder answers about every task of its tree, over any view. *)
#[export] Instance go_answers v l : AnswersTasks (GoroutineDecoder_from_layout l) v.
Proof.
  split; cbn; intros t i; [..|intros f]; intros Ht Hn;
    destruct (goroutine_in_tree v l t i Ht Hn) as [g Hg].
  - unfold go_logical_stack. rewrite Hg. cbn [mbind result_bind].
    destruct (gi_thread g); [|done]. unfold running_stack.
    by destruct (physical_frames v _).
  - unfold go_decoder_wake_cause. rewrite Hg. cbn. eauto.
  - unfold go_locals_at. rewrite Hg. cbn. eauto.
Qed.

(** ** Samples: the scenario of the tests

    [main] runs on thread 4242, goroutine 2 waits to send on a channel,
    goroutine 3 sleeps, and a [g0] is in a system call. *)

Definition go124 : GoLayout :=
  {| ptr_size := 8; allgs_addr := 0x10000; allglen_addr := None; load_bias := 0;
     g_offsets := default (MkGStructOffsets 0 0 0 0 0 0 0 0 0 0 None)
                    (GStructOffsets_vendored (MkGoVersion 1 24 0));
     m_procid := Some 72; layout_src := Vendored (MkGoVersion 1 24 0) |}.

Definition sample_g (goid status wait parent m : Z) : g_value :=
  MkGValue goid status wait 0xAAAA 0xBBBB (0xC0DE + goid) 0xDDDD 0x7000 0x8000 m parent 4242.

Definition poke_g (gp : Z) (x : g_value) (m : gmap Z byte) : gmap Z byte :=
  let g := g_offsets go124 in
  let u64 off z := poke (gp + off) (le_bytes 8 z) in
  u64 (go_goid g) (a_goid x) (poke (gp + go_atomicstatus g) (le_bytes 4 (a_status x))
  (poke (gp + go_waitreason g) [byte_of_Z (a_wait x)] (u64 (go_gopc g) (a_gopc x)
  (u64 (go_startpc g) (a_startpc x) (u64 (go_sched_pc g) (a_sched_pc x)
  (u64 (go_sched_sp g) (a_sched_sp x) (u64 (go_stack_lo g) (a_stack_lo x)
  (u64 (go_stack_hi g) (a_stack_hi x) (u64 (go_m g) (a_m x)
  (u64 (default 0 (go_parent_goid g)) (a_parent x)
  (if a_m x =? 0 then m else poke (a_m x + 72) (le_bytes 8 (a_procid x)) m))))))))))).

Definition sample_slots : list (option g_value) :=
  [Some (sample_g 1 2 0 0 0x300000); Some (sample_g 2 4 15 1 0); None;
   Some (sample_g 3 (0x1000 + 4) 19 1 0); Some (sample_g 0 3 0 0 0)].
Definition sample_ptrs : list Z := [0x100000; 0x100400; 0; 0x100800; 0x100c00].

Definition sample_image : gmap Z byte :=
  poke 0x10000 (le_bytes 8 0x20000) (poke 0x10008 (le_bytes 8 5)
  (poke 0x20000 (mjoin (le_bytes 8 <$> sample_ptrs))
  (foldr (λ '(gp, s) m, match s with Some x => poke_g gp x m | None => m end) ∅
     (zip sample_ptrs sample_slots)))).

Definition sample_view : ProcessView :=
  image_view sample_image [4242] [MkPhysicalFrame 0x1234 0x7fff (Some (str "main.spinForever")) None].

(** The walk on this image, evaluated. *)
Definition sample_walk : result decoder_error (list (Z * task_state * option ThreadId)) :=
  gs ← walk_goroutines sample_view go124;
  Ok (map (λ g, (gi_goid g, gi_state g, gi_thread g)) gs).

Example sample_walk_run :
  sample_walk =
    Ok [(1, TaskState.Running, Some 4242);
        (2, TaskState.Blocked (BlockReason.Channel (Some (str "chan send"))), None);
        (3, TaskState.Blocked BlockReason.Timer, None); (0, TaskState.Running, None)].
Proof. vm_compute. reflexivity. Qed.

(** A goroutine blocked sending is shown as receiving. *)
Lemma chan_send_shown_as_recv :
  (fs ← go_logical_stack go124 sample_view 2; Ok (map describe_suspend fs))
  = Ok (E := decoder_error) [Some (str "awaiting: recv on channel chan send")].
Proof. vm_compute. reflexivity. Qed.

(** Id 0 is not a task of the tree, and is answered all the same. *)
Lemma g0_answered :
  (t ← go_decode_tasks go124 sample_view; Ok (bool_decide (node t 0 = None))) = Ok (E := decoder_error) true ∧
  go_decoder_wake_cause go124 sample_view 0 = Ok WakeCause.Unknown.
Proof. vm_compute. split; reflexivity. Qed.

#[local] Ltac stored_field := split_and!; [done|done|vm_compute; reflexivity].

Definition sample_fields (gp : Z) (x : g_value) : list (Z * list byte) :=
    ([(gp + 152, le_bytes 4 (a_status x)); (gp + 184, [byte_of_Z (a_wait x)]);
      (gp + 160, le_bytes 8 (a_goid x)); (gp + 288, le_bytes 8 (a_gopc x));
      (gp + 304, le_bytes 8 (a_startpc x)); (gp + 64, le_bytes 8 (a_sched_pc x));
      (gp + 56, le_bytes 8 (a_sched_sp x)); (gp + 0, le_bytes 8 (a_stack_lo x));
      (gp + 8, le_bytes 8 (a_stack_hi x)); (gp + 48, le_bytes 8 (a_m x));
      (gp + 280, le_bytes 8 (a_parent x))]
     ++ if a_m x =? 0 then [] else [(a_m x + 72, le_bytes 8 (a_procid x))]).

Definition holds_b (a : Z) (bs : list byte) : bool :=
  (0 <=? a) && (a <? 2 ^ 64) && bool_decide (read_memory sample_view a (blen bs) = Ok bs).

Lemma sample_g_stored gp x :
  gp ≠ 0 → g_wf x → forallb (λ '(a, bs), holds_b a bs) (sample_fields gp x) = true →
  g_stored sample_view go124 gp x.
Proof.
  intros Hgp Hwf Hall. rewrite forallb_forall in Hall.
  assert (Hf : ∀ a bs, In (a, bs) (sample_fields gp x) → holds sample_view a bs).
  { intros a bs Hin. specialize (Hall _ Hin). cbv beta iota in Hall. unfold holds_b in Hall. zbool.
    split_and!; [done..|]. by eapply bool_decide_eq_true. }
  clear Hall. split; try done; unfold field; cbn [go124 g_offsets GStructOffsets_vendored default from_option
    major minor go_atomicstatus go_waitreason go_goid go_gopc go_startpc go_sched_pc go_sched_sp
    go_stack_lo go_stack_hi go_m go_parent_goid m_procid]; try (apply Hf; cbn; tauto).
  - intros off [= <-]. apply Hf. cbn. tauto.
  - intros off [= <-] _ Hm. apply Hf. apply in_or_app. right.
    rewrite (proj2 (Z.eqb_neq _ _) Hm). by left.
Qed.

Lemma walk_goroutines_reads_witness :
  allgs_stored sample_view go124 0x20000 sample_slots ∧
  walk_goroutines sample_view go124 = Ok (sample_slots ≫= slot_info go124).
Proof.
  assert (H : allgs_stored sample_view go124 0x20000 sample_slots).
  { split; [done|done|done|stored_field|stored_field|].
    intros i s Hi. destruct i as [|[|[|[|[|i]]]]]; [..|done]; injection Hi as <-;
      [exists 0x100000|exists 0x100400|exists 0|exists 0x100800|exists 0x100c00];
      (split; [done|split; [stored_field|]]);
      first [ reflexivity
            | apply sample_g_stored;
              [done|split; eval_bounds|vm_compute; reflexivity] ]. }
  split; [exact H|]. exact (walk_goroutines_reads _ _ _ _ H).
Defined.
