(* ===== verification/AsyncLayout.v ===== *)
(** * Coroutine layouts and their classification: [decoder/src/async_rust]

    [layout.rs], [roots.rs], [rustc_version.rs] and [state.rs]: the layout of
    a coroutine as plain data, the registry of layouts, the gate on the rustc
    version, and the classifications of Tokio state words, variants and leaf
    futures. *)

From S2P Require Import Prelude.
From S2P Require Import Text.
From S2P Require Import TaskModel.
From S2P Require Import GoRuntime.

(** ** [layout.rs] *)

Module VariantKind.
Inductive variant_kind := Unresumed | Returned | Panicked | Suspend (k : Z).
End VariantKind.
Abbreviation variant_kind := VariantKind.variant_kind.

Definition from_struct_name (name : list byte) : option variant_kind :=
  if decide (name = str "Unresumed") then Some VariantKind.Unresumed
  else if decide (name = str "Returned") then Some VariantKind.Returned
  else if decide (name = str "Panicked") then Some VariantKind.Panicked
  else
    n ← strip_prefix (str "Suspend") name;
    k ← parse_u 16 n;
    Some (VariantKind.Suspend k).

Definition is_suspend (k : variant_kind) : bool :=
  match k with VariantKind.Suspend _ => true | _ => false end.

Record ChildRef := MkChildRef { cr_offset : Z; cr_type : list byte }.

Record VariantInfo := MkVariantInfo {
  vi_kind : variant_kind;
  await_location : option SourceLocation;
  awaitee : option ChildRef;
  vi_children : list ChildRef;
}.

Definition VariantInfo_terminal (k : variant_kind) : VariantInfo := MkVariantInfo k None None [].

Record AsyncFnLayout := MkAsyncFnLayout {
  af_type_name : list byte;
  byte_size : Z;
  discr_offset : Z;
  discr_size : Z;
  variants : gmap Z VariantInfo;
}.

Definition variant_for (l : AsyncFnLayout) (discr : Z) : option VariantInfo := variants l !! discr.

(** [AsyncFnLayout::short_name], and the same function in [decoder.rs]. *)
Definition coroutine_name (type_name : list byte) : list byte :=
  after_last (str "::") (before_first (str "::{async_fn_env") type_name).

Definition AsyncFnLayout_short_name (l : AsyncFnLayout) : list byte := coroutine_name (af_type_name l).

Definition AsyncLayouts := gmap (list byte) AsyncFnLayout.
Definition AsyncLayouts_insert (layout : AsyncFnLayout) (ls : AsyncLayouts) : AsyncLayouts :=
  <[af_type_name layout := layout]> ls.
Definition AsyncLayouts_get (ls : AsyncLayouts) (type_name : list byte) : option AsyncFnLayout :=
  ls !! type_name.
Definition is_coroutine (ls : AsyncLayouts) (type_name : list byte) : bool :=
  bool_decide (is_Some (ls !! type_name)).

(** ** [roots.rs] *)

Record TaskRoot := MkTaskRoot {
  root_id : Z;
  root_base : Z;
  root_type : list byte;
  header_addr : option Z;
}.

Definition TaskRoot_new (i base : Z) (type_name : list byte) : TaskRoot := MkTaskRoot i base type_name None.
Definition with_header (r : TaskRoot) (addr : Z) : TaskRoot :=
  MkTaskRoot (root_id r) (root_base r) (root_type r) (Some addr).

(** ** [rustc_version.rs] *)

Record RustcVersion := MkRustcVersion { rustc_major : Z; rustc_minor : Z; rustc_patch : Z }.

Definition rustc_parse_triple (token : list byte) : option RustcVersion :=
  '(a, b, c) ← version_parts token;
  Some (MkRustcVersion a b c).

(** [producer.split("rustc version ").nth(1)] is what lies between the first
    two separators; the token ends at a space or a parenthesis. *)
Definition parse_producer (producer : list byte) : option RustcVersion :=
  '(_, after) ← split_once (str "rustc version ") producer;
  let token := before_first (str "rustc version ") after in
  rustc_parse_triple
    (take_while (λ b, negb (byte_is x20 b || byte_is x28 b || byte_is x29 b)) token).

Definition SUPPORTED_MINOR : Z * Z := (63, 94).

Definition is_supported (v : RustcVersion) : bool :=
  (rustc_major v =? 1) && (SUPPORTED_MINOR.1 <=? rustc_minor v) && (rustc_minor v <=? SUPPORTED_MINOR.2).

(** ** [state.rs] *)

Definition RUNNING : Z := 0x1.
Definition COMPLETE : Z := 0x2.
Definition NOTIFIED : Z := 0x4.
Definition JOIN_INTEREST : Z := 0x8.
Definition JOIN_WAKER : Z := 0x10.
Definition CANCELLED : Z := 0x20.
Definition REF_COUNT_SHIFT : Z := 6.

Definition has_bit (state bit : Z) : bool := negb (Z.land state bit =? 0).

Definition classify_header_state (state : Z) : task_state :=
  if has_bit state COMPLETE || has_bit state CANCELLED then TaskState.Completed
  else if has_bit state RUNNING then TaskState.Running
  else if has_bit state NOTIFIED then TaskState.Runnable
  else TaskState.Blocked BlockReason.Unknown.

Definition ref_count (state : Z) : Z := Z.shiftr state REF_COUNT_SHIFT.

Definition state_from_variant (k : variant_kind) : task_state :=
  match k with
  | VariantKind.Unresumed => TaskState.Runnable
  | VariantKind.Returned | VariantKind.Panicked => TaskState.Completed
  | VariantKind.Suspend _ => TaskState.Blocked BlockReason.Unknown
  end.

Record LeafClass := MkLeafClass {
  lc_suspend : suspend_kind;
  lc_wake : wake_cause;
  lc_block : block_reason;
}.

Definition contains_any (haystack : list byte) (needles : list (list byte)) : bool :=
  existsb (λ n, contains n haystack) needles.

(** [short_name] of [state.rs] and [short_type] of [decode.rs]. *)
Definition short_type (type_name : list byte) : list byte :=
  after_last (str "::") (before_first (str "<") type_name).

Definition timer_names : list (list byte) := [str "time::sleep::Sleep"; str "time::Sleep"; str "Timeout"].
Definition channel_names : list (list byte) :=
  [str "Recv"; str "channel"; str "mpsc"; str "oneshot"; str "broadcast"; str "watch"].
Definition lock_names : list (list byte) := [str "Mutex"; str "RwLock"; str "Semaphore"; str "Barrier"].
Definition io_names : list (list byte) :=
  [str "TcpStream"; str "net::"; str "io::"; str "AsyncFd"; str "poll_read"].

Definition classify_leaf (type_name : list byte) : LeafClass :=
  let detail := Some (short_type type_name) in
  if contains_any type_name timer_names then
    MkLeafClass SuspendKind.Timer WakeCause.Timer BlockReason.Timer
  else if contains_any type_name channel_names then
    MkLeafClass SuspendKind.ChannelRecv (WakeCause.Channel detail) (BlockReason.Channel detail)
  else if contains_any type_name lock_names then
    MkLeafClass SuspendKind.Lock WakeCause.Manual (BlockReason.Lock detail)
  else if contains_any type_name io_names then
    MkLeafClass SuspendKind.Io (WakeCause.Io (MkIoWakeDetail None detail)) (BlockReason.Io detail)
  else MkLeafClass SuspendKind.Other WakeCause.Unknown BlockReason.Unknown.

(** ** Lemmas *)

(** The three answers of a classification agree. *)
Definition leaf_agrees (c : LeafClass) : Prop :=
  match lc_suspend c with
  | SuspendKind.Timer => lc_wake c = WakeCause.Timer ∧ lc_block c = BlockReason.Timer
  | SuspendKind.ChannelRecv => ∃ d, lc_wake c = WakeCause.Channel d ∧ lc_block c = BlockReason.Channel d
  | SuspendKind.Lock => lc_wake c = WakeCause.Manual ∧ ∃ d, lc_block c = BlockReason.Lock d
  | SuspendKind.Io => ∃ d, lc_wake c = WakeCause.Io (MkIoWakeDetail None d) ∧ lc_block c = BlockReason.Io d
  | SuspendKind.Other => lc_wake c = WakeCause.Unknown ∧ lc_block c = BlockReason.Unknown
  | _ => False
  end.

Lemma classify_leaf_agrees name : leaf_agrees (classify_leaf name).
Proof.
  unfold classify_leaf, leaf_agrees. destruct (contains_any name timer_names); [done|].
  destruct (contains_any name channel_names); [cbn; eauto|].
  destruct (contains_any name lock_names); [cbn; eauto|].
  destruct (contains_any name io_names); cbn; eauto.
Qed.

(** The needle [io::] is a suffix of the path [tokio::], so no future of the
    tokio crate is ever left unclassified: what the first three lists do not
    name is called I/O. *)
Lemma tokio_leaf_classified rest :
  lc_block (classify_leaf (str "tokio::" ++ rest)) ≠ BlockReason.Unknown.
Proof.
  assert (Hio : contains_any (str "tokio::" ++ rest) io_names = true).
  { unfold contains_any. apply existsb_exists. exists (str "io::"). split; [cbn; tauto|].
    apply contains_spec. exists (str "tok"), rest. done. }
  revert Hio. generalize (str "tokio::" ++ rest) as n. intros n Hio. unfold classify_leaf. rewrite Hio.
  by destruct (contains_any n timer_names), (contains_any n channel_names), (contains_any n lock_names).
Qed.

(** ** Samples *)

Example classify_leaf_samples :
  lc_block (classify_leaf (str "tokio::time::sleep::Sleep")) = BlockReason.Timer
  ∧ lc_block (classify_leaf (str "tokio::sync::mpsc::bounded::Recv<u32>")) = BlockReason.Channel (Some (str "Recv"))
  ∧ lc_block (classify_leaf (str "my_crate::CustomFuture")) = BlockReason.Unknown.
Proof. vm_compute. split_and!; reflexivity. Qed.

(** Joining another task is reported as waiting for I/O. *)
Example join_handle_is_io :
  classify_leaf (str "tokio::runtime::task::join::JoinHandle<()>")
  = MkLeafClass SuspendKind.Io (WakeCause.Io (MkIoWakeDetail None (Some (str "JoinHandle"))))
      (BlockReason.Io (Some (str "JoinHandle"))).
Proof. vm_compute. reflexivity. Qed.

Example producer_samples :
  parse_producer (str "clang LLVM (rustc version 1.85.1 (4eb161250 2025-03-15))") = Some (MkRustcVersion 1 85 1)
  ∧ parse_producer (str "clang LLVM (rustc version 1.94.0-nightly (deadbeef 2026-03-02))") = Some (MkRustcVersion 1 94 0)
  ∧ parse_producer (str "GNU C17 13.2.0") = None ∧ is_supported (MkRustcVersion 1 62 0) = false.
Proof. vm_compute. split_and!; reflexivity. Qed.
