(* ===== verification/AsyncDecode.v ===== *)
(** * Decoding a coroutine in memory: [decoder/src/async_rust/decode.rs]

    The discriminant of a coroutine selects its active variant; following the
    variant's awaitee from coroutine to coroutine gives the logical stack and
    ends at the leaf future the task is parked on.  [await_chain] is that walk
    as a relation, and the theorems say the bounded loops of the code follow
    it. *)

From S2P Require Import Prelude.
From S2P Require Import Text.
From S2P Require Import TaskModel.
From S2P Require Import TaskTree.
From S2P Require Import View.
From S2P Require Import AsyncLayout.

(** ** Definitions *)

Definition MAX_AWAIT_DEPTH : nat := 64.

(** [value |= u64::from(byte) << (8 * i)]: a shift by 64 or more is a panic. *)
Fixpoint or_bytes {E} (i : Z) (bytes : list byte) (value : Z) : result E Z :=
  match bytes with
  | [] => Ok value
  | b :: bytes =>
      if 8 * i <? 64 then or_bytes (i + 1) bytes (Z.lor value (Z.shiftl (Z_of_byte b) (8 * i)))
      else Panic
  end.

Definition read_discriminant (v : ProcessView) (base : Z) (layout : AsyncFnLayout)
    : result decoder_error Z :=
  addr ← addr_add base (discr_offset layout);
  bytes ← read_memory v addr (discr_size layout);
  or_bytes 0 bytes 0.

Definition active_variant (v : ProcessView) (base : Z) (layout : AsyncFnLayout)
    : result decoder_error (Z * VariantInfo) :=
  discr ← read_discriminant v base layout;
  match variant_for layout discr with
  | Some variant => Ok (discr, variant)
  | None =>
      Err (NotApplicable (str "coroutine " ++ af_type_name layout ++ str " has discriminant "
                          ++ dec discr ++ str " matching no variant"))
  end.

Fixpoint leaf_loop (n : nat) (v : ProcessView) (ls : AsyncLayouts) (cur_base : Z)
    (cur_layout : AsyncFnLayout) : result decoder_error (option (list byte)) :=
  match n with
  | O => Ok None
  | S n =>
      '(_, variant) ← active_variant v cur_base cur_layout;
      match awaitee variant with
      | None => Ok None
      | Some child =>
          match AsyncLayouts_get ls (cr_type child) with
          | Some next =>
              base ← addr_add cur_base (cr_offset child);
              leaf_loop n v ls base next
          | None => Ok (Some (cr_type child))
          end
      end
  end.

Definition leaf_type (v : ProcessView) (base : Z) (layout : AsyncFnLayout) (ls : AsyncLayouts)
    : result decoder_error (option (list byte)) :=
  leaf_loop MAX_AWAIT_DEPTH v ls base layout.

(** [read_usize]: the first eight bytes. *)
Definition read_usize {E} (bytes : list byte) : result E Z := or_bytes 0 (take 8 bytes) 0.

Definition task_state_of (v : ProcessView) (base : Z) (layout : AsyncFnLayout) (ls : AsyncLayouts)
    (header : option Z) : result decoder_error task_state :=
  '(_, variant) ← active_variant v base layout;
  base_state ← match header with
               | Some addr =>
                   bytes ← read_memory v addr 8;
                   word ← read_usize bytes;
                   Ok (classify_header_state word)
               | None => Ok (state_from_variant (vi_kind variant))
               end;
  match base_state with
  | TaskState.Blocked _ =>
      leaf ← leaf_type v base layout ls;
      Ok (TaskState.Blocked match leaf with
                            | Some l => lc_block (classify_leaf l)
                            | None => BlockReason.Unknown
                            end)
  | other => Ok other
  end.

Definition wake_cause_of (v : ProcessView) (base : Z) (layout : AsyncFnLayout) (ls : AsyncLayouts)
    : result decoder_error wake_cause :=
  leaf ← leaf_type v base layout ls;
  Ok match leaf with
     | Some l => lc_wake (classify_leaf l)
     | None => WakeCause.Unknown
     end.

(** The additions of the iterator are done when the vector is collected. *)
Fixpoint child_bases (base : Z) (cs : list ChildRef) : result decoder_error (list (Z * list byte)) :=
  match cs with
  | [] => Ok []
  | c :: cs =>
      a ← addr_add base (cr_offset c);
      rest ← child_bases base cs;
      Ok ((a, cr_type c) :: rest)
  end.

Definition fan_out_children (v : ProcessView) (base : Z) (layout : AsyncFnLayout)
    : result decoder_error (list (Z * list byte)) :=
  '(_, variant) ← active_variant v base layout;
  child_bases base (vi_children variant).

Definition coroutine_frame (layout : AsyncFnLayout) (variant : VariantInfo) (s : option SuspendPoint)
    : LogicalFrame :=
  MkLogicalFrame (AsyncFnLayout_short_name layout) (await_location variant) s Synthesized.

Definition leaf_suspend (leaf : LeafClass) (child : ChildRef) : SuspendPoint :=
  MkSuspendPoint (lc_suspend leaf) (Some (short_type (cr_type child))).

Definition leaf_frame (child : ChildRef) (leaf : LeafClass) : LogicalFrame :=
  MkLogicalFrame (short_type (cr_type child)) None (Some (leaf_suspend leaf child)) Synthesized.

Definition await_suspend (child : ChildRef) : SuspendPoint :=
  MkSuspendPoint SuspendKind.Other (Some (short_type (cr_type child))).

Fixpoint stack_loop (n : nat) (v : ProcessView) (ls : AsyncLayouts) (cur_base : Z)
    (cur_type : list byte) (frames : list LogicalFrame) : result decoder_error (list LogicalFrame) :=
  match n with
  | O => Ok frames
  | S n =>
      layout ← ok_or (NotApplicable (str "no layout for coroutine type " ++ cur_type))
                     (AsyncLayouts_get ls cur_type);
      '(_, variant) ← active_variant v cur_base layout;
      if negb (is_suspend (vi_kind variant)) then Ok (frames ++ [coroutine_frame layout variant None])
      else
        match awaitee variant with
        | None => Ok (frames ++ [coroutine_frame layout variant None])
        | Some child =>
            if is_coroutine ls (cr_type child) then
              base ← addr_add cur_base (cr_offset child);
              stack_loop n v ls base (cr_type child)
                (frames ++ [coroutine_frame layout variant (Some (await_suspend child))])
            else
              let leaf := classify_leaf (cr_type child) in
              Ok (frames ++ [coroutine_frame layout variant (Some (leaf_suspend leaf child));
                             leaf_frame child leaf])
        end
  end.

Definition async_logical_stack (v : ProcessView) (base : Z) (type_name : list byte) (ls : AsyncLayouts)
    : result decoder_error (list LogicalFrame) :=
  stack_loop MAX_AWAIT_DEPTH v ls base type_name [].

(** ** The await chain

    [await_chain v ls base t fs leaf]: from the coroutine of type [t] at
    [base] the frames are [fs], and the task is parked on [leaf], if on
    anything recorded.  It has no bound on its length; [await_steps n] is its
    first [n] awaits.  The frames are written out here, and the discriminant
    is what the memory holds. *)

(** The frame of a coroutine: its name, where the active variant awaits, and
    what it awaits. *)
Definition frame_at (t : list byte) (variant : VariantInfo) (s : option SuspendPoint) : LogicalFrame :=
  {| display_name := after_last (str "::") (before_first (str "::{async_fn_env") t);
     location := await_location variant; suspend := s; origin := Synthesized |}.

(** Waiting as [k] for a value of type [t]. *)
Definition waits_for (k : suspend_kind) (t : list byte) : SuspendPoint :=
  {| sp_kind := k; sp_detail := Some (after_last (str "::") (before_first (str "<") t)) |}.

(** The frame of a leaf future of type [t]. *)
Definition parked_frame (t : list byte) : LogicalFrame :=
  {| display_name := after_last (str "::") (before_first (str "<") t);
     location := None; suspend := Some (waits_for (lc_suspend (classify_leaf t)) t); origin := Synthesized |}.

(** A number and another shifted past it share no bit. *)
Lemma land_shiftl_low a b n : 0 ≤ n → 0 ≤ a < 2 ^ n → Z.land a (Z.shiftl b n) = 0.
Proof.
  intros Hn Ha. apply Z.bits_inj'. intros i Hi. rewrite Z.land_spec, Z.shiftl_spec, Z.bits_0 by done.
  destruct (Z.ltb_spec i n) as [Hlt|Hge].
  - by rewrite (Z.testbit_neg_r b) by lia; rewrite andb_false_r.
  - replace a with (a mod 2 ^ n) by (by apply Z.mod_small). by rewrite Z.mod_pow2_bits_high.
Qed.

Section chain.
Context (v : ProcessView) (ls : AsyncLayouts).

(** The coroutine of type [t] at [base] stands in [variant]: its layout is
    known, and the word it keeps as its discriminant selects that variant. *)
Definition stands (base : Z) (t : list byte) (layout : AsyncFnLayout) (variant : VariantInfo) : Prop :=
  AsyncLayouts_get ls t = Some layout ∧ base + discr_offset layout < 2 ^ 64 ∧
  ∃ bytes, read_memory v (base + discr_offset layout) (discr_size layout) = Ok bytes ∧
    (length bytes ≤ 8)%nat ∧ variants layout !! le_value bytes = Some variant.

Inductive await_chain : Z → list byte → list LogicalFrame → option (list byte) → Prop :=
| chain_end base t layout variant :
    stands base t layout variant →
    (is_suspend (vi_kind variant) = false ∨ awaitee variant = None) →
    await_chain base t [frame_at (af_type_name layout) variant None] None
| chain_leaf base t layout variant child :
    stands base t layout variant →
    is_suspend (vi_kind variant) = true → awaitee variant = Some child →
    AsyncLayouts_get ls (cr_type child) = None →
    await_chain base t
      [frame_at (af_type_name layout) variant
         (Some (waits_for (lc_suspend (classify_leaf (cr_type child))) (cr_type child)));
       parked_frame (cr_type child)] (Some (cr_type child))
| chain_await base t layout variant child fs leaf :
    stands base t layout variant →
    is_suspend (vi_kind variant) = true → awaitee variant = Some child →
    is_Some (AsyncLayouts_get ls (cr_type child)) → base + cr_offset child < 2 ^ 64 →
    await_chain (base + cr_offset child) (cr_type child) fs leaf →
    await_chain base t
      (frame_at (af_type_name layout) variant (Some (waits_for SuspendKind.Other (cr_type child))) :: fs) leaf.

Inductive await_steps : nat → Z → list byte → list LogicalFrame → Prop :=
| steps_none base t : await_steps 0 base t []
| steps_await n base t layout variant child fs :
    stands base t layout variant →
    is_suspend (vi_kind variant) = true → awaitee variant = Some child →
    is_Some (AsyncLayouts_get ls (cr_type child)) → base + cr_offset child < 2 ^ 64 →
    await_steps n (base + cr_offset child) (cr_type child) fs →
    await_steps (S n) base t
      (frame_at (af_type_name layout) variant (Some (waits_for SuspendKind.Other (cr_type child))) :: fs).

(** How many coroutines a chain goes through. *)
Definition chain_length (fs : list LogicalFrame) (leaf : option (list byte)) : nat :=
  (length fs - match leaf with Some _ => 1 | None => 0 end)%nat.

Lemma await_chain_nonempty base t fs leaf :
  await_chain base t fs leaf → (1 <= chain_length fs leaf)%nat ∧ (length fs ≤ S (chain_length fs leaf))%nat.
Proof.
  unfold chain_length. induction 1 as [| |base t layout variant child fs leaf ? ? ? ? ? ? IH]; cbn;
    [lia..|]. destruct leaf; lia.
Qed.

Lemma addr_add_fits a b : a + b < 2 ^ 64 → addr_add a b = Ok (a + b).
Proof. intros H. unfold addr_add, checked_add. by rewrite (proj2 (Z.ltb_lt _ _) H). Qed.

Lemma or_bytes_value {E} bytes : ∀ i acc,
  0 ≤ i → i + blen bytes ≤ 8 → 0 ≤ acc < 2 ^ (8 * i) →
  or_bytes (E := E) i bytes acc = Ok (acc + 2 ^ (8 * i) * le_value bytes).
Proof.
  induction bytes as [|b bytes IH]; intros i acc Hi Hl Ha; cbn [or_bytes].
  { f_equal. change (le_value []) with 0. lia. }
  rewrite blen_cons in Hl. pose proof (blen_nonneg bytes). rewrite (proj2 (Z.ltb_lt _ _)) by lia.
  pose proof (Z_of_byte_range b) as Hb.
  assert (Hor : Z.lor acc (Z.shiftl (Z_of_byte b) (8 * i)) = acc + 2 ^ (8 * i) * Z_of_byte b).
  { rewrite <- Z.lxor_lor, <- Z.add_nocarry_lxor; [rewrite Z.shiftl_mul_pow2 by lia; lia| |];
      apply land_shiftl_low; lia. }
  assert (Hpow : 2 ^ (8 * (i + 1)) = 2 ^ (8 * i) * 256).
  { replace (8 * (i + 1)) with (8 * i + 8) by lia. by rewrite Z.pow_add_r by lia. }
  rewrite IH; rewrite ?Hor, ?Hpow; [|lia|lia|nia].
  f_equal. change (le_value (b :: bytes)) with (Z_of_byte b + 256 * le_value bytes). lia.
Qed.

Lemma stands_active base t layout variant :
  stands base t layout variant → ∃ d, active_variant v base layout = Ok (d, variant).
Proof.
  intros (_ & Hb & bytes & Hr & Hlen & Hv). exists (le_value bytes).
  unfold active_variant, read_discriminant, variant_for. rewrite addr_add_fits by done. cbn [mbind result_bind].
  rewrite Hr. cbn [mbind result_bind]. rewrite or_bytes_value by (unfold blen; lia).
  cbn [mbind result_bind]. rewrite Z.add_0_l. change (2 ^ (8 * 0)) with 1. rewrite Z.mul_1_l. by rewrite Hv.
Qed.

(** One round of the walk over a coroutine that awaits another. *)
Lemma stack_loop_await n base t layout variant child acc :
  stands base t layout variant →
  is_suspend (vi_kind variant) = true → awaitee variant = Some child →
  is_Some (AsyncLayouts_get ls (cr_type child)) → base + cr_offset child < 2 ^ 64 →
  stack_loop (S n) v ls base t acc =
    stack_loop n v ls (base + cr_offset child) (cr_type child)
      (acc ++ [frame_at (af_type_name layout) variant (Some (waits_for SuspendKind.Other (cr_type child)))]).
Proof.
  intros Hst Hs Hc Hn Hb. destruct (stands_active _ _ _ _ Hst) as [d Ha]. destruct Hst as [Hl _].
  cbn [stack_loop]. rewrite Hl. cbn [ok_or mbind result_bind]. rewrite Ha. cbn [mbind result_bind].
  rewrite Hs, Hc. cbn [negb]. assert (is_coroutine ls (cr_type child) = true) as -> by by apply bool_decide_eq_true.
  by rewrite addr_add_fits by done.
Qed.

Lemma stack_loop_chain n base t fs leaf acc :
  await_chain base t fs leaf → (chain_length fs leaf ≤ n)%nat →
  stack_loop n v ls base t acc = Ok (acc ++ fs).
Proof.
  intros H. revert n acc.
  induction H as [base t layout variant Hst Hend|base t layout variant child Hst Hs Hc Hn
                 |base t layout variant child fs leaf Hst Hs Hc Hn Hb Hch IH]; intros n acc Hlen.
  - destruct n as [|n]; [cbn in Hlen; lia|]. destruct (stands_active _ _ _ _ Hst) as [d Ha]. destruct Hst as [Hl _].
    cbn [stack_loop]. rewrite Hl. cbn [ok_or mbind result_bind].
    rewrite Ha. cbn [mbind result_bind]. destruct Hend as [->| ->]; [done|].
    by destruct (is_suspend _).
  - destruct n as [|n]; [cbn in Hlen; lia|]. destruct (stands_active _ _ _ _ Hst) as [d Ha]. destruct Hst as [Hl _].
    cbn [stack_loop]. rewrite Hl. cbn [ok_or mbind result_bind].
    rewrite Ha. cbn [mbind result_bind]. rewrite Hs, Hc. cbn [negb].
    assert (is_coroutine ls (cr_type child) = false) as ->; [|done].
    unfold is_coroutine. apply bool_decide_eq_false. unfold AsyncLayouts_get in Hn. rewrite Hn. by intros [? ?].
  - apply await_chain_nonempty in Hch as Hch1. unfold chain_length in *. cbn [length] in Hlen.
    destruct n as [|n]; [destruct leaf; lia|]. rewrite (stack_loop_await _ _ _ _ _ _ _ Hst Hs Hc Hn Hb).
    rewrite IH by (destruct leaf; lia). by rewrite <- app_assoc.
Qed.

(** The walk is cut after its bound, whatever follows. *)
Lemma stack_loop_cut n base t fs acc :
  await_steps n base t fs → stack_loop n v ls base t acc = Ok (acc ++ fs) ∧ length fs = n.
Proof.
  intros H. revert acc. induction H as [base t|n base t layout variant child fs Hst Hs Hc Hn Hb _ IH]; intros acc.
  - by rewrite app_nil_r.
  - rewrite (stack_loop_await _ _ _ _ _ _ _ Hst Hs Hc Hn Hb).
    destruct (IH (acc ++ [frame_at (af_type_name layout) variant (Some (waits_for SuspendKind.Other (cr_type child)))]))
      as [-> <-]. by rewrite <- app_assoc.
Qed.

(** Layouts built from DWARF record an awaitee only for suspended variants. *)
Definition awaitees_suspended : Prop :=
  ∀ t l d x, AsyncLayouts_get ls t = Some l → variant_for l d = Some x →
    is_suspend (vi_kind x) = false → awaitee x = None.

Lemma active_variant_for base layout d x :
  active_variant v base layout = Ok (d, x) → variant_for layout d = Some x.
Proof.
  unfold active_variant. intros H. inv_bind. destruct (variant_for layout _) eqn:Ev; [|done].
  by injection H as <- <-.
Qed.

Lemma leaf_loop_await n base t layout variant child next :
  stands base t layout variant → awaitee variant = Some child →
  AsyncLayouts_get ls (cr_type child) = Some next → base + cr_offset child < 2 ^ 64 →
  leaf_loop (S n) v ls base layout = leaf_loop n v ls (base + cr_offset child) next.
Proof.
  intros Hst Hc Hn Hb. destruct (stands_active _ _ _ _ Hst) as [d Ha]. cbn [leaf_loop]. rewrite Ha.
  cbn [mbind result_bind]. rewrite Hc, Hn. by rewrite addr_add_fits by done.
Qed.

Lemma leaf_loop_chain n base t layout fs leaf :
  awaitees_suspended → await_chain base t fs leaf → AsyncLayouts_get ls t = Some layout →
  (chain_length fs leaf ≤ n)%nat → leaf_loop n v ls base layout = Ok leaf.
Proof.
  intros Haw H. revert n layout.
  induction H as [base t layout variant Hst Hend|base t layout variant child Hst Hs Hc Hn
                 |base t layout variant child fs leaf Hst Hs Hc [next Hn] Hb Hch IH];
    intros n layout' Hl' Hlen; pose proof (proj1 Hst) as Hl; rewrite Hl in Hl'; injection Hl' as <-.
  - destruct n as [|n]; [cbn in Hlen; lia|]. destruct (stands_active _ _ _ _ Hst) as [d Ha].
    cbn [leaf_loop]. rewrite Ha. cbn [mbind result_bind].
    assert (awaitee variant = None) as ->; [|done]. destruct Hend as [Hend|]; [|done].
    apply active_variant_for in Ha. by eapply Haw.
  - destruct n as [|n]; [cbn in Hlen; lia|]. destruct (stands_active _ _ _ _ Hst) as [d Ha].
    cbn [leaf_loop]. rewrite Ha. cbn [mbind result_bind]. by rewrite Hc, Hn.
  - apply await_chain_nonempty in Hch as Hch1. unfold chain_length in *. cbn [length] in Hlen.
    destruct n as [|n]; [destruct leaf; lia|]. rewrite (leaf_loop_await _ _ _ _ _ _ _ Hst Hc Hn Hb).
    apply IH; [done|]. destruct leaf; lia.
Qed.

Lemma leaf_loop_cut n base t layout fs :
  await_steps n base t fs → AsyncLayouts_get ls t = Some layout → leaf_loop n v ls base layout = Ok None.
Proof.
  intros H. revert layout.
  induction H as [base t|n base t layout variant child fs Hst Hs Hc [next Hn] Hb _ IH]; intros layout' Hl'; [done|].
  pose proof (proj1 Hst) as Hl. rewrite Hl in Hl'. injection Hl' as <-.
  rewrite (leaf_loop_await _ _ _ _ _ _ _ Hst Hc Hn Hb). by apply IH.
Qed.

End chain.

(** ** Properties *)

(** C23. When the awaits of a task form a chain of at most 64 coroutines, its
    logical stack is the frames of the chain, outermost first: one per
    coroutine, with its name, the source location it awaits at and what it
    awaits, the leaf future named last and classified; its wake cause and, when
    it is suspended and has no Tokio header, its block reason are the
    classification of that same leaf, and an unresumed or finished coroutine is
    the state of its variant.  A chain that goes on after 64 awaits is cut there:
    its stack is its first 64 frames, and its leaf is not known. *)
Theorem async_stack_follows_chain v ls base t layout x :
  awaitees_suspended ls → stands v ls base t layout x →
  (∀ fs leaf, await_chain v ls base t fs leaf → (chain_length fs leaf ≤ 64)%nat →
    async_logical_stack v base t ls = Ok fs ∧
    wake_cause_of v base layout ls =
      Ok (from_option (λ l, lc_wake (classify_leaf l)) WakeCause.Unknown leaf) ∧
    task_state_of v base layout ls None =
      Ok (if is_suspend (vi_kind x)
          then TaskState.Blocked (from_option (λ l, lc_block (classify_leaf l)) BlockReason.Unknown leaf)
          else state_from_variant (vi_kind x))) ∧
  (∀ fs, await_steps v ls 64 base t fs →
    length fs = 64%nat ∧ async_logical_stack v base t ls = Ok fs ∧
    wake_cause_of v base layout ls = Ok WakeCause.Unknown ∧
    task_state_of v base layout ls None = Ok (TaskState.Blocked BlockReason.Unknown)).
Proof.
  intros Haw Hst. destruct (stands_active _ _ _ _ _ _ Hst) as [d Ha]. pose proof (proj1 Hst) as Hl.
  assert (Hrest : ∀ leaf, leaf_type v base layout ls = Ok leaf →
    wake_cause_of v base layout ls = Ok (from_option (λ l, lc_wake (classify_leaf l)) WakeCause.Unknown leaf) ∧
    task_state_of v base layout ls None =
      Ok (if is_suspend (vi_kind x)
          then TaskState.Blocked (from_option (λ l, lc_block (classify_leaf l)) BlockReason.Unknown leaf)
          else state_from_variant (vi_kind x))).
  { intros leaf Hleaf. split.
    - unfold wake_cause_of. rewrite Hleaf. by destruct leaf.
    - unfold task_state_of. rewrite Ha. cbn [mbind result_bind].
      destruct (vi_kind x); try done. cbn [state_from_variant is_suspend]. rewrite Hleaf. by destruct leaf. }
  split.
  - intros fs leaf Hch Hlen. split; [unfold async_logical_stack; by rewrite (stack_loop_chain _ _ _ _ _ _ _ [] Hch)|].
    apply Hrest. by eapply leaf_loop_chain.
  - intros fs Hs. destruct (stack_loop_cut v ls _ _ _ _ [] Hs) as [Hstack Hlen].
    split; [done|]. split; [exact Hstack|].
    destruct (Hrest None (leaf_loop_cut _ _ _ _ _ _ _ Hs Hl)) as [Hw Ht]. split; [exact Hw|].
    rewrite Ht. inversion Hs as [|? ? ? l' x' child ? (Hl' & _ & bs' & Hr' & _ & Hv') Hsus]; subst.
    destruct Hst as (_ & _ & bs & Hr & _ & Hv). assert (l' = layout) as -> by congruence.
    rewrite Hr in Hr'. injection Hr' as <-. rewrite Hv in Hv'. injection Hv' as <-. by rewrite Hsus.
Qed.

(** ** Samples: the layouts of the tests *)

Definition location_at (n : Z) : SourceLocation := MkSourceLocation (str "src/main.rs") n 0.

Definition suspended (await : Z) (child : ChildRef) (cs : list ChildRef) : VariantInfo :=
  MkVariantInfo (VariantKind.Suspend 0) (Some (location_at await)) (Some child) cs.

Definition coroutine_layout (t : list byte) (bytes discr : Z) (x : VariantInfo) : AsyncFnLayout :=
  MkAsyncFnLayout t bytes discr 1
    (<[0 := VariantInfo_terminal VariantKind.Unresumed]> (<[1 := VariantInfo_terminal VariantKind.Returned]>
     (<[3 := x]> ∅))).

Definition sleeper_t : list byte := str "probe::sleeper::{async_fn_env#0}".
Definition inner_t : list byte := str "probe::inner_leaf::{async_fn_env#0}".
Definition parent_t : list byte := str "probe::nested_parent::{async_fn_env#0}".
Definition joiner_t : list byte := str "probe::joiner::{async_fn_env#0}".

Definition sleeper_layout : AsyncFnLayout :=
  coroutine_layout sleeper_t 128 120 (suspended 20 (MkChildRef 8 (str "tokio::time::sleep::Sleep")) []).
Definition inner_layout : AsyncFnLayout :=
  coroutine_layout inner_t 48 40
    (suspended 5 (MkChildRef 16 (str "tokio::sync::mpsc::bounded::Recv<u32>")) []).
Definition parent_layout : AsyncFnLayout :=
  coroutine_layout parent_t 64 56 (suspended 10 (MkChildRef 8 inner_t) []).
Definition joiner_layout : AsyncFnLayout :=
  coroutine_layout joiner_t 296 288
    (suspended 18 (MkChildRef 272 (str "core::future::poll_fn::PollFn"))
       [MkChildRef 0 sleeper_t; MkChildRef 128 sleeper_t]).

Definition sample_layouts : AsyncLayouts :=
  foldr AsyncLayouts_insert ∅ [sleeper_layout; inner_layout; parent_layout; joiner_layout].

(** A parent parked on its inner coroutine, parked on a receive. *)
Definition nested_view : ProcessView :=
  image_view (poke (0x2000 + 56) [x03] (poke (0x2000 + 8 + 40) [x03] ∅)) [] [].

Definition awaitees_suspended_b (ls : AsyncLayouts) : bool :=
  forallb (λ '(_, l), forallb (λ '(_, x), is_suspend (vi_kind x) || bool_decide (awaitee x = None))
                        (map_to_list (variants l))) (map_to_list ls).

#[export] Instance ChildRef_eq_dec : EqDecision ChildRef.
Proof. solve_decision. Defined.

Lemma awaitees_suspended_check ls : awaitees_suspended_b ls = true → awaitees_suspended ls.
Proof.
  unfold awaitees_suspended_b, awaitees_suspended. rewrite forallb_forall. intros H t l d x Hl Hx Hs.
  assert (Hin : In (t, l) (map_to_list ls)) by by apply list_elem_of_In, elem_of_map_to_list.
  specialize (H _ Hin). cbn in H. rewrite forallb_forall in H.
  assert (Hin' : In (d, x) (map_to_list (variants l))) by by apply list_elem_of_In, elem_of_map_to_list.
  specialize (H _ Hin'). cbn in H. rewrite Hs in H. by apply bool_decide_eq_true in H.
Qed.

(** A coroutine that awaits one of its own type at offset 0: a chain with no
    end. *)
Definition endless_t : list byte := str "probe::endless::{async_fn_env#0}".
Definition endless_variant : VariantInfo := suspended 7 (MkChildRef 0 endless_t) [].
Definition endless_layout : AsyncFnLayout := coroutine_layout endless_t 48 40 endless_variant.
Definition endless_layouts : AsyncLayouts := AsyncLayouts_insert endless_layout ∅.
Definition endless_view : ProcessView := image_view (poke (0x3000 + 40) [x03] ∅) [] [].

Lemma endless_stands : stands endless_view endless_layouts 0x3000 endless_t endless_layout endless_variant.
Proof. split; [vm_compute; reflexivity|]. split; [reflexivity|]. exists [x03]. split; [vm_compute; reflexivity|]. by split; [cbn; lia|]. Qed.

Lemma endless_steps n :
  await_steps endless_view endless_layouts n 0x3000 endless_t
    (replicate n (frame_at endless_t endless_variant (Some (waits_for SuspendKind.Other endless_t)))).
Proof.
  induction n as [|n IH]; [constructor|]. cbn [replicate].
  apply (steps_await _ _ n 0x3000 endless_t endless_layout endless_variant (MkChildRef 0 endless_t));
    [exact endless_stands|done|done|by eexists; vm_compute|done|]. exact IH.
Qed.

Definition recv_t : list byte := str "tokio::sync::mpsc::bounded::Recv<u32>".

Definition nested_frames : list LogicalFrame :=
  [MkLogicalFrame (str "nested_parent") (Some (location_at 10))
     (Some (MkSuspendPoint SuspendKind.Other (Some (str "{async_fn_env#0}")))) Synthesized;
   MkLogicalFrame (str "inner_leaf") (Some (location_at 5))
     (Some (MkSuspendPoint SuspendKind.ChannelRecv (Some (str "Recv")))) Synthesized;
   MkLogicalFrame (str "Recv") None
     (Some (MkSuspendPoint SuspendKind.ChannelRecv (Some (str "Recv")))) Synthesized].

Lemma nested_chain :
  stands nested_view sample_layouts 0x2000 parent_t parent_layout (suspended 10 (MkChildRef 8 inner_t) []) ∧
  await_chain nested_view sample_layouts 0x2000 parent_t nested_frames (Some recv_t).
Proof.
  assert (Hst : stands nested_view sample_layouts 0x2000 parent_t parent_layout (suspended 10 (MkChildRef 8 inner_t) [])).
  { split; [vm_compute; reflexivity|]. split; [reflexivity|]. exists [x03].
    split; [vm_compute; reflexivity|]. by split; [cbn; lia|]. }
  split; [exact Hst|].
  apply (chain_await _ _ 0x2000 parent_t parent_layout (suspended 10 (MkChildRef 8 inner_t) [])
           (MkChildRef 8 inner_t)); [exact Hst|done|done|by eexists; vm_compute|done|].
  apply (chain_leaf _ _ (0x2000 + 8) inner_t inner_layout (suspended 5 (MkChildRef 16 recv_t) [])
           (MkChildRef 16 recv_t)); [|done|done|vm_compute; reflexivity].
  split; [vm_compute; reflexivity|]. split; [reflexivity|]. exists [x03].
  split; [vm_compute; reflexivity|]. by split; [cbn; lia|].
Qed.

Lemma async_stack_follows_chain_witness :
  async_logical_stack nested_view 0x2000 parent_t sample_layouts = Ok nested_frames ∧
  task_state_of endless_view 0x3000 endless_layout endless_layouts None = Ok (TaskState.Blocked BlockReason.Unknown).
Proof.
  destruct nested_chain as [Hst Hch].
  assert (H1 : awaitees_suspended sample_layouts) by (apply awaitees_suspended_check; vm_compute; reflexivity).
  assert (H2 : awaitees_suspended endless_layouts) by (apply awaitees_suspended_check; vm_compute; reflexivity).
  split.
  - apply (proj1 (async_stack_follows_chain _ _ _ _ parent_layout _ H1 Hst) _ _ Hch).
    apply Nat.leb_le. vm_compute. reflexivity.
  - apply (proj2 (async_stack_follows_chain _ _ _ _ endless_layout _ H2 endless_stands) _ (endless_steps 64)).
Defined.
