(* ===== verification/TokioWalk.v ===== *)
(** * Finding live Tokio tasks: [decoder/src/async_rust/enumerate]

    [layout.rs] (the version and its vendored offsets), [tls.rs] (the address
    of a thread-local), [walk.rs] (the pointer chase through [OwnedTasks]),
    the pure parts of [dwarf.rs] and the plan of [mod.rs] that turns a view
    into task roots.  The theorems say that the chase ends on every memory and
    reads exactly the lists a runtime stores. *)

From S2P Require Import Prelude.
From S2P Require Import Text.
From S2P Require Import TaskModel.
From S2P Require Import TaskTree.
From S2P Require Import View.
From S2P Require Import GoRuntime.
From S2P Require Import GoWalk.
From S2P Require Import AsyncLayout.

(** ** [enumerate/layout.rs] *)

Record TokioVersion := MkTokioVersion { tokio_major : Z; tokio_minor : Z; tokio_patch : Z }.

Definition TokioVersion_display (v : TokioVersion) : list byte :=
  dec (tokio_major v) ++ str "." ++ dec (tokio_minor v) ++ str "." ++ dec (tokio_patch v).

Definition tokio_parse_triple (bytes : list byte) : option TokioVersion :=
  let text := take 24 bytes in
  if utf8_valid text then
    let parts := split_on (byte_is x2e)
                   (take_while (λ b, is_ascii_digit b || byte_is x2e b) text) in
    a ← get_at parts 0 ≫= parse_u 16;
    b ← get_at parts 1 ≫= parse_u 16;
    c ← get_at parts 2 ≫= parse_u 16;
    Some (MkTokioVersion a b c)
  else None.

Fixpoint tokio_detect_loop (fuel : nat) (bytes : list byte) (from : nat) : option TokioVersion :=
  match fuel with
  | O => None
  | S fuel =>
      match find_sub (str "tokio-1.") (drop from bytes) with
      | None => None
      | Some rel =>
          match tokio_parse_triple (drop (from + rel + 6) bytes) with
          | Some v => Some v
          | None => tokio_detect_loop fuel bytes (from + (rel + 8))
          end
      end
  end.

Definition TokioVersion_detect_in_bytes (bytes : list byte) : option TokioVersion :=
  tokio_detect_loop (S (length bytes)) bytes 0.

(** [enumerate/error.rs] *)
Inductive enumerate_error :=
| UnsupportedTokioVersion (v : TokioVersion)
| TokioVersionUnknown
| ContextSymbolMissing
| ThreadPointerUnavailable
| LoadBaseUnavailable
| Implausible (what : list byte)
| NoRuntimeHandle
| EnumNoDebugInfo
| EnumParse (what : list byte).

Definition enumerate_error_display (e : enumerate_error) : list byte :=
  match e with
  | UnsupportedTokioVersion v =>
      str "no vendored Tokio internal layout for tokio " ++ TokioVersion_display v
      ++ str "; live enumeration declines"
  | TokioVersionUnknown => str "no embedded tokio version string; cannot key the internal layout"
  | ContextSymbolMissing => str "tokio runtime CONTEXT thread-local symbol not found"
  | ThreadPointerUnavailable => str "no thread pointer available; TLS-based enumeration is unavailable"
  | LoadBaseUnavailable => str "executable load base unavailable; cannot map poll addresses to types"
  | Implausible w => str "implausible runtime shape while walking OwnedTasks: " ++ w
  | NoRuntimeHandle => str "no live Tokio runtime handle on any stopped thread"
  | EnumNoDebugInfo => str "no DWARF debug info; cannot resolve task future types"
  | EnumParse w => str "object/DWARF parse error: " ++ w
  end.

Record TokioRuntimeLayout := MkTokioRuntimeLayout {
  context_current : Z;
  handle_cell_value : Z;
  arc_data : Z;
  handle_shared : Z;
  shared_owned : Z;
  owned_list : Z;
  sharded_lists : Z;
  shard_stride : Z;
  mutex_data : Z;
  list_head : Z;
  header_vtable : Z;
  vtable_poll : Z;
  vtable_trailer_offset : Z;
  trailer_owned_next : Z;
  future_offset : Z;
}.

Definition tokio_1_44 : TokioRuntimeLayout :=
  {| context_current := 8; handle_cell_value := 8; arc_data := 16; handle_shared := 0;
     shared_owned := 104; owned_list := 0; sharded_lists := 0; shard_stride := 24; mutex_data := 8;
     list_head := 0; header_vtable := 16; vtable_poll := 0; vtable_trailer_offset := 56;
     trailer_owned_next := 8; future_offset := 56 |}.

Definition TokioRuntimeLayout_vendored (v : TokioVersion) : result enumerate_error TokioRuntimeLayout :=
  match tokio_major v, tokio_minor v with
  | 1, 44 => Ok tokio_1_44
  | _, _ => Err (UnsupportedTokioVersion v)
  end.

(** ** [enumerate/tls.rs] *)

Definition AARCH64_TCB_SIZE : Z := 16.

Inductive tls_variant := VariantI | VariantII.

(** [value.div_ceil(align) * align], whose product may overflow. *)
Definition align_up (value align : Z) : result enumerate_error Z :=
  if align <=? 1 then Ok value
  else
    let p := (value + align - 1) / align * align in
    if p <? 2 ^ 64 then Ok p else Panic.

Definition static_tls_address (variant : tls_variant) (tp tls_offset tls_align block_size : Z)
    : result enumerate_error Z :=
  match variant with
  | VariantI =>
      tcb ← align_up AARCH64_TCB_SIZE (Z.max tls_align 1);
      Ok (as_u 64 (as_u 64 (tp + tcb) + tls_offset))
  | VariantII =>
      block ← align_up block_size (Z.max tls_align 1);
      Ok (as_u 64 (as_u 64 (tp - block) + tls_offset))
  end.

(** ** [enumerate/walk.rs] *)

Definition MAX_SHARDS : Z := Z.shiftl 1 16.
Definition MAX_RAW_TASKS : Z := Z.shiftl 1 20.

Record RawTask := MkRawTask { header : Z; poll_runtime : Z; future : Z }.

(** [a + b + ..] on [u64]. *)
Fixpoint addr_sum {E} (a : Z) (offs : list Z) : result E Z :=
  match offs with
  | [] => Ok a
  | o :: offs => match checked_add 64 a o with Some s => addr_sum s offs | None => Panic end
  end.

Definition walk_short_read (addr : Z) : decoder_error := MemoryReadFailed addr 8 (str "short read").

Definition walk_read_u64 (v : ProcessView) (addr : Z) : result decoder_error Z :=
  bytes ← read_memory v addr 8;
  if blen bytes =? 8 then Ok (le_value bytes) else Err (walk_short_read addr).

(** A failed read declines the enumeration, with the message of the error. *)
Definition implausible (e : decoder_error) : enumerate_error := Implausible (decoder_error_display e).

Definition enum_read (v : ProcessView) (addr : Z) : result enumerate_error Z :=
  map_err implausible (walk_read_u64 v addr).

(** A pointer-sized field at [base + offs]. *)
Definition enum_field (v : ProcessView) (base : Z) (offs : list Z) : result enumerate_error Z :=
  a ← addr_sum base offs; enum_read v a.

Definition owned_tasks_addr (v : ProcessView) (context_addr : Z) (l : TokioRuntimeLayout)
    : result enumerate_error (option Z) :=
  arc_ptr ← enum_field v context_addr [context_current l; handle_cell_value l];
  if arc_ptr =? 0 then Ok None
  else
    owned ← addr_sum arc_ptr [arc_data l; handle_shared l; shared_owned l];
    Ok (Some owned).

(** The [while node != 0] loop; [None] is out of fuel. *)
Fixpoint walk_shard (fuel : nat) (v : ProcessView) (node : Z) (l : TokioRuntimeLayout)
    (out : list RawTask) : option (result enumerate_error (list RawTask)) :=
  match fuel with
  | O => None
  | S fuel =>
      if node =? 0 then Some (Ok out)
      else if MAX_RAW_TASKS <=? blen out then
        Some (Err (Implausible (str "task count exceeded MAX_TASKS; list likely cyclic")))
      else
        match
          vtable ← enum_field v node [header_vtable l];
          poll ← enum_field v vtable [vtable_poll l];
          trailer_offset ← enum_field v vtable [vtable_trailer_offset l];
          fut ← addr_sum node [future_offset l];
          next ← enum_field v node [trailer_offset; trailer_owned_next l];
          Ok (MkRawTask node poll fut, next)
        with
        | Ok (task, next) => walk_shard fuel v next l (out ++ [task])
        | Err e => Some (Err e)
        | Panic => Some Panic
        end
  end.

Definition walk_fuel : nat := S (Z.to_nat MAX_RAW_TASKS).

Fixpoint collect_shards (v : ProcessView) (data_ptr : Z) (l : TokioRuntimeLayout) (shards : list Z)
    (out : list RawTask) : option (result enumerate_error (list RawTask)) :=
  match shards with
  | [] => Some (Ok out)
  | s :: shards =>
      match
        mutex ← addr_sum data_ptr [s * shard_stride l];
        enum_field v mutex [mutex_data l; list_head l]
      with
      | Ok head =>
          match walk_shard walk_fuel v head l out with
          | Some (Ok out) => collect_shards v data_ptr l shards out
          | r => r
          end
      | Err e => Some (Err e)
      | Panic => Some Panic
      end
  end.

Definition collect_from_owned (v : ProcessView) (owned : Z) (l : TokioRuntimeLayout) (out : list RawTask)
    : option (result enumerate_error (list RawTask)) :=
  match
    list ← addr_sum owned [owned_list l];
    data_ptr ← enum_field v list [sharded_lists l];
    n ← enum_field v list [sharded_lists l; 8];
    if MAX_SHARDS <? n then
      Err (Implausible (str "ShardedList reports " ++ dec n ++ str " shards"))
    else Ok (data_ptr, n)
  with
  | Ok (data_ptr, n) => collect_shards v data_ptr l (seqZ 0 n) out
  | Err e => Some (Err e)
  | Panic => Some Panic
  end.

(** [walk_context]: whether a runtime was found, and the tasks. *)
Definition walk_context (v : ProcessView) (context_addr : Z) (l : TokioRuntimeLayout)
    : option (result enumerate_error (bool * list RawTask)) :=
  match owned_tasks_addr v context_addr l with
  | Ok (Some owned) =>
      r ← collect_from_owned v owned l [];
      Some (out ← r; Ok (true, out))
  | Ok None => Some (Ok (false, []))
  | Err e => Some (Err e)
  | Panic => Some Panic
  end.

(** ** The chase ends, and stays within its bound *)

Lemma walk_shard_ends fuel v node l out :
  (0 < fuel)%nat → MAX_RAW_TASKS < blen out + Z.of_nat fuel → walk_shard fuel v node l out ≠ None.
Proof.
  revert node out. induction fuel as [|fuel IH]; intros node out Hpos Hf; [lia|]. cbn [walk_shard].
  destruct (node =? 0); [done|]. destruct (Z.leb_spec MAX_RAW_TASKS (blen out)) as [|Hlt]; [done|].
  destruct (mbind _ _) as [[task next]| |]; [|done..].
  apply IH; [lia|]. rewrite blen_app. change (blen [task]) with 1. lia.
Qed.

Lemma walk_shard_bound fuel v node l out r :
  walk_shard fuel v node l out = Some (Ok r) → blen out ≤ MAX_RAW_TASKS → blen r ≤ MAX_RAW_TASKS.
Proof.
  revert node out. induction fuel as [|fuel IH]; intros node out H Hb; [done|]. cbn [walk_shard] in H.
  destruct (node =? 0); [by injection H as <-|].
  destruct (Z.leb_spec MAX_RAW_TASKS (blen out)) as [|Hlt]; [done|].
  destruct (mbind _ _) as [[task next]| |]; [|done..].
  apply IH in H; [done|]. rewrite blen_app. change (blen [task]) with 1. lia.
Qed.

Lemma walk_fuel_enough (out : list RawTask) : (0 < walk_fuel)%nat ∧ MAX_RAW_TASKS < blen out + Z.of_nat walk_fuel.
Proof.
  unfold walk_fuel. pose proof (blen_nonneg out).
  assert (0 ≤ MAX_RAW_TASKS) by (apply Z.leb_le; vm_compute; reflexivity).
  generalize dependent MAX_RAW_TASKS. intros m Hm. split; lia.
Qed.

Lemma collect_shards_ends v data l shards out :
  collect_shards v data l shards out ≠ None ∧
  ∀ r, collect_shards v data l shards out = Some (Ok r) → blen out ≤ MAX_RAW_TASKS → blen r ≤ MAX_RAW_TASKS.
Proof.
  revert out. induction shards as [|s shards IH]; intros out; cbn [collect_shards].
  { split; [done|]. by intros r [= <-]. }
  destruct (mbind _ _) as [head| |]; [|done..].
  destruct (walk_shard walk_fuel v head l out) as [[out'| |]|] eqn:E; [|done..|].
  - destruct (IH out') as [H1 H2]. split; [done|]. intros r Hr Hb. apply (H2 r Hr).
    by eapply walk_shard_bound.
  - exfalso. destruct (walk_fuel_enough out). by eapply walk_shard_ends.
Qed.

Lemma collect_from_owned_ends v owned l :
  collect_from_owned v owned l [] ≠ None ∧
  ∀ r, collect_from_owned v owned l [] = Some (Ok r) → blen r ≤ MAX_RAW_TASKS.
Proof.
  unfold collect_from_owned. destruct (mbind _ _) as [[data n]| |]; [|done..].
  destruct (collect_shards_ends v data l (seqZ 0 n) []) as [H1 H2]. split; [done|].
  intros r Hr. apply (H2 r Hr). apply Z.leb_le. vm_compute. reflexivity.
Qed.

(** ** What a runtime stores *)

(** A 64-bit word at [base + offs]. *)
Definition word (v : ProcessView) (base : Z) (offs : list Z) (x : Z) : Prop :=
  in_u 64 x ∧ ∃ a, addr_sum (E := enumerate_error) base offs = Ok a ∧
    read_memory v a 8 = Ok (le_bytes 8 x).

Lemma enum_field_word v base offs x : word v base offs x → enum_field v base offs = Ok x.
Proof.
  intros (Hx & a & Ha & Hr). unfold enum_field. rewrite Ha. cbn [mbind result_bind].
  unfold enum_read, walk_read_u64. rewrite Hr. cbn [mbind result_bind].
  rewrite blen_le_bytes. cbn [Z.eqb Z.of_nat Pos.of_succ_nat Pos.succ Pos.eqb map_err].
  by rewrite le_u64.
Qed.

(** The intrusive list of one shard. *)
Inductive shard_list (v : ProcessView) (l : TokioRuntimeLayout) : Z → list RawTask → Prop :=
| shard_nil : shard_list v l 0 []
| shard_cons node vtable poll toff fut next ts :
    node ≠ 0 → word v node [header_vtable l] vtable → word v vtable [vtable_poll l] poll →
    word v vtable [vtable_trailer_offset l] toff →
    addr_sum (E := enumerate_error) node [future_offset l] = Ok fut →
    word v node [toff; trailer_owned_next l] next → shard_list v l next ts →
    shard_list v l node (MkRawTask node poll fut :: ts).

(** A runtime entered on the thread of [context_addr], with one list per shard. *)
Record runtime_stored (v : ProcessView) (context_addr : Z) (l : TokioRuntimeLayout)
    (shards : list (list RawTask)) : Prop := {
  rt_shards : blen shards ≤ MAX_SHARDS;
  rt_tasks : blen (concat shards) ≤ MAX_RAW_TASKS;
  rt_memory : ∃ arc owned list data,
    word v context_addr [context_current l; handle_cell_value l] arc ∧ arc ≠ 0 ∧
    addr_sum (E := enumerate_error) arc [arc_data l; handle_shared l; shared_owned l] = Ok owned ∧
    addr_sum (E := enumerate_error) owned [owned_list l] = Ok list ∧
    word v list [sharded_lists l] data ∧ word v list [sharded_lists l; 8] (blen shards) ∧
    ∀ i ts, shards !! i = Some ts → ∃ mutex head,
      addr_sum (E := enumerate_error) data [Z.of_nat i * shard_stride l] = Ok mutex ∧
      word v mutex [mutex_data l; list_head l] head ∧ shard_list v l head ts;
}.

Lemma walk_shard_list fuel v node l ts out :
  shard_list v l node ts → blen out + blen ts ≤ MAX_RAW_TASKS → (length ts < fuel)%nat →
  walk_shard fuel v node l out = Some (Ok (out ++ ts)).
Proof.
  intros H. revert fuel out.
  induction H as [|node vtable poll toff fut next ts Hn Hv Hp Ht Hf Hx Hl IH]; intros fuel out Hb Hlen.
  { destruct fuel; [cbn in Hlen; lia|]. cbn. by rewrite app_nil_r. }
  destruct fuel as [|fuel]; [lia|]. cbn [walk_shard length] in *. rewrite blen_cons in Hb.
  pose proof (blen_nonneg ts).
  rewrite (proj2 (Z.eqb_neq _ _)), (proj2 (Z.leb_gt _ _)) by (done || lia).
  rewrite (enum_field_word _ _ _ _ Hv). cbn [mbind result_bind].
  rewrite (enum_field_word _ _ _ _ Hp). cbn [mbind result_bind].
  rewrite (enum_field_word _ _ _ _ Ht). cbn [mbind result_bind]. rewrite Hf. cbn [mbind result_bind].
  rewrite (enum_field_word _ _ _ _ Hx). cbn [mbind result_bind].
  rewrite IH; [by rewrite <- app_assoc| |lia]. rewrite blen_app. change (blen [_]) with 1. lia.
Qed.

Lemma collect_shards_stored v data l shards k out :
  (∀ i ts, shards !! i = Some ts → ∃ mutex head,
     addr_sum (E := enumerate_error) data [(k + Z.of_nat i) * shard_stride l] = Ok mutex ∧
     word v mutex [mutex_data l; list_head l] head ∧ shard_list v l head ts) →
  blen out + blen (concat shards) ≤ MAX_RAW_TASKS →
  collect_shards v data l (seqZ k (blen shards)) out = Some (Ok (out ++ concat shards)).
Proof.
  revert k out. induction shards as [|ts shards IH]; intros k out Hs Hb.
  { cbn. by rewrite app_nil_r. }
  rewrite blen_cons, seqZ_cons by (pose proof (blen_nonneg shards); lia). cbn [collect_shards concat] in *.
  rewrite blen_app in Hb. pose proof (blen_nonneg (concat shards)). pose proof (blen_nonneg out).
  destruct (Hs 0%nat ts eq_refl) as (mutex & head & Hm & Hh & Hl). rewrite Z.add_0_r in Hm.
  rewrite Hm. cbn [mbind result_bind]. rewrite (enum_field_word _ _ _ _ Hh).
  assert (Hfuel : (length ts < walk_fuel)%nat).
  { unfold walk_fuel. unfold blen in Hb at 2. generalize dependent MAX_RAW_TASKS. intros m Hm'. lia. }
  rewrite (walk_shard_list _ _ _ _ _ _ Hl) by (done || lia).
  replace (Z.pred (1 + blen shards)) with (blen shards) by lia. rewrite IH.
  - by rewrite <- app_assoc.
  - intros i ts' Hi. replace (Z.succ k + Z.of_nat i) with (k + Z.of_nat (S i)) by lia. by apply Hs.
  - rewrite blen_app. lia.
Qed.

(** ** Properties *)

(** C24. The walk of a thread's runtime ends on every memory, cyclic lists and
    garbage included, and never collects more than [MAX_TASKS] tasks; when the
    memory does hold a runtime whose shards hold given task lists, within the
    bounds, the walk returns exactly those tasks, shard by shard in list
    order, each with its poll address and its future's address; and a thread
    with no runtime entered contributes none. *)
Theorem walk_context_reads v context_addr l :
  walk_context v context_addr l ≠ None ∧
  (∀ b out, walk_context v context_addr l = Some (Ok (b, out)) → blen out ≤ MAX_RAW_TASKS) ∧
  (∀ shards, runtime_stored v context_addr l shards →
     walk_context v context_addr l = Some (Ok (true, concat shards))) ∧
  (word v context_addr [context_current l; handle_cell_value l] 0 →
     walk_context v context_addr l = Some (Ok (false, []))).
Proof.
  assert (Hmax : 0 ≤ MAX_RAW_TASKS) by (apply Z.leb_le; vm_compute; reflexivity).
  split_and!.
  - unfold walk_context. destruct (owned_tasks_addr v context_addr l) as [[owned|]| |]; [|done..].
    destruct (collect_from_owned_ends v owned l) as [H _]. by destruct (collect_from_owned v owned l []).
  - intros b out. unfold walk_context.
    destruct (owned_tasks_addr v context_addr l) as [[owned|]| |]; [|intros [= <- <-]; exact Hmax|done..].
    destruct (collect_from_owned_ends v owned l) as [_ H].
    destruct (collect_from_owned v owned l []) as [[r| |]|]; [|done..].
    intros [= <- <-]. by apply (H r).
  - intros shards [Hs Ht (arc & owned & list & data & Harc & Hne & Ho & Hl & Hd & Hn & Hsh)].
    unfold walk_context, owned_tasks_addr. rewrite (enum_field_word _ _ _ _ Harc). cbn [mbind result_bind].
    rewrite (proj2 (Z.eqb_neq _ _)) by done. rewrite Ho. cbn [mbind result_bind].
    unfold collect_from_owned. rewrite Hl. cbn [mbind result_bind].
    rewrite (enum_field_word _ _ _ _ Hd). cbn [mbind result_bind].
    rewrite (enum_field_word _ _ _ _ Hn). cbn [mbind result_bind].
    rewrite (proj2 (Z.ltb_ge _ _)) by done.
    by rewrite (collect_shards_stored _ _ _ shards 0 []).
  - intros H. unfold walk_context, owned_tasks_addr. by rewrite (enum_field_word _ _ _ _ H).
Qed.

(** ** The plan: [enumerate/mod.rs] and the facts of [enumerate/dwarf.rs] *)

Record BinaryFacts := MkBinaryFacts {
  bf_version : TokioVersion;
  context_tls_offset : Z;
  tls_align : Z;
  tls_block_size : Z;
  min_load_vaddr : Z;
  poll_types : list (Z * list byte);
}.

Definition future_type_for (f : BinaryFacts) (static_addr : Z) : option (list byte) :=
  (λ r, r.2.2) <$> list_find (λ p, p.1 = static_addr) (poll_types f).

Definition is_context_symbol (name : list byte) : bool :=
  contains (str "7context7CONTEXT") name || contains (str "context..CONTEXT") name.

(** [b.get(at..at + n)] read as an integer; the addition may overflow. *)
Definition elf_field (image : list byte) (at_ n : Z) : result enumerate_error Z :=
  end_ ← addr_sum at_ [n];
  bytes ← ok_or (EnumParse (str "truncated ELF header")) (get_range image at_ end_);
  Ok (le_value bytes).

(** One program header: its effect on [(tls_align, tls_memsz, min_load)]. *)
Definition elf_phdr (image : list byte) (phoff phentsize i : Z) (acc : Z * Z * Z)
    : result enumerate_error (Z * Z * Z) :=
  let '(align, memsz, min_load) := acc in
  base ← addr_sum phoff [i * phentsize];
  p_type ← elf_field image base 4;
  vaddr_at ← addr_sum base [16];
  p_vaddr ← elf_field image vaddr_at 8;
  memsz_at ← addr_sum base [40];
  p_memsz ← elf_field image memsz_at 8;
  align_at ← addr_sum base [48];
  p_align ← elf_field image align_at 8;
  Ok (if p_type =? 7 then (Z.max p_align 1, p_memsz, min_load)
      else if p_type =? 1 then (align, memsz, Z.min min_load p_vaddr)
      else acc).

Fixpoint elf_phdrs (image : list byte) (phoff phentsize : Z) (idx : list Z) (acc : Z * Z * Z)
    : result enumerate_error (Z * Z * Z) :=
  match idx with
  | [] => Ok acc
  | i :: idx => acc ← elf_phdr image phoff phentsize i acc; elf_phdrs image phoff phentsize idx acc
  end.

Definition elf_geometry (image : list byte) : result enumerate_error (Z * Z * Z) :=
  if (blen image <? 64) || negb (bool_decide (take 4 image = [x7f; x45; x4c; x46]))
     || negb (bool_decide (get_at image 4 = Some x02)) || negb (bool_decide (get_at image 5 = Some x01))
  then Err (EnumParse (str "not a little-endian ELF64 image"))
  else
    phoff ← elf_field image 32 8;
    phentsize ← elf_field image 54 2;
    phnum ← elf_field image 56 2;
    '(align, memsz, min_load) ← elf_phdrs image phoff phentsize (seqZ 0 phnum) (8, 0, U64_MAX);
    Ok (align, memsz, if min_load =? U64_MAX then 0 else min_load).

Fixpoint generic_arg_loop (depth : nat) (acc s : list byte) : option (list byte) :=
  match s with
  | [] => None
  | c :: s =>
      if byte_is x3c c then generic_arg_loop (S depth) (acc ++ [c]) s
      else if byte_is x3e c then
        match depth with
        | O => Some (trim acc)
        | S depth => generic_arg_loop depth (acc ++ [c]) s
        end
      else if byte_is x2c c && Nat.eqb depth 0 then Some (trim acc)
      else generic_arg_loop depth (acc ++ [c]) s
  end.

Definition first_generic_arg (name : list byte) : option (list byte) :=
  inner ← strip_prefix (str "poll<") name;
  generic_arg_loop 0 [] inner.

Record EnumerationPlan := MkEnumerationPlan { plan_facts : BinaryFacts; plan_layout : TokioRuntimeLayout }.

Section plan.
(** [TlsVariant::host()], fixed when the decoder is built. *)
Context (host : tls_variant).

Definition plan_load_bias (p : EnumerationPlan) (v : ProcessView) : result enumerate_error Z :=
  base ← ok_or LoadBaseUnavailable (executable_base v);
  Ok (as_u 64 (base - min_load_vaddr (plan_facts p))).

(** The loop of [collect_raw]: the tasks by header address, and whether a
    thread pointer and a runtime were seen. *)
Fixpoint collect_threads (p : EnumerationPlan) (v : ProcessView) (tids : list ThreadId)
    (by_header : gmap Z RawTask) (any_tp any_rt : bool)
    : option (result enumerate_error (gmap Z RawTask * bool * bool)) :=
  match tids with
  | [] => Some (Ok (by_header, any_tp, any_rt))
  | tid :: tids =>
      match map_err implausible (thread_pointer v tid) with
      | Ok None => collect_threads p v tids by_header any_tp any_rt
      | Ok (Some tp) =>
          let f := plan_facts p in
          match static_tls_address host tp (context_tls_offset f) (tls_align f) (tls_block_size f) with
          | Ok context =>
              match walk_context v context (plan_layout p) with
              | Some (Ok (true, raw)) =>
                  collect_threads p v tids (foldl (λ m t, <[header t := t]> m) by_header raw) true true
              | Some (Ok (false, _)) => collect_threads p v tids by_header true any_rt
              | Some (Err e) => Some (Err e)
              | Some Panic => Some Panic
              | None => None
              end
          | Err e => Some (Err e)
          | Panic => Some Panic
          end
      | Err e => Some (Err e)
      | Panic => Some Panic
      end
  end.

Definition collect_raw (p : EnumerationPlan) (v : ProcessView)
    : option (result enumerate_error (list RawTask)) :=
  r ← collect_threads p v (thread_ids v) ∅ false false;
  Some ('(by_header, any_tp, any_rt) ← r;
        if negb any_tp then Err ThreadPointerUnavailable
        else if negb any_rt then Err NoRuntimeHandle
        else Ok (values by_header)).

Fixpoint roots_from_raw (f : BinaryFacts) (load_bias : Z) (ls : AsyncLayouts) (raw : list RawTask)
    (next_id : Z) : list TaskRoot :=
  match raw with
  | [] => []
  | task :: raw =>
      match future_type_for f (as_u 64 (poll_runtime task - load_bias)) with
      | Some type_name =>
          if is_coroutine ls type_name then
            with_header (TaskRoot_new next_id (future task) type_name) (header task)
            :: roots_from_raw f load_bias ls raw (next_id + 1)
          else roots_from_raw f load_bias ls raw next_id
      | None => roots_from_raw f load_bias ls raw next_id
      end
  end.

Definition enumerate_roots (p : EnumerationPlan) (v : ProcessView) (ls : AsyncLayouts)
    : option (result enumerate_error (list TaskRoot)) :=
  match plan_load_bias p v with
  | Ok bias => r ← collect_raw p v; Some (raw ← r; Ok (roots_from_raw (plan_facts p) bias ls raw 1))
  | Err e => Some (Err e)
  | Panic => Some Panic
  end.

(** *** The enumeration ends, and its roots are numbered from 1 *)

Lemma walk_context_ends v ctx l : walk_context v ctx l ≠ None.
Proof.
  unfold walk_context. destruct (owned_tasks_addr v ctx l) as [[owned|]| |]; [|done..].
  destruct (collect_from_owned_ends v owned l) as [H _]. by destruct (collect_from_owned v owned l []).
Qed.

Lemma collect_threads_ends p v tids m a b : collect_threads p v tids m a b ≠ None.
Proof.
  revert m a b. induction tids as [|tid tids IH]; intros m a b; cbn [collect_threads]; [done|].
  destruct (map_err implausible (thread_pointer v tid)) as [[tp|]| |]; try done.
  destruct (static_tls_address _ _ _ _ _) as [context| |]; try done.
  pose proof (walk_context_ends v context (plan_layout p)).
  destruct (walk_context v context (plan_layout p)) as [[[[] raw]| |]|]; try done; apply IH.
Qed.

Lemma enumerate_roots_ends p v ls : enumerate_roots p v ls ≠ None.
Proof.
  unfold enumerate_roots, collect_raw. destruct (plan_load_bias p v); [|done..].
  pose proof (collect_threads_ends p v (thread_ids v) ∅ false false).
  by destruct (collect_threads p v (thread_ids v) ∅ false false).
Qed.

Lemma roots_from_raw_ids f bias ls raw k :
  root_id <$> roots_from_raw f bias ls raw k = seqZ k (blen (roots_from_raw f bias ls raw k)).
Proof.
  revert k. induction raw as [|t raw IH]; intros k; cbn [roots_from_raw]; [done|].
  destruct (future_type_for f _) as [ty|]; [|done]. destruct (is_coroutine ls ty); [|done].
  pose proof (blen_nonneg (roots_from_raw f bias ls raw (k + 1))).
  rewrite blen_cons, seqZ_cons by lia. cbn [fmap list_fmap root_id with_header TaskRoot_new].
  f_equal. rewrite IH. f_equal; lia.
Qed.
End plan.

(** ** Samples *)

Example first_generic_arg_samples :
  first_generic_arg (str "poll<tokfix::sleeper::{async_fn_env#0}, alloc::sync::Arc<H>>")
    = Some (str "tokfix::sleeper::{async_fn_env#0}")
  ∧ first_generic_arg (str "poll<core::pin::Pin<Box<F, G>>, S>") = Some (str "core::pin::Pin<Box<F, G>>")
  ∧ first_generic_arg (str "poll_future<F, S>") = None.
Proof. vm_compute. split_and!; reflexivity. Qed.

Example tokio_version_samples :
  TokioVersion_detect_in_bytes (str "junk /registry/src/index/tokio-1.44.2/src/lib.rs more")
    = Some (MkTokioVersion 1 44 2)
  ∧ TokioVersion_detect_in_bytes (str "no version here") = None
  ∧ static_tls_address VariantI 0xffff841bd760 0 8 72 = Ok 0xffff841bd770
  ∧ static_tls_address VariantII 0x10000 8 16 72 = Ok (0x10000 - 80 + 8).
Proof. vm_compute. split_and!; reflexivity. Qed.

(** Two tasks in the first of two shards. *)
Definition poke64 (a x : Z) (m : gmap Z byte) : gmap Z byte := poke a (le_bytes 8 x) m.

Definition poke_task (node next : Z) (m : gmap Z byte) : gmap Z byte :=
  poke64 (node + 16) 0x9000 (poke64 (node + 0x400 + 8) next m).

Definition runtime_image : gmap Z byte :=
  poke64 0x1010 0x5000 (poke64 0x5078 0x6000 (poke64 0x5080 2 (poke64 0x6008 0x10000 (poke64 0x6020 0
  (poke64 0x9000 0xAAAA0000 (poke64 0x9038 0x400 (poke_task 0x10000 0x20000 (poke_task 0x20000 0 ∅)))))))).

Definition runtime_view : ProcessView := image_view runtime_image [] [].

Definition two_tasks : list RawTask :=
  [MkRawTask 0x10000 0xAAAA0000 0x10038; MkRawTask 0x20000 0xAAAA0000 0x20038].

#[local] Ltac stored_word :=
  split; [split; [apply Z.leb_le|apply Z.ltb_lt]; vm_compute; reflexivity
         |eexists; split; vm_compute; reflexivity].

Lemma walk_context_reads_witness :
  runtime_stored runtime_view 0x1000 tokio_1_44 [two_tasks; []] ∧
  walk_context runtime_view 0x1000 tokio_1_44 = Some (Ok (true, two_tasks)).
Proof.
  assert (H : runtime_stored runtime_view 0x1000 tokio_1_44 [two_tasks; []]).
  { split; [apply Z.leb_le; vm_compute; reflexivity|apply Z.leb_le; vm_compute; reflexivity|].
    exists 0x5000, 0x5078, 0x5078, 0x6000.
    split; [stored_word|]. split; [done|]. split; [vm_compute; reflexivity|].
    split; [vm_compute; reflexivity|]. split; [stored_word|]. split; [stored_word|].
    intros [|[|i]] ts Hi; [..|done]; injection Hi as <-.
    - exists 0x6000, 0x10000. split; [vm_compute; reflexivity|]. split; [stored_word|].
      apply (shard_cons _ _ 0x10000 0x9000 0xAAAA0000 0x400 0x10038 0x20000);
        [done|stored_word|stored_word|stored_word|vm_compute; reflexivity|stored_word|].
      apply (shard_cons _ _ 0x20000 0x9000 0xAAAA0000 0x400 0x20038 0);
        [done|stored_word|stored_word|stored_word|vm_compute; reflexivity|stored_word|].
      constructor.
    - exists 0x6018, 0. split; [vm_compute; reflexivity|]. split; [stored_word|constructor]. }
  split; [exact H|].
  exact (proj1 (proj2 (proj2 (walk_context_reads runtime_view 0x1000 tokio_1_44))) _ H).
Defined.
