(* ===== verification/Tokio.v ===== *)
(** * The Tokio decoder: [decoder/src/async_rust/decoder.rs], [registry.rs]

    [enumerate] expands the task roots, attached or found live, and their
    fan-out children into a flat list of nodes with reproducible ids; the four
    queries of the trait read that list.  The expansion ends on every memory,
    cyclic fan-out included, and its list always forms a tree.  The registry
    picks the first decoder that applies. *)

From S2P Require Import Prelude.
From S2P Require Import Text.
From S2P Require Import TaskModel.
From S2P Require Import TaskTree.
From S2P Require Import View.
From S2P Require Import AsyncLayout.
From S2P Require Import AsyncDecode.
From S2P Require Import TokioWalk.
From S2P Require Import GoRuntime.
From S2P Require Import GoWalk.

(** ** State *)

Definition MAX_TASKS : Z := Z.shiftl 1 16.

Record TokioDecoder := MkTokioDecoder {
  td_layouts : AsyncLayouts;
  td_version : RustcVersion;
  td_roots : list TaskRoot;
  td_plan : option EnumerationPlan;
}.

Record DecodedNode := MkDecodedNode {
  dn_id : TaskId;
  dn_parent : option TaskId;
  dn_base : Z;
  dn_type : list byte;
  dn_state : task_state;
  dn_wake : wake_cause;
}.

Definition TokioDecoder_from_parts (ls : AsyncLayouts) (v : RustcVersion) (rs : list TaskRoot) : TokioDecoder :=
  MkTokioDecoder ls v rs None.
Definition can_enumerate (d : TokioDecoder) : bool := bool_decide (is_Some (td_plan d)).
Definition with_roots (d : TokioDecoder) (rs : list TaskRoot) : TokioDecoder :=
  MkTokioDecoder (td_layouts d) (td_version d) rs (td_plan d).

Section decoder.
Context (host : tls_variant).

(** ** Roots *)

Definition no_plan : decoder_error :=
  NotApplicable (str "no task roots and no enumeration plan (target outside the verified tokio-enumeration window; see async_rust::enumerate)").
Definition no_tasks : decoder_error :=
  NotApplicable (str "tokio runtime present but no decodable spawned tasks were found").

Definition effective_roots (d : TokioDecoder) (v : ProcessView) : option (result decoder_error (list TaskRoot)) :=
  match td_roots d with
  | _ :: _ => Some (Ok (td_roots d))
  | [] =>
      match td_plan d with
      | None => Some (Err no_plan)
      | Some plan =>
          r ← enumerate_roots host plan v (td_layouts d);
          Some match r with
               | Ok [] => Err no_tasks
               | Ok rs => Ok rs
               | Err e => Err (NotApplicable (str "live tokio task enumeration declined: "
                                              ++ enumerate_error_display e))
               | Panic => Panic
               end
      end
  end.

(** ** Expansion

    The counter and the list are threaded through the recursion; [None] is
    out of fuel. *)

Definition expansion : Type := Z * list DecodedNode.

Definition too_many : decoder_error :=
  NotApplicable (str "task fan-out exceeded MAX_TASKS; layout likely misresolved").

(** One node, without its children: what is pushed, and the children found. *)
Definition expand_node (d : TokioDecoder) (v : ProcessView) (base : Z) (type_name : list byte)
    (hdr : option Z) (i : TaskId) (p : option TaskId)
    : result decoder_error (DecodedNode * AsyncFnLayout) :=
  layout ← ok_or (NotApplicable (str "no coroutine layout for task type " ++ type_name))
                 (AsyncLayouts_get (td_layouts d) type_name);
  s ← task_state_of v base layout (td_layouts d) hdr;
  w ← wake_cause_of v base layout (td_layouts d);
  Ok (MkDecodedNode i p base type_name s w, layout).

(** The loop over the children, around the recursive call. *)
Fixpoint expand_children
    (go : Z → list byte → TaskId → expansion → option (result decoder_error expansion))
    (cs : list (Z * list byte)) (st : expansion) : option (result decoder_error expansion) :=
  match cs with
  | [] => Some (Ok st)
  | (cbase, ctype) :: cs =>
      let '(next_id, out) := st in
      match checked_add 64 next_id 1 with
      | None => Some Panic
      | Some next_id' =>
          match go cbase ctype next_id (next_id', out) with
          | Some (Ok st) => expand_children go cs st
          | r => r
          end
      end
  end.

Fixpoint expand (fuel : nat) (d : TokioDecoder) (v : ProcessView) (base : Z) (type_name : list byte)
    (hdr : option Z) (i : TaskId) (p : option TaskId) (st : expansion)
    : option (result decoder_error expansion) :=
  match fuel with
  | O => None
  | S fuel =>
      let '(next_id, out) := st in
      if MAX_TASKS <=? blen out then Some (Err too_many)
      else
        match
          '(n, layout) ← expand_node d v base type_name hdr i p;
          cs ← fan_out_children v base layout;
          Ok (n, cs)
        with
        | Ok (n, cs) =>
            expand_children (λ cbase ctype ci st, expand fuel d v cbase ctype None ci (Some i) st)
              cs (next_id, out ++ [n])
        | Err e => Some (Err e)
        | Panic => Some Panic
        end
  end.

Definition expand_fuel : nat := S (Z.to_nat MAX_TASKS).

Fixpoint expand_roots (d : TokioDecoder) (v : ProcessView) (rs : list TaskRoot) (st : expansion)
    : option (result decoder_error expansion) :=
  match rs with
  | [] => Some (Ok st)
  | r :: rs =>
      match expand expand_fuel d v (root_base r) (root_type r) (header_addr r) (root_id r) None st with
      | Some (Ok st) => expand_roots d v rs st
      | x => x
      end
  end.

(** [roots.iter().map(|r| r.id).max().unwrap_or(0)]. *)
Definition max_id (rs : list TaskRoot) : Z := foldl (λ m r, Z.max m (root_id r)) 0 rs.

(** Ids of children start one past the largest root id. *)
Definition expand_all (d : TokioDecoder) (v : ProcessView) (rs : list TaskRoot)
    : option (result decoder_error (list DecodedNode)) :=
  match checked_add 64 (max_id rs) 1 with
  | None => Some Panic
  | Some next_id => r ← expand_roots d v rs (next_id, []); Some (st ← r; Ok st.2)
  end.

Definition enumerate (d : TokioDecoder) (v : ProcessView) : option (result decoder_error (list DecodedNode)) :=
  r ← effective_roots d v;
  match r with
  | Ok rs => expand_all d v rs
  | Err e => Some (Err e)
  | Panic => Some Panic
  end.

Definition decoded_node (nodes : list DecodedNode) (task : TaskId) : result decoder_error DecodedNode :=
  match list_find (λ n, dn_id n = task) nodes with
  | Some (_, n) => Ok n
  | None => Err (UnknownTask task)
  end.

Definition task_node_of (n : DecodedNode) : TaskNode :=
  MkTaskNode (dn_id n) (coroutine_name (dn_type n)) TaskKind.AsyncTask (dn_state n) (dn_parent n).

(** ** The trait *)

(** No query runs out of fuel ([enumerate_ends]). *)
Definition total {E A} (r : option (result E A)) : result E A := default Panic r.

Definition tokio_decode_tasks (d : TokioDecoder) (v : ProcessView) : result decoder_error TaskTree :=
  nodes ← total (enumerate d v);
  try_from_nodes (map task_node_of nodes).

Definition tokio_logical_stack (d : TokioDecoder) (v : ProcessView) (task : TaskId)
    : result decoder_error (list LogicalFrame) :=
  nodes ← total (enumerate d v);
  n ← decoded_node nodes task;
  async_logical_stack v (dn_base n) (dn_type n) (td_layouts d).

Definition tokio_wake_cause (d : TokioDecoder) (v : ProcessView) (task : TaskId)
    : result decoder_error wake_cause :=
  nodes ← total (enumerate d v);
  n ← decoded_node nodes task;
  Ok (dn_wake n).

Definition tokio_locals_at (d : TokioDecoder) (v : ProcessView) (task : TaskId) (_ : LogicalFrame)
    : result decoder_error (list Variable_) :=
  nodes ← total (enumerate d v);
  _ ← decoded_node nodes task;
  Ok [].

Definition TokioDecoder_semantic (d : TokioDecoder) : SemanticDecoder :=
  {| decode_tasks := tokio_decode_tasks d;
     logical_stack := tokio_logical_stack d;
     decoder_wake_cause := tokio_wake_cause d;
     locals_at := tokio_locals_at d |}.

(** ** The expansion *)

(** What a successful expansion of task [i] appends: its node, then the nodes
    below it, numbered consecutively in the order they are pushed, each
    naming a parent among them. *)
Definition appended (i : TaskId) (p : option TaskId) (st st' : expansion) : Prop :=
  ∃ n rest, st'.2 = st.2 ++ n :: rest ∧ dn_id n = i ∧ dn_parent n = p ∧
    st'.1 = st.1 + blen rest ∧ dn_id <$> rest = seqZ st.1 (blen rest) ∧
    (∀ m, m ∈ rest → st.1 ≤ dn_id m ∧
       ∃ q, dn_parent m = Some q ∧ q ∈ i :: (dn_id <$> rest) ∧ q < dn_id m) ∧
    blen st'.2 ≤ MAX_TASKS.

(** The same of the children of [i]. *)
Definition appended_children (i : TaskId) (st st' : expansion) : Prop :=
  ∃ rest, st'.2 = st.2 ++ rest ∧ st'.1 = st.1 + blen rest ∧ dn_id <$> rest = seqZ st.1 (blen rest) ∧
    (∀ m, m ∈ rest → st.1 ≤ dn_id m ∧
       ∃ q, dn_parent m = Some q ∧ q ∈ i :: (dn_id <$> rest) ∧ q < dn_id m) ∧
    (blen st.2 ≤ MAX_TASKS → blen st'.2 ≤ MAX_TASKS).

Lemma appended_child i next out st1 st2 :
  i < next → appended next (Some i) (next + 1, out) st1 → appended_children i st1 st2 →
  appended_children i (next, out) st2.
Proof.
  intros Hi (n & r1 & Ho1 & Hn & Hp & Hk1 & Hid1 & Hpar1 & Hb1) (r2 & Ho2 & Hk2 & Hid2 & Hpar2 & Hb2).
  cbn [fst snd] in *. pose proof (blen_nonneg r1). pose proof (blen_nonneg r2).
  exists ((n :: r1) ++ r2). rewrite blen_app, blen_cons. split_and!.
  - cbn [snd]. by rewrite Ho2, Ho1, <- app_assoc.
  - cbn [fst]. lia.
  - rewrite fmap_app. cbn [fmap list_fmap fst]. rewrite Hn, Hid1, Hid2, Hk1.
    rewrite seqZ_app, (seqZ_cons next) by lia. cbn [app]. do 2 f_equal; [f_equal; lia|f_equal; lia].
  - intros m [Hm|Hm]%elem_of_app.
    + apply elem_of_cons in Hm as [->|Hm].
      { cbn [fst]. split; [lia|]. exists i. split_and!; [done|left|lia]. }
      destruct (Hpar1 m Hm) as (Hlo & q & Hq & Hin & Hlt). cbn [fst]. split; [lia|].
      exists q. split_and!; [done| |done].
      right. rewrite fmap_app. apply elem_of_app. left. cbn [fmap list_fmap]. by rewrite Hn.
    + destruct (Hpar2 m Hm) as (Hlo & q & Hq & Hin & Hlt). cbn [fst]. split; [lia|].
      exists q. split_and!; [done| |done].
      apply elem_of_cons in Hin as [->|Hin]; [left|right]. rewrite fmap_app. apply elem_of_app. by right.
  - intros _. cbn [snd] in *. by apply Hb2.
Qed.

Lemma expand_children_spec i m go cs st :
  (∀ b t ci st, m ≤ blen st.2 → go b t ci st ≠ None) →
  (∀ b t ci st st', m ≤ blen st.2 → ci < st.1 → go b t ci st = Some (Ok st') →
     appended ci (Some i) st st') →
  m ≤ blen st.2 →
  expand_children go cs st ≠ None ∧
  ∀ st', i < st.1 → expand_children go cs st = Some (Ok st') → appended_children i st st'.
Proof.
  intros Hgo Hok. revert st. induction cs as [|[cb ct] cs IH]; intros [next out] Hm; cbn [expand_children].
  { split; [done|]. intros st' _ [= <-]. exists []. cbn [fst snd]. rewrite app_nil_r, blen_nil.
    split_and!; [done|lia|done|by intros ? ?%not_elem_of_nil|done]. }
  destruct (checked_add 64 next 1) as [next'|] eqn:En; [|done].
  assert (next' = next + 1) as -> by (unfold checked_add in En; by destruct (_ <? _); simplify_eq).
  specialize (Hgo cb ct next (next + 1, out) Hm).
  destruct (go cb ct next (next + 1, out)) as [[st1| |]|] eqn:Eg; [|done..].
  apply Hok in Eg; [|done|cbn; lia]. pose proof Eg as (n & r1 & Ho & _ & _ & Hk & _). cbn [fst snd] in Ho, Hk.
  destruct (IH st1) as [H1 H2].
  { rewrite Ho, blen_app. cbn [snd] in Hm. pose proof (blen_nonneg (n :: r1)). lia. }
  split; [done|]. cbn [fst]. intros st' Hi Hst. eapply appended_child; [done..|]. apply H2; [|done].
  pose proof (blen_nonneg r1). lia.
Qed.

Lemma expand_spec fuel d v base t hdr i p st :
  (0 < fuel)%nat → MAX_TASKS < blen st.2 + Z.of_nat fuel →
  expand fuel d v base t hdr i p st ≠ None ∧
  ∀ st', i < st.1 → expand fuel d v base t hdr i p st = Some (Ok st') → appended i p st st'.
Proof.
  revert base t hdr i p st. induction fuel as [|fuel IH]; intros base t hdr i p [next out] Hpos Hf; [lia|].
  cbn [expand snd] in *. destruct (Z.leb_spec MAX_TASKS (blen out)) as [|Hlt]; [done|].
  destruct (expand_node d v base t hdr i p) as [[n layout]| |] eqn:En; cbn [mbind result_bind]; [|done..].
  destruct (fan_out_children v base layout) as [cs| |]; cbn [mbind result_bind]; [|done..].
  assert (Hn : dn_id n = i ∧ dn_parent n = p).
  { unfold expand_node in En. inv_bind. done. }
  destruct Hn as [Hni Hnp].
  destruct (expand_children_spec i (blen out + 1)
    (λ cb ct ci st, expand fuel d v cb ct None ci (Some i) st) cs (next, out ++ [n])) as [H1 H2].
  - intros b t' ci st Hst. apply IH; [|lia]. lia.
  - intros b t' ci st st' Hm Hci Hst. by apply IH in Hst; [|lia|lia|].
  - cbn [snd]. rewrite blen_app. change (blen [n]) with 1. lia.
  - split; [done|]. intros st' Hi Hst. apply H2 in Hst as (rest & Ho & Hk & Hid & Hpar & Hb); [|done].
    exists n, rest. cbn [fst snd] in *. split_and!; try done.
    + by rewrite Ho, <- app_assoc.
    + apply Hb. rewrite blen_app. change (blen [n]) with 1. lia.
Qed.

(** ** The tasks below a task

    [subtree base t hdr i p next ns next']: [ns] are the node of the task [i]
    of type [t] at [base], whose parent is [p], and below it, in the order of
    the fan-out of its active variant, its children, each with the next free
    number and with [i] for its parent. *)

Inductive subtree (d : TokioDecoder) (v : ProcessView) :
    Z → list byte → option Z → TaskId → option TaskId → Z → list DecodedNode → Z → Prop :=
| subtree_task base t hdr i p next layout s w discr variant ns next' :
    AsyncLayouts_get (td_layouts d) t = Some layout →
    task_state_of v base layout (td_layouts d) hdr = Ok s →
    wake_cause_of v base layout (td_layouts d) = Ok w →
    active_variant v base layout = Ok (discr, variant) →
    branches d v base i (vi_children variant) next ns next' →
    subtree d v base t hdr i p next (MkDecodedNode i p base t s w :: ns) next'
with branches (d : TokioDecoder) (v : ProcessView) :
    Z → TaskId → list ChildRef → Z → list DecodedNode → Z → Prop :=
| branches_nil base i next : branches d v base i [] next [] next
| branches_cons base i c cs next ns1 next1 ns2 next2 :
    subtree d v (base + cr_offset c) (cr_type c) None next (Some i) (next + 1) ns1 next1 →
    branches d v base i cs next1 ns2 next2 →
    branches d v base i (c :: cs) next (ns1 ++ ns2) next2.

Inductive grown (d : TokioDecoder) (v : ProcessView) : list TaskRoot → Z → list DecodedNode → Z → Prop :=
| grown_nil next : grown d v [] next [] next
| grown_cons r rs next ns1 next1 ns2 next2 :
    subtree d v (root_base r) (root_type r) (header_addr r) (root_id r) None next ns1 next1 →
    grown d v rs next1 ns2 next2 →
    grown d v (r :: rs) next (ns1 ++ ns2) next2.

Lemma child_bases_ok base cs l :
  child_bases base cs = Ok l → l = (λ c, (base + cr_offset c, cr_type c)) <$> cs.
Proof.
  revert l. induction cs as [|c cs IH]; intros l Hl; cbn [child_bases] in Hl; [by injection Hl as <-|].
  unfold addr_add, checked_add in Hl. destruct (_ <? _); [|done]. cbn [expect mbind result_bind] in Hl.
  destruct (child_bases base cs) as [rest| |]; [|done..]. injection Hl as <-. by rewrite (IH rest).
Qed.

Lemma expand_children_below fuel d v base i cs : ∀ st st',
  (∀ b t ci st st', expand fuel d v b t None ci (Some i) st = Some (Ok st') →
     ∃ ns, st'.2 = st.2 ++ ns ∧ subtree d v b t None ci (Some i) st.1 ns st'.1) →
  expand_children (λ b t ci st, expand fuel d v b t None ci (Some i) st)
    ((λ c, (base + cr_offset c, cr_type c)) <$> cs) st = Some (Ok st') →
  ∃ ns, st'.2 = st.2 ++ ns ∧ branches d v base i cs st.1 ns st'.1.
Proof.
  induction cs as [|c cs IH]; intros [next out] st' Hgo Hx; cbn [fmap list_fmap expand_children] in Hx.
  { injection Hx as <-. exists []. split; [by rewrite app_nil_r|constructor]. }
  destruct (checked_add 64 next 1) as [next'|] eqn:En; [|done].
  assert (next' = next + 1) as -> by (unfold checked_add in En; by destruct (_ <? _); simplify_eq).
  destruct (expand fuel d v _ _ _ _ _ _) as [[st1| |]|] eqn:Eg; [|done..].
  apply Hgo in Eg as (ns1 & Ho1 & H1). destruct (IH st1 st' Hgo Hx) as (ns2 & Ho2 & H2). cbn [fst snd] in *.
  exists (ns1 ++ ns2). split; [by rewrite Ho2, Ho1, <- app_assoc|]. by eapply branches_cons.
Qed.

Lemma expand_below fuel d v : ∀ base t hdr i p st st',
  expand fuel d v base t hdr i p st = Some (Ok st') →
  ∃ ns, st'.2 = st.2 ++ ns ∧ subtree d v base t hdr i p st.1 ns st'.1.
Proof.
  induction fuel as [|fuel IH]; intros base t hdr i p [next out] st' Hx; [done|]. cbn [expand] in Hx.
  destruct (MAX_TASKS <=? blen out); [done|].
  destruct (expand_node d v base t hdr i p) as [[n layout]| |] eqn:En; cbn [mbind result_bind] in Hx; [|done..].
  destruct (fan_out_children v base layout) as [cs| |] eqn:Ef; cbn [mbind result_bind] in Hx; [|done..].
  unfold fan_out_children in Ef. destruct (active_variant v base layout) as [[discr variant]| |] eqn:Ea; [|done..].
  cbn [mbind result_bind] in Ef. apply child_bases_ok in Ef as ->.
  apply expand_children_below in Hx as (ns & Ho & Hb); [|by intros; eapply IH].
  unfold expand_node in En. destruct (AsyncLayouts_get (td_layouts d) t) as [l|] eqn:El; [|done].
  cbn [ok_or mbind result_bind] in En.
  destruct (task_state_of v base l (td_layouts d) hdr) as [s| |] eqn:Es; [|done..]. cbn [mbind result_bind] in En.
  destruct (wake_cause_of v base l (td_layouts d)) as [w| |] eqn:Ew; [|done..]. injection En as <- <-.
  cbn [fst snd] in *. eexists. split; [rewrite Ho, <- app_assoc; reflexivity|]. by eapply subtree_task.
Qed.

Lemma expand_roots_grown d v rs : ∀ st st',
  expand_roots d v rs st = Some (Ok st') → ∃ ns, st'.2 = st.2 ++ ns ∧ grown d v rs st.1 ns st'.1.
Proof.
  induction rs as [|r rs IH]; intros st st' Hx; cbn [expand_roots] in Hx.
  { injection Hx as <-. exists []. split; [by rewrite app_nil_r|constructor]. }
  destruct (expand expand_fuel d v _ _ _ _ _ _) as [[st1| |]|] eqn:Ee; [|done..].
  apply expand_below in Ee as (ns1 & Ho1 & H1). destruct (IH st1 st' Hx) as (ns2 & Ho2 & H2).
  exists (ns1 ++ ns2). split; [by rewrite Ho2, Ho1, <- app_assoc|]. by eapply grown_cons.
Qed.

Lemma expand_fuel_enough {A} (out : list A) :
  (0 < expand_fuel)%nat ∧ MAX_TASKS < blen out + Z.of_nat expand_fuel.
Proof.
  unfold expand_fuel. pose proof (blen_nonneg out).
  assert (0 ≤ MAX_TASKS) by (apply Z.leb_le; vm_compute; reflexivity).
  generalize dependent MAX_TASKS. intros m Hm. split; lia.
Qed.

(** The nodes of all the roots: each task once, each parent before. *)
Definition forest (rs : list TaskRoot) (first : Z) (st : expansion) : Prop :=
  first ≤ st.1 ∧ dn_id <$> st.2 ≡ₚ (root_id <$> rs) ++ seqZ first (st.1 - first) ∧
  (∀ m q, m ∈ st.2 → dn_parent m = Some q → q ∈ dn_id <$> st.2 ∧ first ≤ dn_id m ∧ q < dn_id m) ∧
  blen st.2 ≤ MAX_TASKS ∧
  ∀ i, (∃ m, m ∈ st.2 ∧ dn_id m = i ∧ dn_parent m = None) ↔ i ∈ root_id <$> rs.

Lemma expand_roots_spec d v rs done_ first st :
  Forall (λ r, root_id r < first) rs → forest done_ first st →
  expand_roots d v rs st ≠ None ∧
  ∀ st', expand_roots d v rs st = Some (Ok st') → forest (done_ ++ rs) first st'.
Proof.
  revert done_ st. induction rs as [|r rs IH]; intros done_ st Hlow Hst; cbn [expand_roots].
  { split; [done|]. intros st' [= <-]. by rewrite app_nil_r. }
  destruct (expand_fuel_enough st.2) as [H1 H2].
  destruct (expand_spec expand_fuel d v (root_base r) (root_type r) (header_addr r) (root_id r) None st H1 H2)
    as [Hn Hok].
  destruct (expand expand_fuel d v _ _ _ _ _ _) as [[st1| |]|]; [|done..].
  apply Forall_cons_iff in Hlow as [Hr Hlow]. pose proof Hst as [Hfirst _].
  destruct (Hok st1 ltac:(lia) eq_refl) as (n & rest & Ho & Hid & Hpn & Hk & Hids & Hpar & Hb).
  destruct Hst as (Hf & Hp & Hq & _ & Hno). pose proof (blen_nonneg rest).
  replace (done_ ++ r :: rs) with ((done_ ++ [r]) ++ rs) by by rewrite <- app_assoc.
  apply IH; [done|]. split_and!; [lia| | |done|].
  - rewrite Ho, fmap_app, Hp. cbn [fmap list_fmap]. rewrite Hid, Hids.
    rewrite fmap_app. cbn [fmap list_fmap].
    replace (st1.1 - first) with ((st.1 - first) + blen rest) by lia. rewrite seqZ_app by lia.
    replace (first + (st.1 - first)) with st.1 by lia.
    rewrite <- !app_assoc. apply Permutation_app_head. cbn [app]. by rewrite Permutation_middle.
  - intros m q Hm Hmq. rewrite Ho, fmap_app in *. apply elem_of_app in Hm as [Hm|Hm].
    + destruct (Hq m q Hm Hmq) as (Hin & ? & ?). split_and!; [|done..]. apply elem_of_app. by left.
    + apply elem_of_cons in Hm as [->|Hm]; [congruence|].
      destruct (Hpar m Hm) as (Hlo & q' & Hq' & Hin & Hlt). assert (q' = q) as -> by congruence.
      split_and!; [|lia|done]. apply elem_of_app. right. cbn [fmap list_fmap]. by rewrite Hid.
  - intros i. rewrite fmap_app, elem_of_app, <- Hno, Ho. cbn [fmap list_fmap]. rewrite list_elem_of_singleton. split.
    + intros (m & [Hm|[->|Hm]%elem_of_cons]%elem_of_app & Hi & Hnone); [left; eauto|right; congruence|].
      destruct (Hpar m Hm) as (_ & q & Hq' & _). congruence.
    + intros [(m & Hm & Hi & Hnone)| ->].
      * exists m. split; [apply elem_of_app; by left|done].
      * exists n. split; [apply elem_of_app; right; by left|done].
Qed.

Lemma max_id_spec rs : Forall (λ r, root_id r ≤ max_id rs) rs.
Proof.
  unfold max_id. assert (H : ∀ m, m ≤ foldl (λ m r, Z.max m (root_id r)) m rs ∧
    Forall (λ r, root_id r ≤ foldl (λ m r, Z.max m (root_id r)) m rs) rs).
  { induction rs as [|r rs IH]; intros m; cbn [foldl]; [split; [lia|constructor]|].
    destruct (IH (Z.max m (root_id r))) as [H1 H2]. split; [lia|]. constructor; [lia|done]. }
  apply H.
Qed.

Lemma expand_all_spec d v rs :
  expand_all d v rs ≠ None ∧
  ∀ nodes, expand_all d v rs = Some (Ok nodes) →
    ∃ st, forest rs (max_id rs + 1) st ∧ st.2 = nodes ∧
      ∃ next, grown d v rs (max_id rs + 1) nodes next.
Proof.
  unfold expand_all. destruct (checked_add 64 (max_id rs) 1) as [next|] eqn:En; [|done].
  assert (next = max_id rs + 1) as -> by (unfold checked_add in En; by destruct (_ <? _); simplify_eq).
  destruct (expand_roots_spec d v rs [] (max_id rs + 1) (max_id rs + 1, [])) as [H1 H2].
  { eapply Forall_impl; [apply max_id_spec|]. cbn. lia. }
  { split_and!; cbn; [done|by rewrite Z.sub_diag|by intros ? ? ?%not_elem_of_nil| |].
    - apply Z.leb_le. vm_compute. reflexivity.
    - intros i. split; [by intros (m & ?%not_elem_of_nil & _)|by intros ?%not_elem_of_nil]. }
  pose proof (expand_roots_grown d v rs (max_id rs + 1, [])) as Hg.
  destruct (expand_roots d v rs _) as [[st| |]|]; [|done..]. cbn. split; [done|].
  intros nodes [= <-]. exists st. split; [by apply H2|]. split; [done|].
  destruct (Hg st eq_refl) as (ns & Hns & Hgr). cbn in Hns, Hgr. rewrite Hns. by eexists.
Qed.

Lemma effective_roots_ends d v : effective_roots d v ≠ None.
Proof.
  unfold effective_roots. destruct (td_roots d); [|done]. destruct (td_plan d) as [plan|]; [|done].
  pose proof (enumerate_roots_ends host plan v (td_layouts d)).
  by destruct (enumerate_roots host plan v (td_layouts d)).
Qed.

Lemma enumerate_ends d v : enumerate d v ≠ None.
Proof.
  unfold enumerate. pose proof (effective_roots_ends d v).
  destruct (effective_roots d v) as [[rs| |]|]; [|done..]. apply expand_all_spec.
Qed.

Lemma enumerate_ok d v nodes :
  enumerate d v = Some (Ok nodes) → ∃ rs st, effective_roots d v = Some (Ok rs) ∧
    forest rs (max_id rs + 1) st ∧ st.2 = nodes ∧ ∃ next, grown d v rs (max_id rs + 1) nodes next.
Proof.
  unfold enumerate. destruct (effective_roots d v) as [[rs| |]|]; [|done..]. cbn [mbind option_bind].
  intros H. apply expand_all_spec in H as (st & Hf & <- & Hg). eauto 10.
Qed.

Lemma task_nodes_ids nodes : id <$> map task_node_of nodes = dn_id <$> nodes.
Proof. induction nodes as [|n nodes IH]; [done|]. cbn. by rewrite <- IH. Qed.

Lemma forest_NoDup rs st :
  forest rs (max_id rs + 1) st → NoDup (dn_id <$> st.2) ↔ NoDup (root_id <$> rs).
Proof.
  intros (_ & Hp & _). rewrite Hp, NoDup_app. split; [tauto|]. intros Hnd. split_and!; [done| |].
  - intros x (r & -> & Hr)%list_elem_of_fmap Hx%elem_of_seqZ. pose proof (max_id_spec rs) as Hm.
    rewrite Forall_forall in Hm. specialize (Hm r Hr). lia.
  - apply NoDup_seqZ.
Qed.

(** Parents have smaller ids, so following them ends at a root. *)
Lemma forest_rooted rs st t :
  forest rs (max_id rs + 1) st → NoDup (dn_id <$> st.2) →
  (∀ i n, node t i = Some n ↔ n ∈ map task_node_of st.2 ∧ id n = i) →
  ∀ i, is_Some (node t i) → rooted t i.
Proof.
  intros (_ & _ & Hpar & _) Hnd Hnode i.
  remember (Z.to_nat (i - max_id rs)) as k eqn:Ek. revert i Ek.
  induction k as [k IH] using lt_wf_ind. intros i -> [n Hn].
  pose proof Hn as [Hin Hid]%Hnode. apply list_elem_of_fmap in Hin as (m & Hnm & Hm).
  destruct (dn_parent m) as [q|] eqn:Eq.
  - destruct (Hpar m q Hm Eq) as (Hq & Hlo & Hlt). subst n. cbn in Hid. subst i.
    assert (is_Some (node t q)) as Hsome.
    { apply list_elem_of_fmap in Hq as (m' & -> & Hm'). exists (task_node_of m'). apply Hnode.
      split; [by apply list_elem_of_fmap_2|done]. }
    assert (Hd : rooted t q).
    { destruct (decide (max_id rs < q)).
      - eapply (IH (Z.to_nat (q - max_id rs))); [lia|done|done].
      - destruct (dn_parent m) as [|]; [|done]. destruct Hsome as [nq Hnq].
        pose proof Hnq as [Hinq Hidq]%Hnode. apply list_elem_of_fmap in Hinq as (mq & -> & Hmq).
        destruct (dn_parent mq) as [q'|] eqn:Eq'.
        + destruct (Hpar mq q' Hmq Eq') as (_ & Hlo' & _). cbn in Hidq. lia.
        + exists 0%nat, q, (task_node_of mq). split_and!; [done|done|done]. }
    destruct Hd as [d Hd]. exists (S d). eapply at_depth_child; [done|].
    unfold parent_of. unfold node in Hn. rewrite Hn. done.
  - exists 0%nat, i, n. split_and!; [done|done|by subst n].
Qed.
End decoder.

(** ** Properties *)

(** C25. Decoding a Tokio target ends on every memory, even when the fan-out of
    a misread coroutine never stops, and yields at most 2^16 tasks: each root
    with its own id and no parent, and after each task the children its active
    variant fans out to, numbered on from the largest root id, each naming that
    task as its parent.  When the roots have distinct ids (live roots always do)
    the tasks form a tree: it holds exactly the decoded tasks, its roots are the
    given ones, and following parents from each task leads to a root, so
    flattening loses none.  Roots with a common id are refused. *)
Theorem tokio_decode_tasks_forest host d v :
  enumerate host d v ≠ None ∧
  ∀ nodes, enumerate host d v = Some (Ok nodes) →
    blen nodes ≤ 2 ^ 16 ∧
    ∃ rs, effective_roots host d v = Some (Ok rs) ∧
      (∃ next, grown d v rs (max_id rs + 1) nodes next) ∧
      (NoDup (root_id <$> rs) → ∃ t, tokio_decode_tasks host d v = Ok t ∧ len t = blen nodes ∧
         (∀ i n, node t i = Some n ↔ ∃ m, m ∈ nodes ∧ dn_id m = i ∧ n = task_node_of m) ∧
         (∀ i, i ∈ roots t ↔ i ∈ root_id <$> rs) ∧
         ∀ i, is_Some (node t i) → rooted t i) ∧
      (¬ NoDup (root_id <$> rs) →
         tokio_decode_tasks host d v = Err (InvalidTaskTree (str "duplicate task id"))).
Proof.
  split; [apply enumerate_ends|]. intros nodes He.
  destruct (enumerate_ok host d v nodes He) as (rs & st & Hr & Hf & <- & Hg).
  pose proof (forest_NoDup rs st Hf) as Hnd.
  assert (Hd : tokio_decode_tasks host d v = try_from_nodes (map task_node_of st.2)).
  { unfold tokio_decode_tasks. by rewrite He. }
  rewrite Hd.
  split; [change (2 ^ 16) with MAX_TASKS; apply Hf|]. exists rs. split; [done|]. split; [done|].
  pose proof (try_from_nodes_run (map task_node_of st.2)) as Hrun.
  pose proof (try_from_nodes_spec (map task_node_of st.2)) as Hx; unfold built_from in Hx.
  destruct (try_from_nodes (map task_node_of st.2)) as [t|e|]; [| |done]; cbv iota in Hx;
    rewrite task_nodes_ids in Hx.
  - destruct Hx as (Hndn & _ & Hnode & _ & Hroots & _). split; [intros _|by rewrite <- Hnd].
    exists t. split_and!; [done| | | |].
    + unfold len, blen. destruct Hrun as [Hix _]. by rewrite (indexed_size _ _ Hix), length_map.
    + intros i n. rewrite Hnode. split.
      * intros [(m & -> & Hm)%list_elem_of_fmap <-]. eauto.
      * intros (m & Hm & <- & ->). split; [by apply list_elem_of_fmap_2|done].
    + intros i. rewrite Hroots, <- (proj2 (proj2 (proj2 (proj2 Hf))) i). split.
      * intros (k & (m & -> & Hm)%list_elem_of_fmap & <- & Hp). by exists m.
      * intros (m & Hm & <- & Hp). exists (task_node_of m). split; [by apply list_elem_of_fmap_2|done].
    + eapply forest_rooted; [done..|]. exact Hnode.
  - destruct Hx as [[-> Hdup]|(Hok & n & p & Hn & Hp & Hnp & _)].
    + split; [|done]. by rewrite <- Hnd.
    + exfalso. apply list_elem_of_fmap in Hn as (m & -> & Hm). destruct Hf as (_ & _ & Hpar & _).
      destruct (Hpar m p Hm Hp) as [Hin _]. done.
Qed.

Lemma decoded_node_in host d v t i nodes :
  enumerate host d v = Some (Ok nodes) → tokio_decode_tasks host d v = Ok t → is_Some (node t i) →
  ∃ n, decoded_node nodes i = Ok n.
Proof.
  intros He Ht [k Hk]. unfold tokio_decode_tasks in Ht. rewrite He in Ht.
  cbn [total mbind result_bind default from_option Datatypes.id] in Ht.
  pose proof (try_from_nodes_spec (map task_node_of nodes)) as Hx; unfold built_from in Hx. rewrite Ht in Hx.
  destruct Hx as (_ & _ & Hnode & _). apply Hnode in Hk as [(m & -> & Hm)%list_elem_of_fmap <-].
  unfold decoded_node. destruct (list_find _ nodes) as [[j n]|] eqn:E; [eauto|].
  apply list_find_None in E. rewrite Forall_forall in E. by destruct (E m Hm).
Qed.

Lemma active_variant_known v base layout t : ViewLaws v → active_variant v base layout ≠ Err (UnknownTask t).
Proof.
  intros Hv. unfold active_variant, read_discriminant, addr_add. destruct (checked_add _ _ _); [|done].
  cbn [expect mbind result_bind]. destruct (read_memory v _ _) as [bs|e|] eqn:E; cbn [mbind result_bind]; [|..].
  - assert (Ho : ∀ i acc, or_bytes (E := decoder_error) i bs acc = Panic ∨ ∃ w, or_bytes (E := decoder_error) i bs acc = Ok w).
    { clear E. induction bs as [|b bs IH]; intros i acc; cbn; [eauto|]. destruct (_ <? _); eauto. }
    destruct (Ho 0 0) as [Ho1|[w0 Ho1]]; rewrite Ho1; clear Ho; [done|]. cbn [mbind result_bind]. by destruct (variant_for _ _).
  - apply read_errors in E as [r ->]; done.
  - done.
Qed.

Lemma async_logical_stack_known v base ty ls t :
  ViewLaws v → async_logical_stack v base ty ls ≠ Err (UnknownTask t).
Proof.
  intros Hv. unfold async_logical_stack. generalize (@nil LogicalFrame) as frames, MAX_AWAIT_DEPTH as n.
  intros frames n; revert base ty frames; induction n as [|n IH]; intros base ty frames; cbn [stack_loop]; [done|].
  destruct (AsyncLayouts_get ls ty) as [layout|]; [|done]. cbn [ok_or mbind result_bind].
  pose proof (active_variant_known v base layout t Hv) as Ha.
  destruct (active_variant v base layout) as [[d x]|e|]; [|cbn; by intros [= ->]|done]. cbn [mbind result_bind].
  destruct (negb _); [done|]. destruct (awaitee x) as [child|]; [|done].
  destruct (is_coroutine ls _); [|done]. unfold addr_add. destruct (checked_add _ _ _); [|done].
  cbn [expect mbind result_bind]. apply IH.
Qed.

(** The Tokio decoder answers about every task of its tree, over lawful views. *)
#[export] Instance tokio_answers host d v : ViewLaws v → AnswersTasks (TokioDecoder_semantic host d) v.
Proof.
  intros Hv. split; cbn; intros t i; [..|intros f]; intros Ht Hn;
    (destruct (enumerate host d v) as [[nodes| |]|] eqn:He;
     [|unfold tokio_decode_tasks in Ht; rewrite He in Ht; done..]);
    destruct (decoded_node_in _ _ _ _ _ _ He Ht Hn) as [n Hd].
  - unfold tokio_logical_stack. rewrite He. cbn [total mbind result_bind default from_option Datatypes.id].
    rewrite Hd. cbn [mbind result_bind]. by apply async_logical_stack_known.
  - unfold tokio_wake_cause. rewrite He. cbn [total mbind result_bind default from_option Datatypes.id].
    rewrite Hd. cbn. eauto.
  - unfold tokio_locals_at. rewrite He. cbn [total mbind result_bind default from_option Datatypes.id].
    rewrite Hd. cbn. eauto.
Qed.

(** ** Samples *)

(** A joiner whose two branches sleep. *)
Definition joiner_view : ProcessView :=
  image_view (poke (0x3000 + 288) [x03] (poke (0x3000 + 120) [x03] (poke (0x3000 + 248) [x00] ∅))) [] [].

Definition joiner_decoder : TokioDecoder :=
  TokioDecoder_from_parts sample_layouts (MkRustcVersion 1 85 1) [TaskRoot_new 1 0x3000 joiner_t].

Lemma tokio_decode_tasks_forest_witness :
  ∃ nodes t, enumerate VariantI joiner_decoder joiner_view = Some (Ok nodes) ∧
    map (λ n, (dn_id n, dn_parent n)) nodes = [(1, None); (2, Some 1); (3, Some 1)] ∧
    tokio_decode_tasks VariantI joiner_decoder joiner_view = Ok t ∧ len t = blen nodes.
Proof.
  destruct (enumerate VariantI joiner_decoder joiner_view) as [[nodes| |]|] eqn:E;
    [|vm_compute in E; discriminate E..].
  destruct (proj2 (tokio_decode_tasks_forest VariantI joiner_decoder joiner_view) nodes E)
    as (_ & rs & Hr & _ & Ht & _).
  destruct Ht as (t & Ht & Hl & _).
  { injection Hr as <-. apply NoDup_singleton. }
  exists nodes, t. split; [reflexivity|]. split; [|split; [exact Ht|exact Hl]].
  vm_compute in E. injection E as <-. reflexivity.
Defined.

(** ** [registry.rs]

    The two constructors from a binary are results of reading its image. *)

Definition select_decoder : SemanticDecoder := NativeThreadsDecoder.

Definition select_decoder_for_binary {E F} (host : tls_variant)
    (goroutine_from_binary : list byte → result E GoLayout)
    (tokio_from_binary : list byte → result F TokioDecoder) (image : list byte) : result unit SemanticDecoder :=
  match goroutine_from_binary image with
  | Ok l => Ok (GoroutineDecoder_from_layout l)
  | Panic => Panic
  | Err _ =>
      match tokio_from_binary image with
      | Ok d => Ok (TokioDecoder_semantic host d)
      | Panic => Panic
      | Err _ => Ok NativeThreadsDecoder
      end
  end.

(** Whatever decoder is selected answers about the tasks of its tree. *)
Lemma selected_decoder_answers {E F} host (go : list byte → result E GoLayout)
    (tokio : list byte → result F TokioDecoder) image d v :
  ViewLaws v → select_decoder_for_binary host go tokio image = Ok d → AnswersTasks d v.
Proof.
  intros Hv. unfold select_decoder_for_binary. destruct (go image); [|destruct (tokio image)|done];
    intros [= <-]; apply _.
Qed.
