(* ===== verification/Gimli.v ===== *)
(** * Object files and debug information, as the decoders read them

    What [decoder] takes from the [object] and [gimli] crates: the answers of
    an object file, and the tree of debugging entries of each unit with the
    errors its iterators end in.  Nothing here says how a file is parsed; the
    parsers are arguments of the models.  An error is the text it prints. *)

From S2P Require Import Prelude.
From S2P Require Import Text.

(** The tags and attributes the sources name. *)
Inductive dw_tag :=
  | TagStructureType | TagEnumerationType | TagVariable | TagMember | TagNamespace
  | TagVariantPart | TagVariant | TagSubprogram | TagOther.

Inductive dw_at :=
  | AtName | AtLocation | AtByteSize | AtLowPc | AtProducer | AtDataMemberLocation
  | AtDeclFile | AtDeclLine | AtType | AtDiscr | AtDiscrValue.

#[export] Instance dw_tag_eq_dec : EqDecision dw_tag.
Proof. solve_decision. Defined.

Section gimli.
(** The values of attributes that are neither a reference nor an expression. *)
Context {V : Type}.

Inductive AttributeValue := UnitRef (offset : Z) | Exprloc (expr : list byte) | OtherValue (v : V).

Record Attribute := MkAttribute { at_value : AttributeValue; udata_value : option Z }.

Record entry := MkEntry {
  e_tag : dw_tag;
  e_offset : Z;
  e_attr : dw_at → result (list byte) (option Attribute)
}.

(** [attr_value]: the value of the attribute [attr] finds. *)
Definition attr_value (e : entry) (a : dw_at) : result (list byte) (option AttributeValue) :=
  option_map at_value <$> e_attr e a.

(** An entry, the children the iterator gives, and the error it ends in, if
    any. *)
#[warnings="-register-all"]
Inductive node := Node (n_entry : entry) (n_children : list node) (n_end : option (list byte)).

Definition n_entry '(Node e _ _) := e.
Definition n_children '(Node _ cs _) := cs.
Definition n_end '(Node _ _ x) := x.

Record unit_info := MkUnit {
  u_address_size : Z;
  (** [entries_tree] at an offset, and its root. *)
  u_tree : option Z → result (list byte) node;
  (** [entries]: all entries, depth first, up to an error. *)
  u_entries : list entry * option (list byte);
  (** [Dwarf::attr_string]: the bytes; [attr_address]. *)
  u_attr_string : AttributeValue → result (list byte) (list byte);
  u_attr_address : AttributeValue → result (list byte) (option Z);
  (** The path names of the line program's files, when there is a program. *)
  u_line_files : option (Z → option AttributeValue);
  (** [read_address] of the unit's reader on the bytes left. *)
  u_read_address : Z → list byte → option Z
}.

Record symbol := MkSymbol { sym_name : option (list byte); sym_address : Z; sym_tls : bool }.

Record object_file := MkObject {
  of_64 : bool;
  of_section : list byte → bool;
  of_symbols : list symbol;
  of_dynamic_symbols : list symbol;
  (** The units of the debug information, each as it reads. *)
  of_dwarf : result (list byte) (list (result (list byte) unit_info))
}.

(** [while let Some(child) = children.next()?]: [f] on each child. *)
Definition each {E S} (ends : list byte → E) (f : node → S → result E S) : list node → option (list byte) → S → result E S :=
  fix go cs x s :=
    match cs with
    | [] => match x with None => Ok s | Some e => Err (ends e) end
    | c :: cs => s ← f c s; go cs x s
    end.

(** [while let Some(header) = units.next()?], with [dwarf.unit(header)?]. *)
Fixpoint each_unit {E S} (ends : list byte → E) (f : unit_info → S → result E S)
    (us : list (result (list byte) unit_info)) (s : S) : result E S :=
  match us with
  | [] => Ok s
  | u :: us => u ← map_err ends u; s ← f u s; each_unit ends f us s
  end.

Context (bad_utf8 : list byte).

(** [EndianSlice::to_string]. *)
Definition slice_to_string (s : list byte) : result (list byte) (list byte) :=
  if utf8_valid s then Ok s else Err bad_utf8.

(** [die_name], the same in each reader. *)
Definition die_name (u : unit_info) (e : entry) : result (list byte) (option (list byte)) :=
  v ← attr_value e AtName;
  match v with
  | Some v => s ← u_attr_string u v; Some <$> slice_to_string s
  | None => Ok None
  end.

(** [udata]: an attribute as an unsigned constant, read errors included in
    none. *)
Definition udata (e : entry) (a : dw_at) : option Z :=
  match e_attr e a with Ok (Some x) => udata_value x | _ => None end.

Fixpoint node_rect' (P : node → Prop)
    (H : ∀ e cs x, Forall P cs → P (Node e cs x)) (n : node) : P n :=
  match n with
  | Node e cs x => H e cs x ((fix go cs : Forall P cs :=
      match cs with [] => Forall_nil_2 _ | c :: cs => Forall_cons_2 _ _ _ (node_rect' P H c) (go cs) end) cs)
  end.

(** The turns of a loop that ended without error. *)
Inductive turns {E S} (f : node → S → result E S) : list node → S → S → Prop :=
  | turns_nil s : turns f [] s s
  | turns_cons c cs s s1 s2 : f c s = Ok s1 → turns f cs s1 s2 → turns f (c :: cs) s s2.

Lemma each_turns {E S} (ends : list byte → E) f cs x (s s' : S) :
  each ends f cs x s = Ok s' → x = None ∧ turns f cs s s'.
Proof.
  revert s. induction cs as [|c cs IH]; intros s; simpl.
  - destruct x; [done|]. intros [= ->]. split; [done|constructor].
  - destruct (f c s) as [s1| |] eqn:E1; [|done..]. intros [-> H]%IH. split; [done|by econstructor].
Qed.

(** What a loop does when each turn is a function of the state. *)
Lemma each_foldl {E S} (ends : list byte → E) f (g : S → node → S) cs x s s' :
  Forall (λ c, ∀ s s', f c s = Ok s' → s' = g s c) cs →
  each ends f cs x s = Ok s' → s' = foldl g s cs.
Proof.
  intros Hf. revert s. induction Hf as [|c cs Hc _ IH]; intros s; simpl.
  - destruct x; [done|]. by intros [= ->].
  - destruct (f c s) as [s1| |] eqn:E1; [|done..]. rewrite (Hc _ _ E1). apply IH.
Qed.

End gimli.

#[global] Arguments node V : clear implicits.
#[global] Arguments entry V : clear implicits.
#[global] Arguments unit_info V : clear implicits.
#[global] Arguments object_file V : clear implicits.
#[global] Arguments AttributeValue V : clear implicits.
#[global] Arguments Attribute V : clear implicits.

(** ** Entries written out, for samples: attributes as a list *)

Definition same_at (a b : dw_at) : bool :=
  match a, b with
  | AtName, AtName | AtLocation, AtLocation | AtByteSize, AtByteSize | AtLowPc, AtLowPc
  | AtProducer, AtProducer | AtDataMemberLocation, AtDataMemberLocation | AtDeclFile, AtDeclFile
  | AtDeclLine, AtDeclLine | AtType, AtType | AtDiscr, AtDiscr | AtDiscrValue, AtDiscrValue => true
  | _, _ => false
  end.

Definition text_attr (s : list byte) : Attribute (list byte) := MkAttribute (OtherValue s) None.
Definition ref_attr (o : Z) : Attribute (list byte) := MkAttribute (UnitRef o) None.
Definition const_attr (n : Z) : Attribute (list byte) := MkAttribute (OtherValue []) (Some n).

Definition die (t : dw_tag) (offset : Z) (attrs : list (dw_at * Attribute (list byte)))
    (cs : list (node (list byte))) : node (list byte) :=
  Node (MkEntry t offset (λ a, Ok (snd <$> find (λ p, same_at (fst p) a) attrs))) cs None.

(** The subtree at an offset. *)
Fixpoint subtree {V} (o : Z) (n : node V) : option (node V) :=
  match n with
  | Node e cs x =>
      if e_offset e =? o then Some n
      else (fix go cs := match cs with
                         | [] => None
                         | c :: cs => match subtree o c with Some n => Some n | None => go cs end
                         end) cs
  end.

Fixpoint preorder {V} (n : node V) : list (entry V) :=
  match n with Node e cs x => e :: flat_map preorder cs end.

(** A unit that holds a tree of such entries, little-endian. *)
Definition unit_of (root : node (list byte)) : unit_info (list byte) := {|
  u_address_size := 8;
  u_tree o := match o with
              | None => Ok root
              | Some o => ok_or (str "no entry at offset") (subtree o root)
              end;
  u_entries := (preorder root, None);
  u_attr_string v := match v with OtherValue s => Ok s | _ => Err (str "not a string") end;
  u_attr_address _ := Ok None;
  u_line_files := None;
  u_read_address n bs := if blen bs <? n then None else Some (le_value (take (Z.to_nat n) bs))
|}.
