(* ===== verification/GoDwarf.v ===== *)
(** * The Go runtime layout of a binary: [decoder/src/go/dwarf.rs], [go/mod.rs]

    Symbols and debug information give the address of [runtime.allgs] and the
    offsets of the runtime's structures; a vendored table keyed by the version
    stands in when the debug information is incomplete.  The reference
    definition is a list of the entries a walk visits, from which the first of
    each name counts. *)

From S2P Require Import Prelude.
From S2P Require Import Text.
From S2P Require Import TaskModel.
From S2P Require Import GoRuntime.
From S2P Require Import Gimli.

(** ** [error.rs] *)

Inductive go_decode_error :=
  | GoObject (e : list byte)
  | GoDwarf (e : list byte)
  | NotGoBinary
  | AllgsNotFound
  | LayoutUnresolved (e : list byte).

Abbreviation StructMap := (gmap (list byte) (gmap (list byte) Z)).
Abbreviation VarMap := (gmap (list byte) Z).

(** [entry(k).or_insert(v)]. *)
Definition or_insert {A} (k : list byte) (v : A) (m : gmap (list byte) A) : gmap (list byte) A :=
  match m !! k with Some _ => m | None => <[k := v]> m end.

Record GoDwarfExtract := MkGoDwarfExtract {
  gx_ptr_size : Z;
  gx_allgs_addr : option Z;
  gx_allglen_addr : option Z;
  gx_offsets : option (GStructOffsets * option Z)
}.

Definition TARGET_STRUCTS : list (list byte) :=
  [str "runtime.g"; str "runtime.gobuf"; str "runtime.stack"; str "runtime.m"].
Definition TARGET_VARS : list (list byte) := [str "runtime.allgs"; str "runtime.allglen"].

(** [assemble_offsets]; [Err] is the [None] of an incomplete description, and
    a sum that overflows panics. *)
Definition assemble_offsets (structs : StructMap) : result unit (GStructOffsets * option Z) :=
  let get (m : gmap (list byte) Z) f := ok_or tt (m !! f) in
  let sum a b := expect (checked_add 64 a b) in
  g ← ok_or tt (structs !! str "runtime.g");
  gobuf ← ok_or tt (structs !! str "runtime.gobuf");
  stack ← ok_or tt (structs !! str "runtime.stack");
  stack_off ← get g (str "stack");
  sched_off ← get g (str "sched");
  goid ← get g (str "goid");
  atomicstatus ← get g (str "atomicstatus");
  waitreason ← get g (str "waitreason");
  stack_lo ← (lo ← get stack (str "lo"); sum stack_off lo);
  stack_hi ← (hi ← get stack (str "hi"); sum stack_off hi);
  sched_pc ← (pc ← get gobuf (str "pc"); sum sched_off pc);
  sched_sp ← (sp ← get gobuf (str "sp"); sum sched_off sp);
  gopc ← get g (str "gopc");
  startpc ← get g (str "startpc");
  m ← get g (str "m");
  Ok ({| go_goid := goid; go_atomicstatus := atomicstatus; go_waitreason := waitreason;
         go_stack_lo := stack_lo; go_stack_hi := stack_hi; go_sched_pc := sched_pc; go_sched_sp := sched_sp;
         go_gopc := gopc; go_startpc := startpc; go_m := m; go_parent_goid := g !! str "parentGoid" |},
      structs !! str "runtime.m" ≫= λ m, m !! str "procid").

Section reader.
Context {V : Type} (bad_utf8 : list byte).
(** [object::File::parse]. *)
Context (File_parse : list byte → result (list byte) (object_file V)).

Definition named (n : list byte) (s : symbol) : bool := bool_decide (sym_name s = Some n).

Definition is_go_object (file : object_file V) : bool :=
  of_section file (str ".go.buildinfo") || existsb (named (str "runtime.allgs")) (of_symbols file).

Definition symbol_addr (file : object_file V) (name : list byte) : option Z :=
  sym_address <$> find (named name) (of_symbols file).

(** [member_offset]. *)
Definition member_offset (e : entry V) : result (list byte) (option Z) :=
  a ← e_attr e AtDataMemberLocation; Ok (a ≫= udata_value).

(** [read_u8] takes the opcode; a short read is no address. *)
Definition variable_addr (u : unit_info V) (e : entry V) : result (list byte) (option Z) :=
  v ← attr_value e AtLocation;
  match v with
  | Some (Exprloc (b :: expr)) =>
      Ok (if Z_of_byte b =? 3 then u_read_address u (u_address_size u) expr else None)
  | _ => Ok None
  end.

(** One child of a structure. *)
Definition read_member (u : unit_info V) (c : node V) (members : VarMap) : result (list byte) VarMap :=
  let e := n_entry c in
  if bool_decide (e_tag e = TagMember) then
    name ← die_name bad_utf8 u e;
    offset ← member_offset e;
    Ok (match name, offset with Some n, Some o => <[n := o]> members | _, _ => members end)
  else Ok members.

Definition go_read_members (u : unit_info V) (n : node V) : result (list byte) VarMap :=
  each (λ e, e) (read_member u) (n_children n) (n_end n) ∅.

Definition is_target (t : dw_tag) (name : option (list byte)) : option (list byte) :=
  if bool_decide (t = TagStructureType) then
    match name with Some n => if bool_decide (n ∈ TARGET_STRUCTS) then Some n else None | None => None end
  else None.

(** The variable a walk notes at an entry. *)
Definition note_var (t : dw_tag) (name : option (list byte)) (addr : option Z) (vars : VarMap) : VarMap :=
  if bool_decide (t = TagVariable) then
    match name, addr with
    | Some n, Some a => if bool_decide (n ∈ TARGET_VARS) then or_insert n a vars else vars
    | _, _ => vars
    end
  else vars.

Fixpoint walk (u : unit_info V) (n : node V) (m : StructMap * VarMap) : result (list byte) (StructMap * VarMap) :=
  match n with
  | Node e cs x =>
      name ← die_name bad_utf8 u e;
      addr ← (if bool_decide (e_tag e = TagVariable) then variable_addr u e else Ok None);
      match is_target (e_tag e) name with
      | Some s => members ← go_read_members u n; Ok (or_insert s members m.1, m.2)
      | None => each (λ e, e) (walk u) cs x (m.1, note_var (e_tag e) name addr m.2)
      end
  end.

Definition read_unit (u : unit_info V) (m : StructMap * VarMap) : result go_decode_error (StructMap * VarMap) :=
  root ← map_err GoDwarf (u_tree u None);
  map_err GoDwarf (walk u root m).

Definition read_dwarf (file : object_file V) : result go_decode_error (StructMap * VarMap) :=
  units ← map_err GoDwarf (of_dwarf file);
  each_unit GoDwarf read_unit units (∅, ∅).

Definition go_extract (bytes : list byte) : result go_decode_error GoDwarfExtract :=
  file ← map_err GoObject (File_parse bytes);
  let allgs_addr := symbol_addr file (str "runtime.allgs") in
  let allglen_addr := symbol_addr file (str "runtime.allglen") in
  '(structs, variables) ← read_dwarf file;
  let or_var a n := match a with Some a => Some a | None => variables !! n end in
  match assemble_offsets structs with
  | Panic => Panic
  | r => Ok (MkGoDwarfExtract (if of_64 file then 8 else 4) (or_var allgs_addr (str "runtime.allgs"))
                (or_var allglen_addr (str "runtime.allglen"))
                (match r with Ok o => Some o | _ => None end))
  end.

Definition NO_VERSION : list byte := str "no DWARF offsets and no embedded go version".

Definition no_table (v : GoVersion) : list byte :=
  str "no vendored offset table for go" ++ dec (major v) ++ str "." ++ dec (minor v).

Definition resolve_vendored (image : list byte)
    : result go_decode_error (GStructOffsets * option Z * layout_source) :=
  version ← ok_or (LayoutUnresolved NO_VERSION) (GoVersion_detect_in_bytes image);
  g ← ok_or (LayoutUnresolved (no_table version)) (GStructOffsets_vendored version);
  Ok (g, vendored_m_procid version, Vendored version).

Definition load_layout (image : list byte) : result go_decode_error GoLayout :=
  file ← map_err GoObject (File_parse image);
  if negb (is_go_object file) then Err NotGoBinary
  else
    extract ← go_extract image;
    allgs_addr ← ok_or AllgsNotFound (gx_allgs_addr extract);
    '(g, m_procid, source) ← (match gx_offsets extract with
                              | Some (g, m_procid) => Ok (g, m_procid, Dwarf)
                              | None => resolve_vendored image
                              end);
    Ok (MkGoLayout (gx_ptr_size extract) allgs_addr (gx_allglen_addr extract) 0 g m_procid source).

(** ** The entries a walk visits

    In depth-first order, without the insides of the structures looked for. *)

Definition entry_name (u : unit_info V) (e : entry V) : option (list byte) :=
  match die_name bad_utf8 u e with Ok n => n | _ => None end.

Definition target_name (u : unit_info V) (n : node V) : option (list byte) :=
  is_target (e_tag (n_entry n)) (entry_name u (n_entry n)).

Definition static_addr (u : unit_info V) (e : entry V) : option Z :=
  match variable_addr u e with Ok a => a | _ => None end.

Fixpoint visited (u : unit_info V) (n : node V) : list (node V) :=
  match n with
  | Node e cs x =>
      n :: match is_target (e_tag e) (entry_name u e) with
           | Some _ => []
           | None => flat_map (visited u) cs
           end
  end.

Definition member_of (u : unit_info V) (members : VarMap) (c : node V) : VarMap :=
  let e := n_entry c in
  if bool_decide (e_tag e = TagMember) then
    match entry_name u e, match member_offset e with Ok o => o | _ => None end with
    | Some n, Some o => <[n := o]> members
    | _, _ => members
    end
  else members.

(** The members a structure describes; of two of one name the last. *)
Definition members_of (u : unit_info V) (n : node V) : VarMap := foldl (member_of u) ∅ (n_children n).

(** Everything visited in a file, with its unit. *)
Definition unit_visited (r : result (list byte) (unit_info V)) : list (unit_info V * node V) :=
  match r with
  | Ok u => match u_tree u None with Ok root => (λ n, (u, n)) <$> visited u root | _ => [] end
  | _ => []
  end.

Definition file_visited (file : object_file V) : list (unit_info V * node V) :=
  match of_dwarf file with Ok us => flat_map unit_visited us | _ => [] end.

(** What an entry describes: a structure, or the address of a variable. *)
Definition describes (s : list byte) '((u, n) : unit_info V * node V) : option VarMap :=
  if bool_decide (target_name u n = Some s) then Some (members_of u n) else None.

Definition locates (v : list byte) '((u, n) : unit_info V * node V) : option Z :=
  let e := n_entry n in
  if bool_decide (e_tag e = TagVariable ∧ entry_name u e = Some v) then static_addr u e else None.

(** The first description counts. *)
Definition field (file : object_file V) (s f : list byte) : option Z :=
  head (omap (describes s) (file_visited file)) ≫= λ ms, ms !! f.

Definition global_addr (file : object_file V) (v : list byte) : option Z :=
  match symbol_addr file v with
  | Some a => Some a
  | None => head (omap (locates v) (file_visited file))
  end.

(** ** The walk is the list *)

Definition record_entry (m : StructMap * VarMap) '((u, n) : unit_info V * node V) : StructMap * VarMap :=
  match target_name u n with
  | Some s => (or_insert s (members_of u n) m.1, m.2)
  | None => (m.1, note_var (e_tag (n_entry n)) (entry_name u (n_entry n))
                    (if bool_decide (e_tag (n_entry n) = TagVariable) then static_addr u (n_entry n) else None) m.2)
  end.

Lemma go_read_members_spec u n ms : go_read_members u n = Ok ms → ms = members_of u n.
Proof.
  unfold go_read_members, members_of. apply each_foldl. apply Forall_true. intros c s s'.
  unfold read_member, member_of, entry_name. case_bool_decide; [|congruence].
  destruct (die_name _ _ _) as [nm| |]; [|done..]. cbn [mbind result_bind].
  destruct (member_offset _) as [o| |]; [|done..]. destruct nm; cbn; congruence.
Qed.

Lemma foldl_visited u cs m :
  foldl (λ m c, foldl record_entry m ((λ n, (u, n)) <$> visited u c)) m cs =
  foldl record_entry m ((λ n, (u, n)) <$> flat_map (visited u) cs).
Proof.
  revert m. induction cs as [|c cs IH]; intros m; [done|]. simpl. by rewrite fmap_app, foldl_app, <- IH.
Qed.

Lemma walk_spec u n m m' :
  walk u n m = Ok m' → m' = foldl record_entry m ((λ n, (u, n)) <$> visited u n).
Proof.
  revert m m'. induction n as [e cs x IH] using node_rect'; intros m m'. cbn [walk visited].
  rewrite fmap_cons. cbn [foldl]. unfold record_entry at 2, target_name, entry_name. cbn [n_entry].
  destruct (die_name bad_utf8 u e) as [name| |]; [|done..]. cbn [mbind result_bind].
  set (addr := if bool_decide _ then variable_addr u e else Ok None).
  intros H. assert (Ha : ∃ a, addr = Ok a ∧
    a = (if bool_decide (e_tag e = TagVariable) then static_addr u e else None)).
  { unfold addr, static_addr in *. case_bool_decide; [|eauto].
    destruct (variable_addr u e); [eauto|done..]. }
  destruct Ha as (a & -> & Ha). cbn [mbind result_bind] in H.
  destruct (is_target (e_tag e) name) as [s|].
  - destruct (go_read_members u (Node e cs x)) as [ms| |] eqn:E; simplify_eq/=.
    by rewrite (go_read_members_spec _ _ _ E).
  - rewrite <- Ha. clear Ha. revert H. generalize (m.1, note_var (e_tag e) name a m.2) as m0.
    intros m0 H. rewrite <- foldl_visited. eapply each_foldl; [|exact H].
    eapply Forall_impl; [exact IH|]. intros c Hc s s'. apply Hc.
Qed.

Lemma read_dwarf_spec file m :
  read_dwarf file = Ok m → m = foldl record_entry (∅, ∅) (file_visited file).
Proof.
  unfold read_dwarf, file_visited. destruct (of_dwarf file) as [us| |]; [|done..]. cbn [map_err mbind result_bind].
  generalize (∅ : StructMap, ∅ : VarMap) as m0. induction us as [|r us IH]; intros m0; simpl; [by intros [= ->]|].
  destruct r as [u| |]; [|done..]. cbn [map_err mbind result_bind]. unfold read_unit.
  destruct (u_tree u None) as [root| |] eqn:Eu; [|done..]. cbn [map_err mbind result_bind].
  destruct (walk u root m0) as [m1| |] eqn:E; [|done..]. cbn [map_err].
  intros ->%IH. rewrite (walk_spec _ _ _ _ E), <- foldl_app. simpl. by rewrite Eu.
Qed.

Lemma or_insert_lookup {A} k (v : A) m k' :
  or_insert k v m !! k' = match m !! k' with Some x => Some x | None => if decide (k = k') then Some v else None end.
Proof.
  unfold or_insert. destruct (m !! k) eqn:E.
  - destruct (m !! k') eqn:E'; [done|]. destruct (decide (k = k')); [congruence|done].
  - destruct (decide (k = k')) as [<-|]; [by rewrite E, lookup_insert_eq|].
    rewrite lookup_insert_ne by done. by destruct (m !! k').
Qed.

Definition first_of {A B} (f : A → option B) (old : option B) (l : list A) : option B :=
  match old with Some x => Some x | None => head (omap f l) end.

Lemma recorded_structs l m s :
  (foldl record_entry m l).1 !! s = first_of (describes s) (m.1 !! s) l.
Proof.
  revert m. induction l as [|[u n] l IH]; intros m; simpl; [by destruct (m.1 !! s)|].
  rewrite IH. unfold first_of. unfold record_entry, describes at 2. cbn [omap list_omap].
  destruct (target_name u n) as [s'|]; cbn [fst].
  - rewrite or_insert_lookup. destruct (m.1 !! s); [done|].
    destruct (decide (s' = s)) as [->|]; [by rewrite bool_decide_true|].
    rewrite bool_decide_false by congruence. done.
  - done.
Qed.

Lemma is_target_struct t name s : is_target t name = Some s → t = TagStructureType ∧ name = Some s ∧ s ∈ TARGET_STRUCTS.
Proof.
  unfold is_target. case_bool_decide; [|done]. destruct name as [n|]; [|done].
  case_bool_decide; [|done]. by intros [= ->].
Qed.

Lemma recorded_vars l m v :
  v ∈ TARGET_VARS →
  (foldl record_entry m l).2 !! v = first_of (locates v) (m.2 !! v) l.
Proof.
  intros Hv. revert m. induction l as [|[u n] l IH]; intros m; simpl; [by destruct (m.2 !! v)|].
  rewrite IH. unfold first_of, record_entry, locates at 2. cbn [omap list_omap].
  destruct (target_name u n) as [s'|] eqn:Et; cbn [snd].
  - destruct (m.2 !! v); [done|]. apply is_target_struct in Et as [Ht _].
    rewrite bool_decide_false by (intros [? _]; congruence). done.
  - unfold note_var. case_bool_decide as Hvar.
    + destruct (entry_name u (n_entry n)) as [nm|].
      2: { rewrite bool_decide_false by (intros [_ ?]; congruence). done. }
      destruct (decide (nm = v)) as [->|Hn].
      * rewrite !bool_decide_true by done.
        destruct (static_addr u (n_entry n)); [|by destruct (m.2 !! v)].
        rewrite or_insert_lookup. destruct (m.2 !! v); [done|]. by rewrite decide_True.
      * rewrite (bool_decide_false (_ ∧ _)) by (intros [_ ?]; congruence).
        destruct (static_addr u (n_entry n)); [|done]. case_bool_decide; [|done].
        rewrite or_insert_lookup. destruct (m.2 !! v); [done|]. by rewrite decide_False.
    + rewrite bool_decide_false by (intros [? _]; congruence). done.
Qed.

(** ** What the layout should be *)

(** The offsets a description gives, sums kept in 64 bits. *)
Record described (at_ : list byte → list byte → option Z) (g : GStructOffsets) : Prop := {
  d_goid : at_ (str "runtime.g") (str "goid") = Some (go_goid g);
  d_status : at_ (str "runtime.g") (str "atomicstatus") = Some (go_atomicstatus g);
  d_reason : at_ (str "runtime.g") (str "waitreason") = Some (go_waitreason g);
  d_gopc : at_ (str "runtime.g") (str "gopc") = Some (go_gopc g);
  d_startpc : at_ (str "runtime.g") (str "startpc") = Some (go_startpc g);
  d_m : at_ (str "runtime.g") (str "m") = Some (go_m g);
  d_parent : at_ (str "runtime.g") (str "parentGoid") = go_parent_goid g;
  d_stack : ∃ s lo hi, at_ (str "runtime.g") (str "stack") = Some s ∧
    at_ (str "runtime.stack") (str "lo") = Some lo ∧ at_ (str "runtime.stack") (str "hi") = Some hi ∧
    go_stack_lo g = s + lo ∧ go_stack_hi g = s + hi ∧ s + lo < 2 ^ 64 ∧ s + hi < 2 ^ 64;
  d_sched : ∃ s pc sp, at_ (str "runtime.g") (str "sched") = Some s ∧
    at_ (str "runtime.gobuf") (str "pc") = Some pc ∧ at_ (str "runtime.gobuf") (str "sp") = Some sp ∧
    go_sched_pc g = s + pc ∧ go_sched_sp g = s + sp ∧ s + pc < 2 ^ 64 ∧ s + sp < 2 ^ 64
}.

(** The fields the offsets need. *)
Definition REQUIRED : list (list byte * list byte) :=
  ((λ f, (str "runtime.g", f)) <$>
     [str "stack"; str "sched"; str "goid"; str "atomicstatus"; str "waitreason"; str "gopc"; str "startpc"; str "m"]) ++
  [(str "runtime.stack", str "lo"); (str "runtime.stack", str "hi");
   (str "runtime.gobuf", str "pc"); (str "runtime.gobuf", str "sp")].

Definition in_map (structs : StructMap) (s f : list byte) : option Z := structs !! s ≫= λ ms, ms !! f.

Lemma checked_add_cases a b :
  checked_add 64 a b = Some (a + b) ∧ a + b < 2 ^ 64 ∨ checked_add 64 a b = None ∧ 2 ^ 64 ≤ a + b.
Proof. unfold checked_add. destruct (Z.ltb_spec (a + b) (2 ^ 64)); tauto. Qed.

(** A required field that the description lacks. *)
Ltac missing s f :=
  exists s, f; split;
  [ refine (bool_decide_unpack _ _); vm_compute; exact I
  | unfold in_map; repeat match goal with E : _ = _ |- _ => rewrite E end; done ].

Ltac sum_cases a b sa fa sb fb :=
  destruct (checked_add_cases a b) as [[-> ?]|[-> ?]];
  cbn [expect mbind result_bind];
  [| exists a, b, sa, sb, fa, fb; unfold in_map;
    repeat match goal with E : _ = Some _ |- _ => rewrite E end; done ].

Lemma assemble_exact structs :
  match assemble_offsets structs with
  | Ok (g, p) => described (in_map structs) g ∧ p = in_map structs (str "runtime.m") (str "procid")
  | Err _ => ∃ s f, (s, f) ∈ REQUIRED ∧ in_map structs s f = None
  | Panic => ∃ a b sa sb fa fb, in_map structs sa fa = Some a ∧ in_map structs sb fb = Some b ∧ 2 ^ 64 ≤ a + b
  end.
Proof.
  unfold assemble_offsets.
  destruct (structs !! str "runtime.g") as [g|] eqn:Eg; cbn [ok_or mbind result_bind]; [|missing (str "runtime.g") (str "goid")].
  destruct (structs !! str "runtime.gobuf") as [b|] eqn:Eb; cbn [ok_or mbind result_bind]; [|missing (str "runtime.gobuf") (str "pc")].
  destruct (structs !! str "runtime.stack") as [st|] eqn:Es; cbn [ok_or mbind result_bind]; [|missing (str "runtime.stack") (str "lo")].
  destruct (g !! str "stack") as [so|] eqn:E1; cbn [ok_or mbind result_bind]; [|missing (str "runtime.g") (str "stack")].
  destruct (g !! str "sched") as [co|] eqn:E2; cbn [ok_or mbind result_bind]; [|missing (str "runtime.g") (str "sched")].
  destruct (g !! str "goid") as [x1|] eqn:E3; cbn [ok_or mbind result_bind]; [|missing (str "runtime.g") (str "goid")].
  destruct (g !! str "atomicstatus") as [x2|] eqn:E4; cbn [ok_or mbind result_bind]; [|missing (str "runtime.g") (str "atomicstatus")].
  destruct (g !! str "waitreason") as [x3|] eqn:E5; cbn [ok_or mbind result_bind]; [|missing (str "runtime.g") (str "waitreason")].
  destruct (st !! str "lo") as [lo|] eqn:E6; cbn [ok_or mbind result_bind]; [|missing (str "runtime.stack") (str "lo")].
  sum_cases so lo (str "runtime.g") (str "stack") (str "runtime.stack") (str "lo").
  destruct (st !! str "hi") as [hi|] eqn:E7; cbn [ok_or mbind result_bind]; [|missing (str "runtime.stack") (str "hi")].
  sum_cases so hi (str "runtime.g") (str "stack") (str "runtime.stack") (str "hi").
  destruct (b !! str "pc") as [pc|] eqn:E8; cbn [ok_or mbind result_bind]; [|missing (str "runtime.gobuf") (str "pc")].
  sum_cases co pc (str "runtime.g") (str "sched") (str "runtime.gobuf") (str "pc").
  destruct (b !! str "sp") as [sp|] eqn:E9; cbn [ok_or mbind result_bind]; [|missing (str "runtime.gobuf") (str "sp")].
  sum_cases co sp (str "runtime.g") (str "sched") (str "runtime.gobuf") (str "sp").
  destruct (g !! str "gopc") as [x4|] eqn:E10; cbn [ok_or mbind result_bind]; [|missing (str "runtime.g") (str "gopc")].
  destruct (g !! str "startpc") as [x5|] eqn:E11; cbn [ok_or mbind result_bind]; [|missing (str "runtime.g") (str "startpc")].
  destruct (g !! str "m") as [x6|] eqn:E12; cbn [ok_or mbind result_bind]; [|missing (str "runtime.g") (str "m")].
  split; [|done]. unfold in_map. constructor; rewrite ?Eg, ?Eb, ?Es; simpl; try done.
  - exists so, lo, hi. done.
  - exists co, pc, sp. done.
Qed.

Lemma each_unit_err {S} (f : unit_info V → S → result go_decode_error S) us s e :
  (∀ u s e, f u s = Err e → ∃ x, e = GoDwarf x) → each_unit GoDwarf f us s = Err e → ∃ x, e = GoDwarf x.
Proof.
  intros Hf. revert s. induction us as [|r us IH]; intros s; simpl; [done|].
  destruct r as [u|x|]; cbn; [|intros [= <-]; eauto|done].
  destruct (f u s) as [s'|e'|] eqn:E; cbn; [apply IH|intros [= <-]; eauto|done].
Qed.

Lemma read_dwarf_err file e : read_dwarf file = Err e → ∃ x, e = GoDwarf x.
Proof.
  unfold read_dwarf. destruct (of_dwarf file) as [us|x|]; cbn; [|intros [= <-]; eauto|done].
  apply each_unit_err. intros u s e'. unfold read_unit.
  destruct (u_tree u None) as [root|x|]; cbn; [|intros [= <-]; eauto|done].
  destruct (walk u root s) as [?|x|]; cbn; [done|intros [= <-]; eauto|done].
Qed.

Lemma find_none_existsb {A} (f : A → bool) l : existsb f l = false → find f l = None.
Proof.
  induction l as [|x l IH]; [done|]. simpl. destruct (f x); [done|]. apply IH.
Qed.

Lemma read_field file m s f : read_dwarf file = Ok m → in_map m.1 s f = field file s f.
Proof. intros ->%read_dwarf_spec. unfold in_map, field. by rewrite recorded_structs. Qed.

Lemma read_global file m v :
  read_dwarf file = Ok m → v ∈ TARGET_VARS →
  match symbol_addr file v with Some a => Some a | None => m.2 !! v end = global_addr file v.
Proof.
  intros ->%read_dwarf_spec Hv. unfold global_addr. destruct (symbol_addr file v); [done|].
  by rewrite recorded_vars.
Qed.

(** A file without a required field. *)
Definition incomplete (file : object_file V) : Prop :=
  ∃ s f, (s, f) ∈ REQUIRED ∧ field file s f = None.

Lemma described_ext at1 at2 g : (∀ s f, at1 s f = at2 s f) → described at1 g → described at2 g.
Proof. intros Hext []. constructor; repeat setoid_rewrite <- Hext; done. Qed.

(** C32. The Go layout comes from what the binary says.  For an image that
    parses: an accepted layout has the address of [runtime.allgs] (and the
    length's) from the first symbol of that name, or else from the first
    variable entry with a static address, and its offsets are those of the
    first description of each runtime structure in depth-first order, the last
    member of a name winning, sums without wrapping; only when a required
    field is missing is the vendored table of the embedded version used.  A
    refusal names what is missing, and the one panic past the reader is an
    offset sum beyond 64 bits. *)
Theorem go_layout_resolved image file :
  File_parse image = Ok file →
  match load_layout image with
  | Ok l =>
      is_go_object file = true ∧ ptr_size l = (if of_64 file then 8 else 4) ∧ load_bias l = 0 ∧
      global_addr file (str "runtime.allgs") = Some (allgs_addr l) ∧
      global_addr file (str "runtime.allglen") = allglen_addr l ∧
      match layout_src l with
      | Dwarf => described (field file) (g_offsets l) ∧
                 m_procid l = field file (str "runtime.m") (str "procid")
      | Vendored v => incomplete file ∧ GoVersion_detect_in_bytes image = Some v ∧
                      GStructOffsets_vendored v = Some (g_offsets l) ∧ m_procid l = vendored_m_procid v
      end
  | Err NotGoBinary =>
      of_section file (str ".go.buildinfo") = false ∧ symbol_addr file (str "runtime.allgs") = None
  | Err AllgsNotFound => global_addr file (str "runtime.allgs") = None
  | Err (LayoutUnresolved _) =>
      incomplete file ∧ GoVersion_detect_in_bytes image ≫= GStructOffsets_vendored = None
  | Err (GoObject _) => False
  | Err (GoDwarf e) => read_dwarf file = Err (GoDwarf e)
  | Panic =>
      read_dwarf file = Panic ∨
      ∃ a b sa sb fa fb, field file sa fa = Some a ∧ field file sb fb = Some b ∧ 2 ^ 64 ≤ a + b
  end.
Proof.
  intros Hf. unfold load_layout. rewrite Hf. cbn [map_err mbind result_bind].
  destruct (is_go_object file) eqn:Hgo; cbn [negb].
  2: { unfold is_go_object in Hgo. apply orb_false_iff in Hgo as [-> Hs]. split; [done|].
       unfold symbol_addr. by rewrite find_none_existsb. }
  unfold go_extract. rewrite Hf. cbn [map_err mbind result_bind].
  destruct (read_dwarf file) as [[structs vars]|e|] eqn:Hr; cbn [mbind result_bind]; [|destruct (read_dwarf_err _ _ Hr) as [x ->]; done|by left].
  pose proof (assemble_exact structs) as Ha.
  rewrite !(read_global file (structs, vars) _ Hr) by (refine (bool_decide_unpack _ _); vm_compute; exact I).
  assert (Hfield : ∀ s f, in_map structs s f = field file s f) by (intros; by apply (read_field file (structs, vars))).
  destruct (assemble_offsets structs) as [[g p]|[]|]; cbn [mbind result_bind ok_or gx_allgs_addr gx_offsets].
  - destruct (global_addr file _) as [a|] eqn:Eg; cbn; [|done]. destruct Ha as [Hd ->].
    rewrite <- Hfield. split_and!; try done. by eapply described_ext.
  - destruct (global_addr file _) as [a|] eqn:Eg; cbn [ok_or mbind result_bind]; [|done].
    assert (Hinc : incomplete file) by (destruct Ha as (s & f & Hin & Hn); exists s, f; by rewrite <- Hfield).
    unfold resolve_vendored.
    destruct (GoVersion_detect_in_bytes image) as [v|]; cbn [ok_or mbind result_bind option_bind]; [|done].
    by destruct (GStructOffsets_vendored v) as [g|] eqn:Ev.
  - right. destruct Ha as (a & b & sa & sb & fa & fb & H1 & H2 & H3). rewrite Hfield in H1, H2. eauto 10.
Qed.

End reader.

(** ** A sample: a stripped symbol table over complete debug information *)

Definition sample_field (n : list byte) (o : Z) : node (list byte) :=
  die TagMember 0 [(AtName, text_attr n); (AtDataMemberLocation, const_attr o)] [].

Definition sample_struct (n : list byte) (fs : list (list byte * Z)) : node (list byte) :=
  die TagStructureType 0 [(AtName, text_attr n)] (map (λ f, sample_field f.1 f.2) fs).

Definition sample_go_unit : node (list byte) :=
  die TagOther 0 [(AtName, text_attr (str "runtime"))]
    [sample_struct (str "runtime.stack") [(str "lo", 0); (str "hi", 8)];
     sample_struct (str "runtime.gobuf") [(str "sp", 0); (str "pc", 8)];
     die TagOther 0 []
       [sample_struct (str "runtime.g")
          [(str "stack", 0); (str "m", 48); (str "sched", 56); (str "atomicstatus", 152); (str "goid", 160);
           (str "waitreason", 184); (str "parentGoid", 280); (str "gopc", 288); (str "startpc", 304)]];
     sample_struct (str "runtime.m") [(str "procid", 72)];
     sample_struct (str "runtime.g") [(str "goid", 999)];
     die TagVariable 0
       [(AtName, text_attr (str "runtime.allgs"));
        (AtLocation, MkAttribute (Exprloc (x03 :: le_bytes 8 0x5000)) None)] []].

Definition sample_go_object : object_file (list byte) := {|
  of_64 := true;
  of_section s := bool_decide (s = str ".go.buildinfo");
  of_symbols := [MkSymbol (Some (str "main.main")) 0x1000 false; MkSymbol (Some (str "runtime.allglen")) 0x6000 false];
  of_dynamic_symbols := [];
  of_dwarf := Ok [Ok (unit_of sample_go_unit)]
|}.

Definition sample_go_layout : GoLayout := {|
  ptr_size := 8; allgs_addr := 0x5000; allglen_addr := Some 0x6000; load_bias := 0;
  g_offsets := {| go_goid := 160; go_atomicstatus := 152; go_waitreason := 184;
                  go_stack_lo := 0; go_stack_hi := 8; go_sched_pc := 64; go_sched_sp := 56;
                  go_gopc := 288; go_startpc := 304; go_m := 48; go_parent_goid := Some 280 |};
  m_procid := Some 72; layout_src := Dwarf
|}.

Lemma go_layout_resolved_witness :
  load_layout [] (λ _, Ok sample_go_object) [] = Ok sample_go_layout ∧
  described (field [] sample_go_object) (g_offsets sample_go_layout) ∧
  global_addr [] sample_go_object (str "runtime.allgs") = Some 0x5000.
Proof.
  pose proof (go_layout_resolved [] (λ _, Ok sample_go_object) [] sample_go_object eq_refl) as H.
  assert (E : load_layout [] (λ _, Ok sample_go_object) [] = Ok sample_go_layout) by (vm_compute; reflexivity).
  rewrite E in H. destruct H as (_ & _ & _ & Ha & _ & Hd & _). split; [exact E|]. split; [exact Hd|exact Ha].
Defined.

(** The same tables as the vendored ones. *)
Lemma vendored_agrees :
  GStructOffsets_vendored (MkGoVersion 1 24 0) = Some (g_offsets sample_go_layout) ∧
  vendored_m_procid (MkGoVersion 1 24 0) = m_procid sample_go_layout.
Proof. done. Qed.
