(* ===== verification/AsyncDwarf.v ===== *)
(** * Coroutine layouts of a binary: [decoder/src/async_rust/dwarf.rs], [mod.rs]

    The debug information of a Rust binary describes each coroutine as a
    structure with a variant part.  The reader indexes the types of a unit by
    qualified name, reads every coroutine's discriminant and variants, and
    searches a suspended state's members for the coroutines stored inline. *)

From S2P Require Import Prelude.
From S2P Require Import Text.
From S2P Require Import Maps.
From S2P Require Import TaskModel.
From S2P Require Import AsyncLayout.
From S2P Require Import Gimli.

(** ** [error.rs] *)

Inductive async_decode_error :=
  | AsyncObject (e : list byte)
  | AsyncDwarf (e : list byte)
  | NotTokioBinary
  | NoDebugInfo
  | UnsupportedLayout (e : list byte)
  | NoCoroutines.

Record AsyncDwarfExtract := MkAsyncDwarfExtract { ax_version : RustcVersion; ax_layouts : AsyncLayouts }.

Definition MAX_CHILD_DEPTH : nat := 8.

(** [UnitIndex]. *)
Record UnitIndex := MkUnitIndex { ui_names : gmap Z (list byte); ui_coroutines : gset Z }.

Record MemberInfo := MkMemberInfo { mi_name : list byte; mi_offset : Z; type_ref : Z }.

Definition qualify (path : list (list byte)) (name : list byte) : list byte :=
  match path with [] => name | _ => join (str "::") path ++ str "::" ++ name end.

Definition coroutine_local (name : list byte) : bool :=
  starts_with (str "{async_fn_env#") name || starts_with (str "{async_block_env#") name.

Section reader.
Context {V : Type} (bad_utf8 : list byte).
(** [object::File::parse]; the order a [HashSet] of offsets is iterated in. *)
Context (File_parse : list byte → result (list byte) (object_file V)).
Context (set_order : gset Z → list Z).

Abbreviation R := (result async_decode_error).

Definition tokio_symbol (s : symbol) : bool :=
  match sym_name s with Some n => contains (str "5tokio7runtime") n | None => false end.

Definition is_tokio_object (file : object_file V) : bool :=
  existsb tokio_symbol (of_symbols file ++ of_dynamic_symbols file).

Definition async_die_name (u : unit_info V) (e : entry V) : R (option (list byte)) :=
  map_err AsyncDwarf (die_name bad_utf8 u e).

Definition async_attr (e : entry V) (a : dw_at) : R (option (AttributeValue V)) :=
  map_err AsyncDwarf (attr_value e a).

Definition producer_version (u : unit_info V) : R (option RustcVersion) :=
  match u_entries u with
  | ([], None) => Ok None
  | ([], Some e) => Err (AsyncDwarf e)
  | (root :: _, _) =>
      v ← async_attr root AtProducer;
      match v with
      | None => Ok None
      | Some v =>
          s ← map_err AsyncDwarf (u_attr_string u v);
          producer ← map_err AsyncDwarf (slice_to_string bad_utf8 s);
          Ok (parse_producer producer)
      end
  end.

(** [walk_names], the part before the children: the path they are under and
    the index with this entry. *)
Definition index_entry (e : entry V) (local : option (list byte)) (path : list (list byte)) (i : UnitIndex)
    : list (list byte) * UnitIndex :=
  match e_tag e, local with
  | TagNamespace, Some name => (path ++ [name], i)
  | TagStructureType, Some name | TagEnumerationType, Some name =>
      (path ++ [name],
       MkUnitIndex (<[e_offset e := qualify path name]> (ui_names i))
         (if coroutine_local name then {[e_offset e]} ∪ ui_coroutines i else ui_coroutines i))
  | _, _ => (path, i)
  end.

Fixpoint walk_names (u : unit_info V) (n : node V) (path : list (list byte)) (i : UnitIndex) : R UnitIndex :=
  match n with
  | Node e cs x =>
      local ← async_die_name u e;
      let p := index_entry e local path i in
      each AsyncDwarf (λ c, walk_names u c p.1) cs x p.2
  end.

Definition build_index (u : unit_info V) : R UnitIndex :=
  root ← map_err AsyncDwarf (u_tree u None);
  walk_names u root [] (MkUnitIndex ∅ ∅).

(** *** Structures *)

(** A [DW_TAG_member], when its type is in the unit. *)
Definition read_one_member (u : unit_info V) (base : Z) (e : entry V) (out : list MemberInfo) : R (list MemberInfo) :=
  name ← async_die_name u e;
  offset ← expect (checked_add 64 base (default 0 (udata e AtDataMemberLocation)));
  ty ← async_attr e AtType;
  Ok (match ty with
      | Some (UnitRef r) => out ++ [MkMemberInfo (default [] name) offset r]
      | _ => out
      end).

Definition read_payload (u : unit_info V) (base : Z) (c : node V) (out : list MemberInfo) : R (list MemberInfo) :=
  if bool_decide (e_tag (n_entry c) = TagMember) then read_one_member u base (n_entry c) out else Ok out.

Definition read_variant_payloads (u : unit_info V) (n : node V) (base : Z) (out : list MemberInfo)
    : R (list MemberInfo) :=
  each AsyncDwarf (λ variant out,
    if bool_decide (e_tag (n_entry variant) = TagVariant)
    then each AsyncDwarf (read_payload u base) (n_children variant) (n_end variant) out
    else Ok out) (n_children n) (n_end n) out.

Definition read_struct_child (u : unit_info V) (base : Z) (c : node V) (out : list MemberInfo) : R (list MemberInfo) :=
  if bool_decide (e_tag (n_entry c) = TagMember) then read_one_member u base (n_entry c) out
  else if bool_decide (e_tag (n_entry c) = TagVariantPart) then read_variant_payloads u c base out
  else Ok out.

Definition read_members (u : unit_info V) (n : node V) (base : Z) (out : list MemberInfo) : R (list MemberInfo) :=
  each AsyncDwarf (read_struct_child u base) (n_children n) (n_end n) out.

(** [StructInfo] and [read_struct]. *)
Record StructInfo := MkStructInfo { local_name : list byte; si_members : list MemberInfo }.

Definition read_struct (u : unit_info V) (offset : Z) : R StructInfo :=
  root ← map_err AsyncDwarf (u_tree u (Some offset));
  name ← async_die_name u (n_entry root);
  members ← read_members u root 0 [];
  Ok (MkStructInfo (default [] name) members).

(** *** Locations *)

Definition file_name (u : unit_info V) (index : Z) : option (list byte) :=
  files ← u_line_files u;
  value ← files index;
  match u_attr_string u value with
  | Ok s => match slice_to_string bad_utf8 s with Ok s => Some s | _ => None end
  | _ => None
  end.

Definition decl_location (u : unit_info V) (e : entry V) : option SourceLocation :=
  line ← udata e AtDeclLine;
  Some (MkSourceLocation (default [] (udata e AtDeclFile ≫= file_name u)) (as_u 32 line) 0).

(** *** Children *)

Definition child_ref (i : UnitIndex) (m : MemberInfo) : option ChildRef :=
  name ← ui_names i !! type_ref m; Some (MkChildRef (mi_offset m) name).

(** The loop over members. *)
Definition for_members (f : MemberInfo → list ChildRef → R (list ChildRef))
    : list MemberInfo → list ChildRef → R (list ChildRef) :=
  fix go ms out :=
    match ms with
    | [] => Ok out
    | m :: ms => out ← f m out; go ms out
    end.

(** [collect_children]: [budget] counts down from [MAX_CHILD_DEPTH + 1]. *)
Fixpoint collect_children (budget : nat) (u : unit_info V) (i : UnitIndex) (skip_offset : option Z) (ty base : Z)
    (out : list ChildRef) : R (list ChildRef) :=
  match budget with
  | O => Ok out
  | S budget =>
      if bool_decide (ty ∈ ui_coroutines i) then
        Ok (if bool_decide (Some base = skip_offset) then out
            else match ui_names i !! ty with Some name => out ++ [MkChildRef base name] | None => out end)
      else
        info ← read_struct u ty;
        for_members (λ m out,
          b ← expect (checked_add 64 base (mi_offset m));
          collect_children budget u i skip_offset (type_ref m) b out) (si_members info) out
  end.

(** The loop over a state's members. *)
Definition state_children (u : unit_info V) (i : UnitIndex) (skip_offset : option Z) (ms : list MemberInfo)
    : R (list ChildRef) :=
  for_members (λ m, collect_children (S MAX_CHILD_DEPTH) u i skip_offset (type_ref m) (mi_offset m)) ms [].

(** *** Variants *)

Definition is_awaitee (m : MemberInfo) : bool := bool_decide (mi_name m = str "__awaitee").

(** [read_variant], from the state structure's entry. *)
Definition read_state (u : unit_info V) (i : UnitIndex) (discr_value state_ref : Z) (loc : option SourceLocation)
    : R (option (Z * VariantInfo)) :=
  state ← read_struct u state_ref;
  match from_struct_name (local_name state) with
  | None => Ok None
  | Some kind =>
      if negb (is_suspend kind) then Ok (Some (discr_value, VariantInfo_terminal kind))
      else
        let awaitee := find is_awaitee (si_members state) ≫= child_ref i in
        children ← state_children u i (cr_offset <$> awaitee) (si_members state);
        Ok (Some (discr_value, MkVariantInfo kind loc awaitee children))
  end.

Definition read_variant (u : unit_info V) (i : UnitIndex) (variant : node V) : R (option (Z * VariantInfo)) :=
  let discr_value := default 0 (udata (n_entry variant) AtDiscrValue) in
  match n_children variant with
  | [] => match n_end variant with None => Ok None | Some e => Err (AsyncDwarf e) end
  | member :: _ =>
      ty ← async_attr (n_entry member) AtType;
      match ty with
      | Some (UnitRef r) => read_state u i discr_value r (decl_location u (n_entry member))
      | _ => Ok None
      end
  end.

Definition discr_member_size (u : unit_info V) (e : entry V) : R (option Z) :=
  ty ← async_attr e AtType;
  match ty with
  | Some (UnitRef r) =>
      root ← map_err AsyncDwarf (u_tree u (Some r));
      Ok (as_u 8 <$> udata (n_entry root) AtByteSize)
  | _ => Ok None
  end.

(** The loop's variables in [build_from_variant_part]. *)
Record part_state := MkPart { pt_offset : option Z; pt_size : Z; pt_variants : gmap Z VariantInfo }.

Definition read_part_child (u : unit_info V) (i : UnitIndex) (discr_ref : Z) (c : node V) (p : part_state) : R part_state :=
  let e := n_entry c in
  if bool_decide (e_tag e = TagMember) && (e_offset e =? discr_ref) then
    size ← discr_member_size u e;
    Ok (MkPart (udata e AtDataMemberLocation) (default 1 size) (pt_variants p))
  else if bool_decide (e_tag e = TagVariant) then
    r ← read_variant u i c;
    Ok (match r with
        | Some (value, info) => MkPart (pt_offset p) (pt_size p) (<[value := info]> (pt_variants p))
        | None => p
        end)
  else Ok p.

Definition build_from_variant_part (u : unit_info V) (vp : node V) (i : UnitIndex) (type_name : list byte)
    (size : Z) : R (option AsyncFnLayout) :=
  d ← async_attr (n_entry vp) AtDiscr;
  match d with
  | Some (UnitRef discr_ref) =>
      p ← each AsyncDwarf (read_part_child u i discr_ref) (n_children vp) (n_end vp) (MkPart None 1 ∅);
      Ok (offset ← pt_offset p;
          Some (MkAsyncFnLayout type_name size offset (pt_size p) (pt_variants p)))
  | _ => Ok None
  end.

(** The first variant part among the children. *)
Definition is_part (n : node V) : bool := bool_decide (e_tag (n_entry n) = TagVariantPart).

Definition build_layout (u : unit_info V) (coro_off : Z) (i : UnitIndex) : R (option AsyncFnLayout) :=
  match ui_names i !! coro_off with
  | None => Ok None
  | Some type_name =>
      root ← map_err AsyncDwarf (u_tree u (Some coro_off));
      let size := default 0 (udata (n_entry root) AtByteSize) in
      match find is_part (n_children root), n_end root with
      | Some vp, _ => build_from_variant_part u vp i type_name size
      | None, None => Ok None
      | None, Some e => Err (AsyncDwarf e)
      end
  end.

(** *** The binary *)

Fixpoint build_layouts (u : unit_info V) (i : UnitIndex) (offsets : list Z) (ls : AsyncLayouts) : R AsyncLayouts :=
  match offsets with
  | [] => Ok ls
  | o :: offsets =>
      l ← build_layout u o i;
      build_layouts u i offsets (match l with Some l => AsyncLayouts_insert l ls | None => ls end)
  end.

Definition collect_unit (u : unit_info V) (ls : AsyncLayouts) : R AsyncLayouts :=
  i ← build_index u;
  build_layouts u i (set_order (ui_coroutines i)) ls.

Definition extract_unit (u : unit_info V) (s : option RustcVersion * AsyncLayouts)
    : R (option RustcVersion * AsyncLayouts) :=
  version ← (match s.1 with Some v => Ok (Some v) | None => producer_version u end);
  ls ← collect_unit u s.2;
  Ok (version, ls).

Definition NO_PRODUCER : list byte := str "no rustc producer string in DWARF".

Definition outside_window (v : RustcVersion) : list byte :=
  str "rustc " ++ dec (rustc_major v) ++ str "." ++ dec (rustc_minor v) ++ str "." ++ dec (rustc_patch v)
  ++ str " is outside the validated coroutine-layout window".

Definition async_extract (bytes : list byte) : R AsyncDwarfExtract :=
  file ← map_err AsyncObject (File_parse bytes);
  if negb (is_tokio_object file) then Err NotTokioBinary
  else if negb (of_section file (str ".debug_info")) then Err NoDebugInfo
  else
    units ← map_err AsyncDwarf (of_dwarf file);
    '(version, layouts) ← each_unit AsyncDwarf extract_unit units (None, ∅);
    version ← ok_or (UnsupportedLayout NO_PRODUCER) version;
    if negb (is_supported version) then Err (UnsupportedLayout (outside_window version))
    else if bool_decide (layouts = ∅) then Err NoCoroutines
    else Ok (MkAsyncDwarfExtract version layouts).

Definition load_layouts (image : list byte) : R (AsyncLayouts * RustcVersion) :=
  x ← async_extract image; Ok (ax_layouts x, ax_version x).

(** ** What the debug information describes

    The types of a unit are listed in depth-first order under the path of the
    namespaces and types around them. *)

Definition async_name (u : unit_info V) (e : entry V) : option (list byte) :=
  match die_name bad_utf8 u e with Ok n => n | _ => None end.

Definition is_type (t : dw_tag) : bool :=
  match t with TagStructureType | TagEnumerationType => true | _ => false end.

Definition below (path : list (list byte)) (u : unit_info V) (e : entry V) : list (list byte) :=
  if is_type (e_tag e) || bool_decide (e_tag e = TagNamespace)
  then path ++ option_list (async_name u e) else path.

Fixpoint listing (u : unit_info V) (path : list (list byte)) (n : node V) : list (list (list byte) * entry V) :=
  match n with Node e cs x => (path, e) :: flat_map (listing u (below path u e)) cs end.

(** A type of the unit, at an offset, under its qualified name [t] and its own
    name. *)
Definition type_at (u : unit_info V) (o : Z) (t local : list byte) : Prop :=
  ∃ root path e, u_tree u None = Ok root ∧ (path, e) ∈ listing u [] root ∧ is_type (e_tag e) = true ∧
    e_offset e = o ∧ async_name u e = Some local ∧ t = qualify path local.

(** The members of a structure and, through variant parts, of its payloads. *)
Definition member_entries (n : node V) : list (entry V) :=
  flat_map (λ c, if bool_decide (e_tag (n_entry c) = TagMember) then [n_entry c]
                 else if is_part c then
                   flat_map (λ v, if bool_decide (e_tag (n_entry v) = TagVariant)
                                  then filter (λ e, e_tag e = TagMember) (n_entry <$> n_children v) else [])
                     (n_children c)
                 else []) (n_children n).

Definition member_info (u : unit_info V) (e : entry V) : option MemberInfo :=
  match attr_value e AtType with
  | Ok (Some (UnitRef r)) =>
      Some (MkMemberInfo (default [] (async_name u e)) (default 0 (udata e AtDataMemberLocation)) r)
  | _ => None
  end.

Definition struct_at (u : unit_info V) (o : Z) (local : list byte) (ms : list MemberInfo) : Prop :=
  ∃ root, u_tree u (Some o) = Ok root ∧ local = default [] (async_name u (n_entry root)) ∧
    ms = omap (member_info u) (member_entries root).

(** A coroutine stored inline, under fewer wrappers than a bound: the
    offsets on the way add up. *)
Inductive inline_child (u : unit_info V) (i : UnitIndex) : nat → Z → Z → ChildRef → Prop :=
  | inline_here n ty base name :
      ty ∈ ui_coroutines i → ui_names i !! ty = Some name →
      inline_child u i (S n) ty base (MkChildRef base name)
  | inline_within n ty base local ms m c :
      ty ∉ ui_coroutines i → struct_at u ty local ms → m ∈ ms →
      inline_child u i n (type_ref m) (base + mi_offset m) c →
      inline_child u i (S n) ty base c.

(** What is known of a state from its variant's member and its structure's. *)
Definition state_info (u : unit_info V) (i : UnitIndex) (member : entry V) (ms : list MemberInfo)
    (info : VariantInfo) : Prop :=
  if is_suspend (vi_kind info) then
    await_location info = decl_location u member ∧
    awaitee info = find is_awaitee ms ≫= child_ref i ∧
    (∀ ch, ch ∈ vi_children info ↔
       (∃ m, m ∈ ms ∧ inline_child u i 9 (type_ref m) (mi_offset m) ch) ∧
       Some (cr_offset ch) ≠ cr_offset <$> awaitee info)
  else info = VariantInfo_terminal (vi_kind info).

(** A variant of a coroutine. *)
Definition variant_at (u : unit_info V) (i : UnitIndex) (c : node V) (info : VariantInfo) : Prop :=
  ∃ member rest r local ms,
    n_children c = member :: rest ∧ attr_value (n_entry member) AtType = Ok (Some (UnitRef r)) ∧
    struct_at u r local ms ∧ from_struct_name local = Some (vi_kind info) ∧
    state_info u i (n_entry member) ms info.

Definition variant_value (c : node V) : Z := default 0 (udata (n_entry c) AtDiscrValue).

(** The member a variant part's discriminant refers to, the last if several. *)
Definition discr_member (vp : node V) (r : Z) : option (node V) :=
  last (filter (λ d, e_tag (n_entry d) = TagMember ∧ e_offset (n_entry d) = r) (n_children vp)).

Definition type_size (u : unit_info V) (e : entry V) : option Z :=
  match attr_value e AtType with
  | Ok (Some (UnitRef t)) =>
      match u_tree u (Some t) with Ok root => as_u 8 <$> udata (n_entry root) AtByteSize | _ => None end
  | _ => None
  end.

(** A coroutine's layout: the discriminant is the member the variant part
    names, and each variant of a known state has its value. *)
Definition layout_at (u : unit_info V) (i : UnitIndex) (o : Z) (l : AsyncFnLayout) : Prop :=
  ∃ root vp r d,
    u_tree u (Some o) = Ok root ∧ find is_part (n_children root) = Some vp ∧
    ui_names i !! o = Some (af_type_name l) ∧ byte_size l = default 0 (udata (n_entry root) AtByteSize) ∧
    attr_value (n_entry vp) AtDiscr = Ok (Some (UnitRef r)) ∧ discr_member vp r = Some d ∧
    udata (n_entry d) AtDataMemberLocation = Some (discr_offset l) ∧
    discr_size l = default 1 (type_size u (n_entry d)) ∧
    (∀ v info, variants l !! v = Some info →
       ∃ c, c ∈ n_children vp ∧ e_tag (n_entry c) = TagVariant ∧ variant_value c = v ∧ variant_at u i c info) ∧
    (∀ c info, c ∈ n_children vp → e_tag (n_entry c) = TagVariant → variant_at u i c info →
       is_Some (variants l !! variant_value c)).

(** ** The reader finds it *)

Lemma async_die_name_ok u e n : async_die_name u e = Ok n → n = async_name u e.
Proof. unfold async_die_name, async_name. by destruct (die_name bad_utf8 u e); intros [= ->]. Qed.

Lemma async_attr_ok e a v : async_attr e a = Ok v → attr_value e a = Ok v.
Proof. unfold async_attr. by destruct (attr_value e a); intros [= ->]. Qed.

Lemma tree_ok (r : result (list byte) (node V)) n : map_err AsyncDwarf r = Ok n → r = Ok n.
Proof. by destruct r; intros [= ->]. Qed.

Lemma read_one_member_ok u e out out' :
  read_one_member u 0 e out = Ok out' → out' = out ++ option_list (member_info u e).
Proof.
  unfold read_one_member, member_info.
  destruct (async_die_name u e) as [n| |] eqn:En; [|done..]. apply async_die_name_ok in En as ->.
  cbn [mbind result_bind]. unfold checked_add. destruct (_ <? _); [|done]. cbn [expect].
  destruct (async_attr e AtType) as [v| |] eqn:Ev; [|done..]. apply async_attr_ok in Ev as ->.
  cbn [mbind result_bind]. intros [= <-].
  destruct v as [[r| |]|]; cbn [option_list]; by rewrite ?app_nil_r.
Qed.

(** A loop that appends a list for each child. *)
Lemma each_appends {A} (f : node V → list A → R (list A)) g cs x out out' :
  (∀ c out out', f c out = Ok out' → out' = out ++ g c) →
  each AsyncDwarf f cs x out = Ok out' → out' = out ++ flat_map g cs.
Proof.
  intros Hf [_ H]%each_turns. induction H as [|c cs s s1 s2 E _ IH]; simpl; [by rewrite app_nil_r|].
  apply Hf in E as ->. by rewrite IH, app_assoc.
Qed.

Lemma omap_flat_map {A B C} (f : B → option C) (g : A → list B) l :
  omap f (flat_map g l) = flat_map (λ a, omap f (g a)) l.
Proof. induction l as [|a l IH]; [done|]. simpl. by rewrite omap_app, IH. Qed.

Lemma read_payload_ok u c out out' :
  read_payload u 0 c out = Ok out' →
  out' = out ++ omap (member_info u) (filter (λ e, e_tag e = TagMember) [n_entry c]).
Proof.
  unfold read_payload. rewrite filter_cons. case_bool_decide.
  - rewrite decide_True by done. intros ->%read_one_member_ok. simpl. by destruct (member_info u _).
  - rewrite decide_False by done. intros [= ->]. by rewrite app_nil_r.
Qed.

Lemma read_members_ok u n ms :
  read_members u n 0 [] = Ok ms → ms = omap (member_info u) (member_entries n).
Proof.
  unfold read_members, member_entries. rewrite omap_flat_map. intros H.
  eapply each_appends in H; [exact H|]. clear. intros c out out'. unfold read_struct_child, is_part.
  case_bool_decide as Hm.
  { intros ->%read_one_member_ok. simpl. by destruct (member_info u _). }
  case_bool_decide; [|by intros [= ->]; rewrite app_nil_r].
  unfold read_variant_payloads. rewrite omap_flat_map. apply each_appends. clear.
  intros v out out'. case_bool_decide; [|by intros [= ->]; rewrite app_nil_r].
  intros Hx. eapply each_appends in Hx; [|intros ???; apply read_payload_ok].
  rewrite Hx. f_equal. clear. generalize (n_children v) as cs. intros cs.
  induction cs as [|c cs IH]; [done|]. simpl. rewrite IH, <- omap_app. f_equal.
  symmetry. apply (filter_app _ [n_entry c]).
Qed.

Lemma read_struct_ok u o info :
  read_struct u o = Ok info → struct_at u o (local_name info) (si_members info).
Proof.
  unfold read_struct. destruct (map_err _ _) as [root| |] eqn:Er; [|done..]. apply tree_ok in Er.
  cbn [mbind result_bind]. destruct (async_die_name u _) as [n| |] eqn:En; [|done..].
  apply async_die_name_ok in En as ->. cbn [mbind result_bind].
  destruct (read_members u root 0 []) as [ms| |] eqn:Em; [|done..]. apply read_members_ok in Em as ->.
  intros [= <-]. by exists root.
Qed.

Lemma struct_at_fun u o l1 l2 ms1 ms2 :
  struct_at u o l1 ms1 → struct_at u o l2 ms2 → l1 = l2 ∧ ms1 = ms2.
Proof. intros (r1 & H1 & -> & ->) (r2 & H2 & -> & ->). rewrite H1 in H2. by injection H2 as ->. Qed.

(** *** Children *)

Definition children_of (u : unit_info V) (i : UnitIndex) (skip : option Z) (P : ChildRef → Prop)
    (out out' : list ChildRef) : Prop :=
  ∃ new, out' = out ++ new ∧ ∀ c, c ∈ new ↔ P c ∧ Some (cr_offset c) ≠ skip.

Lemma no_children (u : unit_info V) i skip (P : ChildRef → Prop) out :
  (∀ c, P c → Some (cr_offset c) = skip) → children_of u i skip P out out.
Proof.
  intros HP. exists []. rewrite app_nil_r. split; [done|]. intros c.
  split; [by intros ?%elem_of_nil|]. intros [H Hn]. by destruct (Hn (HP _ H)).
Qed.

Lemma for_members_ok (u : unit_info V) i skip f (P : MemberInfo → ChildRef → Prop) ms out out' :
  (∀ m out out', f m out = Ok out' → children_of u i skip (P m) out out') →
  for_members f ms out = Ok out' → children_of u i skip (λ c, ∃ m, m ∈ ms ∧ P m c) out out'.
Proof.
  intros Hf. revert out. induction ms as [|m ms IH]; intros out; simpl.
  - intros [= <-]. apply no_children. by intros c (m & ?%elem_of_nil & _).
  - destruct (f m out) as [out1| |] eqn:E; [|done..]. apply Hf in E as (new1 & -> & H1).
    intros (new2 & -> & H2)%IH. exists (new1 ++ new2). rewrite app_assoc. split; [done|]. intros c.
    rewrite elem_of_app, H1, H2. setoid_rewrite elem_of_cons. naive_solver.
Qed.

Lemma collect_children_ok n u i skip ty base out out' :
  collect_children n u i skip ty base out = Ok out' →
  children_of u i skip (inline_child u i n ty base) out out'.
Proof.
  revert ty base out out'. induction n as [|n IH]; intros ty base out out'; cbn [collect_children].
  { intros [= <-]. apply no_children. intros c H. inversion H. }
  case_bool_decide as Hty.
  { intros [= <-]. case_bool_decide as Hskip.
    - apply no_children. intros c H. by inversion H; subst.
    - destruct (ui_names i !! ty) as [name|] eqn:En.
      + exists [MkChildRef base name]. split; [done|]. intros c. rewrite list_elem_of_singleton. split.
        * intros ->. split; [by constructor|done].
        * intros [H _]. inversion H; subst; congruence.
      + apply no_children. intros c H. inversion H; subst; congruence. }
  destruct (read_struct u ty) as [info| |] eqn:Ei; [|done..]. apply read_struct_ok in Ei.
  cbn [mbind result_bind]. intros H.
  eapply (for_members_ok u i skip _ (λ m, inline_child u i n (type_ref m) (base + mi_offset m))) in H as (new & -> & Hn).
  - exists new. split; [done|]. intros c. rewrite Hn. split.
    + intros [(m & Hm & Hc) Hs]. split; [|done]. by econstructor.
    + intros [Hc Hs]. split; [|done]. inversion Hc as [|? ? ? local ms m ? _ Hst Hm Hin]; subst; [done|].
      destruct (struct_at_fun _ _ _ _ _ _ Ei Hst) as [_ <-]. eauto.
  - clear - IH. intros m out out'. unfold checked_add. destruct (_ <? _); [|done].
    cbn [expect mbind result_bind]. apply IH.
Qed.

Lemma state_children_ok u i skip ms out :
  state_children u i skip ms = Ok out →
  ∀ c, c ∈ out ↔ (∃ m, m ∈ ms ∧ inline_child u i (S MAX_CHILD_DEPTH) (type_ref m) (mi_offset m) c) ∧
                 Some (cr_offset c) ≠ skip.
Proof.
  intros H.
  eapply (for_members_ok u i skip _ (λ m, inline_child u i (S MAX_CHILD_DEPTH) (type_ref m) (mi_offset m)))
    in H as (new & -> & Hn); [exact Hn|].
  intros m o o'. apply collect_children_ok.
Qed.

(** *** Variants and layouts *)

Lemma read_variant_ok u i c r :
  read_variant u i c = Ok r →
  match r with
  | Some (v, info) => v = variant_value c ∧ variant_at u i c info
  | None => ∀ info, ¬ variant_at u i c info
  end.
Proof.
  unfold read_variant. fold (variant_value c). destruct (n_children c) as [|m rest] eqn:Ec.
  { destruct (n_end c); [done|]. intros [= <-] info (? & ? & ? & ? & ? & Hc & _). congruence. }
  destruct (async_attr _ _) as [ty| |] eqn:Et; [|done..]. apply async_attr_ok in Et. cbn [mbind result_bind].
  assert (Hno : ∀ r0 local ms info,
    ty ≠ Some (UnitRef r0) ∨ struct_at u r0 local ms ∧ ty = Some (UnitRef r0) ∧ from_struct_name local = None →
    (∀ r1, ty = Some (UnitRef r1) → r1 = r0) → ¬ variant_at u i c info).
  { intros r0 local ms info Hcase Hr (m' & rest' & r1 & l1 & ms1 & Hc & Ha & Hst & Hk & _).
    rewrite Ec in Hc. injection Hc as <- <-. rewrite Et in Ha. injection Ha as ->.
    specialize (Hr _ eq_refl) as <-. destruct Hcase as [?|(Hst0 & _ & Hk0)]; [done|].
    destruct (struct_at_fun _ _ _ _ _ _ Hst Hst0) as [-> _]. congruence. }
  destruct ty as [[r0| |]|]; try (intros [= <-] info; by eapply (Hno 0 [] []); [left|]).
  unfold read_state. destruct (read_struct u r0) as [st| |] eqn:Es; [|done..]. apply read_struct_ok in Es.
  cbn [mbind result_bind]. destruct (from_struct_name _) as [k|] eqn:Ek.
  2: { intros [= <-] info. eapply Hno; [right; split; [exact Es|done]|]. by intros ? [= ->]. }
  assert (Hat : ∀ info, vi_kind info = k → state_info u i (n_entry m) (si_members st) info → variant_at u i c info).
  { intros info <- H. by exists m, rest, r0, (local_name st), (si_members st). }
  destruct (is_suspend k) eqn:Hk; cbn [negb].
  - destruct (state_children u i _ _) as [out| |] eqn:Eo; [|done..]. cbn [mbind result_bind].
    intros [= <-]. split; [done|]. apply Hat; [done|]. unfold state_info. cbn. rewrite Hk. split_and!; [done..|].
    intros ch. by apply state_children_ok.
  - intros [= <-]. split; [done|]. apply Hat; [done|]. unfold state_info. cbn. by rewrite Hk.
Qed.

Lemma discr_member_size_ok u e s : discr_member_size u e = Ok s → s = type_size u e.
Proof.
  unfold discr_member_size, type_size. destruct (async_attr _ _) as [ty| |] eqn:Et; [|done..].
  apply async_attr_ok in Et as ->. cbn [mbind result_bind]. destruct ty as [[t| |]|]; try by intros [= <-].
  destruct (map_err _ _) as [root| |] eqn:Er; [|done..]. apply tree_ok in Er as ->. by intros [= <-].
Qed.

Definition is_discr (r : Z) (d : node V) : Prop := e_tag (n_entry d) = TagMember ∧ e_offset (n_entry d) = r.
#[local] Instance is_discr_dec r d : Decision (is_discr r d).
Proof. unfold is_discr. apply _. Defined.

(** What the loop over a variant part's children gives. *)
Definition part_after (u : unit_info V) (i : UnitIndex) (r : Z) (cs : list (node V)) (p p' : part_state) : Prop :=
  match last (filter (is_discr r) cs) with
  | Some d => pt_offset p' = udata (n_entry d) AtDataMemberLocation ∧
              pt_size p' = default 1 (type_size u (n_entry d))
  | None => pt_offset p' = pt_offset p ∧ pt_size p' = pt_size p
  end ∧
  (∀ v info, pt_variants p' !! v = Some info →
     pt_variants p !! v = Some info ∨
     ∃ c, c ∈ cs ∧ e_tag (n_entry c) = TagVariant ∧ variant_value c = v ∧ variant_at u i c info) ∧
  (∀ v, is_Some (pt_variants p !! v) → is_Some (pt_variants p' !! v)) ∧
  (∀ c info, c ∈ cs → e_tag (n_entry c) = TagVariant → variant_at u i c info →
     is_Some (pt_variants p' !! variant_value c)).

Lemma read_part_child_ok u i r c p p' : read_part_child u i r c p = Ok p' → part_after u i r [c] p p'.
Proof.
  unfold read_part_child, part_after. rewrite filter_cons, filter_nil. intros H.
  assert (Hone : ∀ c', c' ∈ [c] ↔ c' = c) by (intros; apply list_elem_of_singleton).
  destruct (decide (is_discr r c)) as [Hd|Hd].
  - destruct Hd as [Ht Ho]. rewrite bool_decide_true, Ho, Z.eqb_refl in H by done. cbn [andb] in H.
    destruct (discr_member_size u _) as [sz| |] eqn:Es; [|done..]. apply discr_member_size_ok in Es as ->.
    cbn in H. injection H as <-. cbn. split_and!; [done..|auto|auto|].
    intros c' info ->%Hone. congruence.
  - assert (Hb : bool_decide (e_tag (n_entry c) = TagMember) && (e_offset (n_entry c) =? r) = false).
    { apply andb_false_iff. destruct (decide (e_tag (n_entry c) = TagMember)); [right|left; by apply bool_decide_false].
      apply Z.eqb_neq. intros Ho. by apply Hd. }
    rewrite Hb in H. clear Hb. case_bool_decide as Ht.
    + destruct (read_variant u i c) as [rv| |] eqn:Ev; [|done..]. apply read_variant_ok in Ev.
      cbn [mbind result_bind] in H. injection H as <-. destruct rv as [[v info]|]; cbn.
      * destruct Ev as [-> Hat]. split; [done|]. split_and!.
        -- intros v info'. destruct (decide (variant_value c = v)) as [<-|].
           ++ rewrite lookup_insert_eq. intros [= <-]. right. exists c. by rewrite Hone.
           ++ rewrite lookup_insert_ne by done. auto.
        -- intros v Hv. destruct (decide (variant_value c = v)) as [<-|].
           ++ rewrite lookup_insert_eq. eauto.
           ++ by rewrite lookup_insert_ne.
        -- intros c' info' ->%Hone _ _. rewrite lookup_insert_eq. eauto.
      * split; [done|]. split_and!; [auto|auto|]. intros c' info ->%Hone _ Hat. by destruct (Ev info).
    + injection H as <-. split; [done|]. split_and!; [auto|auto|]. by intros c' info ->%Hone.
Qed.

Lemma part_after_app u i r cs1 cs2 p p1 p2 :
  part_after u i r cs1 p p1 → part_after u i r cs2 p1 p2 → part_after u i r (cs1 ++ cs2) p p2.
Proof.
  intros (A1 & B1 & C1 & D1) (A2 & B2 & C2 & D2). unfold part_after. rewrite filter_app, last_app.
  setoid_rewrite elem_of_app. split_and!.
  - destruct (last (filter _ cs2)); [done|]. destruct A2 as [-> ->]. exact A1.
  - intros v info [H|H]%B2; [apply B1 in H as [H|H]; [auto|]|]; naive_solver.
  - auto.
  - intros c info [Hc|Hc] Ht Hat; [|by eapply D2]. eapply C2, D1; eauto.
Qed.

Lemma part_children_ok u i r cs p p' : turns (read_part_child u i r) cs p p' → part_after u i r cs p p'.
Proof.
  induction 1 as [p|c cs p p1 p2 E _ IH].
  - split; [done|]. split_and!; [auto|auto|]. by intros c info ?%elem_of_nil.
  - apply (part_after_app _ _ _ [c] cs _ p1); [by apply read_part_child_ok|done].
Qed.

Lemma discr_member_eq vp r : discr_member vp r = last (filter (is_discr r) (n_children vp)).
Proof. reflexivity. Qed.

Lemma build_layout_ok u o i r :
  build_layout u o i = Ok r →
  match r with
  | Some l => layout_at u i o l
  | None => ∀ l, ¬ layout_at u i o l
  end.
Proof.
  unfold build_layout. destruct (ui_names i !! o) as [t|] eqn:En.
  2: { intros [= <-] l (? & ? & ? & ? & _ & _ & Hn & _). congruence. }
  destruct (map_err _ _) as [root| |] eqn:Er; [|done..]. apply tree_ok in Er. cbn [mbind result_bind].
  destruct (find is_part (n_children root)) as [vp|] eqn:Ep.
  2: { destruct (n_end root); [done|]. intros [= <-] l (root' & vp & ? & ? & Hr & Hf & _). congruence. }
  unfold build_from_variant_part. destruct (async_attr _ _) as [d| |] eqn:Ed; [|done..].
  apply async_attr_ok in Ed. cbn [mbind result_bind].
  assert (Hinv : ∀ l, layout_at u i o l → ∃ r0, d = Some (UnitRef r0) ∧
    ∃ dm, discr_member vp r0 = Some dm ∧ udata (n_entry dm) AtDataMemberLocation = Some (discr_offset l)).
  { intros l (root' & vp' & r0 & dm & Hr & Hf & _ & _ & Ha & Hd & Hu & _).
    rewrite Er in Hr. injection Hr as <-. rewrite Ep in Hf. injection Hf as <-.
    rewrite Ed in Ha. injection Ha as ->. eauto. }
  destruct d as [[r0| |]|]; try (intros [= <-] l (? & ? & _)%Hinv; done).
  destruct (each _ _ _ _ _) as [p| |] eqn:Ec; [|done..]. cbn [mbind result_bind].
  apply each_turns in Ec as [_ Ht]. apply part_children_ok in Ht as (Hd & Hs & _ & Hcomp).
  rewrite <- discr_member_eq in Hd. destruct (discr_member vp r0) as [dm|] eqn:Edm.
  - destruct Hd as [Ho Hsz]. destruct (pt_offset p) as [off|] eqn:Eo; intros [= <-].
    + exists root, vp, r0, dm. cbn. split_and!; try done. intros v info [H|H]%Hs; [|done].
      cbn in H. by rewrite lookup_empty in H.
    + intros l (r1 & [= <-] & dm' & Hdm & Hu)%Hinv. congruence.
  - destruct Hd as [-> _]. intros [= <-] l (r1 & [= <-] & dm' & Hdm & _)%Hinv. congruence.
Qed.

(** *** The index *)

Definition index_of (u : unit_info V) (i : UnitIndex) : Prop :=
  (∀ o t, ui_names i !! o = Some t → ∃ local, type_at u o t local) ∧
  (∀ o t local, type_at u o t local → is_Some (ui_names i !! o)) ∧
  (∀ o, o ∈ ui_coroutines i ↔ ∃ t local, type_at u o t local ∧ coroutine_local local = true).

Definition index_step (u : unit_info V) (i : UnitIndex) (pe : list (list byte) * entry V) : UnitIndex :=
  (index_entry pe.2 (async_name u pe.2) pe.1 i).2.

Lemma index_entry_path u e path i : (index_entry e (async_name u e) path i).1 = below path u e.
Proof. unfold index_entry, below. by destruct (e_tag e), (async_name u e); cbn; rewrite ?app_nil_r. Qed.

Lemma foldl_listing u path cs i :
  foldl (λ i c, foldl (index_step u) i (listing u path c)) i cs =
  foldl (index_step u) i (flat_map (listing u path) cs).
Proof. revert i. induction cs as [|c cs IH]; intros i; [done|]. simpl. by rewrite foldl_app, <- IH. Qed.

Lemma walk_names_ok u n path i i' :
  walk_names u n path i = Ok i' → i' = foldl (index_step u) i (listing u path n).
Proof.
  revert path i i'. induction n as [e cs x IH] using node_rect'; intros path i i'. cbn [walk_names listing foldl].
  destruct (async_die_name u e) as [nm| |] eqn:En; [|done..]. apply async_die_name_ok in En as ->.
  cbn [mbind result_bind]. rewrite index_entry_path. unfold index_step at 2. cbn [fst snd].
  generalize (index_entry e (async_name u e) path i).2 as i0. intros i0 H.
  rewrite <- foldl_listing. eapply each_foldl; [|exact H].
  eapply Forall_impl; [exact IH|]. intros c Hc s s'. apply Hc.
Qed.

(** An entry of the listing that is a named type. *)
Definition names_type (u : unit_info V) (pe : list (list byte) * entry V) (o : Z) (t local : list byte) : Prop :=
  is_type (e_tag pe.2) = true ∧ e_offset pe.2 = o ∧ async_name u pe.2 = Some local ∧ t = qualify pe.1 local.

Lemma index_step_cases u i pe :
  (∀ o t local, ¬ names_type u pe o t local) ∧ index_step u i pe = i ∨
  ∃ t local, names_type u pe (e_offset pe.2) t local ∧
    index_step u i pe =
      MkUnitIndex (<[e_offset pe.2 := t]> (ui_names i))
        (if coroutine_local local then {[e_offset pe.2]} ∪ ui_coroutines i else ui_coroutines i).
Proof.
  unfold index_step, index_entry, names_type. destruct pe as [p e]. cbn [fst snd].
  destruct (async_name u e) as [nm|].
  2: { left. split; [by intros o t l (_ & _ & ? & _)|]. by destruct (e_tag e). }
  destruct (is_type (e_tag e)) eqn:Ht.
  - right. exists (qualify p nm), nm. split; [done|]. by destruct (e_tag e).
  - left. split; [by intros o t l [? _]|]. by destruct (e_tag e).
Qed.

Lemma names_type_fun u pe o t local o' t' local' :
  names_type u pe o t local → names_type u pe o' t' local' → o = o' ∧ t = t' ∧ local = local'.
Proof. intros (_ & <- & H & ->) (_ & <- & H' & ->). rewrite H in H'. by injection H' as ->. Qed.

Lemma index_step_names u i pe o :
  (∃ t local, names_type u pe o t local ∧ ui_names (index_step u i pe) !! o = Some t) ∨
  (∀ t local, ¬ names_type u pe o t local) ∧ ui_names (index_step u i pe) !! o = ui_names i !! o.
Proof.
  destruct (index_step_cases u i pe) as [[Hno ->]|(t & local & Hn & ->)]; [by right|]. cbn [ui_names].
  destruct (decide (e_offset pe.2 = o)) as [<-|Hne].
  - left. exists t, local. by rewrite lookup_insert_eq.
  - right. split; [|by rewrite lookup_insert_ne]. intros t' l' Hn'.
    by destruct (names_type_fun _ _ _ _ _ _ _ _ Hn Hn') as [? _].
Qed.

Lemma index_step_coroutines u i pe o :
  o ∈ ui_coroutines (index_step u i pe) ↔
  o ∈ ui_coroutines i ∨ ∃ t local, names_type u pe o t local ∧ coroutine_local local = true.
Proof.
  destruct (index_step_cases u i pe) as [[Hno ->]|(t & local & Hn & ->)].
  { split; [by left|]. intros [?|(t & local & Hn & _)]; [done|]. by destruct (Hno o t local). }
  assert (Hex : (∃ t local, names_type u pe o t local ∧ coroutine_local local = true) ↔
                o = e_offset pe.2 ∧ coroutine_local local = true).
  { split.
    - intros (t' & l' & Hn' & Hc). destruct (names_type_fun _ _ _ _ _ _ _ _ Hn' Hn) as (-> & _ & ->). done.
    - intros [-> Hc]. eauto. }
  rewrite Hex. cbn [ui_coroutines]. destruct (coroutine_local local); set_solver.
Qed.

Lemma index_fold u L i :
  let i' := foldl (index_step u) i L in
  (∀ o t, ui_names i' !! o = Some t → ui_names i !! o = Some t ∨ ∃ pe local, pe ∈ L ∧ names_type u pe o t local) ∧
  (∀ o, is_Some (ui_names i !! o) ∨ (∃ pe t local, pe ∈ L ∧ names_type u pe o t local) → is_Some (ui_names i' !! o)) ∧
  (∀ o, o ∈ ui_coroutines i' ↔
     o ∈ ui_coroutines i ∨ ∃ pe t local, pe ∈ L ∧ names_type u pe o t local ∧ coroutine_local local = true).
Proof.
  revert i. induction L as [|pe L IH]; intros i; cbn [foldl].
  { setoid_rewrite elem_of_nil. naive_solver. }
  destruct (IH (index_step u i pe)) as (A & B & C). setoid_rewrite elem_of_cons. split_and!.
  - intros o t [H|H]%A; [|naive_solver].
    destruct (index_step_names u i pe o) as [(t' & local & Hn & E)|[_ E]]; rewrite E in H; naive_solver.
  - intros o H. apply B. destruct (index_step_names u i pe o) as [(t' & local & Hn & E)|[Hno E]]; rewrite E.
    + left. eauto.
    + destruct H as [H|(pe' & t & local & [->|H] & Hn)]; [by left|by destruct (Hno t local)|]. right. eauto.
  - intros o. rewrite C, index_step_coroutines. naive_solver.
Qed.

Lemma build_index_ok u i : build_index u = Ok i → index_of u i.
Proof.
  unfold build_index. destruct (map_err _ _) as [root| |] eqn:Er; [|done..]. apply tree_ok in Er.
  cbn [mbind result_bind]. intros ->%walk_names_ok.
  destruct (index_fold u (listing u [] root) (MkUnitIndex ∅ ∅)) as (A & B & C).
  assert (Hat : ∀ o t local, type_at u o t local ↔ ∃ pe, pe ∈ listing u [] root ∧ names_type u pe o t local).
  { intros o t local. unfold type_at, names_type. split.
    - intros (r & p & e & Hr & Hin & H). rewrite Er in Hr. injection Hr as <-. by exists (p, e).
    - intros ([p e] & Hin & H). by exists root, p, e. }
  unfold index_of. setoid_rewrite Hat. split_and!.
  - intros o t [H|H]%A; [|naive_solver]. cbn in H. by rewrite lookup_empty in H.
  - intros o t local (pe & Hin & H). apply B. right. eauto.
  - intros o. rewrite C. cbn. set_solver.
Qed.

(** *** The tables *)

(** What reading a set of coroutines adds to the tables. *)
Definition tables_after (P : AsyncFnLayout → Prop) (ls ls' : AsyncLayouts) : Prop :=
  (∀ t l, ls' !! t = Some l → ls !! t = Some l ∨ P l ∧ af_type_name l = t) ∧
  (∀ t, is_Some (ls !! t) → is_Some (ls' !! t)) ∧
  (∀ l, P l → is_Some (ls' !! af_type_name l)).

Lemma tables_none P ls : (∀ l, ¬ P l) → tables_after P ls ls.
Proof. intros HP. split_and!; [auto|auto|]. intros l H. by destruct (HP l). Qed.

Lemma tables_one P l ls :
  P l → (∀ l', P l' → af_type_name l' = af_type_name l) → tables_after P ls (AsyncLayouts_insert l ls).
Proof.
  intros Hl Hname. unfold tables_after, AsyncLayouts_insert, AsyncLayouts in *. split_and!.
  - intros t l'. destruct (decide (af_type_name l = t)) as [<-|].
    + rewrite lookup_insert_eq. intros [= <-]. auto.
    + rewrite lookup_insert_ne by done. auto.
  - intros t Ht. destruct (decide (af_type_name l = t)) as [<-|].
    + rewrite lookup_insert_eq. eauto.
    + by rewrite lookup_insert_ne.
  - intros l' H'. rewrite (Hname _ H'), lookup_insert_eq. eauto.
Qed.

Lemma tables_trans (P Q : AsyncFnLayout → Prop) ls1 ls2 ls3 :
  tables_after P ls1 ls2 → tables_after Q ls2 ls3 → tables_after (λ l, P l ∨ Q l) ls1 ls3.
Proof. intros (A1 & B1 & C1) (A2 & B2 & C2). split_and!; [|auto|]; naive_solver. Qed.

Lemma tables_ext (P Q : AsyncFnLayout → Prop) ls ls' :
  (∀ l, P l ↔ Q l) → tables_after P ls ls' → tables_after Q ls ls'.
Proof. intros H (A & B & C). split_and!; [|auto|]; naive_solver. Qed.

Lemma build_layouts_ok u i os ls ls' :
  build_layouts u i os ls = Ok ls' → tables_after (λ l, ∃ o, o ∈ os ∧ layout_at u i o l) ls ls'.
Proof.
  revert ls. induction os as [|o os IH]; intros ls; cbn [build_layouts].
  { intros [= <-]. apply tables_none. by intros l (o & ?%elem_of_nil & _). }
  destruct (build_layout u o i) as [r| |] eqn:Eb; [|done..]. apply build_layout_ok in Eb.
  cbn [mbind result_bind]. intros H%IH.
  apply (tables_ext (λ l, layout_at u i o l ∨ ∃ o, o ∈ os ∧ layout_at u i o l)).
  { intros l. setoid_rewrite elem_of_cons. naive_solver. }
  eapply tables_trans; [|exact H]. destruct r as [l|]; [|by apply tables_none].
  apply tables_one; [done|]. intros l' (? & ? & ? & ? & _ & _ & H1 & _).
  destruct Eb as (? & ? & ? & ? & _ & _ & H2 & _). congruence.
Qed.

(** A coroutine of a unit, with its layout. *)
Definition coroutine_in (u : unit_info V) (l : AsyncFnLayout) : Prop :=
  ∃ i o, index_of u i ∧ o ∈ ui_coroutines i ∧ layout_at u i o l.

(** The version a unit's producer names. *)
Definition unit_version (r : result (list byte) (unit_info V)) : option RustcVersion :=
  match r with Ok u => match producer_version u with Ok v => v | _ => None end | _ => None end.

Definition first_version (v : option RustcVersion) (us : list (result (list byte) (unit_info V))) : option RustcVersion :=
  match v with Some v => Some v | None => head (omap unit_version us) end.

Section ordered.
Context (Hord : ∀ s, set_order s ≡ₚ elements s).

(** The coroutines a unit's own index gives; [coroutine_in] of it. *)
Definition indexed_in (u : unit_info V) (l : AsyncFnLayout) : Prop :=
  ∃ i o, build_index u = Ok i ∧ o ∈ ui_coroutines i ∧ layout_at u i o l.

Lemma indexed_coroutine u l : indexed_in u l → coroutine_in u l.
Proof. intros (i & o & Hi & Ho & Hl). exists i, o. split; [by apply build_index_ok|done]. Qed.

Lemma collect_unit_ok u ls ls' : collect_unit u ls = Ok ls' → tables_after (indexed_in u) ls ls'.
Proof.
  unfold collect_unit. destruct (build_index u) as [i| |] eqn:Ei; [|done..]. cbn [mbind result_bind].
  intros H%build_layouts_ok. eapply tables_ext; [|exact H]. intros l. unfold indexed_in.
  assert (Hin : ∀ o, o ∈ set_order (ui_coroutines i) ↔ o ∈ ui_coroutines i).
  { intros o. by rewrite Hord, elem_of_elements. }
  split.
  - intros (o & Ho%Hin & Hl). by exists i, o.
  - intros (i' & o & Hi & Ho & Hl). assert (i' = i) as -> by congruence. exists o. by rewrite Hin.
Qed.

Lemma extract_unit_ok u v ls v' ls' :
  extract_unit u (v, ls) = Ok (v', ls') →
  v' = match v with Some v => Some v | None => unit_version (Ok u) end ∧ tables_after (indexed_in u) ls ls'.
Proof.
  unfold extract_unit. cbn [fst snd unit_version].
  destruct v as [v|]; [|destruct (producer_version u) as [v1| |]; [|done..]]; cbn [mbind result_bind];
    (destruct (collect_unit u ls) as [ls1| |] eqn:Ec; [|done..]); intros [= <- <-];
    (split; [done|by apply collect_unit_ok]).
Qed.

Lemma extract_units_ok us v ls v' ls' :
  each_unit AsyncDwarf extract_unit us (v, ls) = Ok (v', ls') →
  v' = first_version v us ∧ tables_after (λ l, ∃ u, Ok u ∈ us ∧ indexed_in u l) ls ls'.
Proof.
  revert v ls. induction us as [|r us IH]; intros v ls; cbn [each_unit].
  { intros [= <- <-]. split; [by destruct v|]. apply tables_none. by intros l (u & ?%elem_of_nil & _). }
  destruct r as [u| |]; [|done..]. cbn [map_err mbind result_bind].
  destruct (extract_unit u (v, ls)) as [[v1 ls1]| |] eqn:E; [|done..]. cbn [mbind result_bind].
  apply extract_unit_ok in E as [-> Ec]. intros [-> H]%IH. split.
  - destruct v as [v|]; [done|]. cbn [first_version omap list_omap]. by destruct (unit_version (Ok u)).
  - eapply tables_ext; [|exact (tables_trans _ _ _ _ _ Ec H)]. intros l. split.
    + intros [Hl|(u' & Hu & Hl)]; [exists u|exists u']; (split; [|done]); [left|by right].
    + intros (u' & [[= ->]|Hu]%elem_of_cons & Hl); [by left|right; eauto].
Qed.

Lemma extract_units_indexed us v ls v' ls' :
  each_unit AsyncDwarf extract_unit us (v, ls) = Ok (v', ls') →
  ∀ u, Ok u ∈ us → ∃ i, build_index u = Ok i.
Proof.
  revert v ls. induction us as [|r us IH]; intros v ls H u Hu; [by apply elem_of_nil in Hu|].
  cbn [each_unit] in H. destruct r as [u'| |]; [|done..]. cbn [map_err mbind result_bind] in H.
  destruct (extract_unit u' (v, ls)) as [[v1 ls1]| |] eqn:E; [|done..].
  apply elem_of_cons in Hu as [[= ->]|Hu]; [|by eapply IH].
  unfold extract_unit, collect_unit in E. cbn [fst snd] in E.
  destruct (match v with Some v => Ok (Some v) | None => producer_version u' end); [|done..].
  cbn [mbind result_bind] in E. destruct (build_index u') as [i| |]; [eauto|done..].
Qed.

(** C33. The coroutine tables are what the binary describes.  When an image is
    accepted it links the runtime, the compiler is the first one a unit names
    and one the layouts were validated for, and the tables are not empty.
    Every layout in them is that of a coroutine some unit has under that
    qualified name, with its discriminant, each state's await location and
    awaitee, and as fan-out children exactly the coroutines stored inline
    within eight wrappers, at the sum of the offsets on the way, but not at
    the awaitee's; and every coroutine of a unit with an explicit discriminant
    has an entry.  The order the set of coroutines is visited in does not
    matter to any of it. *)
Theorem coroutine_tables_described image x :
  async_extract image = Ok x →
  ∃ file us, File_parse image = Ok file ∧ of_dwarf file = Ok us ∧ is_tokio_object file = true ∧
    head (omap unit_version us) = Some (ax_version x) ∧ is_supported (ax_version x) = true ∧
    ax_layouts x ≠ ∅ ∧
    (∀ t l, ax_layouts x !! t = Some l → af_type_name l = t ∧ ∃ u, Ok u ∈ us ∧ coroutine_in u l) ∧
    (∀ u, Ok u ∈ us → ∃ i, index_of u i ∧
       ∀ o l, o ∈ ui_coroutines i → layout_at u i o l → is_Some (ax_layouts x !! af_type_name l)).
Proof.
  unfold async_extract. destruct (File_parse image) as [file| |] eqn:Ef; [|done..]. cbn [map_err mbind result_bind].
  destruct (is_tokio_object file) eqn:Et; [|done]. destruct (of_section file _); [|done]. cbn [negb].
  destruct (of_dwarf file) as [us| |] eqn:Eu; [|done..]. cbn [map_err mbind result_bind].
  destruct (each_unit _ _ _ _) as [[v ls]| |] eqn:Ee; [|done..].
  pose proof (extract_units_indexed _ _ _ _ _ Ee) as Hidx.
  apply extract_units_ok in Ee as [-> (Hs & _ & Hc)]. cbn [first_version mbind result_bind].
  destruct (head (omap unit_version us)) as [v|] eqn:Ev; [|done]. cbn [ok_or mbind result_bind].
  destruct (is_supported v) eqn:Esup; [|done]. cbn [negb]. case_bool_decide as Hne; [done|]. intros [= <-].
  exists file, us. cbn [ax_version ax_layouts]. split_and!; try done.
  - intros t l [H|[(u & Hu & Hl) Hn]]%Hs; [unfold AsyncLayouts in H; by rewrite lookup_empty in H|].
    split; [done|]. exists u. split; [done|]. by apply indexed_coroutine.
  - intros u Hu. destruct (Hidx u Hu) as [i Hi]. exists i. split; [by apply build_index_ok|].
    intros o l Ho Hl. apply Hc. exists u. split; [done|]. by exists i, o.
Qed.

End ordered.

End reader.

(** ** A sample: a task that joins two others *)

Definition d_named (n : list byte) := (AtName, text_attr n).
Definition d_loc (o : Z) := (AtDataMemberLocation, const_attr o).
Definition d_type (o : Z) := (AtType, ref_attr o).

Definition sample_member (n : list byte) (o ty : Z) : node (list byte) :=
  die TagMember 0 [d_named n; d_loc o; d_type ty] [].

Definition sample_variant (value ty : Z) (line : list (dw_at * Attribute (list byte))) : node (list byte) :=
  die TagVariant 0 [(AtDiscrValue, const_attr value)] [die TagMember 0 (d_type ty :: line) []].

(** A coroutine at [o]: the discriminant after [size] bytes, one suspended
    state with the members given. *)
Definition sample_coroutine (o size line : Z) (ms : list (node (list byte))) : node (list byte) :=
  die TagStructureType o [d_named (str "{async_fn_env#0}"); (AtByteSize, const_attr (size + 8))]
    [die TagVariantPart 0 [(AtDiscr, ref_attr (o + 1))]
       [die TagMember (o + 1) [d_loc size; d_type 90] [];
        sample_variant 0 (o + 2) [];
        sample_variant 3 (o + 3) [(AtDeclLine, const_attr line)]];
     die TagStructureType (o + 2) [d_named (str "Unresumed")] [];
     die TagStructureType (o + 3) [d_named (str "Suspend0")] ms].

Definition sample_async_unit : node (list byte) :=
  die TagOther 1
    [d_named (str "app"); (AtProducer, text_attr (str "clang LLVM (rustc version 1.85.1 (4eb161250 2025-03-15))"))]
    [die TagNamespace 2 [d_named (str "app")]
       [die TagNamespace 3 [d_named (str "sleeper")]
          [sample_coroutine 10 16 4 [sample_member (str "__awaitee") 8 91]];
        die TagNamespace 4 [d_named (str "joiner")]
          [sample_coroutine 20 80 7 [sample_member (str "__awaitee") 0 30; sample_member (str "futures") 8 31]]];
     die TagStructureType 30 [d_named (str "PollFn")] [];
     die TagStructureType 31 [d_named (str "(MaybeDone, MaybeDone)")]
       [sample_member (str "__0") 0 32; sample_member (str "__1") 32 32];
     die TagStructureType 32 [d_named (str "MaybeDone")]
       [die TagVariantPart 0 [] [die TagVariant 0 [] [sample_member (str "Future") 0 10]]];
     die TagOther 90 [d_named (str "u8"); (AtByteSize, const_attr 1)] [];
     die TagStructureType 91 [d_named (str "Sleep")] []].

Definition sample_async_object : object_file (list byte) := {|
  of_64 := true;
  of_section s := bool_decide (s = str ".debug_info");
  of_symbols := [MkSymbol (Some (str "_ZN5tokio7runtime4task3raw4poll")) 0x1000 false];
  of_dynamic_symbols := [];
  of_dwarf := Ok [Ok (unit_of sample_async_unit)]
|}.

Definition SLEEPER : list byte := str "app::sleeper::{async_fn_env#0}".
Definition JOINER : list byte := str "app::joiner::{async_fn_env#0}".

Definition sample_tables : result async_decode_error AsyncDwarfExtract :=
  async_extract [] (λ _, Ok sample_async_object) elements [].

Definition joiner_state : option VariantInfo :=
  match sample_tables with Ok x => AsyncLayouts_get (ax_layouts x) JOINER ≫= λ l, variant_for l 3 | _ => None end.

Lemma coroutine_tables_described_witness :
  joiner_state = Some (MkVariantInfo (VariantKind.Suspend 0) (Some (MkSourceLocation [] 7 0))
    (Some (MkChildRef 0 (str "PollFn"))) [MkChildRef 8 SLEEPER; MkChildRef 40 SLEEPER]) ∧
  ∃ l, coroutine_in [] (unit_of sample_async_unit) l ∧ af_type_name l = JOINER.
Proof.
  split; [vm_compute; reflexivity|].
  destruct sample_tables as [x|e|] eqn:E; [|exfalso; vm_compute in E; discriminate E..].
  destruct (coroutine_tables_described [] (λ _, Ok sample_async_object) elements
    (λ s, reflexivity _) [] x E) as (file & us & Hf & Hu & _ & _ & _ & _ & Hs & _).
  injection Hf as <-. injection Hu as <-.
  destruct (AsyncLayouts_get (ax_layouts x) JOINER) as [l|] eqn:El.
  2: { exfalso. assert (Hx : match sample_tables with Ok x => AsyncLayouts_get (ax_layouts x) JOINER | _ => None end = None)
         by (rewrite E; exact El). vm_compute in Hx. discriminate Hx. }
  destruct (Hs JOINER l El) as (Hn & u & Hin & Hl). apply list_elem_of_singleton in Hin. injection Hin as ->.
  exists l. split; [exact Hl|exact Hn].
Defined.

(** An awaitee that stores a coroutine at its own start hides it: the search
    leaves out every coroutine at the awaitee's offset, not the awaitee. *)
Definition inline_awaitee : node (list byte) :=
  die TagOther 1 []
    [sample_coroutine 10 16 4 [sample_member (str "__awaitee") 8 91];
     sample_coroutine 20 80 7 [sample_member (str "__awaitee") 0 31];
     die TagStructureType 31 [d_named (str "Join")] [sample_member (str "a") 0 10; sample_member (str "b") 32 10];
     die TagOther 90 [d_named (str "u8"); (AtByteSize, const_attr 1)] [];
     die TagStructureType 91 [d_named (str "Sleep")] []].

Lemma first_branch_hidden :
  (match build_index [] (unit_of inline_awaitee) with
   | Ok i => match build_layout [] (unit_of inline_awaitee) 20 i with
             | Ok (Some l) => vi_children <$> variant_for l 3
             | _ => None
             end
   | _ => None
   end) = Some [MkChildRef 32 (str "{async_fn_env#0}")].
Proof. vm_compute. reflexivity. Qed.
