(* ===== verification/Registry.v ===== *)
(** * From a binary to a decoder: [enumerate/dwarf.rs], [enumerate/mod.rs], [registry.rs]

    The facts live enumeration needs of a Tokio binary, read from its symbols,
    its program headers and its debug information, and the constructors of the
    two language decoders from an image, which the registry tries in turn. *)

From S2P Require Import Prelude.
From S2P Require Import Text.
From S2P Require Import Maps.
From S2P Require Import TaskModel.
From S2P Require Import TaskTree.
From S2P Require Import View.
From S2P Require Import GoRuntime.
From S2P Require Import GoWalk.
From S2P Require Import AsyncLayout.
From S2P Require Import AsyncDecode.
From S2P Require Import TokioWalk.
From S2P Require Import Tokio.
From S2P Require Import Gimli.
From S2P Require Import GoDwarf.
From S2P Require Import AsyncDwarf.

Section registry.
Context {V : Type} (bad_utf8 : list byte).
Context (File_parse : list byte → result (list byte) (object_file V)).
Context (set_order : gset Z → list Z) (host : tls_variant).

(** ** [enumerate/dwarf.rs] *)

Definition context_symbol (s : symbol) : bool :=
  sym_tls s && match sym_name s with Some n => is_context_symbol n | None => false end.

Definition context_tls_offset_of (file : object_file V) : result enumerate_error Z :=
  ok_or ContextSymbolMissing (sym_address <$> find context_symbol (of_symbols file)).

Definition low_pc (u : unit_info V) (e : entry V) : result enumerate_error (option Z) :=
  v ← map_err EnumParse (attr_value e AtLowPc);
  match v with
  | Some v => map_err EnumParse (u_attr_address u v)
  | None => Ok None
  end.

(** One entry of the scan: the [continue]s leave the list as it is. *)
Definition collect_poll (u : unit_info V) (e : entry V) (out : list (Z * list byte))
    : result enumerate_error (list (Z * list byte)) :=
  if bool_decide (e_tag e = TagSubprogram) then
    name ← map_err EnumParse (die_name bad_utf8 u e);
    match name with
    | Some name =>
        if starts_with (str "poll<") name then
          match first_generic_arg name with
          | Some future =>
              addr ← low_pc u e;
              Ok (match addr with Some a => out ++ [(a, future)] | None => out end)
          | None => Ok out
          end
        else Ok out
    | None => Ok out
    end
  else Ok out.

Fixpoint collect_polls (u : unit_info V) (es : list (entry V)) (x : option (list byte)) (out : list (Z * list byte))
    : result enumerate_error (list (Z * list byte)) :=
  match es with
  | [] => match x with None => Ok out | Some e => Err (EnumParse e) end
  | e :: es => out ← collect_poll u e out; collect_polls u es x out
  end.

Definition poll_type_map (file : object_file V) : result enumerate_error (list (Z * list byte)) :=
  units ← map_err EnumParse (of_dwarf file);
  each_unit EnumParse (λ u, collect_polls u (u_entries u).1 (u_entries u).2) units [].

Definition facts_resolve (image : list byte) : result enumerate_error BinaryFacts :=
  version ← ok_or TokioVersionUnknown (TokioVersion_detect_in_bytes image);
  file ← map_err EnumParse (File_parse image);
  offset ← context_tls_offset_of file;
  if negb (of_section file (str ".debug_info")) then Err EnumNoDebugInfo
  else
    '(align, size, min_load) ← elf_geometry image;
    polls ← poll_type_map file;
    Ok (MkBinaryFacts version offset align size min_load polls).

(** ** The constructors from an image *)

Definition EnumerationPlan_resolve (image : list byte) : result enumerate_error EnumerationPlan :=
  facts ← facts_resolve image;
  layout ← TokioRuntimeLayout_vendored (bf_version facts);
  Ok (MkEnumerationPlan facts layout).

Definition TokioDecoder_from_binary (image : list byte) : result async_decode_error TokioDecoder :=
  '(layouts, version) ← load_layouts bad_utf8 File_parse set_order image;
  match EnumerationPlan_resolve image with
  | Ok plan => Ok (MkTokioDecoder layouts version [] (Some plan))
  | Err _ => Ok (MkTokioDecoder layouts version [] None)
  | Panic => Panic
  end.

Definition GoroutineDecoder_from_binary (image : list byte) : result go_decode_error GoLayout :=
  load_layout bad_utf8 File_parse image.

(** [select_decoder_for_binary] over both. *)
Definition select_for_binary (image : list byte) : result unit SemanticDecoder :=
  select_decoder_for_binary host GoroutineDecoder_from_binary TokioDecoder_from_binary image.

(** ** What the scan finds *)

(** A monomorphic poll function: its address and its future. *)
Definition poll_at (u : unit_info V) (e : entry V) (a : Z) (future : list byte) : Prop :=
  e_tag e = TagSubprogram ∧ ∃ name, die_name bad_utf8 u e = Ok (Some name) ∧
    first_generic_arg name = Some future ∧ low_pc u e = Ok (Some a).

Lemma first_generic_arg_poll name t : first_generic_arg name = Some t → starts_with (str "poll<") name = true.
Proof.
  unfold first_generic_arg, starts_with. by destruct (strip_prefix (str "poll<") name).
Qed.

Lemma collect_poll_ok u e out out' :
  collect_poll u e out = Ok out' →
  ∃ new, out' = out ++ new ∧ ∀ a t, (a, t) ∈ new ↔ poll_at u e a t.
Proof.
  unfold collect_poll, poll_at. intros H.
  assert (Hnone : (∀ a t, ¬ poll_at u e a t) → out' = out → ∃ new, out' = out ++ new ∧ ∀ a t, (a, t) ∈ new ↔ poll_at u e a t).
  { intros Hno ->. exists []. rewrite app_nil_r. split; [done|]. intros a t. rewrite elem_of_nil. naive_solver. }
  unfold poll_at in Hnone. case_bool_decide as Ht; [|apply Hnone; [naive_solver|congruence]].
  destruct (die_name bad_utf8 u e) as [[name|]| |] eqn:En; [| |done..]; cbn [map_err mbind result_bind] in H.
  2: { apply Hnone; [naive_solver|congruence]. }
  destruct (first_generic_arg name) as [future|] eqn:Ef.
  - rewrite (first_generic_arg_poll _ _ Ef) in H.
    destruct (low_pc u e) as [[addr|]| |] eqn:El; [| |done..]; cbn [mbind result_bind] in H; injection H as <-.
    + exists [(addr, future)]. split; [done|]. intros a t. rewrite list_elem_of_singleton. split.
      * intros [= -> ->]. split; [done|]. by exists name.
      * intros (_ & n & [= <-] & Hg & [= <-]). by simplify_eq.
    + apply Hnone; [naive_solver|done].
  - apply Hnone; [naive_solver|]. destruct (starts_with _ name); congruence.
Qed.

Lemma collect_polls_ok u es x out out' :
  collect_polls u es x out = Ok out' →
  ∃ new, out' = out ++ new ∧ ∀ a t, (a, t) ∈ new ↔ ∃ e, e ∈ es ∧ poll_at u e a t.
Proof.
  revert out. induction es as [|e es IH]; intros out; cbn [collect_polls].
  - destruct x; [done|]. intros [= <-]. exists []. rewrite app_nil_r. split; [done|]. intros a t.
    rewrite elem_of_nil. split; [done|]. by intros (e & ?%elem_of_nil & _).
  - destruct (collect_poll u e out) as [out1| |] eqn:E; [|done..]. apply collect_poll_ok in E as (n1 & -> & H1).
    intros (n2 & -> & H2)%IH. exists (n1 ++ n2). rewrite app_assoc. split; [done|]. intros a t.
    rewrite elem_of_app, H1, H2. setoid_rewrite elem_of_cons. naive_solver.
Qed.

(** The scan of a file finds exactly the poll functions of its units. *)
Lemma poll_types_exact file polls :
  poll_type_map file = Ok polls →
  ∃ us, of_dwarf file = Ok us ∧
    ∀ a t, (a, t) ∈ polls ↔ ∃ u e, Ok u ∈ us ∧ e ∈ (u_entries u).1 ∧ poll_at u e a t.
Proof.
  unfold poll_type_map. destruct (of_dwarf file) as [us| |]; [|done..]. cbn [map_err mbind result_bind].
  intros H. exists us. split; [done|].
  assert (Hgen : ∀ us out out', each_unit EnumParse (λ u, collect_polls u (u_entries u).1 (u_entries u).2) us out = Ok out' →
    ∀ a t, (a, t) ∈ out' ↔ (a, t) ∈ out ∨ ∃ u e, Ok u ∈ us ∧ e ∈ (u_entries u).1 ∧ poll_at u e a t).
  { clear H us polls. intros us. induction us as [|r us IH]; intros out out'; cbn [each_unit].
    - intros [= <-] a t. setoid_rewrite elem_of_nil. naive_solver.
    - destruct r as [u| |]; [|done..]. cbn [map_err mbind result_bind].
      destruct (collect_polls u _ _ out) as [out1| |] eqn:E; [|done..].
      apply collect_polls_ok in E as (new & -> & Hn). intros H a t. rewrite (IH _ _ H), elem_of_app, Hn.
      split.
      + intros [[?|(e & He & Hp)]|(u' & e & Hu & He & Hp)]; [by left|right; exists u, e|right; exists u', e];
          (split; [|done]); [left|by right].
      + intros [?|(u' & e & [[= ->]|Hu]%elem_of_cons & He & Hp)]; [by left; left|left; right; eauto|right; eauto]. }
  intros a t. rewrite (Hgen _ _ _ H), elem_of_nil. tauto.
Qed.

(** Whatever an image gives, the decoder answers about the tasks of its tree. *)
Lemma binary_decoder_answers image d v : ViewLaws v → select_for_binary image = Ok d → AnswersTasks d v.
Proof. apply selected_decoder_answers. Qed.

End registry.
