(* ===== verification/TraceFormat.v ===== *)
(** * The trace log format: [crates/recorder/src/trace/format.rs]

    The header's command line, record bodies, event kinds and errors, with
    their encoders and decoders.  Integers are little-endian; every slice that
    the code indexes or [expect]s is a possible [Panic] here, so the absence of
    panics under the caller's length check is a theorem. *)

From S2P Require Import Prelude StdIo.

(** ** Data *)

(** [b"MSCOPETR"]. *)
Definition MAGIC : list byte := [x4d; x53; x43; x4f; x50; x45; x54; x52].
Definition FORMAT_VERSION : Z := 3.
Definition BASE_HEADER_LEN : Z := 12.
Definition CMDLINE_MIN_VERSION : Z := 2.
Definition TID_MIN_VERSION : Z := 3.
Definition MAX_BODY_LEN : Z := 16 * 1024 * 1024.
Definition BODY_PREFIX_LEN : Z := 18.
Definition BODY_PREFIX_LEN_V3 : Z := 22.

Record Cmdline := mkCmdline { program : list byte; args : list (list byte) }.

Inductive EventKind :=
| EvSyscallEnter
| EvSyscallExit
| EvSchedSwitch
| EvSignal
| EvSyncAcquire
| EvSyncRelease
| EvFork
| EvCheckpoint
| EvThreadSpawn
| EvThreadExit
| EvUnknown (raw : Z).

Record Event := mkEvent {
  kind : EventKind;
  timestamp_ns : Z;
  tid : option Z;
  payload : list byte;
}.

(** [Record] in the source. *)
Record LogRecord := mkRecord { seq : Z; event : Event }.

Inductive TraceError :=
| BadMagic
| UnsupportedVersion (found supported : Z)
| ChecksumMismatch (seq : Z)
| Truncated
| BodyTooLarge (found max : Z)
| MalformedHeader
| NonMonotonicSequence (found previous : Z)
| TraceIo (e : io_error).

#[export] Instance Cmdline_eq_dec : EqDecision Cmdline.
Proof. solve_decision. Defined.
#[export] Instance EventKind_eq_dec : EqDecision EventKind.
Proof. solve_decision. Defined.
#[export] Instance Event_eq_dec : EqDecision Event.
Proof. solve_decision. Defined.
#[export] Instance LogRecord_eq_dec : EqDecision LogRecord.
Proof. solve_decision. Defined.
#[export] Instance TraceError_eq_dec : EqDecision TraceError.
Proof. solve_decision. Defined.

(** ** Operations *)

(** [EventKind::to_u16]. *)
Definition to_u16 (k : EventKind) : Z :=
  match k with
  | EvSyscallEnter => 1
  | EvSyscallExit => 2
  | EvSchedSwitch => 3
  | EvSignal => 4
  | EvSyncAcquire => 5
  | EvSyncRelease => 6
  | EvFork => 7
  | EvCheckpoint => 8
  | EvThreadSpawn => 9
  | EvThreadExit => 10
  | EvUnknown raw => raw
  end.

(** [EventKind::from_u16]. *)
Definition from_u16 (raw : Z) : EventKind :=
  match raw with
  | 1 => EvSyscallEnter
  | 2 => EvSyscallExit
  | 3 => EvSchedSwitch
  | 4 => EvSignal
  | 5 => EvSyncAcquire
  | 6 => EvSyncRelease
  | 7 => EvFork
  | 8 => EvCheckpoint
  | 9 => EvThreadSpawn
  | 10 => EvThreadExit
  | other => EvUnknown other
  end.

(** [Event::new] and [Event::new_with_tid]. *)
Definition Event_new (k : EventKind) (ts : Z) (p : list byte) : Event :=
  mkEvent k ts None p.
Definition Event_new_with_tid (k : EventKind) (ts t : Z) (p : list byte) : Event :=
  mkEvent k ts (Some t) p.

(** [push_str]: a [u32] length prefix (the [as u32] cast wraps) and the bytes. *)
Definition push_str (s : list byte) : list byte := le_bytes 4 (as_u 32 (blen s)) ++ s.

Definition encode_cmdline (prog : list byte) (argv : list (list byte)) : list byte :=
  push_str prog ++ le_bytes 4 (as_u 32 (blen argv)) ++ concat (push_str <$> argv).

(** [read_u32(buf, &mut pos)]: the value and the advanced position. *)
Definition read_u32 (buf : list byte) (pos : Z) : result TraceError (Z * Z) :=
  fin ← ok_or MalformedHeader (checked_add 64 pos 4);
  sl ← ok_or MalformedHeader (get_range buf pos fin);
  mret (le_value sl, fin).

Definition read_str (buf : list byte) (pos : Z) : result TraceError (list byte * Z) :=
  '(len, pos) ← read_u32 buf pos;
  fin ← ok_or MalformedHeader (checked_add 64 pos len);
  sl ← ok_or MalformedHeader (get_range buf pos fin);
  if utf8_valid sl then mret (sl, fin) else Err MalformedHeader.

(** The [for _ in 0..count] loop of [decode_cmdline].  It stops at the first
    failing argument, and every argument takes at least four bytes, so
    [S (length buf)] rounds are more than it can ever run. *)
Fixpoint read_args (fuel : nat) (buf : list byte) (pos count : Z)
    : result TraceError (list (list byte) * Z) :=
  if count <=? 0 then mret ([], pos)
  else match fuel with
  | O => Panic
  | S fuel =>
      '(a, pos) ← read_str buf pos;
      '(rest, pos) ← read_args fuel buf pos (count - 1);
      mret (a :: rest, pos)
  end.

Definition decode_cmdline (buf : list byte) : result TraceError Cmdline :=
  '(prog, pos) ← read_str buf 0;
  '(count, pos) ← read_u32 buf pos;
  '(argv, _) ← read_args (S (length buf)) buf pos count;
  mret (mkCmdline prog argv).

Definition min_body_len (version : Z) : Z :=
  if TID_MIN_VERSION <=? version then BODY_PREFIX_LEN_V3 else BODY_PREFIX_LEN.

Definition encode_body (sq : Z) (e : Event) : list byte :=
  le_bytes 8 sq ++ le_bytes 8 (timestamp_ns e) ++ le_bytes 4 (default 0 (tid e)) ++
  le_bytes 2 (to_u16 (kind e)) ++ payload e.

Definition decode_body (version : Z) (body : list byte) : result TraceError LogRecord :=
  sq ← expect (get_range body 0 8);
  ts ← expect (get_range body 8 16);
  '(t, kind_at) ←
    (if TID_MIN_VERSION <=? version
     then (sl ← expect (get_range body 16 20); mret (Some (le_value sl), 20))
     else mret (None, 16));
  b0 ← expect (get_at body kind_at);
  b1 ← expect (get_at body (kind_at + 1));
  p ← expect (get_range body (kind_at + 2) (blen body));
  mret (mkRecord (le_value sq)
         (mkEvent (from_u16 (le_value [b0; b1])) (le_value ts) t p)).

(** ** Well-formedness: the ranges Rust's types give *)

(** A kind that [from_u16] can produce: [Unknown] never hides a known value. *)
Definition kind_wf (k : EventKind) : Prop :=
  match k with EvUnknown raw => in_u 16 raw ∧ ¬ 1 ≤ raw ≤ 10 | _ => True end.

Definition event_wf (e : Event) : Prop :=
  kind_wf (kind e) ∧ in_u 64 (timestamp_ns e) ∧
  match tid e with Some t => in_u 32 t | None => True end.

Definition cmdline_wf (c : Cmdline) : Prop :=
  string_wf (program c) ∧ Forall string_wf (args c).

(** What a reader gets back for an event written at the current version: the
    attribution is always present, [0] standing for none. *)
Definition as_written (e : Event) : Event :=
  mkEvent (kind e) (timestamp_ns e) (Some (default 0 (tid e))) (payload e).

(** ** Lemmas: kinds and bodies *)

Lemma to_u16_from_u16 raw : to_u16 (from_u16 raw) = raw.
Proof.
  unfold from_u16. repeat case_match; done.
Qed.

Lemma from_u16_to_u16 k : kind_wf k → from_u16 (to_u16 k) = k.
Proof.
  destruct k as [| | | | | | | | | |raw]; try done. cbn [kind_wf to_u16].
  intros [_ H]. unfold from_u16. repeat case_match; done || lia.
Qed.

Lemma to_u16_range k : kind_wf k → in_u 16 (to_u16 k).
Proof. unfold in_u. destruct k; cbn; try lia. by intros [??]. Qed.

Lemma from_u16_wf raw : in_u 16 raw → kind_wf (from_u16 raw).
Proof.
  unfold from_u16. intros. repeat case_match; cbn; try done; (split; [done|lia]).
Qed.

Lemma encode_body_length sq e : blen (encode_body sq e) = BODY_PREFIX_LEN_V3 + blen (payload e).
Proof.
  unfold encode_body. rewrite !blen_app, !blen_le_bytes.
  unfold BODY_PREFIX_LEN_V3. lia.
Qed.

(** A body that meets the reader's minimum length is decoded without panic. *)
Lemma decode_body_total version body :
  min_body_len version ≤ blen body → ∃ r, decode_body version body = Ok r.
Proof.
  unfold min_body_len, decode_body, BODY_PREFIX_LEN_V3, BODY_PREFIX_LEN. intros Hlen.
  destruct (TID_MIN_VERSION <=? version) eqn:Ev;
    repeat match goal with
    | |- context [get_range body ?a ?b] =>
        let H := fresh in
        destruct (get_range_is_Some body a b) as [? H]; [lia..|];
        rewrite H; cbn [expect mbind result_bind mret result_ret]
    | |- context [get_at body ?a] =>
        let H := fresh in
        destruct (get_at_Some_range body a) as [? H]; [lia|];
        rewrite H; cbn [expect mbind result_bind mret result_ret]
    end; eauto.
Qed.

Lemma le_bytes_2 z : le_bytes 2 z = [byte_of_Z z; byte_of_Z (z / 256)].
Proof. done. Qed.

Lemma decode_encode_body sq e :
  in_u 64 sq → event_wf e →
  decode_body FORMAT_VERSION (encode_body sq e) = Ok (mkRecord sq (as_written e)).
Proof.
  intros Hsq (Hk & Hts & Ht).
  assert (Ht' : in_u 32 (default 0 (tid e))) by (destruct (tid e); done).
  pose proof (le_u16 _ (to_u16_range _ Hk)) as Hv16.
  unfold decode_body. change (TID_MIN_VERSION <=? FORMAT_VERSION) with true.
  rewrite encode_body_length. unfold encode_body, BODY_PREFIX_LEN_V3.
  slices. rewrite le_bytes_2 in *. cbn [app]. slices.
  rewrite Hv16, from_u16_to_u16, !le_u64, le_u32 by done. done.
Qed.

(** ** Lemmas: the command line *)

(** What fits: every length the encoder casts to [u32], and a total a [usize]
    can index. *)
Definition cmdline_fits (c : Cmdline) : Prop :=
  cmdline_wf c ∧ in_u 32 (blen (program c)) ∧ in_u 32 (blen (args c)) ∧
  Forall (λ a, in_u 32 (blen a)) (args c) ∧
  blen (encode_cmdline (program c) (args c)) < 2 ^ 63.

Lemma checked_add_small a b : a + b < 2 ^ 64 → checked_add 64 a b = Some (a + b).
Proof. intros. unfold checked_add. by rewrite (proj2 (Z.ltb_lt _ _)) by lia. Qed.

Lemma checked_add_Some w a b c : checked_add w a b = Some c → c = a + b.
Proof. unfold checked_add. case_match; congruence. Qed.

Lemma push_str_length s : blen (push_str s) = 4 + blen s.
Proof. unfold push_str. blens. lia. Qed.

Lemma read_u32_at pre v post :
  in_u 32 v → blen pre + 4 < 2 ^ 64 →
  read_u32 (pre ++ le_bytes 4 v ++ post) (blen pre) = Ok (v, blen pre + 4).
Proof.
  intros Hv Hl. unfold read_u32. rewrite checked_add_small by lia.
  cbn [ok_or mbind result_bind]. rewrite get_range_app by (blens; lia).
  cbn. by rewrite (le_u32 v).
Qed.

Lemma read_str_at pre s post :
  string_wf s → in_u 32 (blen s) → blen pre + 4 + blen s < 2 ^ 64 →
  read_str (pre ++ push_str s ++ post) (blen pre) = Ok (s, blen pre + 4 + blen s).
Proof.
  intros Hs Hl Ht. pose proof (blen_nonneg s). pose proof (blen_nonneg pre).
  unfold read_str, push_str. unfold as_u. rewrite Z.mod_small by done.
  rewrite <- app_assoc, read_u32_at by (done || lia). cbn [mbind result_bind].
  rewrite checked_add_small by lia. cbn [ok_or mbind result_bind].
  rewrite (app_assoc pre), get_range_app by (blens; lia).
  cbn. by rewrite Hs.
Qed.

Lemma read_str_start s post :
  string_wf s → in_u 32 (blen s) →
  read_str (push_str s ++ post) 0 = Ok (s, blen (push_str s)).
Proof.
  intros Hs Hl. rewrite push_str_length. unfold in_u in Hl.
  apply (read_str_at [] s post); [done..|]. change (blen (@nil byte)) with 0. lia.
Qed.

Lemma concat_push_length l : blen l ≤ blen (concat (push_str <$> l)).
Proof.
  induction l as [|a l IH]; [done|]. rewrite fmap_cons. cbn [concat].
  rewrite blen_app, push_str_length, blen_cons. pose proof (blen_nonneg a). lia.
Qed.

Lemma read_args_at l : ∀ fuel pre post,
  Forall string_wf l → Forall (λ a, in_u 32 (blen a)) l →
  (length l ≤ fuel)%nat → blen pre + blen (concat (push_str <$> l)) < 2 ^ 64 →
  read_args fuel (pre ++ concat (push_str <$> l) ++ post) (blen pre) (blen l) =
    Ok (l, blen pre + blen (concat (push_str <$> l))).
Proof.
  induction l as [|a l IH]; intros fuel pre post Hw Hl Hf Ht.
  { destruct fuel; cbn; by rewrite Z.add_0_r. }
  apply Forall_cons_iff in Hw as [Ha Hw]. apply Forall_cons_iff in Hl as [Hla Hl].
  destruct fuel as [|fuel]; [cbn in Hf; lia|].
  rewrite fmap_cons in *. cbn [concat] in *.
  rewrite blen_app, push_str_length in Ht.
  pose proof (blen_nonneg (concat (push_str <$> l))).
  cbn [read_args]. rewrite blen_cons, (proj2 (Z.leb_gt _ _)) by (pose proof (blen_nonneg l); lia).
  rewrite <- app_assoc, read_str_at by (done || lia). cbn [mbind result_bind].
  replace (1 + blen l - 1) with (blen l) by lia.
  rewrite (app_assoc pre).
  replace (blen pre + 4 + blen a) with (blen (pre ++ push_str a))
    by (rewrite blen_app, push_str_length; lia).
  rewrite IH; [|done|done|cbn in Hf; lia|rewrite blen_app, push_str_length; lia].
  cbn. do 2 f_equal. rewrite !blen_app. lia.
Qed.

Lemma decode_encode_cmdline c extra :
  cmdline_fits c →
  decode_cmdline (encode_cmdline (program c) (args c) ++ extra) = Ok c.
Proof.
  intros ((Hp & Ha) & Hlp & Hla & Hls & Ht).
  unfold encode_cmdline in *. rewrite !blen_app, push_str_length, blen_le_bytes in Ht.
  pose proof (blen_nonneg (program c)).
  pose proof (blen_nonneg (concat (push_str <$> args c))).
  unfold decode_cmdline. unfold as_u. rewrite (Z.mod_small (blen (args c))) by done.
  rewrite <- (app_assoc (push_str _)), read_str_start by done. cbn [mbind result_bind].
  rewrite <- (app_assoc (le_bytes _ _)), read_u32_at by (done || rewrite push_str_length; lia).
  cbn [mbind result_bind]. rewrite (app_assoc (push_str _)).
  replace (blen (push_str (program c)) + 4)
    with (blen (push_str (program c) ++ le_bytes 4 (blen (args c)))) by (blens; lia).
  rewrite read_args_at; [by destruct c|done|done| |].
  - pose proof (concat_push_length (args c)). unfold blen in *. rewrite !length_app. lia.
  - blens. rewrite push_str_length. lia.
Qed.

(** Decoding looks at a prefix of the buffer only ... *)
Lemma read_u32_prefix buf k pos r :
  read_u32 buf pos = Ok r → read_u32 (buf ++ k) pos = Ok r ∧ r.2 ≤ blen buf.
Proof.
  unfold read_u32. destruct (checked_add 64 pos 4) as [fin|]; cbn; [|done].
  destruct (get_range buf pos fin) as [sl|] eqn:E; cbn; intros [= <-].
  rewrite (get_range_prefix _ k _ _ _ E). split; [done|].
  by apply get_range_Some in E as (? & ? & _).
Qed.

Lemma read_str_prefix buf k pos r :
  read_str buf pos = Ok r → read_str (buf ++ k) pos = Ok r ∧ r.2 ≤ blen buf.
Proof.
  unfold read_str. destruct (read_u32 buf pos) as [[len p]|e|] eqn:E; cbn; try done.
  destruct (read_u32_prefix _ k _ _ E) as [-> _]. cbn.
  destruct (checked_add 64 p len) as [fin|]; cbn; [|done].
  destruct (get_range buf p fin) as [sl|] eqn:E'; cbn; [|done].
  rewrite (get_range_prefix _ k _ _ _ E'). cbn.
  destruct (utf8_valid sl); intros [= <-]. split; [done|].
  by apply get_range_Some in E' as (? & ? & _).
Qed.

Lemma read_args_prefix fuel : ∀ fuel' buf k pos count r,
  (fuel ≤ fuel')%nat → pos ≤ blen buf →
  read_args fuel buf pos count = Ok r →
  read_args fuel' (buf ++ k) pos count = Ok r ∧ r.2 ≤ blen buf.
Proof.
  induction fuel as [|fuel IH]; intros fuel' buf k pos count r Hf Hp H;
    cbn [read_args] in H; destruct (count <=? 0) eqn:Ec; try done.
  - injection H as <-. split; [|done]. destruct fuel'; cbn [read_args]; by rewrite Ec.
  - injection H as <-. split; [|done]. destruct fuel'; cbn [read_args]; by rewrite Ec.
  - destruct fuel' as [|fuel']; [lia|]. cbn [read_args]. rewrite Ec.
    destruct (read_str buf pos) as [[a p]|e|] eqn:E; cbn [mbind result_bind] in H; try done.
    destruct (read_str_prefix _ k _ _ E) as [-> ?]. cbn [mbind result_bind].
    destruct (read_args fuel buf p (count - 1)) as [[l q]|e|] eqn:E'; try done.
    destruct (IH fuel' buf k p (count - 1) (l, q)) as [-> ?]; [lia|done|done|].
    cbn in *. injection H as <-. done.
Qed.

(** ... and never panics: the fuel of [read_args] outlasts the buffer. *)
Lemma read_u32_total buf pos :
  read_u32 buf pos = Err MalformedHeader ∨
  ∃ v p, read_u32 buf pos = Ok (v, p) ∧ p = pos + 4 ∧ p ≤ blen buf.
Proof.
  unfold read_u32. destruct (checked_add 64 pos 4) as [fin|] eqn:E; cbn; [|by left].
  destruct (get_range buf pos fin) as [sl|] eqn:E'; cbn; [|by left].
  right. apply checked_add_Some in E. apply get_range_Some in E' as (? & ? & _).
  eauto 6.
Qed.

Lemma read_str_total buf pos :
  read_str buf pos = Err MalformedHeader ∨
  ∃ a p, read_str buf pos = Ok (a, p) ∧ pos + 4 ≤ p ≤ blen buf.
Proof.
  unfold read_str. destruct (read_u32_total buf pos) as [->|(v & p & -> & -> & ?)]; cbn; [by left|].
  destruct (checked_add 64 (pos + 4) v) as [fin|] eqn:E; cbn; [|by left].
  destruct (get_range buf (pos + 4) fin) as [sl|] eqn:E'; cbn; [|by left].
  apply get_range_Some in E' as (? & ? & _).
  destruct (utf8_valid sl); [|by left]. right. exists sl, fin. split; [done|lia].
Qed.

Lemma read_args_total fuel : ∀ buf pos count,
  (Z.to_nat (blen buf - pos) < fuel)%nat → 0 ≤ pos →
  read_args fuel buf pos count = Err MalformedHeader ∨
  ∃ r, read_args fuel buf pos count = Ok r.
Proof.
  induction fuel as [|fuel IH]; intros buf pos count Hf Hp; [lia|].
  cbn [read_args]. destruct (count <=? 0); [eauto|].
  destruct (read_str_total buf pos) as [->|(a & p & -> & ? & ?)]; [by left|].
  cbn [mbind result_bind].
  destruct (IH buf p (count - 1)) as [->|[[l q] ->]]; [lia|lia|by left|eauto].
Qed.

Lemma decode_cmdline_total buf :
  decode_cmdline buf = Err MalformedHeader ∨ ∃ c, decode_cmdline buf = Ok c.
Proof.
  unfold decode_cmdline.
  destruct (read_str_total buf 0) as [->|(a & p & -> & ? & ?)]; [by left|].
  cbn [mbind result_bind].
  destruct (read_u32_total buf p) as [->|(v & p' & -> & -> & ?)]; [by left|].
  cbn [mbind result_bind].
  destruct (read_args_total (S (length buf)) buf (p + 4) v) as [->|[[l q] ->]];
    [unfold blen in *; lia|lia|by left|eauto].
Qed.

#[global] Arguments read_args : simpl never.
#[global] Arguments encode_body : simpl never.
