(* ===== verification/Crc32.v ===== *)
(** * A concrete checksum

    The development takes [crc32fast::hash] as a parameter.  This bitwise
    CRC-32 (the reflected IEEE polynomial) instantiates it in witnesses. *)

From S2P Require Import Prelude.

Definition crc_step (c : Z) : Z :=
  if Z.odd c then Z.lxor (Z.shiftr c 1) 0xEDB88320 else Z.shiftr c 1.

Definition crc_byte (c : Z) (b : byte) : Z :=
  Nat.iter 8 crc_step (Z.lxor c (Z_of_byte b)).

Definition crc32_ieee (bs : list byte) : Z :=
  as_u 32 (Z.lxor (fold_left crc_byte bs 0xFFFFFFFF) 0xFFFFFFFF).

Lemma crc32_ieee_range bs : in_u 32 (crc32_ieee bs).
Proof. apply Z.mod_pos_bound. lia. Qed.

(** The standard check value, of the digits [123456789]. *)
Example crc32_ieee_check :
  crc32_ieee [x31; x32; x33; x34; x35; x36; x37; x38; x39] = 0xCBF43926.
Proof. vm_compute. reflexivity. Qed.
