(* ===== verification/TraceLog.v ===== *)
(** * The trace log on disk: [trace/writer.rs] and [trace/reader.rs]

    The append-only writer that owns the global sequence counter, and the
    reader that validates header, checksums and monotonicity.  [crc32] stands
    for the [crc32fast] crate. *)

From Stdlib Require Import Sorting.Sorted.
From S2P Require Import Prelude StdIo TraceFormat Crc32.

(** ** Data *)

(** Over any writer. *)
Record TraceWriter (I : Type) := mkWriter { w_inner : I; next_seq : Z }.
Arguments mkWriter {I}.
Arguments w_inner {I}.
Arguments next_seq {I}.

Record TraceReader := mkReader {
  r_inner : source;
  r_version : Z;
  r_cmdline : option Cmdline;
  r_last_seq : option Z;
  r_poisoned : bool;
}.

(** [ReadOutcome], with the filled buffer on [Full]. *)
Inductive ReadOutcome :=
| Full (buf : list byte)
| Partial
| Eof.

Definition set_inner (s : source) (r : TraceReader) : TraceReader :=
  mkReader s (r_version r) (r_cmdline r) (r_last_seq r) (r_poisoned r).
Definition set_last_seq (q : Z) (r : TraceReader) : TraceReader :=
  mkReader (r_inner r) (r_version r) (r_cmdline r) (Some q) (r_poisoned r).
Definition set_poisoned (r : TraceReader) : TraceReader :=
  mkReader (r_inner r) (r_version r) (r_cmdline r) (r_last_seq r) true.

Section Log.
Context (crc32 : list byte → Z).

(** ** The writer *)

Section Writer.
Context {I : Type} {WI : Write I}.

(** [inner.write_all(bs)?] on a writer. *)
Definition put (bs : list byte) : stm I TraceError unit := λ w,
  let '(r, w') := write_all bs w in (map_err TraceIo r, w').

(** [TraceWriter::write_header]; on failure the writer is dropped with the
    error. *)
Definition write_header (cmdline : list byte) : stm I TraceError (TraceWriter I) :=
  put MAGIC;;
  put (le_bytes 2 FORMAT_VERSION);;
  put (le_bytes 2 (as_u 16 (BASE_HEADER_LEN + blen cmdline)));;
  put cmdline;;
  st_gets (λ w, mkWriter w 0).

Definition create : stm I TraceError (TraceWriter I) := write_header [].

Definition create_with_cmdline (prog : list byte) (argv : list (list byte))
    : stm I TraceError (TraceWriter I) :=
  write_header (encode_cmdline prog argv).

(** [self.inner.write_all(bs)?]. *)
Definition wput (bs : list byte) : stm (TraceWriter I) TraceError unit := λ w,
  let '(r, i) := put bs (w_inner w) in (r, mkWriter i (next_seq w)).

Definition append (e : Event) : stm (TraceWriter I) TraceError Z :=
  sq ← st_gets next_seq;
  let body := encode_body sq e in
  let crc := crc32 body in
  wput (le_bytes 4 (as_u 32 (blen body)));;
  wput body;;
  wput (le_bytes 4 crc);;
  n ← st_lift (expect (checked_add 64 sq 1));
  st_modify (λ w, mkWriter (w_inner w) n);;
  mret sq.

(** A whole recording: the header, then every event in order. *)
Fixpoint append_all (es : list Event) : stm (TraceWriter I) TraceError unit :=
  match es with
  | [] => mret tt
  | e :: es => append e;; append_all es
  end.

End Writer.

(** ** The reader *)

Definition open (inner : source) : result TraceError TraceReader :=
  let '(rb, inner) := read_exact (Z.to_nat BASE_HEADER_LEN) inner in
  base ← map_err (λ _, BadMagic) rb;
  if negb (bool_decide (take 8 base = MAGIC)) then Err BadMagic else
  let version := le_value (take 2 (drop 8 base)) in
  if FORMAT_VERSION <? version then Err (UnsupportedVersion version FORMAT_VERSION) else
  let header_len := le_value (take 2 (drop 10 base)) in
  let extra := Z.max 0 (header_len - BASE_HEADER_LEN) in
  let '(re, inner) := read_exact (Z.to_nat extra) inner in
  extra_buf ← map_err (λ _, Truncated) re;
  cmdline ←
    (if (CMDLINE_MIN_VERSION <=? version) && negb (bool_decide (extra_buf = []))
     then Some <$> decode_cmdline extra_buf
     else mret None);
  mret (mkReader inner version cmdline None false).

(** The [while filled < buf.len()] loop of [read_exact_or_eof]; [n] is what is
    left to fill and [acc] what has been filled. *)
Fixpoint read_exact_or_eof_loop (fuel n : nat) (acc : list byte) (s : source)
    : result TraceError ReadOutcome * source :=
  match n, fuel with
  | O, _ => (Ok (Full acc), s)
  | _, O => (Panic, s)
  | _, S fuel =>
      match read n s with
      | (Ok [], s') => (Ok (if bool_decide (acc = []) then Eof else Partial), s')
      | (Ok bs, s') => read_exact_or_eof_loop fuel (n - length bs) (acc ++ bs) s'
      | (Err e, s') => (Err (TraceIo e), s')
      | (Panic, s') => (Panic, s')
      end
  end.

Definition read_exact_or_eof (n : nat) (s : source) : result TraceError ReadOutcome * source :=
  read_exact_or_eof_loop (read_fuel n s) n [] s.

(** [inner.read_exact(..).map_err(|_| Truncated)?]. *)
Definition get_exact (n : nat) : stm TraceReader TraceError (list byte) := λ r,
  let '(res, s) := read_exact n (r_inner r) in
  (map_err (λ _, Truncated) res, set_inner s r).

Definition check_monotonic (sq : Z) : stm TraceReader TraceError unit := λ r,
  match r_last_seq r with
  | Some previous =>
      if sq <=? previous then (Err (NonMonotonicSequence sq previous), r)
      else (Ok tt, set_last_seq sq r)
  | None => (Ok tt, set_last_seq sq r)
  end.

Definition read_record : stm TraceReader TraceError (option LogRecord) := λ r,
  match read_exact_or_eof 4 (r_inner r) with
  | (Panic, s) => (Panic, set_inner s r)
  | (Err e, s) => (Err e, set_inner s r)
  | (Ok Eof, s) => (Ok None, set_inner s r)
  | (Ok Partial, s) => (Err Truncated, set_inner s r)
  | (Ok (Full len_buf), s) =>
      let body_len := le_value len_buf in
      let r := set_inner s r in
      if body_len <? min_body_len (r_version r) then (Err Truncated, r) else
      if MAX_BODY_LEN <? body_len then (Err (BodyTooLarge body_len MAX_BODY_LEN), r) else
      (body ← get_exact (Z.to_nat body_len);
       crc_buf ← get_exact 4;
       record ← st_lift (decode_body (r_version r) body);
       if negb (crc32 body =? le_value crc_buf)
       then st_throw (ChecksumMismatch (seq record))
       else check_monotonic (seq record);; mret (Some record)) r
  end.

(** [Iterator::next]. *)
Definition next (r : TraceReader) : option (result TraceError LogRecord) * TraceReader :=
  if r_poisoned r then (None, r)
  else match read_record r with
  | (Ok (Some record), r') => (Some (Ok record), r')
  | (Ok None, r') => (None, r')
  | (Err e, r') => (Some (Err e), set_poisoned r')
  | (Panic, r') => (Some Panic, r')
  end.

(** [reader.collect::<Result<Vec<_>, _>>()]: stop at the first error. *)
Fixpoint collect (fuel : nat) (r : TraceReader) : result TraceError (list LogRecord) :=
  match fuel with
  | O => Panic
  | S fuel =>
      match next r with
      | (None, _) => Ok []
      | (Some (Ok record), r') => rest ← collect fuel r'; mret (record :: rest)
      | (Some (Err e), _) => Err e
      | (Some Panic, _) => Panic
      end
  end.

(** A consumer that keeps the records it got before the stream ended: the
    items of the iterator up to its first [None] or [Err]. *)
Fixpoint drain (fuel : nat) (r : TraceReader)
    : list LogRecord * option (result TraceError LogRecord) :=
  match fuel with
  | O => ([], Some Panic)
  | S fuel =>
      match next r with
      | (None, _) => ([], None)
      | (Some (Ok record), r') => let '(l, e) := drain fuel r' in (record :: l, e)
      | (Some e, _) => ([], Some e)
      end
  end.

(** Every record takes more than one byte, so this is enough to drain any
    reader. *)
Definition collect_fuel (r : TraceReader) : nat := S (length (src_data (r_inner r))).

(** ** What a log is *)

Definition header_bytes (cmdline : list byte) : list byte :=
  MAGIC ++ le_bytes 2 FORMAT_VERSION ++
  le_bytes 2 (as_u 16 (BASE_HEADER_LEN + blen cmdline)) ++ cmdline.

Definition frame (sq : Z) (e : Event) : list byte :=
  let body := encode_body sq e in
  le_bytes 4 (as_u 32 (blen body)) ++ body ++ le_bytes 4 (crc32 body).

Fixpoint frames (sq : Z) (es : list Event) : list byte :=
  match es with
  | [] => []
  | e :: es => frame sq e ++ frames (sq + 1) es
  end.

Fixpoint number (sq : Z) (es : list Event) : list LogRecord :=
  match es with
  | [] => []
  | e :: es => mkRecord sq (as_written e) :: number (sq + 1) es
  end.

(** A recording session on a sink: header, then events. *)
Definition write_log (c : Cmdline) (es : list Event) (w : sink)
    : result TraceError unit * sink :=
  match create_with_cmdline (program c) (args c) w with
  | (Ok wr, _) => let '(r, wr') := append_all es wr in (r, w_inner wr')
  | (Err e, w') => (Err e, w')
  | (Panic, w') => (Panic, w')
  end.

Definition log_bytes (c : Cmdline) (es : list Event) : list byte :=
  header_bytes (encode_cmdline (program c) (args c)) ++ frames 0 es.

(** An event whose body the reader accepts. *)
Definition event_fits (e : Event) : Prop :=
  event_wf e ∧ BODY_PREFIX_LEN_V3 + blen (payload e) ≤ MAX_BODY_LEN.

End Log.

(** ** Lemmas: filling a buffer *)

Lemma read_exact_or_eof_loop_spec fuel n acc s :
  (read_fuel n s ≤ fuel)%nat →
  let '(r, s') := read_exact_or_eof_loop fuel n acc s in
  match r with
  | Ok (Full bs) => bs = acc ++ take n (src_data s) ∧ (n ≤ length (src_data s))%nat ∧
                    src_data s' = drop n (src_data s)
  | Ok Partial => (length (src_data s) < n)%nat ∧ (acc ≠ [] ∨ src_data s ≠ [])
  | Ok Eof => acc = [] ∧ src_data s = [] ∧ src_data s' = [] ∧ (0 < n)%nat
  | Err (TraceIo _) => only_chunks s = false
  | _ => False
  end ∧ (only_chunks s = true → only_chunks s' = true).
Proof.
  revert n acc s. induction fuel as [|fuel IH]; intros n acc s Hf.
  { unfold read_fuel in Hf. lia. }
  destruct n as [|n]; cbn [read_exact_or_eof_loop].
  { rewrite take_0, drop_0, app_nil_r. split_and!; try done; lia. }
  destruct (read (S n) s) as [r s1] eqn:Hr.
  pose proof (read_progress (S n) _ _ _ ltac:(lia) Hr) as Hp.
  pose proof (read_flags _ _ _ _ Hr) as [Hoc _].
  destruct r as [[|b bs]|e|].
  - apply read_nil_eof in Hr as [Hd Hd']; [|lia]. rewrite Hd.
    case_bool_decide; (split; [split_and!; try done; try (simpl; lia); by left|]);
      intros H'; by destruct (Hoc H').
  - apply read_data_length in Hr as [Hd Hb]. set (k := length (b :: bs)) in *.
    specialize (IH (S n - k)%nat (acc ++ b :: bs) s1 ltac:(lia)).
    destruct (read_exact_or_eof_loop fuel (S n - k) (acc ++ b :: bs) s1) as [r' s2].
    destruct IH as [Hr' Hoc'].
    assert (Hlen : length (src_data s) = (k + length (src_data s1))%nat).
    { by rewrite Hd, length_app. }
    split; [|intros H'; apply Hoc'; by destruct (Hoc H')].
    destruct r' as [[bs'| |]|e|]; try done.
    + destruct Hr' as (-> & Hle & ->). split_and!; [|lia|].
      * rewrite <- app_assoc. f_equal. rewrite Hd, take_app. f_equal.
        by rewrite take_ge by (fold k; lia).
      * rewrite Hd, drop_app. by rewrite (drop_ge (b :: bs)) by (fold k; lia).
    + split; [lia|]. right. by rewrite Hd.
    + destruct Hr' as (Ha & _). by destruct acc.
    + destruct e; try done. destruct (only_chunks s); [|done].
      destruct (Hoc eq_refl). congruence.
  - split; [|intros H'; by destruct (Hoc H')].
    destruct (only_chunks s); [|done]. by destruct (Hoc eq_refl) as [_ [? [=]]].
  - by pose proof (read_no_panic (S n) s) as H; rewrite Hr in H.
Qed.

Lemma read_exact_or_eof_spec n s :
  let '(r, s') := read_exact_or_eof n s in
  match r with
  | Ok (Full bs) => bs = take n (src_data s) ∧ (n ≤ length (src_data s))%nat ∧
                    src_data s' = drop n (src_data s)
  | Ok Partial => (0 < length (src_data s) < n)%nat
  | Ok Eof => src_data s = [] ∧ src_data s' = [] ∧ (0 < n)%nat
  | Err (TraceIo _) => only_chunks s = false
  | _ => False
  end ∧ (only_chunks s = true → only_chunks s' = true).
Proof.
  pose proof (read_exact_or_eof_loop_spec (read_fuel n s) n [] s ltac:(done)) as H.
  unfold read_exact_or_eof. destruct (read_exact_or_eof_loop _ _ _ _) as [r s'].
  destruct H as [H Hoc]. split; [|done]. destruct r as [[bs| |]|[]|]; try done.
  - destruct H as [? [?|?]]; [done|]. destruct (src_data s); [done|]. cbn in *. lia.
  - by destruct H as (_ & ? & ? & ?).
Qed.

Lemma read_exact_or_eof_app pre rest s :
  only_chunks s = true → src_data s = pre ++ rest → (0 < length pre)%nat →
  ∃ s', read_exact_or_eof (length pre) s = (Ok (Full pre), s') ∧
        src_data s' = rest ∧ only_chunks s' = true.
Proof.
  intros Hc Hd Hn. pose proof (read_exact_or_eof_spec (length pre) s) as H.
  destruct (read_exact_or_eof (length pre) s) as [r s']. destruct H as [H Hoc].
  rewrite Hd, length_app in H.
  destruct r as [[bs| |]|[]|]; try done; try congruence; try lia.
  - destruct H as (-> & _ & Hs'). rewrite take_app_length. rewrite drop_app_length in Hs'. eauto.
  - destruct H as [H _]. destruct pre; [cbn in *; lia|done].
Qed.

Lemma get_exact_app pre rest r :
  only_chunks (r_inner r) = true → src_data (r_inner r) = pre ++ rest →
  ∃ s', get_exact (length pre) r = (Ok pre, set_inner s' r) ∧
        src_data s' = rest ∧ only_chunks s' = true.
Proof.
  intros Hc Hd. destruct (read_exact_app pre rest _ Hc Hd) as (s' & H & ? & ?).
  exists s'. unfold get_exact. by rewrite H.
Qed.

(** ** Lemmas: one frame *)

Section Frames.
Context (crc32 : list byte → Z) (crc_range : ∀ bs, in_u 32 (crc32 bs)).

(** The reader is at the start of [data], having last accepted [last]. *)
Definition at_data (r : TraceReader) (v : Z) (last : option Z) (data : list byte) : Prop :=
  src_data (r_inner r) = data ∧ only_chunks (r_inner r) = true ∧
  r_version r = v ∧ r_last_seq r = last ∧ r_poisoned r = false.

Lemma event_fits_body sq e :
  event_fits e → blen (encode_body sq e) ≤ MAX_BODY_LEN ∧
  in_u 32 (blen (encode_body sq e)) ∧ min_body_len FORMAT_VERSION ≤ blen (encode_body sq e).
Proof.
  intros [_ H]. rewrite encode_body_length. pose proof (blen_nonneg (payload e)).
  unfold in_u, MAX_BODY_LEN, BODY_PREFIX_LEN_V3 in *.
  change (min_body_len FORMAT_VERSION) with 22. lia.
Qed.

Lemma read_record_frame r last sq e rest :
  event_fits e → in_u 64 sq → (∀ q, last = Some q → q < sq) →
  at_data r FORMAT_VERSION last (frame crc32 sq e ++ rest) →
  ∃ r', read_record crc32 r = (Ok (Some (mkRecord sq (as_written e))), r') ∧
        at_data r' FORMAT_VERSION (Some sq) rest.
Proof.
  intros He Hsq Hlast (Hd & Hc & Hv & Hl & Hp). pose proof He as [Hwf _].
  destruct (event_fits_body sq e He) as (Hmax & H32 & Hmin).
  unfold frame in Hd. set (body := encode_body sq e) in *.
  unfold as_u in Hd. rewrite Z.mod_small in Hd by done. rewrite <- !app_assoc in Hd.
  destruct (read_exact_or_eof_app (le_bytes 4 (blen body)) _ _ Hc Hd) as (s1 & H1 & Hd1 & Hc1).
  { rewrite length_le_bytes. lia. }
  rewrite length_le_bytes in H1. unfold read_record. rewrite H1. cbv zeta.
  rewrite le_u32 by done. cbn [r_version set_inner]. rewrite Hv.
  rewrite (proj2 (Z.ltb_ge _ _)), (proj2 (Z.ltb_ge _ _)) by done.
  replace (Z.to_nat (blen body)) with (length body) by (unfold blen; lia).
  unfold mbind at 1, stm_bind at 1.
  destruct (get_exact_app body (le_bytes 4 (crc32 body) ++ rest) (set_inner s1 r)) as
    (s2 & -> & Hd2 & Hc2); [done..|].
  unfold mbind at 1, stm_bind at 1.
  destruct (get_exact_app (le_bytes 4 (crc32 body)) rest (set_inner s2 (set_inner s1 r))) as
    (s3 & H3 & Hd3 & Hc3); [done..|].
  rewrite length_le_bytes in H3. rewrite H3.
  unfold st_lift, mbind, stm_bind. unfold body. rewrite decode_encode_body, le_u32, Z.eqb_refl by done. cbn [negb seq].
  unfold check_monotonic. cbn [r_last_seq set_inner]. rewrite Hl.
  destruct last as [q|].
  - rewrite (proj2 (Z.leb_gt _ _)) by auto. eexists. by split; [reflexivity|].
  - eexists. by split; [reflexivity|].
Qed.

Lemma next_frame r last sq e rest :
  event_fits e → in_u 64 sq → (∀ q, last = Some q → q < sq) →
  at_data r FORMAT_VERSION last (frame crc32 sq e ++ rest) →
  ∃ r', next crc32 r = (Some (Ok (mkRecord sq (as_written e))), r') ∧
        at_data r' FORMAT_VERSION (Some sq) rest.
Proof.
  intros He Hsq Hl Hr. destruct (read_record_frame _ _ _ _ _ He Hsq Hl Hr) as (r' & H & ?).
  exists r'. unfold next. destruct Hr as (_ & _ & _ & _ & ->). by rewrite H.
Qed.

Lemma next_eof r v last :
  at_data r v last [] → ∃ r', next crc32 r = (None, r').
Proof.
  intros (Hd & Hc & _ & _ & Hp). unfold next, read_record. rewrite Hp.
  pose proof (read_exact_or_eof_spec 4 (r_inner r)) as H.
  destruct (read_exact_or_eof 4 (r_inner r)) as [res s]. rewrite Hd in H. cbn in H.
  destruct H as [H _]. destruct res as [[bs| |]|[]|]; try done; try lia.
  - eauto.
  - congruence.
Qed.

Lemma read_exact_short n s :
  only_chunks s = true → (length (src_data s) < n)%nat →
  ∃ s', read_exact n s = (Err UnexpectedEof, s').
Proof. intros Hc Hn. destruct (read_exact_chunks n s Hc) as (s' & _ & _ & H). eauto. Qed.

Lemma get_exact_short n r :
  only_chunks (r_inner r) = true → (length (src_data (r_inner r)) < n)%nat →
  ∃ r', get_exact n r = (Err Truncated, r').
Proof.
  intros Hc Hn. destruct (read_exact_short n _ Hc Hn) as [s' H].
  unfold get_exact. rewrite H. by eexists.
Qed.

(** A frame cut anywhere in its middle is reported as a truncation. *)
Lemma next_cut r v last sq e n :
  event_fits e → v = FORMAT_VERSION → (0 < n < length (frame crc32 sq e))%nat →
  at_data r v last (take n (frame crc32 sq e)) →
  ∃ r', next crc32 r = (Some (Err Truncated), r').
Proof.
  intros He -> Hn (Hd & Hc & Hv & Hl & Hp).
  destruct (event_fits_body sq e He) as (Hmax & H32 & Hmin).
  unfold next. rewrite Hp. unfold read_record.
  destruct (decide (n < 4)%nat) as [Hlt|Hge].
  { pose proof (read_exact_or_eof_spec 4 (r_inner r)) as H.
    destruct (read_exact_or_eof 4 (r_inner r)) as [res s].
    rewrite Hd, length_take in H. destruct H as [H _].
    destruct res as [[bs| |]|[]|]; try done; try lia; [eauto| |congruence].
    destruct H as [H _]. apply (f_equal length) in H. rewrite length_take in H. cbn in H. lia. }
  unfold frame in Hd, Hn. set (body := encode_body sq e) in *.
  unfold as_u in Hd. rewrite Z.mod_small in Hd by done.
  rewrite !length_app, !length_le_bytes in Hn.
  rewrite take_app, length_le_bytes, (take_ge (le_bytes 4 _)) in Hd
    by (rewrite length_le_bytes; lia).
  destruct (read_exact_or_eof_app (le_bytes 4 (blen body)) _ _ Hc Hd) as (s1 & H1 & Hd1 & Hc1).
  { rewrite length_le_bytes. lia. }
  rewrite length_le_bytes in H1. rewrite H1. cbv zeta.
  rewrite le_u32 by done. cbn [r_version set_inner]. rewrite Hv.
  rewrite (proj2 (Z.ltb_ge _ _)), (proj2 (Z.ltb_ge _ _)) by done.
  replace (Z.to_nat (blen body)) with (length body) by (unfold blen; lia).
  unfold mbind at 1, stm_bind at 1.
  destruct (decide (n - 4 < length body)%nat) as [Hb|Hb].
  { destruct (get_exact_short (length body) (set_inner s1 r)) as [r' ->]; [done| |by eexists].
    cbn [r_inner set_inner]. rewrite Hd1, take_app_le, length_take by lia. lia. }
  rewrite take_app, (take_ge body) in Hd1 by lia.
  destruct (get_exact_app body (take (n - 4 - length body) (le_bytes 4 (crc32 body)))
    (set_inner s1 r)) as (s2 & -> & Hd2 & Hc2); [done..|].
  unfold mbind at 1, stm_bind at 1.
  destruct (get_exact_short 4 (set_inner s2 (set_inner s1 r))) as [r' ->]; [done| |by eexists].
  cbn [r_inner set_inner]. rewrite Hd2, length_take, length_le_bytes. lia.
Qed.

Lemma frame_length sq e : (0 < length (frame crc32 sq e))%nat.
Proof. unfold frame. rewrite !length_app, length_le_bytes. lia. Qed.

(** Draining a log of complete frames followed by [rest]. *)
Lemma collect_frames es : ∀ fuel r last sq rest,
  Forall event_fits es → 0 ≤ sq → sq + blen es ≤ 2 ^ 64 → (∀ q, last = Some q → q < sq) →
  at_data r FORMAT_VERSION last (frames crc32 sq es ++ rest) →
  ∃ r' last', at_data r' FORMAT_VERSION last' rest ∧
    (∀ q, last' = Some q → q < sq + blen es) ∧
    collect crc32 (length es + fuel) r =
      (tl ← collect crc32 fuel r'; mret (number sq es ++ tl)).
Proof.
  induction es as [|e es IH]; intros fuel r last sq rest Hes H0 Hsq Hl Hr.
  { exists r, last. split_and!; [done| |].
    - intros q Hq. specialize (Hl q Hq). rewrite blen_nil. lia.
    - cbn. by destruct (collect crc32 fuel r). }
  apply Forall_cons_iff in Hes as [He Hes]. rewrite blen_cons in Hsq.
  pose proof (blen_nonneg es). cbn [frames] in Hr. rewrite <- app_assoc in Hr.
  destruct (next_frame _ _ sq e _ He ltac:(unfold in_u; lia) Hl Hr) as (r1 & Hn & Hr1).
  destruct (IH fuel r1 (Some sq) (sq + 1) rest) as (r' & last' & Ha & Hl' & Hcol);
    [done|lia|lia|intros q [= <-]; lia|done|].
  exists r', last'. split_and!; [done| |].
  - intros q Hq. specialize (Hl' q Hq). rewrite blen_cons. lia.
  - cbn [length Nat.add collect]. rewrite Hn, Hcol.
    by destruct (collect crc32 fuel r').
Qed.

(** ** Lemmas: any input at all *)

Lemma get_exact_spec n r :
  let '(res, r') := get_exact n r in
  (∃ s', r' = set_inner s' r) ∧
  match res with
  | Ok bs => bs = take n (src_data (r_inner r)) ∧ (n ≤ length (src_data (r_inner r)))%nat ∧
             src_data (r_inner r') = drop n (src_data (r_inner r))
  | Err e => e = Truncated
  | Panic => False
  end.
Proof.
  unfold get_exact. pose proof (read_exact_spec n (r_inner r)) as H.
  destruct (read_exact n (r_inner r)) as [res s]. destruct H as (_ & H & _).
  split; [eauto|]. by destruct res as [bs|[]|].
Qed.

(** What an accepted record was decoded from: a length prefix within bounds, a
    body, and the checksum of that body. *)
Definition framed (v : Z) (data data' : list byte) (rec : LogRecord) : Prop :=
  ∃ len_buf body crc_buf,
    data = len_buf ++ body ++ crc_buf ++ data' ∧ length len_buf = 4%nat ∧
    length crc_buf = 4%nat ∧ blen body = le_value len_buf ∧
    min_body_len v ≤ blen body ≤ MAX_BODY_LEN ∧
    crc32 body = le_value crc_buf ∧ decode_body v body = Ok rec.

Lemma take_drop_split {A} n (l : list A) :
  (n ≤ length l)%nat → l = take n l ++ drop n l ∧ length (take n l) = n.
Proof. intros. rewrite take_drop, length_take. split; [done|lia]. Qed.

Lemma check_monotonic_spec sq r :
  match check_monotonic sq r with
  | (Ok _, r') => r' = set_last_seq sq r ∧ ∀ q, r_last_seq r = Some q → q < sq
  | (Err e, r') => r' = r ∧ ∃ q, r_last_seq r = Some q ∧ sq ≤ q ∧ e = NonMonotonicSequence sq q
  | (Panic, _) => False
  end.
Proof.
  unfold check_monotonic. destruct (r_last_seq r) as [q|]; [|done].
  destruct (sq <=? q) eqn:E; zbool; split; eauto. intros q' [= <-]. done.
Qed.

Lemma read_record_sound r :
  let '(res, r') := read_record crc32 r in
  match res with
  | Ok (Some rec) =>
      framed (r_version r) (src_data (r_inner r)) (src_data (r_inner r')) rec ∧
      r_version r' = r_version r ∧ r_poisoned r' = r_poisoned r ∧
      r_last_seq r' = Some (seq rec) ∧ (∀ q, r_last_seq r = Some q → q < seq rec)
  | Ok None => src_data (r_inner r) = []
  | Err _ => True
  | Panic => False
  end.
Proof.
  unfold read_record. pose proof (read_exact_or_eof_spec 4 (r_inner r)) as H.
  destruct (read_exact_or_eof 4 (r_inner r)) as [res s]. destruct H as [H _].
  destruct res as [[lb| |]|e|]; try done; [|by destruct H].
  destruct H as (Hlb & Hn & Hs). cbv zeta.
  destruct (_ <? min_body_len _) eqn:Emin; [done|].
  destruct (MAX_BODY_LEN <? _) eqn:Emax; [done|]. zbool.
  cbn [r_version set_inner] in Emin.
  unfold mbind at 1, stm_bind at 1.
  pose proof (get_exact_spec (Z.to_nat (le_value lb)) (set_inner s r)) as Hb.
  destruct (get_exact _ (set_inner s r)) as [[body|e|] r1]; [|done|by destruct Hb].
  destruct Hb as ([s1 ->] & Hbody & Hlen & Hs1). cbn [r_inner set_inner] in *.
  unfold mbind at 1, stm_bind at 1.
  match goal with |- context [get_exact 4 ?r] =>
    pose proof (get_exact_spec 4 r) as Hc; destruct (get_exact 4 r) as [[crc|e|] r2] end;
    [|done|by destruct Hc].
  destruct Hc as ([s2 ->] & Hcrc & Hlenc & Hs2). cbn [r_inner r_version set_inner] in *.
  unfold mbind, stm_bind, st_lift.
  destruct (take_drop_split 4 _ Hn) as [Hd Hl4].
  destruct (take_drop_split _ _ Hlen) as [Hd1 Hlb1].
  destruct (take_drop_split _ _ Hlenc) as [Hd2 Hlc].
  rewrite <- Hlb in Hd, Hl4. rewrite <- Hbody in Hd1, Hlb1. rewrite <- Hcrc in Hd2, Hlc.
  rewrite <- Hs in Hd. rewrite <- Hs1 in Hd1. rewrite <- Hs2 in Hd2.
  assert (Hbl : blen body = le_value lb).
  { pose proof (le_value_range lb). unfold blen. lia. }
  destruct (decode_body_total (r_version r) body) as [rec Hrec]; [lia|].
  rewrite Hrec. destruct (crc32 body =? le_value crc) eqn:Ecrc; cbn [negb]; [|done].
  zbool. match goal with |- context [check_monotonic ?a ?b] =>
    pose proof (check_monotonic_spec a b) as Hm; destruct (check_monotonic a b) as [[[]|e|] r3] end;
    [|done|done].
  destruct Hm as [-> Hm]. split_and!; try done.
  exists lb, body, crc. split_and!; try done; try lia.
  cbn [r_inner set_last_seq set_inner]. by rewrite Hd, Hd1, Hd2 at 1.
Qed.

Lemma next_sound r :
  let '(res, r') := next crc32 r in
  match res with
  | Some (Ok rec) =>
      framed (r_version r) (src_data (r_inner r)) (src_data (r_inner r')) rec ∧
      r_version r' = r_version r ∧ r_poisoned r' = false ∧
      r_last_seq r' = Some (seq rec) ∧ (∀ q, r_last_seq r = Some q → q < seq rec)
  | Some (Err _) => r_poisoned r' = true
  | Some Panic => False
  | None => True
  end.
Proof.
  unfold next. destruct (r_poisoned r) eqn:Ep; [done|].
  pose proof (read_record_sound r) as H.
  destruct (read_record crc32 r) as [[[rec|]|e|] r']; try done.
  by rewrite Ep in H.
Qed.

Lemma framed_length v data data' rec :
  framed v data data' rec → (length data' < length data)%nat.
Proof.
  intros (lb & body & crc & -> & Hl & Hc & _). rewrite !length_app, Hl, Hc. lia.
Qed.

End Frames.

(** ** Lemmas: the writer *)

Section WriterLemmas.
Context {I : Type} {WI : Write I} {WL : WriteLaws I}.

Lemma put_spec bs (w : I) :
  let '(r, w') := put bs w in
  match r with
  | Ok _ => written w' = written w ++ bs
  | Err _ => ∃ k, written w' = written w ++ take k bs
  | Panic => False
  end.
Proof.
  unfold put. destruct (write_all bs w) as [r w'] eqn:Hw. apply write_all_law in Hw. by destruct r.
Qed.

(** A partial write of the middle of three fields is a prefix of all three. *)
Lemma take_middle {A} (a b c : list A) k :
  a ++ take k b = take (length a + Nat.min k (length b)) (a ++ b ++ c).
Proof.
  rewrite take_app_add, take_app_le by lia. f_equal.
  rewrite <- (take_ge b (length b)) at 1 by lia. by rewrite take_take.
Qed.

Lemma wput_spec bs (w : TraceWriter I) :
  let '(r, w') := wput bs w in
  next_seq w' = next_seq w ∧
  match r with
  | Ok _ => written (w_inner w') = written (w_inner w) ++ bs
  | Err _ => ∃ k, written (w_inner w') = written (w_inner w) ++ take k bs
  | Panic => False
  end.
Proof.
  unfold wput. pose proof (put_spec bs (w_inner w)) as H.
  destruct (put bs (w_inner w)) as [r i]. done.
Qed.

Lemma write_header_success cl (w : I) wr w' :
  write_header cl w = (Ok wr, w') →
  written (w_inner wr) = written w ++ header_bytes cl ∧ next_seq wr = 0.
Proof.
  unfold write_header, header_bytes. intros Hx. st_inv.
  repeat match goal with
  | Hp : put ?bs ?x = (Ok _, ?y) |- _ =>
      let Hs := fresh "Hs" in pose proof (put_spec bs x) as Hs; rewrite Hp in Hs; clear Hp
  end.
  cbn. repeat match goal with
  | Hs : written ?x = _ |- context [written ?x] => rewrite Hs; clear Hs
  end. by rewrite <- !app_assoc.
Qed.


(** An append is all or nothing for the sequence counter: success writes
    exactly one frame and advances the counter by one; a failing sink keeps
    the counter, and what reached the sink is a prefix of that frame.  It panics
    only on the last number there is. *)
Lemma append_spec (crc32 : list byte → Z) (e : Event) (w : TraceWriter I) :
  let '(r, w') := append crc32 e w in
  match r with
  | Ok sq => sq = next_seq w ∧ next_seq w' = next_seq w + 1 ∧
      written (w_inner w') = written (w_inner w) ++ frame crc32 (next_seq w) e
  | Err _ => next_seq w' = next_seq w ∧ ∃ k,
      written (w_inner w') = written (w_inner w) ++ take k (frame crc32 (next_seq w) e)
  | Panic => 2 ^ 64 ≤ next_seq w + 1
  end.
Proof.
  unfold append, frame, mbind, stm_bind, st_gets.
  set (body := encode_body (next_seq w) e).
  pose proof (wput_spec (le_bytes 4 (as_u 32 (blen body))) w) as H1.
  destruct (wput _ w) as [[[]|?|] w1]; destruct H1 as [Hn1 H1]; [| |done].
  2:{ destruct H1 as [k ->]. split; [done|]. eexists. f_equal.
      apply (take_middle [] (le_bytes 4 (as_u 32 (blen body)))). }
  pose proof (wput_spec body w1) as H2.
  destruct (wput body w1) as [[[]|?|] w2]; destruct H2 as [Hn2 H2]; [| |done].
  2:{ destruct H2 as [k ->]. split; [congruence|]. eexists. rewrite H1, <- app_assoc.
      f_equal. apply take_middle. }
  pose proof (wput_spec (le_bytes 4 (crc32 body)) w2) as H3.
  destruct (wput _ w2) as [[[]|?|] w3]; destruct H3 as [Hn3 H3]; [| |done].
  - unfold st_lift, checked_add. destruct (Z.ltb_spec (next_seq w + 1) (2 ^ 64)) as [Hb|Hb]; [|exact Hb].
    cbn. rewrite H3, H2, H1, <- !app_assoc. done.
  - destruct H3 as [k ->]. split; [congruence|]. eexists.
    rewrite H2, H1, <- !app_assoc, (app_assoc _ body). f_equal.
    rewrite (app_assoc _ body), <- (app_nil_r (le_bytes 4 (crc32 body))) at 1.
    rewrite (app_nil_r (le_bytes 4 _)). rewrite <- (app_nil_r (le_bytes 4 (crc32 body))) at 2.
    apply take_middle.
Qed.


(** What every [write_all] keeps of the inner writer, the writer keeps. *)
Section Kept.
Context (P : I → Prop) (HP : ∀ bs (w : I) r w', write_all bs w = (r, w') → P w → P w').

Lemma put_kept bs (w : I) r w' : put bs w = (r, w') → P w → P w'.
Proof. unfold put. destruct (write_all bs w) as [r1 w1] eqn:Hw. intros [= <- <-]. by eapply HP. Qed.

Lemma wput_kept bs (w : TraceWriter I) r w' : wput bs w = (r, w') → P (w_inner w) → P (w_inner w').
Proof. unfold wput. destruct (put bs (w_inner w)) as [r1 i] eqn:Hw. intros [= <- <-]. by eapply put_kept. Qed.

Lemma append_kept crc32 e (w : TraceWriter I) q w' :
  append crc32 e w = (Ok q, w') → P (w_inner w) → P (w_inner w').
Proof. intros Hx Hw. unfold append in Hx. st_inv. cbn. eauto using wput_kept. Qed.

Lemma write_header_kept cl (w : I) wr w' : write_header cl w = (Ok wr, w') → P w → P (w_inner wr).
Proof. intros Hx Hw. unfold write_header in Hx. st_inv. cbn. eauto using put_kept. Qed.

End Kept.

End WriterLemmas.

Lemma write_header_ok cl d :
  write_header cl (Sink d []) =
    (Ok (mkWriter (Sink (d ++ header_bytes cl) []) 0), Sink (d ++ header_bytes cl) []).
Proof.
  unfold write_header, header_bytes, mbind, stm_bind, put, st_gets, write_all, sink_write.
  cbn [snk_script snk_data map_err]. by rewrite <- !app_assoc.
Qed.

Lemma append_ok crc32 e d sq :
  sq + 1 < 2 ^ 64 →
  append crc32 e (mkWriter (Sink d []) sq) =
    (Ok sq, mkWriter (Sink (d ++ frame crc32 sq e) []) (sq + 1)).
Proof.
  intros Hb%Z.ltb_lt. unfold append, frame, mbind, stm_bind, wput, put, st_gets, st_modify, write_all, sink_write.
  cbn [w_inner next_seq snk_script snk_data map_err mret stm_ret]. unfold st_lift, checked_add. rewrite Hb.
  cbn [expect]. by rewrite <- !app_assoc.
Qed.

Lemma append_all_ok crc32 es : ∀ d sq,
  0 ≤ sq → sq + blen es < 2 ^ 64 →
  append_all crc32 es (mkWriter (Sink d []) sq) =
    (Ok tt, mkWriter (Sink (d ++ frames crc32 sq es) []) (sq + blen es)).
Proof.
  induction es as [|e es IH]; intros d sq H0 Hs.
  { cbn. rewrite app_nil_r, blen_nil, Z.add_0_r. done. }
  rewrite blen_cons in *. pose proof (blen_nonneg es).
  cbn [append_all frames]. unfold mbind, stm_bind. rewrite append_ok by lia. rewrite IH by lia.
  rewrite <- app_assoc. do 2 f_equal. lia.
Qed.

Lemma write_log_ok crc32 c es :
  blen es < 2 ^ 64 →
  write_log crc32 c es (Sink [] []) = (Ok tt, Sink (log_bytes crc32 c es) []).
Proof.
  intros H. unfold write_log, create_with_cmdline. rewrite write_header_ok.
  rewrite append_all_ok by lia. done.
Qed.

(** ** Lemmas: the header *)

(** Reading back the fixed fields: what [open] sees is the wrapped length. *)
Lemma open_header cl data s :
  only_chunks s = true → src_data s = header_bytes cl ++ data →
  let header_len := as_u 16 (BASE_HEADER_LEN + blen cl) in
  let extra := Z.to_nat (header_len - BASE_HEADER_LEN) in
  (extra ≤ length (cl ++ data))%nat →
  ∃ s', src_data s' = drop extra (cl ++ data) ∧ only_chunks s' = true ∧
    open s =
      (cmdline ← (if bool_decide (take extra (cl ++ data) = []) then Ok None
                  else Some <$> decode_cmdline (take extra (cl ++ data)));
       Ok (mkReader s' FORMAT_VERSION cmdline None false)).
Proof.
  intros Hc Hd header_len extra Hx.
  assert (H16 : in_u 16 header_len) by (apply Z.mod_pos_bound; lia).
  unfold header_bytes in Hd. rewrite <- !app_assoc in Hd. fold header_len in Hd.
  set (base := MAGIC ++ le_bytes 2 FORMAT_VERSION ++ le_bytes 2 header_len).
  assert (Hd' : src_data s = base ++ cl ++ data).
  { rewrite Hd. unfold base. by rewrite <- !app_assoc. }
  destruct (read_exact_app base _ s Hc Hd') as (s1 & H1 & Hd1 & Hc1).
  destruct (read_exact_chunks extra s1 Hc1) as (s2 & Hc2 & H2 & _).
  rewrite Hd1 in H2. destruct (H2 Hx) as [H2' Hd2].
  exists s2. split_and!; [done..|].
  unfold open. change (Z.to_nat BASE_HEADER_LEN) with (length base). rewrite H1.
  cbn [map_err mbind result_bind].
  change (take 8 base) with MAGIC. rewrite bool_decide_true by done. cbn [negb].
  change (take 2 (drop 8 base)) with (le_bytes 2 FORMAT_VERSION).
  change (take 2 (drop 10 base)) with (le_bytes 2 header_len).
  rewrite !le_u16 by done. change (FORMAT_VERSION <? FORMAT_VERSION) with false.
  cbv iota. change (CMDLINE_MIN_VERSION <=? FORMAT_VERSION) with true. cbn [andb].
  replace (Z.to_nat (Z.max 0 (header_len - BASE_HEADER_LEN))) with extra by lia.
  rewrite H2'. cbn [map_err mbind result_bind].
  by case_bool_decide.
Qed.

(** A header whose command line fits the 16-bit length is read back. *)
Lemma open_log c s :
  cmdline_fits c → BASE_HEADER_LEN + blen (encode_cmdline (program c) (args c)) < 2 ^ 16 →
  ∀ data, only_chunks s = true →
  src_data s = header_bytes (encode_cmdline (program c) (args c)) ++ data →
  ∃ r, open s = Ok r ∧ r_cmdline r = Some c ∧
    at_data r FORMAT_VERSION None data.
Proof.
  intros Hfit Hlen data Hc Hd. set (cl := encode_cmdline (program c) (args c)) in *.
  assert (Hcl : 8 ≤ blen cl).
  { unfold cl, encode_cmdline. rewrite !blen_app, push_str_length, blen_le_bytes.
    pose proof (blen_nonneg (program c)).
    pose proof (blen_nonneg (concat (push_str <$> args c))). lia. }
  unfold BASE_HEADER_LEN in Hlen.
  assert (Hx : Z.to_nat (as_u 16 (BASE_HEADER_LEN + blen cl) - BASE_HEADER_LEN) = length cl).
  { unfold as_u, BASE_HEADER_LEN. rewrite Z.mod_small by lia. unfold blen. lia. }
  destruct (open_header cl data s Hc Hd) as (s' & Hd' & Hc' & Ho).
  { rewrite Hx, length_app. lia. }
  rewrite Hx, take_app_length in Ho. rewrite Hx, drop_app_length in Hd'.
  assert (Hne : cl ≠ []) by (intros E; rewrite E, blen_nil in Hcl; lia).
  rewrite bool_decide_false in Ho by done.
  rewrite <- (app_nil_r cl) in Ho. unfold cl in Ho. rewrite decode_encode_cmdline in Ho by done.
  eexists. split; [exact Ho|]. done.
Qed.

(** ** Lemmas: draining and cutting *)

Lemma drain_frames crc32 es : ∀ fuel r last sq rest,
  (∀ bs, in_u 32 (crc32 bs)) →
  Forall event_fits es → 0 ≤ sq → sq + blen es ≤ 2 ^ 64 → (∀ q, last = Some q → q < sq) →
  at_data r FORMAT_VERSION last (frames crc32 sq es ++ rest) →
  ∃ r' last', at_data r' FORMAT_VERSION last' rest ∧
    (∀ q, last' = Some q → q < sq + blen es) ∧
    drain crc32 (length es + fuel) r =
      (number sq es ++ (drain crc32 fuel r').1, (drain crc32 fuel r').2).
Proof.
  intros fuel r last sq rest Hcrc. revert fuel r last sq rest.
  induction es as [|e es IH]; intros fuel r last sq rest Hes H0 Hsq Hl Hr.
  { exists r, last. split_and!; [done| |].
    - intros q Hq. specialize (Hl q Hq). rewrite blen_nil. lia.
    - cbn. by destruct (drain crc32 fuel r). }
  apply Forall_cons_iff in Hes as [He Hes]. rewrite blen_cons in Hsq.
  pose proof (blen_nonneg es). cbn [frames] in Hr. rewrite <- app_assoc in Hr.
  destruct (next_frame crc32 Hcrc _ _ sq e _ He ltac:(unfold in_u; lia) Hl Hr) as (r1 & Hn & Hr1).
  destruct (IH fuel r1 (Some sq) (sq + 1) rest) as (r' & last' & Ha & Hl' & Hcol);
    [done|lia|lia|intros q [= <-]; lia|done|].
  exists r', last'. split_and!; [done| |].
  - intros q Hq. specialize (Hl' q Hq). rewrite blen_cons. lia.
  - cbn [length Nat.add drain]. rewrite Hn, Hcol. done.
Qed.

Lemma frames_app crc32 es1 es2 sq :
  frames crc32 sq (es1 ++ es2) = frames crc32 sq es1 ++ frames crc32 (sq + blen es1) es2.
Proof.
  revert sq. induction es1 as [|e es1 IH]; intros sq; cbn [frames app].
  - by rewrite blen_nil, Z.add_0_r.
  - rewrite IH, blen_cons, <- app_assoc. do 3 f_equal. lia.
Qed.

Lemma frames_long crc32 es sq : (length es ≤ length (frames crc32 sq es))%nat.
Proof.
  revert sq. induction es as [|e es IH]; intros sq; cbn [frames length]; [done|].
  rewrite length_app. pose proof (frame_length crc32 sq e). specialize (IH (sq + 1)). lia.
Qed.

(** Any cut of a sequence of frames is some complete frames and then nothing,
    or a nonempty strict prefix of the next one. *)
Lemma cut_frames crc32 es : ∀ sq n,
  (n ≤ length (frames crc32 sq es))%nat →
  ∃ k, (k ≤ length es)%nat ∧
    (length (frames crc32 sq (take k es)) ≤ n)%nat ∧
    (take n (frames crc32 sq es) = frames crc32 sq (take k es) ∨
     ∃ e m, es !! k = Some e ∧ (0 < m < length (frame crc32 (sq + Z.of_nat k) e))%nat ∧
       n = (length (frames crc32 sq (take k es)) + m)%nat ∧
       take n (frames crc32 sq es) =
         frames crc32 sq (take k es) ++ take m (frame crc32 (sq + Z.of_nat k) e)).
Proof.
  induction es as [|e es IH]; intros sq n Hn.
  { exists O. cbn in *. split_and!; [done|lia|left; by destruct n]. }
  cbn [frames] in *. rewrite length_app in Hn.
  destruct (decide (n < length (frame crc32 sq e))%nat) as [Hlt|Hge].
  - exists O. cbn [take frames length]. split_and!; [lia|lia|].
    destruct n as [|n]; [by left|right]. exists e, (S n).
    rewrite Z.add_0_r. split_and!; [done|lia|done|done|].
    by rewrite take_app_le by lia.
  - destruct (IH (sq + 1) (n - length (frame crc32 sq e))%nat) as (k & Hk & Hkn & H); [lia|].
    exists (S k). cbn [take frames length]. rewrite length_app.
    rewrite take_app, (take_ge (frame _ _ _)) by lia.
    split_and!; [lia|lia|]. destruct H as [->|(e' & m & He' & Hm & Hnm & ->)]; [by left|right].
    replace (sq + 1 + Z.of_nat k) with (sq + Z.of_nat (S k)) in * by lia.
    exists e', m. rewrite <- app_assoc. split_and!; try done; lia.
Qed.

Lemma frames_take_S crc32 es sq k e :
  es !! k = Some e →
  frames crc32 sq (take (S k) es) =
    frames crc32 sq (take k es) ++ frame crc32 (sq + Z.of_nat k) e.
Proof.
  intros He. pose proof (lookup_lt_Some _ _ _ He) as Hk.
  rewrite (take_S_r _ _ _ He), frames_app. cbn [frames]. rewrite app_nil_r.
  unfold blen. rewrite length_take_le by lia. done.
Qed.

(** ** Lemmas: draining arbitrary bytes *)

Lemma framed_split crc32 v data data' rec :
  framed crc32 v data data' rec →
  ∃ f, data = f ++ data' ∧ framed crc32 v f [] rec.
Proof.
  intros (lb & body & crc & -> & H). exists (lb ++ body ++ crc).
  split; [by rewrite <- !app_assoc|]. exists lb, body, crc. by rewrite app_nil_r.
Qed.

Lemma next_none_data crc32 r r' :
  r_poisoned r = false → next crc32 r = (None, r') → src_data (r_inner r) = [].
Proof.
  unfold next. intros ->. pose proof (read_record_sound crc32 r) as H.
  destruct (read_record crc32 r) as [[[rec|]|e|] r1]; try done.
Qed.

Lemma collect_sound crc32 fuel : ∀ r,
  (length (src_data (r_inner r)) < fuel)%nat → r_poisoned r = false →
  collect crc32 fuel r ≠ Panic ∧
  ∀ rs, collect crc32 fuel r = Ok rs →
    StronglySorted Z.lt (seq <$> rs) ∧
    (∀ q, r_last_seq r = Some q → Forall (Z.lt q) (seq <$> rs)) ∧
    ∃ fs, concat fs = src_data (r_inner r) ∧
      Forall2 (λ f rec, framed crc32 (r_version r) f [] rec) fs rs.
Proof.
  induction fuel as [|fuel IH]; intros r Hf Hp; [lia|]. cbn [collect].
  pose proof (next_sound crc32 r) as Hs. pose proof (next_none_data crc32 r) as Hnone.
  destruct (next crc32 r) as [[[rec|e|]|] r']; try done.
  - destruct Hs as (Hfr & Hv & Hp' & Hl' & Hlt). pose proof (framed_length _ _ _ _ _ Hfr).
    destruct (IH r' ltac:(lia) Hp') as [Hnp Hok]. rewrite Hv in Hok.
    destruct (collect crc32 fuel r') as [rs'|e|]; cbn; try done.
    split; [done|]. intros rs [= <-]. destruct (Hok rs' eq_refl) as (Hss & Hlb & fs & Hc & Hf2).
    specialize (Hlb _ Hl'). rewrite fmap_cons. split_and!.
    + by constructor.
    + intros q Hq. specialize (Hlt q Hq). constructor; [done|].
      eapply Forall_impl; [exact Hlb|]. cbn. lia.
    + apply framed_split in Hfr as (f & Hd & Hfr). exists (f :: fs).
      cbn [concat]. rewrite Hc. split; [done|]. by constructor.
  - split; [done|]. intros rs [= <-]. split_and!; try by constructor.
    exists []. by rewrite (Hnone r' Hp eq_refl).
Qed.

Lemma open_unpoisoned s r : open s = Ok r → r_poisoned r = false.
Proof.
  unfold open. destruct (read_exact _ s) as [[base|e|] s1]; cbn; try done.
  destruct (negb _); [done|]. destruct (_ <? _); [done|].
  destruct (read_exact _ s1) as [[ex|e|] s2]; cbn; try done.
  destruct (_ && _); cbn.
  - destruct (decode_cmdline ex); cbn; try done. by intros [= <-].
  - by intros [= <-].
Qed.

Lemma open_total s : open s ≠ Panic.
Proof.
  unfold open. pose proof (read_exact_spec (Z.to_nat BASE_HEADER_LEN) s) as H.
  destruct (read_exact _ s) as [[base|e|] s1]; cbn; try done; [|by destruct H as (_ & [] & _)].
  clear H. destruct (negb _); [done|]. destruct (_ <? _); [done|].
  match goal with |- context [read_exact ?n s1] => pose proof (read_exact_spec n s1) as H end.
  destruct (read_exact _ s1) as [[ex|e|] s2]; cbn; try done; [|by destruct H as (_ & [] & _)].
  destruct (_ && _); cbn; [|done].
  by destruct (decode_cmdline_total ex) as [->|[c ->]].
Qed.

Lemma next_poisoned crc32 r : r_poisoned r = true → next crc32 r = (None, r).
Proof. unfold next. by intros ->. Qed.

(** Strict prefixes of an encoded command line do not decode. *)
Lemma decode_cmdline_strict_prefix c buf k :
  cmdline_fits c → encode_cmdline (program c) (args c) = buf ++ k → k ≠ [] →
  decode_cmdline buf = Err MalformedHeader.
Proof.
  intros Hfit Henc Hk. destruct (decode_cmdline_total buf) as [|[c' H]]; [done|exfalso].
  unfold decode_cmdline in H.
  destruct (read_str buf 0) as [[p1 q1]|e|] eqn:E1; cbn in H; try done.
  destruct (read_u32 buf q1) as [[n q2]|e|] eqn:E2; cbn in H; try done.
  destruct (read_args _ buf q2 n) as [[l q3]|e|] eqn:E3; cbn in H; try done.
  apply (read_str_prefix buf k) in E1 as [E1 B1]. apply (read_u32_prefix buf k) in E2 as [E2 B2].
  apply (read_args_prefix _ (S (length (buf ++ k))) buf k) in E3 as [E3 B3];
    [|rewrite length_app; lia|done].
  rewrite <- Henc in E1, E2, E3.
  destruct Hfit as ((Hp & Ha) & Hlp & Hla & Hls & Ht).
  apply (f_equal blen) in Henc. unfold encode_cmdline, as_u in *. cbn in B3.
  rewrite (Z.mod_small (blen (args c))) in * by done.
  rewrite read_str_start in E1 by done. injection E1 as <- <-.
  rewrite !blen_app in Henc, Ht. rewrite blen_le_bytes in Henc, Ht.
  pose proof (blen_nonneg (push_str (program c))).
  pose proof (blen_nonneg (concat (push_str <$> args c))).
  rewrite read_u32_at in E2 by (done || lia). injection E2 as <- <-.
  rewrite (app_assoc (push_str _)) in E3.
  replace (blen (push_str (program c)) + 4)
    with (blen (push_str (program c) ++ le_bytes 4 (blen (args c)))) in E3 by (blens; lia).
  rewrite <- (app_nil_r (concat _)) in E3. rewrite read_args_at in E3; [|done|done| |].
  - apply (f_equal (λ r, match r with Ok (_, q) => q | _ => 0 end)) in E3. cbv beta iota in E3.
    rewrite (blen_app (push_str _)), blen_le_bytes in E3.
    rewrite (blen_app buf k) in Henc. destruct k as [|b k]; [done|].
    rewrite blen_cons in Henc. pose proof (blen_nonneg k). lia.
  - pose proof (concat_push_length (args c)). unfold blen in *. rewrite !length_app. lia.
  - blens. lia.
Qed.

(** Reading back a whole log, however the source chops it up. *)
Lemma read_back crc32 c es s :
  (∀ bs, in_u 32 (crc32 bs)) → cmdline_fits c →
  BASE_HEADER_LEN + blen (encode_cmdline (program c) (args c)) < 2 ^ 16 →
  Forall event_fits es → blen es < 2 ^ 64 → only_chunks s = true →
  src_data s = log_bytes crc32 c es →
  ∃ r, open s = Ok r ∧ r_version r = FORMAT_VERSION ∧ r_cmdline r = Some c ∧
    collect crc32 (collect_fuel r) r = Ok (number 0 es).
Proof.
  intros Hcrc Hc Hlen Hes Hn Hs Hd. unfold log_bytes in Hd.
  destruct (open_log c s Hc Hlen _ Hs Hd) as (r & Ho & Hrc & Hr).
  exists r. split_and!; [done| |done|]; [by destruct Hr as (_ & _ & ? & _)|].
  pose proof (frames_long crc32 es 0) as Hf. pose proof Hr as (Hrd & _).
  unfold collect_fuel. rewrite Hrd.
  replace (S (length (frames crc32 0 es))) with
    (length es + S (length (frames crc32 0 es) - length es))%nat by lia.
  rewrite <- (app_nil_r (frames crc32 0 es)) in Hr.
  destruct (collect_frames crc32 Hcrc es
    (S (length (frames crc32 0 es) - length es)) r None 0 [] Hes) as (r' & last' & Ha & _ & ->);
    [lia|lia|done|done|].
  destruct (next_eof crc32 _ _ _ Ha) as [r'' H]. cbn [collect]. rewrite H.
  cbn. by rewrite app_nil_r.
Qed.

(** * Properties *)

(** C3. Record then read back: a command line and a sequence of events written
    to a healthy sink produce bytes that the reader, however its source chops
    them up, opens at the current version with the same command line, and
    drains to exactly those events, numbered from zero. *)
Theorem log_roundtrip (crc32 : list byte → Z) (c : Cmdline) (es : list Event) (s : source) :
  (∀ bs, in_u 32 (crc32 bs)) → cmdline_fits c →
  BASE_HEADER_LEN + blen (encode_cmdline (program c) (args c)) < 2 ^ 16 →
  Forall event_fits es → blen es < 2 ^ 64 → only_chunks s = true →
  write_log crc32 c es (Sink [] []) = (Ok tt, Sink (src_data s) []) →
  ∃ r, open s = Ok r ∧ r_version r = FORMAT_VERSION ∧ r_cmdline r = Some c ∧
    collect crc32 (collect_fuel r) r = Ok (number 0 es).
Proof.
  intros Hcrc Hc Hlen Hes Hn Hs Hw. rewrite write_log_ok in Hw by done.
  injection Hw as Hd. by eapply read_back.
Qed.

(** C12. Crash tolerance: a log cut at any byte after its header still yields
    every record whose frame is complete, in order, and then ends: cleanly if
    the cut falls between frames, with [Truncated] if it falls inside one. *)
Theorem log_truncation (crc32 : list byte → Z) (c : Cmdline) (es : list Event) (s : source) (n : nat) :
  (∀ bs, in_u 32 (crc32 bs)) → cmdline_fits c →
  BASE_HEADER_LEN + blen (encode_cmdline (program c) (args c)) < 2 ^ 16 →
  Forall event_fits es → blen es < 2 ^ 64 → only_chunks s = true →
  let header := header_bytes (encode_cmdline (program c) (args c)) in
  (length header ≤ n ≤ length (log_bytes crc32 c es))%nat →
  src_data s = take n (log_bytes crc32 c es) →
  ∃ r k, open s = Ok r ∧ (k ≤ length es)%nat ∧
    (length (header ++ frames crc32 0 (take k es)) ≤ n)%nat ∧
    (k = length es ∨ (n < length (header ++ frames crc32 0 (take (S k) es)))%nat) ∧
    drain crc32 (collect_fuel r) r =
      (number 0 (take k es),
       if decide (n = length (header ++ frames crc32 0 (take k es))) then None
       else Some (Err Truncated)).
Proof.
  intros Hcrc Hc Hlen Hes Hn Hs header Hrange Hd. unfold log_bytes in *. fold header in Hd, Hrange.
  rewrite length_app in Hrange. rewrite take_app, (take_ge header) in Hd by lia.
  destruct (open_log c s Hc Hlen _ Hs Hd) as (r & Ho & _ & Hr). exists r. clearbody header.
  destruct (cut_frames crc32 es 0 (n - length header)) as (k & Hk & Hkn & Hcut); [lia|].
  exists k. rewrite !length_app. pose proof (frames_long crc32 (take k es) 0) as Hfl.
  pose proof Hr as (Hrd & _). unfold collect_fuel. rewrite Hrd.
  rewrite length_take_le in Hfl by lia. rewrite (length_take_le (frames _ _ _)) by lia.
  set (F := frames crc32 0 (take k es)) in *.
  replace (S (n - length header)) with
    (length (take k es) + S (n - length header - k))%nat by (rewrite length_take_le; lia).
  assert (Hes' : Forall event_fits (take k es)) by by apply Forall_take.
  assert (Hb : 0 + blen (take k es) ≤ 2 ^ 64) by (unfold blen in *; rewrite length_take_le; lia).
  assert (Hmax : k = length es ∨ ∃ e, es !! k = Some e ∧
    (length F < length (frames crc32 0 (take (S k) es)))%nat).
  { destruct (decide (k = length es)) as [|Hne]; [by left|right].
    destruct (lookup_lt_is_Some_2 es k) as [e He]; [lia|]. exists e. split; [done|].
    rewrite (frames_take_S _ _ _ _ _ He), length_app. fold F.
    pose proof (frame_length crc32 (0 + Z.of_nat k) e). lia. }
  destruct Hcut as [Heq|(e & m & He & Hm & Hnm & Heq)]; rewrite Heq in Hr.
  - assert (Hnl : (n - length header)%nat = length F).
    { apply (f_equal length) in Heq. rewrite length_take_le in Heq by lia. done. }
    rewrite <- (app_nil_r F) in Hr.
    destruct (drain_frames crc32 (take k es) (S (n - length header - k)) r None 0 []
      Hcrc Hes' ltac:(lia) Hb ltac:(done) Hr) as (r' & last' & Ha & _ & ->).
    destruct (next_eof crc32 _ _ _ Ha) as [r'' Hx]. cbn [drain]. rewrite Hx.
    rewrite decide_True by lia. cbn. rewrite app_nil_r. split_and!; try done; try lia.
    destruct Hmax as [?|(e & _ & ?)]; [by left|right; lia].
  - destruct (drain_frames crc32 (take k es) (S (n - length header - k)) r None 0
      (take m (frame crc32 (0 + Z.of_nat k) e))
      Hcrc Hes' ltac:(lia) Hb ltac:(done) Hr) as (r' & last' & Ha & _ & ->).
    assert (Hef : event_fits e) by exact (Forall_lookup_1 _ _ _ _ Hes He).
    destruct (next_cut crc32 _ _ _ _ _ _ Hef eq_refl Hm Ha) as [r'' Hx].
    cbn [drain]. rewrite Hx. rewrite decide_False by lia. cbn. rewrite app_nil_r.
    split_and!; try done; try lia. right. rewrite (frames_take_S _ _ _ _ _ He), length_app.
    fold F. lia.
Qed.

(** The records a consumer has been given so far, and the reader it is left with. *)
Inductive advanced (crc32 : list byte → Z) : TraceReader → list LogRecord → TraceReader → Prop :=
| advanced_nil r : advanced crc32 r [] r
| advanced_cons r rec r1 rs r2 :
    next crc32 r = (Some (Ok rec), r1) → advanced crc32 r1 rs r2 → advanced crc32 r (rec :: rs) r2.

Lemma advanced_sound crc32 r rs r' :
  advanced crc32 r rs r' → r_poisoned r = false →
  r_poisoned r' = false ∧ StronglySorted Z.lt (seq <$> rs) ∧
  (∀ q, r_last_seq r = Some q → Forall (Z.lt q) (seq <$> rs)) ∧
  ∃ fs, concat fs ++ src_data (r_inner r') = src_data (r_inner r) ∧
    Forall2 (λ f rec, framed crc32 (r_version r) f [] rec) fs rs.
Proof.
  induction 1 as [r|r rec r1 rs r2 Hx _ IH]; intros Hp.
  { split_and!; [done|constructor|constructor|]. by exists []. }
  pose proof (next_sound crc32 r) as Hs. rewrite Hx in Hs. destruct Hs as (Hfr & Hv & Hp1 & Hl1 & Hlt).
  destruct (IH Hp1) as (Hp2 & Hss & Hlb & fs & Hc & Hf2). rewrite Hv in Hf2.
  specialize (Hlb _ Hl1). rewrite fmap_cons. split_and!; [done|by constructor| |].
  - intros q Hq. specialize (Hlt q Hq). constructor; [done|].
    eapply Forall_impl; [exact Hlb|]. cbn. lia.
  - apply framed_split in Hfr as (f & Hd & Hfr). exists (f :: fs).
    cbn [concat]. rewrite <- app_assoc, Hc. split; [done|]. by constructor.
Qed.

(** C9. The reader on arbitrary bytes: opening never panics, and draining an
    opened reader always terminates without panic.  Whatever it is asked for
    next, and whether or not an error comes later, the records it has given
    have strictly increasing sequence numbers, and each was decoded from a body
    of an allowed length whose checksum matches, the bodies and their frames
    making up all of the stream read so far (all of the stream, when the
    draining succeeds).  At any such point the next read does not panic, and
    an error poisons the reader: nothing comes after it. *)
Theorem reader_sound (crc32 : list byte → Z) (s : source) :
  open s ≠ Panic ∧
  ∀ r, open s = Ok r →
    collect crc32 (collect_fuel r) r ≠ Panic ∧
    (∀ rs, collect crc32 (collect_fuel r) r = Ok rs →
       StronglySorted Z.lt (seq <$> rs) ∧
       ∃ fs, concat fs = src_data (r_inner r) ∧
         Forall2 (λ f rec, framed crc32 (r_version r) f [] rec) fs rs) ∧
    (∀ rs r1, advanced crc32 r rs r1 →
       StronglySorted Z.lt (seq <$> rs) ∧
       (∃ fs, concat fs ++ src_data (r_inner r1) = src_data (r_inner r) ∧
         Forall2 (λ f rec, framed crc32 (r_version r) f [] rec) fs rs) ∧
       (next crc32 r1).1 ≠ Some Panic ∧
       ∀ e r2, next crc32 r1 = (Some (Err e), r2) → next crc32 r2 = (None, r2)).
Proof.
  split; [apply open_total|]. intros r Ho.
  destruct (collect_sound crc32 (collect_fuel r) r) as [Hnp Hok];
    [unfold collect_fuel; lia|by apply open_unpoisoned in Ho|].
  split; [done|]. split; [intros rs Hrs; by destruct (Hok rs Hrs) as (? & _ & ?)|].
  intros rs r1 Ha. apply advanced_sound in Ha as (_ & Hss & _ & Hfs); [|by eapply open_unpoisoned].
  split; [done|]. split; [done|]. pose proof (next_sound crc32 r1) as Hs.
  destruct (next crc32 r1) as [[[rec|e|]|] r2]; (split; [by try intros [=]|]); intros e' r' Hx; [done| |done..].
  injection Hx as _ <-. by apply next_poisoned.
Qed.

(** A header whose length wrapped: opening such a log either fails or yields a
    reader with no command line. *)
Lemma oversized_header (c : Cmdline) (s : source) (data : list byte) :
  cmdline_fits c → 2 ^ 16 ≤ BASE_HEADER_LEN + blen (encode_cmdline (program c) (args c)) →
  only_chunks s = true →
  src_data s = header_bytes (encode_cmdline (program c) (args c)) ++ data →
  open s = Err MalformedHeader ∨ ∃ r, open s = Ok r ∧ r_cmdline r = None.
Proof.
  intros Hfit Hbig Hc Hd. set (cl := encode_cmdline (program c) (args c)) in *.
  unfold BASE_HEADER_LEN in Hbig.
  assert (Hx : (Z.to_nat (as_u 16 (BASE_HEADER_LEN + blen cl) - BASE_HEADER_LEN) < length cl)%nat).
  { unfold as_u, BASE_HEADER_LEN.
    pose proof (Z.mod_pos_bound (12 + blen cl) (2 ^ 16) ltac:(lia)). unfold blen in *. lia. }
  destruct (open_header cl data s Hc Hd) as (s' & _ & _ & ->).
  { rewrite length_app. lia. }
  set (extra := Z.to_nat _) in *. rewrite take_app_le by lia.
  case_bool_decide; [right; by eexists|left].
  rewrite (decode_cmdline_strict_prefix c _ (drop extra cl)); [done|done| |].
  - by rewrite take_drop.
  - intros H'. apply (f_equal length) in H'. rewrite length_drop in H'. cbn in H'. lia.
Qed.

(** A read interrupted by a signal between two records ends the iteration
    for good, although no byte was lost: the length prefix is read with a loop
    that, unlike [read_exact], does not retry. *)
Theorem interrupted_between_records (crc32 : list byte → Z) (r : TraceReader) (sc : list read_step) :
  r_poisoned r = false → src_script (r_inner r) = ReadInterrupted :: sc →
  ∃ r', next crc32 r = (Some (Err (TraceIo InterruptedError)), r') ∧
    src_data (r_inner r') = src_data (r_inner r) ∧ next crc32 r' = (None, r') ∧
    ∀ n, read_exact (S n) (r_inner r) = read_exact (S n) (r_inner r').
Proof.
  destruct r as [[data sc'] v cl l p]. cbn. intros -> ->.
  unfold next, read_record, read_exact_or_eof, read_fuel. cbn.
  eexists. split_and!; [reflexivity|done|done|]. intros n.
  unfold read_exact, read_fuel. cbn. by rewrite Nat.add_succ_r.
Qed.

(** * Witnesses *)

(** [/bin/ls -l] with two events, the second without a thread. *)
Definition sample_cmdline : Cmdline :=
  mkCmdline [x2f; x62; x69; x6e; x2f; x6c; x73] [[x2d; x6c]].
Definition sample_events : list Event :=
  [Event_new_with_tid EvSyscallEnter 17 4242 [x01; x02; x03];
   Event_new (EvUnknown 999) 18 []].
Definition sample_source : source :=
  Source (log_bytes crc32_ieee sample_cmdline sample_events) [Chunk 0; Chunk 4; Chunk 2; Chunk 100].
Definition sample_cut : source :=
  Source (take 60 (log_bytes crc32_ieee sample_cmdline sample_events)) [Chunk 2].
(** One argument of 65600 bytes. *)
Definition huge_cmdline : Cmdline := mkCmdline [x61] [replicate (Z.to_nat 65600) x62].

Lemma sample_cmdline_fits : cmdline_fits sample_cmdline.
Proof.
  unfold cmdline_fits, cmdline_wf, sample_cmdline. cbn [program args]. split_and!.
  - reflexivity.
  - constructor; [reflexivity|constructor].
  - split; [apply Z.leb_le|apply Z.ltb_lt]; reflexivity.
  - split; [apply Z.leb_le|apply Z.ltb_lt]; reflexivity.
  - constructor; [|constructor]. split; [apply Z.leb_le|apply Z.ltb_lt]; reflexivity.
  - apply Z.ltb_lt. vm_compute. reflexivity.
Qed.

Lemma sample_events_fit : Forall event_fits sample_events.
Proof.
  unfold event_fits, event_wf, in_u.
  repeat constructor; first [apply Z.leb_le; reflexivity | apply Z.ltb_lt; reflexivity | cbn; lia].
Qed.

Lemma log_roundtrip_witness :
  ∃ r, open sample_source = Ok r ∧ r_version r = FORMAT_VERSION ∧
    r_cmdline r = Some sample_cmdline ∧
    collect crc32_ieee (collect_fuel r) r = Ok (number 0 sample_events).
Proof.
  apply (log_roundtrip crc32_ieee sample_cmdline sample_events sample_source).
  - exact crc32_ieee_range.
  - exact sample_cmdline_fits.
  - vm_compute. reflexivity.
  - exact sample_events_fit.
  - vm_compute. reflexivity.
  - reflexivity.
  - vm_compute. reflexivity.
Defined.

Lemma log_truncation_witness :
  ∃ r k, open sample_cut = Ok r ∧ (k ≤ 2)%nat ∧
    (length (header_bytes (encode_cmdline (program sample_cmdline) (args sample_cmdline)) ++
       frames crc32_ieee 0 (take k sample_events)) ≤ 60)%nat ∧
    (k = 2%nat ∨ (60 < length (header_bytes (encode_cmdline (program sample_cmdline) (args sample_cmdline)) ++
       frames crc32_ieee 0 (take (S k) sample_events)))%nat) ∧
    drain crc32_ieee (collect_fuel r) r =
      (number 0 (take k sample_events),
       if decide (60%nat = length (header_bytes (encode_cmdline (program sample_cmdline) (args sample_cmdline)) ++
         frames crc32_ieee 0 (take k sample_events))) then None else Some (Err Truncated)).
Proof.
  apply (log_truncation crc32_ieee sample_cmdline sample_events sample_cut 60).
  - exact crc32_ieee_range.
  - exact sample_cmdline_fits.
  - vm_compute. reflexivity.
  - exact sample_events_fit.
  - vm_compute. reflexivity.
  - reflexivity.
  - split; apply Nat.leb_le; vm_compute; reflexivity.
  - reflexivity.
Defined.

Lemma huge_cmdline_fits : cmdline_fits huge_cmdline.
Proof.
  assert (Hb : (0 <=? blen (replicate (Z.to_nat 65600) x62)) &&
    (blen (replicate (Z.to_nat 65600) x62) <? 2 ^ 32) = true) by (vm_compute; reflexivity).
  unfold cmdline_fits, cmdline_wf, huge_cmdline. cbn [program args]. split_and!.
  - reflexivity.
  - constructor; [vm_compute; reflexivity|constructor].
  - split; [apply Z.leb_le|apply Z.ltb_lt]; reflexivity.
  - split; [apply Z.leb_le|apply Z.ltb_lt]; reflexivity.
  - constructor; [|constructor]. apply andb_prop in Hb as [H1 H2].
    split; [exact (proj1 (Z.leb_le _ _) H1)|exact (proj1 (Z.ltb_lt _ _) H2)].
  - apply Z.ltb_lt. vm_compute. reflexivity.
Qed.

Lemma interrupted_between_records_witness :
  ∃ r', next crc32_ieee (mkReader (Source [x01] [ReadInterrupted]) 3 None None false) =
      (Some (Err (TraceIo InterruptedError)), r') ∧
    src_data (r_inner r') = [x01] ∧ next crc32_ieee r' = (None, r') ∧
    ∀ n, read_exact (S n) (Source [x01] [ReadInterrupted]) = read_exact (S n) (r_inner r').
Proof.
  apply (interrupted_between_records crc32_ieee
    (mkReader (Source [x01] [ReadInterrupted]) 3 None None false) []); reflexivity.
Defined.

(** The two records, and then two stray bytes. *)
Definition sample_damaged : source :=
  Source (log_bytes crc32_ieee sample_cmdline sample_events ++ [x00; x01]) [].
Definition damaged_reader : TraceReader :=
  match open sample_damaged with Ok r => r | _ => mkReader sample_damaged 0 None None false end.
Definition after_one : TraceReader := (next crc32_ieee damaged_reader).2.
Definition after_two : TraceReader := (next crc32_ieee after_one).2.

Lemma damaged_steps :
  open sample_damaged = Ok damaged_reader ∧
  advanced crc32_ieee damaged_reader (number 0 sample_events) after_two ∧
  (next crc32_ieee after_two).1 = Some (Err Truncated).
Proof.
  split; [vm_compute; reflexivity|]. split; [|vm_compute; reflexivity].
  apply (advanced_cons _ _ _ after_one); [vm_compute; reflexivity|].
  apply (advanced_cons _ _ _ after_two); [vm_compute; reflexivity|]. apply advanced_nil.
Qed.

Lemma reader_sound_witness :
  open sample_source ≠ Panic ∧ StronglySorted Z.lt (seq <$> number 0 sample_events) ∧
  (next crc32_ieee after_two).1 = Some (Err Truncated) ∧
  next crc32_ieee (next crc32_ieee after_two).2 = (None, (next crc32_ieee after_two).2).
Proof.
  split; [apply (proj1 (reader_sound crc32_ieee sample_source))|].
  destruct damaged_steps as (Ho & Ha & Hn).
  destruct (proj2 (reader_sound crc32_ieee sample_damaged) _ Ho) as (_ & _ & H).
  destruct (H _ _ Ha) as (H1 & _ & _ & H4). clear Ho Ha H.
  split; [exact H1|]. split; [exact Hn|]. apply (H4 Truncated).
  destruct (next crc32_ieee after_two) as [o r']. cbn [fst] in Hn. rewrite Hn. reflexivity.
Defined.
