(* ===== verification/Payload.v ===== *)
(** * Event payloads: [crates/recorder/src/capture/payload.rs]

    The portable wire encoding of syscall, scheduling and signal payloads.
    What a payload promises the rest of the program (decoding undoes encoding)
    is the class [Codec]; each struct has its instance. *)

From S2P Require Import Prelude.

(** ** Data *)

Record SyscallEnter := mkSyscallEnter { enter_nr : Z; enter_args : list Z }.
Record SyscallExit := mkSyscallExit { exit_nr : Z; exit_ret : Z; exit_data : list byte }.
Record SchedSwitch := mkSchedSwitch { switch_tid : Z }.
Record ThreadSpawn := mkThreadSpawn { parent_tid : Z; child_tid : Z }.
Record ThreadExit := mkThreadExit { exit_tid : Z }.
Record SignalDelivery := mkSignalDelivery { signum : Z }.

Inductive PayloadError :=
| TooShort (found need : Z)
| LengthMismatch.

#[export] Instance PayloadError_eq_dec : EqDecision PayloadError.
Proof. solve_decision. Defined.

Definition ENTER_LEN : Z := 8 + 6 * 8.
Definition EXIT_PREFIX_LEN : Z := 8 + 8 + 4.

(** ** Operations *)

Definition payload_read_u32 (p : list byte) (offset : Z) : result PayloadError Z :=
  let fin := offset + 4 in
  sl ← ok_or (TooShort (blen p) fin) (get_range p offset fin);
  mret (le_value sl).

Definition payload_read_i32 (p : list byte) (offset : Z) : result PayloadError Z :=
  let fin := offset + 4 in
  sl ← ok_or (TooShort (blen p) fin) (get_range p offset fin);
  mret (as_i 32 (le_value sl)).

Definition SchedSwitch_encode (x : SchedSwitch) : list byte := le_bytes 4 (switch_tid x).
Definition SchedSwitch_decode (p : list byte) : result PayloadError SchedSwitch :=
  t ← payload_read_u32 p 0; mret (mkSchedSwitch t).

Definition ThreadSpawn_encode (x : ThreadSpawn) : list byte :=
  le_bytes 4 (parent_tid x) ++ le_bytes 4 (child_tid x).
Definition ThreadSpawn_decode (p : list byte) : result PayloadError ThreadSpawn :=
  a ← payload_read_u32 p 0; b ← payload_read_u32 p 4; mret (mkThreadSpawn a b).

Definition ThreadExit_encode (x : ThreadExit) : list byte := le_bytes 4 (exit_tid x).
Definition ThreadExit_decode (p : list byte) : result PayloadError ThreadExit :=
  t ← payload_read_u32 p 0; mret (mkThreadExit t).

Definition SignalDelivery_encode (x : SignalDelivery) : list byte := le_bytes 4 (signum x).
Definition SignalDelivery_decode (p : list byte) : result PayloadError SignalDelivery :=
  t ← payload_read_i32 p 0; mret (mkSignalDelivery t).

Definition SyscallEnter_encode (x : SyscallEnter) : list byte :=
  le_bytes 8 (enter_nr x) ++ concat (le_bytes 8 <$> enter_args x).

(** [payload[start..start + 8]] of the argument loop. *)
Definition read_arg (p : list byte) (i : Z) : result PayloadError Z :=
  let start := 8 + i * 8 in
  sl ← expect (get_range p start (start + 8));
  mret (le_value sl).

Definition SyscallEnter_decode (p : list byte) : result PayloadError SyscallEnter :=
  if negb (blen p =? ENTER_LEN) then Err (TooShort (blen p) ENTER_LEN) else
  nr ← (sl ← expect (get_range p 0 8); mret (le_value sl));
  a0 ← read_arg p 0; a1 ← read_arg p 1; a2 ← read_arg p 2;
  a3 ← read_arg p 3; a4 ← read_arg p 4; a5 ← read_arg p 5;
  mret (mkSyscallEnter nr [a0; a1; a2; a3; a4; a5]).

Definition SyscallExit_encode (x : SyscallExit) : list byte :=
  le_bytes 8 (exit_nr x) ++ le_bytes 8 (exit_ret x) ++
  le_bytes 4 (as_u 32 (blen (exit_data x))) ++ exit_data x.

Definition SyscallExit_decode (p : list byte) : result PayloadError SyscallExit :=
  if blen p <? EXIT_PREFIX_LEN then Err (TooShort (blen p) EXIT_PREFIX_LEN) else
  nr ← expect (get_range p 0 8);
  ret ← expect (get_range p 8 16);
  data_len ← expect (get_range p 16 20);
  data ← expect (get_range p EXIT_PREFIX_LEN (blen p));
  if negb (blen data =? le_value data_len) then Err LengthMismatch
  else mret (mkSyscallExit (le_value nr) (as_i 64 (le_value ret)) data).

(** ** Well-formedness: the ranges Rust's types give *)

Definition enter_wf (x : SyscallEnter) : Prop :=
  in_u 64 (enter_nr x) ∧ length (enter_args x) = 6%nat ∧ Forall (in_u 64) (enter_args x).
Definition exit_wf (x : SyscallExit) : Prop :=
  in_u 64 (exit_nr x) ∧ in_i 64 (exit_ret x) ∧ in_u 32 (blen (exit_data x)).
Definition switch_wf (x : SchedSwitch) : Prop := in_u 32 (switch_tid x).
Definition spawn_wf (x : ThreadSpawn) : Prop := in_u 32 (parent_tid x) ∧ in_u 32 (child_tid x).
Definition thread_exit_wf (x : ThreadExit) : Prop := in_u 32 (exit_tid x).
Definition signal_wf (x : SignalDelivery) : Prop := in_i 32 (signum x).

(** ** The interface *)

(** What a payload type promises: well-formed values survive the wire. *)
Class Codec (A : Type) := {
  encode : A → list byte;
  decode : list byte → result PayloadError A;
  wf : A → Prop;
  decode_encode : ∀ a, wf a → decode (encode a) = Ok a;
}.

(** ** Lemmas *)

Lemma payload_read_u32_at pre v post off :
  in_u 32 v → off = blen pre →
  payload_read_u32 (pre ++ le_bytes 4 v ++ post) off = Ok v.
Proof.
  intros Hv ->. unfold payload_read_u32. rewrite get_range_app by (rewrite ?blen_le_bytes; lia).
  cbn. by rewrite le_u32.
Qed.

(** The fixed-size decoders read a prefix and ignore what follows. *)
Lemma payload_read_u32_start v post : in_u 32 v → payload_read_u32 (le_bytes 4 v ++ post) 0 = Ok v.
Proof. intros Hv. by apply (payload_read_u32_at [] v post). Qed.

Lemma payload_read_i32_start v post : in_i 32 v → payload_read_i32 (le_bytes 4 v ++ post) 0 = Ok v.
Proof.
  intros Hv. unfold payload_read_i32.
  rewrite get_range_here by (rewrite ?blen_le_bytes; lia). cbn. by rewrite le_i32.
Qed.

Lemma switch_decode_encode x post :
  switch_wf x → SchedSwitch_decode (SchedSwitch_encode x ++ post) = Ok x.
Proof.
  intros H. unfold SchedSwitch_decode, SchedSwitch_encode.
  rewrite payload_read_u32_start by done. by destruct x.
Qed.

Lemma spawn_decode_encode x post :
  spawn_wf x → ThreadSpawn_decode (ThreadSpawn_encode x ++ post) = Ok x.
Proof.
  intros [H1 H2]. unfold ThreadSpawn_decode, ThreadSpawn_encode. rewrite <- app_assoc.
  rewrite payload_read_u32_start by done. cbn [mbind result_bind].
  rewrite payload_read_u32_at by (done || by rewrite blen_le_bytes). by destruct x.
Qed.

Lemma thread_exit_decode_encode x post :
  thread_exit_wf x → ThreadExit_decode (ThreadExit_encode x ++ post) = Ok x.
Proof.
  intros H. unfold ThreadExit_decode, ThreadExit_encode.
  rewrite payload_read_u32_start by done. by destruct x.
Qed.

Lemma signal_decode_encode x post :
  signal_wf x → SignalDelivery_decode (SignalDelivery_encode x ++ post) = Ok x.
Proof.
  intros H. unfold SignalDelivery_decode, SignalDelivery_encode.
  rewrite payload_read_i32_start by done. by destruct x.
Qed.

Lemma six_args {A} (l : list A) :
  length l = 6%nat → ∃ a b c d e f, l = [a; b; c; d; e; f].
Proof. intros H. do 7 (destruct l as [|? l]; try discriminate H). by do 6 eexists. Qed.

Lemma enter_decode_encode x : enter_wf x → SyscallEnter_decode (SyscallEnter_encode x) = Ok x.
Proof.
  destruct x as [nr l]. intros (Hn & Hl & Hargs). cbn [enter_nr enter_args] in *.
  destruct (six_args l Hl) as (a & b & c & d & e & f & ->).
  repeat match goal with H : Forall _ (_ :: _) |- _ => apply Forall_cons_iff in H as [? H] end.
  unfold SyscallEnter_decode, SyscallEnter_encode, read_arg, ENTER_LEN.
  cbn [enter_nr enter_args fmap list_fmap concat]. rewrite app_nil_r.
  rewrite !blen_app, !blen_le_bytes.
  change (negb _) with false. cbv iota. slices. by rewrite !le_u64.
Qed.

(** What the exit decoder does with its three fixed fields and the rest. *)
Lemma exit_decode_fields nr ret n data :
  in_u 64 nr → in_i 64 ret → in_u 32 n →
  SyscallExit_decode (le_bytes 8 nr ++ le_bytes 8 ret ++ le_bytes 4 n ++ data) =
    if blen data =? n then Ok (mkSyscallExit nr ret data) else Err LengthMismatch.
Proof.
  intros Hn Hr Hd. unfold SyscallExit_decode, EXIT_PREFIX_LEN.
  pose proof (blen_nonneg data). rewrite !blen_app, !blen_le_bytes.
  rewrite (proj2 (Z.ltb_ge _ _)) by lia. slices.
  rewrite le_u64, le_u32, le_i64 by done. by destruct (blen data =? n).
Qed.

Lemma exit_encode_length x : blen (SyscallExit_encode x) = EXIT_PREFIX_LEN + blen (exit_data x).
Proof.
  unfold SyscallExit_encode. rewrite !blen_app, !blen_le_bytes. unfold EXIT_PREFIX_LEN. lia.
Qed.

Lemma enter_encode_length x : length (enter_args x) = 6%nat → blen (SyscallEnter_encode x) = 56.
Proof.
  intros Hl. destruct (six_args _ Hl) as (a & b & c & d & e & f & E).
  unfold SyscallEnter_encode. rewrite E. cbn [fmap list_fmap concat].
  by rewrite !blen_app, !blen_le_bytes.
Qed.

Lemma exit_decode_encode x : exit_wf x → SyscallExit_decode (SyscallExit_encode x) = Ok x.
Proof.
  destruct x as [nr ret data]. intros (Hn & Hr & Hd). unfold SyscallExit_encode.
  cbn [exit_nr exit_ret exit_data] in *. unfold as_u. rewrite (Z.mod_small (blen data)) by done.
  by rewrite exit_decode_fields, Z.eqb_refl by done.
Qed.

#[export] Instance SyscallEnter_codec : Codec SyscallEnter :=
  {| encode := SyscallEnter_encode; decode := SyscallEnter_decode; wf := enter_wf;
     decode_encode := enter_decode_encode |}.
#[export] Instance SyscallExit_codec : Codec SyscallExit :=
  {| encode := SyscallExit_encode; decode := SyscallExit_decode; wf := exit_wf;
     decode_encode := exit_decode_encode |}.
#[export] Program Instance SchedSwitch_codec : Codec SchedSwitch :=
  {| encode := SchedSwitch_encode; decode := SchedSwitch_decode; wf := switch_wf |}.
Next Obligation. intros a H. rewrite <- (app_nil_r (SchedSwitch_encode a)). by apply switch_decode_encode. Qed.
#[export] Program Instance ThreadSpawn_codec : Codec ThreadSpawn :=
  {| encode := ThreadSpawn_encode; decode := ThreadSpawn_decode; wf := spawn_wf |}.
Next Obligation. intros a H. rewrite <- (app_nil_r (ThreadSpawn_encode a)). by apply spawn_decode_encode. Qed.
#[export] Program Instance ThreadExit_codec : Codec ThreadExit :=
  {| encode := ThreadExit_encode; decode := ThreadExit_decode; wf := thread_exit_wf |}.
Next Obligation. intros a H. rewrite <- (app_nil_r (ThreadExit_encode a)). by apply thread_exit_decode_encode. Qed.
#[export] Program Instance SignalDelivery_codec : Codec SignalDelivery :=
  {| encode := SignalDelivery_encode; decode := SignalDelivery_decode; wf := signal_wf |}.
Next Obligation. intros a H. rewrite <- (app_nil_r (SignalDelivery_encode a)). by apply signal_decode_encode. Qed.

(** Two well-formed payloads with the same bytes are the same payload. *)
Lemma encode_inj `{Codec A} (a b : A) : wf a → wf b → encode a = encode b → a = b.
Proof.
  intros Ha Hb E. assert (Ok (E:=PayloadError) a = Ok b) as [= ->]; [|done].
  by rewrite <- (decode_encode a Ha), <- (decode_encode b Hb), E.
Qed.

(** ** Lemmas: decoding first *)

Lemma le_value_u w n bs :
  2 ^ w = 256 ^ Z.of_nat n → length bs = n → in_u w (le_value bs).
Proof. intros Hw <-. unfold in_u. rewrite Hw. apply le_value_range. Qed.

(** Re-encoding the signed reading of eight bytes gives the bytes back. *)
Lemma le_bytes_as_i bs : length bs = 8%nat → le_bytes 8 (as_i 64 (le_value bs)) = bs.
Proof.
  intros Hl. pose proof (le_value_range bs) as Hr. rewrite Hl in Hr.
  rewrite <- (le_bytes_le_value (le_bytes 8 _)), length_le_bytes, le_value_le_bytes.
  transitivity (le_bytes 8 (le_value bs)); [|by rewrite <- Hl at 1; apply le_bytes_le_value].
  f_equal. unfold as_i. change (2 ^ 64) with (256 ^ Z.of_nat 8).
  rewrite (Z.mod_small (le_value bs)) by done.
  destruct (_ <? _); [by apply Z.mod_small|].
  rewrite <- (Z.mod_add _ 1) by lia. rewrite Z.mul_1_l, Z.sub_add. by apply Z.mod_small.
Qed.

Lemma le_bytes_slice bs n : length bs = n → le_bytes n (le_value bs) = bs.
Proof. intros <-. apply le_bytes_le_value. Qed.

(** Splitting off the first [n] bytes of a buffer. *)
Lemma split_bytes (p : list byte) n :
  (n ≤ length p)%nat → ∃ a q, p = a ++ q ∧ length a = n ∧ length q = (length p - n)%nat.
Proof.
  intros H. exists (take n p), (drop n p). rewrite take_drop, length_take, length_drop.
  split_and!; [done|lia|done].
Qed.

(** Eight-byte chunks are encodings of [u64]s. *)
Lemma chunks_u64 k : ∀ p : list byte,
  length p = (8 * k)%nat →
  ∃ vs, length vs = k ∧ Forall (in_u 64) vs ∧ p = concat (le_bytes 8 <$> vs).
Proof.
  induction k as [|k IH]; intros p Hp.
  { exists []. destruct p; [done|discriminate Hp]. }
  destruct (split_bytes p 8) as (a & q & -> & Ha & Hq); [lia|].
  destruct (IH q) as (vs & Hl & Hf & ->); [lia|].
  exists (le_value a :: vs). split_and!.
  - by rewrite <- Hl.
  - constructor; [|done]. by apply (le_value_u 64 8).
  - rewrite fmap_cons. cbn [concat]. by rewrite le_bytes_slice.
Qed.

Lemma enter_decode_cases p :
  SyscallEnter_decode p = Err (TooShort (blen p) ENTER_LEN) ∨
  ∃ x, SyscallEnter_decode p = Ok x ∧ enter_wf x ∧ p = SyscallEnter_encode x.
Proof.
  destruct (blen p =? ENTER_LEN) eqn:El.
  - right. zbool. unfold ENTER_LEN, blen in El.
    destruct (chunks_u64 7 p) as ([|nr l] & Hl & Hf & ->); [lia|done|].
    apply Forall_cons_iff in Hf as [Hn Hf]. injection Hl as Hl.
    exists (mkSyscallEnter nr l). rewrite fmap_cons. cbn [concat].
    assert (Hw : enter_wf (mkSyscallEnter nr l)) by done.
    split_and!; [by apply (enter_decode_encode (mkSyscallEnter nr l))|done..].
  - left. unfold SyscallEnter_decode. by rewrite El.
Qed.

Lemma exit_decode_cases p :
  (∃ e, SyscallExit_decode p = Err e) ∨
  ∃ x, SyscallExit_decode p = Ok x ∧ exit_wf x ∧ p = SyscallExit_encode x.
Proof.
  destruct (blen p <? EXIT_PREFIX_LEN) eqn:El.
  { left. unfold SyscallExit_decode. rewrite El. eauto. }
  zbool. unfold EXIT_PREFIX_LEN, blen in El.
  destruct (split_bytes p 8) as (a & q & -> & Ha & Hq); [lia|].
  destruct (split_bytes q 8) as (b & q' & -> & Hb & Hq'); [lia|].
  destruct (split_bytes q' 4) as (c & data & -> & Hc & _); [lia|].
  rewrite <- (le_bytes_slice a 8 Ha), <- (le_bytes_as_i b Hb), <- (le_bytes_slice c 4 Hc).
  assert (Hn : in_u 64 (le_value a)) by by apply (le_value_u 64 8).
  assert (Hcl : in_u 32 (le_value c)) by by apply (le_value_u 32 4).
  assert (Hr : in_i 64 (as_i 64 (le_value b))) by by apply as_i_range.
  rewrite exit_decode_fields by done.
  destruct (blen data =? le_value c) eqn:Ed; [right|left; eauto]. zbool.
  eexists. split; [reflexivity|]. unfold exit_wf, SyscallExit_encode.
  cbn [exit_nr exit_ret exit_data]. rewrite Ed. unfold as_u.
  by rewrite (Z.mod_small (le_value c)).
Qed.

(** A read past the end of the buffer names the length it wanted. *)
Lemma payload_read_u32_short p off :
  0 ≤ off → blen p < off + 4 → payload_read_u32 p off = Err (TooShort (blen p) (off + 4)).
Proof. intros Ho Hs. unfold payload_read_u32. by rewrite (proj2 (get_range_None p off (off + 4))) by lia. Qed.

Lemma payload_read_i32_short p off :
  0 ≤ off → blen p < off + 4 → payload_read_i32 p off = Err (TooShort (blen p) (off + 4)).
Proof. intros Ho Hs. unfold payload_read_i32. by rewrite (proj2 (get_range_None p off (off + 4))) by lia. Qed.

Lemma blen_cut n (p : list byte) : (n < length p)%nat → blen (take n p) = Z.of_nat n.
Proof. intros Hn. unfold blen. rewrite length_take. lia. Qed.

(** A thread spawn cut anywhere is short of the word the cut falls in. *)
Lemma spawn_cut x n :
  (n < 8)%nat →
  ThreadSpawn_decode (take n (ThreadSpawn_encode x)) =
    Err (TooShort (Z.of_nat n) (if Z.of_nat n <? 4 then 4 else 8)).
Proof.
  intros Hn. unfold ThreadSpawn_decode, ThreadSpawn_encode.
  assert (Hb : blen (take n (le_bytes 4 (parent_tid x) ++ le_bytes 4 (child_tid x))) = Z.of_nat n).
  { apply blen_cut. rewrite length_app, !length_le_bytes. lia. }
  destruct (Z.ltb_spec (Z.of_nat n) 4) as [H4|H4].
  { rewrite (payload_read_u32_short _ 0) by (rewrite ?Hb; lia). cbn. by rewrite Hb. }
  rewrite (payload_read_u32_short _ 4), Hb by (rewrite ?Hb; lia).
  rewrite take_app, length_le_bytes, (take_ge (le_bytes 4 _)) by (rewrite length_le_bytes; lia).
  unfold payload_read_u32. by rewrite get_range_here by (rewrite ?blen_le_bytes; lia).
Qed.

(** A syscall exit cut inside its fixed fields is too short; cut inside its
    data, the length field betrays it. *)
Lemma exit_cut x n :
  exit_wf x → (n < length (SyscallExit_encode x))%nat →
  SyscallExit_decode (take n (SyscallExit_encode x)) =
    Err (if Z.of_nat n <? 20 then TooShort (Z.of_nat n) 20 else LengthMismatch).
Proof.
  intros Hx Hn. pose proof (blen_cut n _ Hn) as Hb.
  destruct (Z.ltb_spec (Z.of_nat n) 20) as [H20|H20].
  { unfold SyscallExit_decode. rewrite Hb. unfold EXIT_PREFIX_LEN.
    by rewrite (proj2 (Z.ltb_lt _ _)) by lia. }
  pose proof (exit_encode_length x) as Hl. unfold EXIT_PREFIX_LEN, blen in Hl.
  destruct x as [nr ret data], Hx as (Hnr & Hret & Hd). cbn [exit_nr exit_ret exit_data] in *.
  unfold SyscallExit_encode at 1. cbn [exit_nr exit_ret exit_data].
  rewrite !take_app, !length_le_bytes, !take_ge by (rewrite length_le_bytes; lia).
  unfold as_u. rewrite (Z.mod_small (blen data)) by done. rewrite exit_decode_fields by done.
  rewrite (proj2 (Z.eqb_neq _ _)); [done|]. unfold blen. rewrite length_take. lia.
Qed.

(** * Properties *)

(** C14. Every payload survives the wire, and no part of one is taken for the
    whole.  The fixed-size scheduling and signal payloads are read from the
    front of the buffer, so bytes appended by a newer writer are ignored; the
    two syscall payloads take the whole buffer.  A strict prefix of any
    encoding is refused with the error the code names: the length found and the
    length needed, or, for a syscall exit cut inside its data, the mismatch with
    its length field. *)
Theorem payload_roundtrip (post : list byte) (n : nat) :
  (∀ x, switch_wf x → SchedSwitch_decode (SchedSwitch_encode x ++ post) = Ok x ∧
    ((n < 4)%nat →
     SchedSwitch_decode (take n (SchedSwitch_encode x)) = Err (TooShort (Z.of_nat n) 4))) ∧
  (∀ x, spawn_wf x → ThreadSpawn_decode (ThreadSpawn_encode x ++ post) = Ok x ∧
    ((n < 8)%nat →
     ThreadSpawn_decode (take n (ThreadSpawn_encode x)) =
       Err (TooShort (Z.of_nat n) (if Z.of_nat n <? 4 then 4 else 8)))) ∧
  (∀ x, thread_exit_wf x → ThreadExit_decode (ThreadExit_encode x ++ post) = Ok x ∧
    ((n < 4)%nat →
     ThreadExit_decode (take n (ThreadExit_encode x)) = Err (TooShort (Z.of_nat n) 4))) ∧
  (∀ x, signal_wf x → SignalDelivery_decode (SignalDelivery_encode x ++ post) = Ok x ∧
    ((n < 4)%nat →
     SignalDelivery_decode (take n (SignalDelivery_encode x)) = Err (TooShort (Z.of_nat n) 4))) ∧
  (∀ x, enter_wf x → SyscallEnter_decode (SyscallEnter_encode x) = Ok x ∧
    ((n < 56)%nat →
     SyscallEnter_decode (take n (SyscallEnter_encode x)) = Err (TooShort (Z.of_nat n) 56))) ∧
  (∀ x, exit_wf x → SyscallExit_decode (SyscallExit_encode x) = Ok x ∧
    ((n < length (SyscallExit_encode x))%nat →
     SyscallExit_decode (take n (SyscallExit_encode x)) =
       Err (if Z.of_nat n <? 20 then TooShort (Z.of_nat n) 20 else LengthMismatch))).
Proof.
  split_and!; intros x Hx; (split; [auto using switch_decode_encode, spawn_decode_encode,
    thread_exit_decode_encode, signal_decode_encode, enter_decode_encode, exit_decode_encode|]);
    intros Hn; try (by apply spawn_cut); try (by apply exit_cut).
  1-3: match goal with
    | |- SchedSwitch_decode _ = _ => unfold SchedSwitch_decode, SchedSwitch_encode
    | |- ThreadExit_decode _ = _ => unfold ThreadExit_decode, ThreadExit_encode
    | |- _ => unfold SignalDelivery_decode, SignalDelivery_encode
    end;
    match goal with |- context [take ?m ?l] =>
      assert (Hb : blen (take m l) = Z.of_nat m) by (apply blen_cut; by rewrite length_le_bytes) end;
    rewrite ?(payload_read_u32_short _ 0), ?(payload_read_i32_short _ 0) by (rewrite ?Hb; lia);
    cbn; by rewrite Hb.
  unfold SyscallEnter_decode. pose proof (enter_encode_length x (proj1 (proj2 Hx))) as Hl.
  rewrite blen_cut by (unfold blen in Hl; lia). unfold ENTER_LEN.
  by rewrite (proj2 (Z.eqb_neq _ _)) by lia.
Qed.

(** The syscall payload decoders accept nothing but encodings: a buffer
    that decodes is, byte for byte, the encoding of the well-formed value it
    decodes to, and decoding never panics. *)
Theorem syscall_payload_exact (p : list byte) :
  (∀ x, SyscallEnter_decode p = Ok x → enter_wf x ∧ p = SyscallEnter_encode x) ∧
  (∀ x, SyscallExit_decode p = Ok x → exit_wf x ∧ p = SyscallExit_encode x) ∧
  SyscallEnter_decode p ≠ Panic ∧ SyscallExit_decode p ≠ Panic.
Proof.
  destruct (enter_decode_cases p) as [E|(x & E & Hx)],
    (exit_decode_cases p) as [[e F]|(y & F & Hy)]; rewrite E, F;
    split_and!; try done; by intros ? [= <-].
Qed.

(** * Witnesses *)

Lemma payload_roundtrip_witness :
  SyscallExit_decode (SyscallExit_encode (mkSyscallExit 0 (-11) [x07])) =
    Ok (mkSyscallExit 0 (-11) [x07]) ∧
  SyscallExit_decode (take 20 (SyscallExit_encode (mkSyscallExit 0 (-11) [x07]))) =
    Err LengthMismatch ∧
  ThreadSpawn_decode (take 6 (ThreadSpawn_encode (mkThreadSpawn 7 8))) = Err (TooShort 6 8).
Proof.
  destruct (payload_roundtrip [] 20) as (_ & _ & _ & _ & _ & H).
  destruct (payload_roundtrip [] 6) as (_ & H' & _).
  destruct (H (mkSyscallExit 0 (-11) [x07])) as [H1 H2]; [split_and!; vm_compute; done|].
  destruct (H' (mkThreadSpawn 7 8)) as [_ H3]; [split; vm_compute; done|].
  split_and!; [exact H1|apply H2; vm_compute; lia|apply H3; lia].
Defined.

Lemma syscall_payload_exact_witness :
  exit_wf (mkSyscallExit 63 (-1) []) ∧
  le_bytes 8 63 ++ replicate 8 xff ++ le_bytes 4 0 = SyscallExit_encode (mkSyscallExit 63 (-1) []).
Proof.
  apply (proj1 (proj2 (syscall_payload_exact (le_bytes 8 63 ++ replicate 8 xff ++ le_bytes 4 0)))).
  vm_compute. reflexivity.
Defined.
