(* ===== verification/Ptrace.v ===== *)
(** * The kernel as the tracer sees it

    The calls the recorder and the replay engine make through [nix] and
    [libc]: [ptrace], [waitpid], [process_vm_readv] and friends.  The kernel
    and the traced processes are a world [W] the calls act on; every call
    returns a value or an errno.  What the code relies on beyond the types is
    stated as laws, in the classes below. *)

From S2P Require Import Prelude.

(** ** Data *)

(** [nix::sys::wait::WaitStatus]; [OtherStatus] stands for [Continued] and
    [StillAlive], which the code ignores. *)
Inductive wait_status :=
| PtraceSyscall (pid : Z)
| PtraceEvent (pid ev : Z)
| Stopped (pid sig : Z)
| Exited (pid code : Z)
| Signaled (pid sig : Z)
| OtherStatus.

(** The x86-64 [user_regs_struct], the registers the code touches by name. *)
Record user_regs := mkRegs {
  orig_rax : Z; rax : Z;
  rdi : Z; rsi : Z; rdx : Z; r10 : Z; r8 : Z; r9 : Z;
  rip : Z;
  other_regs : list Z;
}.

#[export] Instance wait_status_eq_dec : EqDecision wait_status.
Proof. solve_decision. Defined.
#[export] Instance user_regs_eq_dec : EqDecision user_regs.
Proof. solve_decision. Defined.

Definition EINTR : Z := 4.
Definition ESRCH : Z := 3.
Definition ECHILD : Z := 10.
Definition EFAULT : Z := 14.
Definition SIGTRAP : Z := 5.
Definition SIGCHLD : Z := 17.
Definition SIGSTOP : Z := 19.
Definition PTRACE_EVENT_FORK : Z := 1.
Definition PTRACE_EVENT_VFORK : Z := 2.
Definition PTRACE_EVENT_CLONE : Z := 3.
Definition PTRACE_EVENT_EXEC : Z := 4.
Definition SYS_read : Z := 0.
Definition SYS_pread64 : Z := 17.
Definition SYS_recvfrom : Z := 45.
Definition SYS_clone : Z := 56.
Definition SYS_clock_gettime : Z := 228.
Definition SYS_getrandom : Z := 318.

(** [PTRACE_O_*] bits. *)
Definition O_TRACESYSGOOD : Z := 1.
Definition O_TRACEFORK : Z := 2.
Definition O_TRACEVFORK : Z := 4.
Definition O_TRACECLONE : Z := 8.
Definition O_TRACEEXEC : Z := 16.
Definition O_EXITKILL : Z := 0x100000.

(** ** The calls *)

(** A call: a value, or an errno.  A call has its result in the model; one that
    blocks for ever has none, so what is proved of a computation is about its
    runs in which every call returned.  [sys_waitpid_any] is the wait of the
    recorder's loop, for any tracee of the calling thread; [sys_waitpid p] the
    wait for one, with the flags its call site has, [__WALL] or none and never
    [WNOHANG]: the flags are constants there and change only which tracees can
    be waited for. *)
Definition kop (W A : Type) : Type := W → (A + Z) * W.

Class Kernel (W : Type) := {
  sys_waitpid_any : kop W wait_status;
  sys_waitpid : Z → kop W wait_status;
  sys_kill : Z → Z → kop W unit;
  sys_setaffinity : Z → Z → kop W unit;
  sys_spawn_traced : list byte → list (list byte) → kop W Z;
  pt_syscall : Z → option Z → kop W unit;
  pt_step : Z → kop W unit;
  pt_kill : Z → kop W unit;
  pt_getregs : Z → kop W user_regs;
  pt_setregs : Z → user_regs → kop W unit;
  pt_getevent : Z → kop W Z;
  pt_setoptions : Z → Z → kop W unit;
  pt_getsiginfo_code : Z → kop W Z;
  pt_pokeuser : Z → Z → Z → kop W unit;
  vm_readv : Z → Z → Z → kop W (list byte);
  vm_writev : Z → Z → list byte → kop W Z;
  timer_install : kop W unit;
  timer_arm : kop W unit;
  timer_disarm : kop W unit;
  clock_elapsed_ns : W → Z * W;
}.

(** ** What a tracer relies on

    The tracees that have stopped under the tracer and not yet died
    ([attached]) and those of them it has resumed since ([resumed]).  A stop is
    reported by a resumed tracee, which it leaves stopped, or is the first stop
    of a tracee not seen before; a death may be reported at any time (another
    thread's [exit_group], a [SIGKILL]).  This is [ptrace(2)], for programs in
    which no thread but the leader calls [execve] (which renames it). *)

Definition pid_ok (p : Z) : Prop := 0 < p < 2 ^ 31.

Definition word_regs (r : user_regs) : Prop :=
  in_u 64 (orig_rax r) ∧ in_u 64 (rax r) ∧
  Forall (in_u 64) [rdi r; rsi r; rdx r; r10 r; r8 r; r9 r] ∧ in_u 64 (rip r).

(** What a status says about the two sets. *)
Definition reported (s : wait_status) (a r a' r' : gset Z) : Prop :=
  match s with
  | PtraceSyscall p | PtraceEvent p _ => pid_ok p ∧ p ∈ r ∧ a' = a ∧ r' = (r ∖ {[p]})
  | Stopped p sig => pid_ok p ∧ in_i 32 sig ∧
      ((p ∈ r ∧ a' = a ∧ r' = (r ∖ {[p]})) ∨ (p ∉ a ∧ a' = ({[p]} ∪ a) ∧ r' = r))
  | Exited p _ | Signaled p _ => pid_ok p ∧ a' = (a ∖ {[p]}) ∧ r' = (r ∖ {[p]})
  | OtherStatus => a' = a ∧ r' = r
  end.

Class TracerLaws (W : Type) `{Kernel W} := {
  attached : W → gset Z;
  resumed : W → gset Z;
  same_tracees (w w' : W) : Prop := attached w' = attached w ∧ resumed w' = resumed w;
  waitpid_any_law w : match sys_waitpid_any w with
    | (inl s, w') => reported s (attached w) (resumed w) (attached w') (resumed w')
    | (inr _, w') => same_tracees w w' end;
  waitpid_law p w : match sys_waitpid p w with
    | (inl s, w') => reported s (attached w) (resumed w) (attached w') (resumed w')
    | (inr _, w') => same_tracees w w' end;
  syscall_law p sig w : match pt_syscall p sig w with
    | (inl _, w') => attached w' = attached w ∧ resumed w' = ({[p]} ∪ resumed w)
    | (inr _, w') => same_tracees w w' end;
  getregs_law p w : match pt_getregs p w with
    | (inl r, w') => word_regs r ∧ same_tracees w w'
    | (inr _, w') => same_tracees w w' end;
  readv_law p a n w : match vm_readv p a n w with
    | (inl bs, w') => blen bs ≤ Z.max 0 n ∧ same_tracees w w'
    | (inr _, w') => same_tracees w w' end;
  kill_law p sig w : same_tracees w (sys_kill p sig w).2;
  setaffinity_law p c w : same_tracees w (sys_setaffinity p c w).2;
  getevent_law p w : same_tracees w (pt_getevent p w).2;
  setoptions_law p o w : match pt_setoptions p o w with
    | (inl _, w') => p ∈ attached w ∧ same_tracees w w'
    | (inr _, w') => same_tracees w w' end;
  spawn_law prog args w : same_tracees w (sys_spawn_traced prog args w).2;
  install_law w : same_tracees w (timer_install w).2;
  arm_law w : same_tracees w (timer_arm w).2;
  disarm_law w : same_tracees w (timer_disarm w).2;
  clock_law w : same_tracees w (clock_elapsed_ns w).2;
}.
