(* ===== verification/Capture.v ===== *)
(** * Turning a stopped thread into trace events: [capture/syscall.rs],
    [capture/affinity.rs] and [capture/error.rs]

    The register reads, the syscall entry and exit events with the bytes the
    kernel wrote for the tracee, and the two interfaces the scheduler is
    written against: the kernel ([Ptrace.Kernel]) and a sink of events
    ([TraceSink]), which [TraceWriter] implements. *)

From S2P Require Import Prelude StdIo BufOut TraceFormat TraceLog Payload Ptrace.

(** ** Data *)

Inductive CaptureError :=
| CapSpawn (errno : Z)
| CapPtrace (errno : Z)
| CapAffinity (t cpu errno : Z)
| CapTraceeRead (addr len errno : Z)
| CapTrace (e : TraceError).

Record RecordOutcome := mkOutcome {
  exit_code : option Z;
  events_recorded : Z;
  threads_followed : Z;
}.

Record SyscallRegs := mkSyscallRegs { regs_nr : Z; regs_ret : Z; regs_args : list Z }.

Definition SERIALIZATION_CPU : Z := 0.
Definition TIMESPEC_LEN : Z := 16.

(** ** Operations *)

(** A call with [?] and a conversion of its errno. *)
Definition call {W E A} (f : Z → E) (k : kop W A) : stm W E A := λ w,
  let '(r, w) := k w in (match r with inl a => Ok a | inr e => Err (f e) end, w).

(** [args[i]] of a [[u64; 6]]. *)
Definition arg (l : list Z) (i : nat) : Z := default 0 (l !! i).

Definition enter_event (ts t : Z) (regs : SyscallRegs) : Event :=
  Event_new_with_tid EvSyscallEnter ts t
    (SyscallEnter_encode (mkSyscallEnter (regs_nr regs) (regs_args regs))).

(** [nr as i64] is matched against the constants; [ret as usize] of a positive
    [i64] is itself. *)
Definition kernel_written_region (nr : Z) (argv : list Z) (ret : Z) : option (Z * Z) :=
  let n := as_i 64 nr in
  if ((n =? SYS_read) || (n =? SYS_pread64) || (n =? SYS_recvfrom)) && (0 <? ret)
  then Some (arg argv 1, ret)
  else if (n =? SYS_getrandom) && (0 <? ret) then Some (arg argv 0, ret)
  else if (n =? SYS_clock_gettime) && (ret =? 0) then Some (arg argv 1, TIMESPEC_LEN)
  else None.

Section Calls.
Context {W : Type} `{Kernel W}.

(** The count [process_vm_readv] returns is dropped: what it did not fill of
    the zeroed buffer stays zero. *)
Definition read_tracee_memory (pid addr len : Z) : stm W CaptureError (list byte) :=
  bs ← call (CapTraceeRead addr len) (vm_readv pid addr len);
  mret (bs ++ replicate (Z.to_nat len - length bs) x00).

Definition exit_event (ts t pid : Z) (enter : SyscallRegs) (ret : Z) : stm W CaptureError Event :=
  data ← match kernel_written_region (regs_nr enter) (regs_args enter) ret with
         | Some (addr, len) => read_tracee_memory pid addr len
         | None => mret []
         end;
  mret (Event_new_with_tid EvSyscallExit ts t
          (SyscallExit_encode (mkSyscallExit (regs_nr enter) ret data))).

(** [read_syscall_regs] on x86-64. *)
Definition read_syscall_regs (pid : Z) : stm W CaptureError SyscallRegs :=
  regs ← call CapPtrace (pt_getregs pid);
  mret (mkSyscallRegs (orig_rax regs) (as_i 64 (rax regs))
          [rdi regs; rsi regs; rdx regs; r10 regs; r8 regs; r9 regs]).

(** [CpuSet::set] cannot fail for CPU 0. *)
Definition pin_to_serialization_cpu (pid : Z) : stm W CaptureError unit :=
  call (CapAffinity pid SERIALIZATION_CPU) (sys_setaffinity pid SERIALIZATION_CPU).

End Calls.

(** ** The sink of events *)

(** What the scheduler asks of the trace writer. *)
Class TraceSink (S : Type) := { sink_append : Event → stm S TraceError Z }.

(** [logged s es]: the sink holds exactly the events [es]. *)
Class TraceSinkLaws (S : Type) `{TraceSink S} := {
  logged : S → list Event → Prop;
  logged_append s es e q s' :
    logged s es → sink_append e s = (Ok q, s') → logged s' (es ++ [e]);
}.

(** The trace writer over a file that started with [d0]. *)
#[export] Instance TraceWriter_sink {I} {WI : Write I} (crc32 : list byte → Z) : TraceSink (TraceWriter I) :=
  {| sink_append := append crc32 |}.

Definition writer_logged {I} {WI : Write I} {WL : WriteLaws I} (crc32 : list byte → Z) (d0 : list byte)
    (w : TraceWriter I) (es : list Event) : Prop :=
  blen es < 2 ^ 64 →
  written (w_inner w) = d0 ++ frames crc32 0 es ∧ next_seq w = blen es.

(** A list of events, for running the scheduler on its own. *)
#[export] Instance list_sink : TraceSink (list Event) :=
  {| sink_append e := λ es, (Ok (blen es), es ++ [e]) |}.

#[export] Program Instance list_sink_laws : TraceSinkLaws (list Event) :=
  {| logged s es := s = es |}.
Next Obligation. cbn. intros s es e q s' -> [= _ <-]. done. Qed.

(** ** Lemmas *)

Lemma call_ok {W E A} (f : Z → E) (k : kop W A) w a w' : call f k w = (Ok a, w') → k w = (inl a, w').
Proof. unfold call. destruct (k w) as [[x|e] w1]; intros [= <- <-]. done. Qed.

Lemma call_run {W E A} (f : Z → E) (k : kop W A) w a w' : k w = (inl a, w') → call f k w = (Ok a, w').
Proof. unfold call. by intros ->. Qed.

Lemma append_success {I} `{WriteLaws I} crc32 e (w : TraceWriter I) q w' :
  append crc32 e w = (Ok q, w') →
  written (w_inner w') = written (w_inner w) ++ frame crc32 (next_seq w) e ∧
  next_seq w' = next_seq w + 1.
Proof. intros Ha. pose proof (append_spec crc32 e w) as Hs. rewrite Ha in Hs. by destruct Hs as (_ & ? & ?). Qed.

#[export] Program Instance TraceWriter_sink_laws {I} `{WriteLaws I} crc32 d0 :
    @TraceSinkLaws (TraceWriter I) (TraceWriter_sink crc32) :=
  {| logged := writer_logged crc32 d0 |}.
Next Obligation.
  intros I ?? crc32 d0 w es e q w' Hl Ha%append_success Hes. rewrite blen_app in Hes.
  change (blen [e]) with 1 in Hes. pose proof (blen_nonneg es).
  destruct Hl as [Hd Hq]; [lia|]. destruct Ha as [Hd' Hq'].
  rewrite Hd', Hd, Hq', Hq, frames_app, blen_app, <- app_assoc.
  cbn [frames]. rewrite app_nil_r. done.
Qed.

(** Over a [BufWriter]; whether its file accepts everything is kept too. *)
Definition buffered_logged (healthy : Prop) (crc32 : list byte → Z) (d0 : list byte) (w : TraceWriter bufwriter)
    (es : list Event) : Prop :=
  writer_logged crc32 d0 w es ∧ (healthy → accepts_all (bw_inner (w_inner w))).

Program Definition buffered_sink_laws healthy crc32 d0 :
    @TraceSinkLaws (TraceWriter bufwriter) (TraceWriter_sink crc32) :=
  {| logged := buffered_logged healthy crc32 d0 |}.
Next Obligation.
  intros healthy crc32 d0 w es e q w' [Hl Ha] Hx. split.
  - by apply (logged_append (TraceSinkLaws := TraceWriter_sink_laws crc32 d0) w es e q w').
  - intros Hh. eapply (append_kept (λ b, accepts_all (bw_inner b))); [|exact Hx|by apply Ha].
    intros bs b r b'. apply bw_accepts.
Qed.

(** A created buffered writer, and what its file holds once it is dropped. *)
Lemma create_buffered crc32 prog argv file (wr : TraceWriter bufwriter) b :
  snk_data file = [] → create_with_cmdline prog argv (BufWriter_new file) = (Ok wr, b) →
  buffered_logged (accepts_all file) crc32 (header_bytes (encode_cmdline prog argv)) wr [].
Proof.
  intros Hf Hx. split.
  - intros _. apply write_header_success in Hx as [-> ->]. cbn. unfold bw_written. cbn. by rewrite Hf, !app_nil_r.
  - intros Ha. eapply (write_header_kept (λ b, accepts_all (bw_inner b))); [|exact Hx|exact Ha].
    intros bs b' r b''. apply bw_accepts.
Qed.

Lemma buffered_file (w : bufwriter) (healthy : Prop) bs :
  written w = bs → (healthy → accepts_all (bw_inner w)) →
  (∃ n, snk_data (bw_drop w) = take n bs) ∧ (healthy → snk_data (bw_drop w) = bs).
Proof. intros <- Ha. split; [apply bw_drop_prefix|]. intros Hh. by apply bw_drop_whole, Ha. Qed.

Lemma call_spec {W E A} (f : Z → E) (k : kop W A) w :
  call f k w = (match (k w).1 with inl a => Ok a | inr e => Err (f e) end, (k w).2).
Proof. unfold call. by destruct (k w). Qed.

(** What a captured region holds: the bytes transferred, then zeros. *)
Lemma read_tracee_memory_ok `{Kernel W} pid addr len w data w' :
  read_tracee_memory pid addr len w = (Ok data, w') →
  ∃ bs, vm_readv pid addr len w = (inl bs, w') ∧
    data = bs ++ replicate (Z.to_nat len - length bs) x00.
Proof.
  unfold read_tracee_memory, mbind, stm_bind. rewrite call_spec.
  destruct (vm_readv pid addr len w) as [[bs|e] w1]; cbn; [|done]. intros [= <- <-]. eauto.
Qed.
