(* ===== verification/Timer.v ===== *)
(** * The preemption timer: [capture/timer.rs]

    The POSIX timer the scheduler arms before each wait, over the calls it is
    made of ([Timers]), and what it does to the wait: time, expiries and the
    tracer's own moves are a step relation over the view those calls give
    ([TimerLaws]).  The scheduler's model takes the timer as three kernel calls
    and the alarm as [EINTR]; this file is what stands behind them. *)

From S2P Require Import Prelude StdIo TraceFormat TraceLog Payload Ptrace Capture.

(** ** The calls *)

Inductive sig_handler := SigDfl | OnAlarm.
Record SigAction := MkSigAction { sa_handler : sig_handler; sa_restart : bool }.
Record sigevent := MkSigevent { sigev_notify : Z; sigev_signo : Z; sigev_notify_thread_id : Z }.
(** Seconds and nanoseconds. *)
Record itimerspec := MkItimerspec { it_interval : Z * Z; it_value : Z * Z }.

Definition SIGALRM : Z := 14.
Definition SIGEV_THREAD_ID : Z := 4.
Definition CLOCK_MONOTONIC : Z := 1.

Class Timers (W : Type) := {
  sys_sigaction : Z → SigAction → kop W unit;
  sys_gettid : W → Z;
  timer_create : Z → sigevent → kop W Z;
  timer_settime : Z → Z → itimerspec → kop W unit;
  timer_delete : Z → kop W unit;
}.

(** ** The timer *)

(** A [Duration] is its nanoseconds. *)
Definition Duration : Type := Z.
Definition as_secs (d : Duration) : Z := d / 10 ^ 9.
Definition subsec_nanos (d : Duration) : Z := d mod 10 ^ 9.

Definition DEFAULT_QUANTUM : Duration := 10 * 10 ^ 6.

Record PreemptionTimer := MkTimer { quantum : Duration; timer : Z }.

Section Operations.
Context {W : Type} {TW : Timers W}.
#[local] Abbreviation M := (stm W CaptureError).

Definition install (quantum : Duration) : M PreemptionTimer :=
  call CapPtrace (sys_sigaction SIGALRM (MkSigAction OnAlarm false));;
  tid ← st_gets sys_gettid;
  timer ← call CapPtrace (timer_create CLOCK_MONOTONIC (MkSigevent SIGEV_THREAD_ID SIGALRM tid));
  mret (MkTimer quantum timer).

Definition set_interval (self : PreemptionTimer) (dur : Duration) : M unit :=
  let value := (as_i 64 (as_secs dur), subsec_nanos dur) in
  call CapPtrace (timer_settime (timer self) 0 (MkItimerspec (0, 0) value)).

Definition arm (self : PreemptionTimer) : M unit := set_interval self (quantum self).
Definition disarm (self : PreemptionTimer) : M unit := set_interval self 0.

(** [Drop]: the result is not looked at. *)
Definition timer_drop (self : PreemptionTimer) : M unit := λ w, (Ok tt, (timer_delete (timer self) w).2).

End Operations.

(** ** Alarms *)

(** A timer that signals [SIGALRM] to one thread: the time left when it is
    armed, and its period. *)
Record alarm_timer := AlarmTimer { tm_tid : Z; tm_left : option Z; tm_interval : Z }.

(** Where the tracer's thread is: between calls, in [waitpid], or out of it with
    [EINTR] or a report; [Killed] is the default action of the signal. *)
Inductive phase := Busy | Blocked | Interrupted | Reported | Killed.

Record alarms := Alarms { al_action : SigAction; al_timers : gmap Z alarm_timer; al_phase : phase }.

Definition with_phase (p : phase) (a : alarms) : alarms := Alarms (al_action a) (al_timers a) p.
Definition with_timers (ts : gmap Z alarm_timer) (a : alarms) : alarms := Alarms (al_action a) ts (al_phase a).

(** A nanosecond passes. *)
Definition age (t : alarm_timer) : alarm_timer := AlarmTimer (tm_tid t) (Z.pred <$> tm_left t) (tm_interval t).

(** The signal arrives at the thread [tid]; [me] is the tracer's. *)
Definition alarm_phase (me tid : Z) (a : alarms) : phase :=
  match sa_handler (al_action a) with
  | SigDfl => Killed
  | OnAlarm =>
      if (tid =? me) && negb (sa_restart (al_action a))
      then match al_phase a with Blocked => Interrupted | p => p end
      else al_phase a
  end.

Definition expire (me id : Z) (t : alarm_timer) (a : alarms) : alarms :=
  let left := if tm_interval t =? 0 then None else Some (tm_interval t) in
  Alarms (al_action a) (<[id := AlarmTimer (tm_tid t) left (tm_interval t)]> (al_timers a)) (alarm_phase me (tm_tid t) a).

(** One step, and the nanoseconds it takes: no time passes an expiry by. *)
Inductive alarm_step (me : Z) : nat → alarms → alarms → Prop :=
| step_tick a : (∀ id t, al_timers a !! id = Some t → tm_left t ≠ Some 0) →
    alarm_step me 1 a (with_timers (age <$> al_timers a) a)
| step_expire a id t : al_timers a !! id = Some t → tm_left t = Some 0 → alarm_step me 0 a (expire me id t a)
| step_wait a : al_phase a = Busy → alarm_step me 0 a (with_phase Blocked a)
| step_report a : al_phase a = Blocked → alarm_step me 0 a (with_phase Reported a).

Inductive runs (me : Z) : nat → alarms → alarms → Prop :=
| runs_refl a : runs me 0 a a
| runs_step n m a b c : runs me n a b → alarm_step me m b c → runs me (n + m) a c.

(** The documented behaviour of the calls: [alarm_view] is the process's
    disposition and timers, the calling thread being between calls. *)
Class TimerLaws (W : Type) {TW : Timers W} := {
  alarm_view : W → alarms;
  sigaction_law act w w' : sys_sigaction SIGALRM act w = (inl tt, w') →
    sys_gettid w' = sys_gettid w ∧ alarm_view w' = Alarms act (al_timers (alarm_view w)) (al_phase (alarm_view w));
  create_law w id w' :
    timer_create CLOCK_MONOTONIC (MkSigevent SIGEV_THREAD_ID SIGALRM (sys_gettid w)) w = (inl id, w') →
    al_timers (alarm_view w) !! id = None ∧ sys_gettid w' = sys_gettid w ∧
    alarm_view w' = with_timers (<[id := AlarmTimer (sys_gettid w) None 0]> (al_timers (alarm_view w))) (alarm_view w);
  settime_law id i v w w' t : timer_settime id 0 (MkItimerspec i v) w = (inl tt, w') →
    al_timers (alarm_view w) !! id = Some t →
    let ns p := p.1 * 10 ^ 9 + p.2 in
    sys_gettid w' = sys_gettid w ∧
    alarm_view w' = with_timers (<[id := AlarmTimer (tm_tid t) (if ns v =? 0 then None else Some (ns v)) (ns i)]>
                       (al_timers (alarm_view w))) (alarm_view w);
  delete_law id w : alarm_view (timer_delete id w).2 = with_timers (delete id (al_timers (alarm_view w))) (alarm_view w);
}.

(** ** What an armed timer does *)

Section Alarm.
Context (me id : Z).

(** The tracer's one timer, one-shot, among other threads' timers, under the
    handler without [SA_RESTART]; [left] is the time on it. *)
Definition armed (left : option Z) (a : alarms) : Prop :=
  al_action a = MkSigAction OnAlarm false ∧ al_timers a !! id = Some (AlarmTimer me left 0) ∧
  ∀ j t, al_timers a !! j = Some t → tm_tid t = me → j = id.

(** A step keeps the timer; it goes off when its time is up, and only a wait
    under way sees it. *)
Lemma armed_step left m a b :
  armed left a → alarm_step me m a b →
  (m = 1%nat ∧ left ≠ Some 0 ∧ armed (Z.pred <$> left) b ∧ al_phase b = al_phase a) ∨
  (m = 0%nat ∧ left = Some 0 ∧ armed None b ∧ al_phase b = match al_phase a with Blocked => Interrupted | p => p end) ∨
  (m = 0%nat ∧ armed left b ∧
     (al_phase b = al_phase a ∨ al_phase a = Busy ∧ al_phase b = Blocked ∨ al_phase a = Blocked ∧ al_phase b = Reported)).
Proof.
  intros (Hact & Hid & Hone) Hs. destruct Hs as [a Hn|a j t Hj Ht|a Hp|a Hp].
  - left. split; [done|]. split; [by specialize (Hn _ _ Hid)|]. split; [|done]. split; [done|]. cbn. split.
    + by rewrite lookup_fmap, Hid.
    + intros j t. rewrite lookup_fmap_Some. intros (t' & <- & Hj). exact (Hone _ _ Hj).
  - right. assert (Hother : ∀ x i u, <[j := AlarmTimer (tm_tid t) x (tm_interval t)]> (al_timers a) !! i = Some u → tm_tid u = me → i = id).
    { intros x i u. rewrite lookup_insert_Some. intros [[<- <-]|[_ Hi]] Hm; [by eapply Hone|by eapply Hone]. }
    destruct (decide (j = id)) as [->|Hne].
    + left. rewrite Hid in Hj. injection Hj as <-. cbn in Ht. subst left. split; [done|]. split; [done|].
      split; [split; [done|]; split; [cbn; by rewrite lookup_insert_eq|exact (Hother _)]|].
      cbn. unfold alarm_phase. rewrite Hact. cbn. by rewrite Z.eqb_refl.
    + right. split; [done|]. split.
      * split; [done|]. split; [cbn; by rewrite lookup_insert_ne|exact (Hother _)].
      * left. cbn. unfold alarm_phase. rewrite Hact. cbn.
        destruct (Z.eqb_spec (tm_tid t) me) as [He|]; [|done]. by specialize (Hone _ _ Hj He).
  - right. right. split; [done|]. split; [done|]. auto.
  - right. right. split; [done|]. split; [done|]. auto.
Qed.

(** A wait begun before the alarm: under way until the alarm, and then over. *)
Lemma wait_ends d n a b :
  armed (Some d) a → 0 ≤ d → al_phase a = Blocked → runs me n a b →
  armed (Some (d - Z.of_nat n)) b ∧ Z.of_nat n ≤ d ∧ (al_phase b = Blocked ∨ al_phase b = Reported) ∨
  armed None b ∧ d ≤ Z.of_nat n ∧ (al_phase b = Interrupted ∨ al_phase b = Reported).
Proof.
  intros Ha Hd Hp Hr. induction Hr as [a|n m a b c Hr IH Hs].
  { left. rewrite Z.sub_0_r. split; [done|]. split; [lia|]. by left. }
  destruct (IH Ha Hp) as [(Hb & Hn & Hph)|(Hb & Hn & Hph)]; clear IH;
    destruct (armed_step _ _ _ _ Hb Hs) as [(-> & Hx & Hc & Hpc)|[(-> & Hx & Hc & Hpc)|(-> & Hc & Hpc)]].
  - left. cbn in Hc. replace (d - Z.of_nat (n + 1)) with (Z.pred (d - Z.of_nat n)) by lia.
    split; [done|]. rewrite Hpc. split; [|done]. assert (d - Z.of_nat n ≠ 0) by congruence. lia.
  - right. injection Hx as Hx. split; [done|]. split; [lia|]. rewrite Hpc. by destruct Hph as [->| ->]; auto.
  - left. rewrite Nat.add_0_r. split; [done|]. split; [done|]. intuition congruence.
  - right. split; [done|]. split; [lia|]. by rewrite Hpc.
  - done.
  - right. rewrite Nat.add_0_r. split; [done|]. split; [done|]. intuition congruence.
Qed.

(** Once the alarm is past, nothing interrupts. *)
Lemma alarm_past n a b :
  armed None a → (al_phase a = Busy ∨ al_phase a = Blocked ∨ al_phase a = Reported) → runs me n a b →
  armed None b ∧ (al_phase b = Busy ∨ al_phase b = Blocked ∨ al_phase b = Reported).
Proof.
  intros Ha Hp Hr. induction Hr as [a|n m a b c Hr IH Hs]; [done|]. destruct (IH Ha Hp) as [Hb Hph].
  destruct (armed_step _ _ _ _ Hb Hs) as [(-> & Hx & Hc & Hpc)|[(-> & Hx & _)|(-> & Hc & Hpc)]]; [|done|].
  - split; [done|]. by rewrite Hpc.
  - split; [done|]. intuition congruence.
Qed.

(** From the arming on. *)
Lemma alarm_runs q n a b :
  armed (Some q) a → 0 ≤ q → al_phase a = Busy → runs me n a b →
  armed (Some (q - Z.of_nat n)) b ∧ Z.of_nat n ≤ q ∧ (al_phase b = Busy ∨ al_phase b = Blocked ∨ al_phase b = Reported) ∨
  armed None b ∧ q ≤ Z.of_nat n ∧ al_phase b ≠ Killed.
Proof.
  intros Ha Hd Hp Hr. induction Hr as [a|n m a b c Hr IH Hs].
  { left. rewrite Z.sub_0_r. split; [done|]. split; [lia|]. by left. }
  destruct (IH Ha Hp) as [(Hb & Hn & Hph)|(Hb & Hn & Hph)]; clear IH;
    destruct (armed_step _ _ _ _ Hb Hs) as [(-> & Hx & Hc & Hpc)|[(-> & Hx & Hc & Hpc)|(-> & Hc & Hpc)]].
  - left. cbn in Hc. replace (q - Z.of_nat (n + 1)) with (Z.pred (q - Z.of_nat n)) by lia.
    split; [done|]. rewrite Hpc. split; [|done]. assert (q - Z.of_nat n ≠ 0) by congruence. lia.
  - right. injection Hx as Hx. split; [done|]. split; [lia|]. rewrite Hpc. by destruct Hph as [->|[->| ->]].
  - left. rewrite Nat.add_0_r. split; [done|]. split; [done|]. intuition congruence.
  - right. split; [done|]. split; [lia|]. by rewrite Hpc.
  - done.
  - right. rewrite Nat.add_0_r. split; [done|]. split; [done|]. intuition congruence.
Qed.

Lemma runs_trans n m a b c : runs me n a b → runs me m b c → runs me (n + m) a c.
Proof.
  intros Hab Hbc. revert Hab. induction Hbc as [b|m k b c d Hbc IH Hs]; intros Hab; [by rewrite Nat.add_0_r|].
  rewrite Nat.add_assoc. eapply runs_step; [by apply IH|done].
Qed.

End Alarm.

(** ** Properties *)

Section Preemption.
Context {W : Type} {TW : Timers W} {TL : TimerLaws W}.

(** The calling thread has no timer of its own. *)
Definition no_timer (w : W) : Prop :=
  ∀ j t, al_timers (alarm_view w) !! j = Some t → tm_tid t ≠ sys_gettid w.

Lemma install_armed q tm (w w' : W) :
  no_timer w → install q w = (Ok tm, w') →
  quantum tm = q ∧ armed (sys_gettid w) (timer tm) None (alarm_view w') ∧
  al_timers (alarm_view w') = <[timer tm := AlarmTimer (sys_gettid w) None 0]> (al_timers (alarm_view w)) ∧
  al_timers (alarm_view w) !! timer tm = None ∧ al_phase (alarm_view w') = al_phase (alarm_view w).
Proof.
  intros Hno Hx. unfold install in Hx. st_inv. apply call_ok in Hm, Hm1. destruct a.
  apply sigaction_law in Hm as [Ht Hv]. apply create_law in Hm1 as (Hfresh & _ & Hv1).
  rewrite Hv in Hfresh, Hv1. cbn in Hfresh, Hv1. rewrite Ht in Hv1. split; [done|]. rewrite Hv1. split; [|done].
  split; [done|]. split; [cbn; by rewrite lookup_insert_eq|]. cbn. intros j t.
  rewrite lookup_insert_Some. intros [[<- <-]|[_ Hj]] Hme; [done|]. by destruct (Hno _ _ Hj).
Qed.

Lemma as_i_small x : 0 ≤ x < 2 ^ 63 → as_i 64 x = x.
Proof.
  intros Hx. rewrite <- (Z.mod_small x (2 ^ 64)) at 1 by lia. apply as_i_mod; [done|]. unfold in_i. lia.
Qed.

Lemma set_interval_armed tm dur me left (w w' : W) u :
  armed me (timer tm) left (alarm_view w) → 0 ≤ dur < 2 ^ 63 → set_interval tm dur w = (Ok u, w') →
  armed me (timer tm) (if dur =? 0 then None else Some dur) (alarm_view w') ∧
  al_phase (alarm_view w') = al_phase (alarm_view w) ∧
  delete (timer tm) (al_timers (alarm_view w')) = delete (timer tm) (al_timers (alarm_view w)).
Proof.
  intros (Ha & Hid & Hone) Hd Hx. unfold set_interval in Hx. apply call_ok in Hx. destruct u.
  apply settime_law with (t := AlarmTimer me left 0) in Hx as [_ Hv]; [|done]. cbn [fst snd tm_tid] in Hv.
  assert (Hs : as_i 64 (as_secs dur) * 10 ^ 9 + subsec_nanos dur = dur).
  { unfold as_secs, subsec_nanos. change (10 ^ 9) with 1000000000.
    assert (H0 : 0 ≤ dur / 1000000000 < 2 ^ 63).
    { split; [apply Z.div_pos; lia|]. apply Z.div_lt_upper_bound; lia. }
    rewrite as_i_small by done. pose proof (Z.div_mod dur 1000000000). lia. }
  rewrite Hs in Hv. rewrite Hv. cbn [al_action al_timers al_phase with_timers]. split; [|split; [done|by rewrite delete_insert_eq]]. split; [done|].
  split; [cbn; by rewrite lookup_insert_eq|]. cbn. intros j t. rewrite lookup_insert_Some.
  intros [[<- _]|[_ Hj]] Hme; [done|by eapply Hone].
Qed.

(** C40. The preemption timer interrupts the wait it is armed for, and nothing
    else.  On a thread with no timer, [install] and [arm] with a quantum [q]
    leave the process so that, whatever other threads' timers do: the signal
    never kills the process; the wait is not interrupted before [q]; a wait
    begun before [q] is not under way after [q]; after [disarm] nothing
    interrupts a wait; and dropping the timer leaves the timers there were.
    But the alarm is one shot into a handler that does nothing: when it comes
    before the thread is in [waitpid] it is lost, and no later wait is ever
    interrupted. *)
Theorem preemption_timer (q : Duration) (w w1 w2 : W) (tm : PreemptionTimer) :
  no_timer w → al_phase (alarm_view w) = Busy → 0 < q < 2 ^ 63 →
  install q w = (Ok tm, w1) → arm tm w1 = (Ok tt, w2) →
  let me := sys_gettid w in
  (∀ n st, runs me n (alarm_view w2) st →
     al_phase st ≠ Killed ∧ (al_phase st = Interrupted → q ≤ Z.of_nat n)) ∧
  (∀ n1 st1 n2 st2, runs me n1 (alarm_view w2) st1 → al_phase st1 = Blocked → Z.of_nat n1 < q →
     runs me n2 st1 st2 → q < Z.of_nat (n1 + n2) → al_phase st2 ≠ Blocked) ∧
  (∀ n1 st1 n2 st2, runs me n1 (alarm_view w2) st1 → al_phase st1 = Busy → q < Z.of_nat n1 →
     runs me n2 st1 st2 → al_phase st2 ≠ Interrupted) ∧
  (∀ w3, disarm tm w2 = (Ok tt, w3) → ∀ n st, runs me n (alarm_view w3) st →
     al_phase st ≠ Interrupted ∧ al_phase st ≠ Killed) ∧
  al_timers (alarm_view (timer_drop tm w2).2) = al_timers (alarm_view w).
Proof.
  intros Hno Hp Hq Hi Ha me. apply install_armed in Hi as (Htq & Harm & Htimers & Hnone & Hp1); [|done].
  unfold arm in Ha. rewrite Htq in Ha.
  destruct (set_interval_armed _ _ _ _ _ _ _ Harm (conj (Z.lt_le_incl _ _ (proj1 Hq)) (proj2 Hq)) Ha) as (Harm2 & Hp2 & Hdel).
  rewrite (proj2 (Z.eqb_neq q 0)) in Harm2 by lia. rewrite Hp1, Hp in Hp2. fold me in Harm, Harm2.
  assert (H0 : 0 ≤ q) by lia. split_and!.
  - intros n st Hr. destruct (alarm_runs _ _ _ _ _ _ Harm2 H0 Hp2 Hr) as [(_ & _ & Hph)|(_ & Hn & Hph)].
    + intuition congruence.
    + done.
  - intros n1 st1 n2 st2 Hr1 Hb Hn1 Hr2 Hn Hb2.
    destruct (alarm_runs _ _ _ _ _ _ Harm2 H0 Hp2 Hr1) as [(Hst & _ & _)|(_ & Hx & _)]; [|lia].
    destruct (wait_ends _ _ _ _ _ _ Hst ltac:(lia) Hb Hr2) as [(_ & Hx & _)|(_ & _ & Hx)]; [lia|intuition congruence].
  - intros n1 st1 n2 st2 Hr1 Hb Hn1 Hr2 Hint.
    destruct (alarm_runs _ _ _ _ _ _ Harm2 H0 Hp2 Hr1) as [(_ & Hx & _)|(Hst & _ & _)]; [lia|].
    destruct (alarm_past _ _ _ _ _ Hst (or_introl Hb) Hr2) as [_ Hph]. intuition congruence.
  - intros w3 Hd n st Hr. unfold disarm in Hd.
    destruct (set_interval_armed _ _ _ _ _ _ _ Harm2 (conj (Z.le_refl 0) eq_refl) Hd) as (Harm3 & Hp3 & _).
    rewrite Hp2 in Hp3. destruct (alarm_past _ _ _ _ _ Harm3 (or_introl Hp3) Hr) as [_ Hph]. intuition congruence.
  - unfold timer_drop. cbn. rewrite delete_law. cbn. rewrite Hdel, Htimers, delete_insert_eq.
    by apply delete_id.
Qed.
End Preemption.

(** ** A concrete process *)

(** The alarms, and the calling thread. *)
Record desk := Desk { d_alarms : alarms; d_tid : Z }.

Definition on_alarms (f : alarms → option alarms) (e : Z) : kop desk unit := λ w,
  match f (d_alarms w) with
  | Some a => (inl tt, Desk a (d_tid w))
  | None => (inr e, w)
  end.

Definition ns (p : Z * Z) : Z := p.1 * 10 ^ 9 + p.2.

#[local] Instance desk_timers : Timers desk := {|
  sys_sigaction sig act := on_alarms (λ a, if sig =? SIGALRM then Some (Alarms act (al_timers a) (al_phase a)) else None) 22;
  sys_gettid := d_tid;
  timer_create clock ev w :=
    let ts := al_timers (d_alarms w) in
    match ts !! 5 with
    | None => (inl 5, Desk (with_timers (<[5 := AlarmTimer (sigev_notify_thread_id ev) None 0]> ts) (d_alarms w)) (d_tid w))
    | Some _ => (inr 11, w)
    end;
  timer_settime id flags spec := on_alarms (λ a,
    match al_timers a !! id with
    | Some t => Some (with_timers (<[id := AlarmTimer (tm_tid t) (if ns (it_value spec) =? 0 then None else Some (ns (it_value spec)))
                        (ns (it_interval spec))]> (al_timers a)) a)
    | None => None
    end) 22;
  timer_delete id w := (inl tt, Desk (with_timers (delete id (al_timers (d_alarms w))) (d_alarms w)) (d_tid w));
|}.

#[local, program] Instance desk_laws : TimerLaws desk := {| alarm_view := d_alarms |}.
Next Obligation. intros act w w' [= <-]. done. Qed.
Next Obligation.
  intros w id w'. cbn. destruct (al_timers (d_alarms w) !! 5) eqn:H5; [done|]. intros [= <- <-]. done.
Qed.
Next Obligation.
  intros id i v w w' t Hx Ht. cbn in Hx. unfold on_alarms in Hx. rewrite Ht in Hx. injection Hx as <-. done.
Qed.
Next Obligation. done. Qed.

(** Another thread has an alarm running. *)
Definition desk_start : desk := Desk (Alarms (MkSigAction SigDfl true) {[2 := AlarmTimer 200 (Some 2) 7]} Busy) 100.

Definition desk_timer : PreemptionTimer := MkTimer 3 5.
Definition desk_installed : desk := (install 3 desk_start).2.
Definition desk_armed : desk := (arm desk_timer desk_installed).2.

Lemma preemption_timer_witness :
  install 3 desk_start = (Ok desk_timer, desk_installed) ∧ arm desk_timer desk_installed = (Ok tt, desk_armed) ∧
  (∀ n st, runs 100 n (d_alarms desk_armed) st → al_phase st ≠ Killed ∧ (al_phase st = Interrupted → 3 ≤ Z.of_nat n)) ∧
  (∀ st, runs 100 4 (with_phase Blocked (d_alarms desk_armed)) st → al_phase st ≠ Blocked).
Proof.
  assert (H1 : install 3 desk_start = (Ok desk_timer, desk_installed)) by reflexivity.
  assert (H2 : arm desk_timer desk_installed = (Ok tt, desk_armed)) by reflexivity.
  split; [exact H1|]. split; [exact H2|].
  assert (Hno : no_timer desk_start).
  { intros j t. cbn. rewrite lookup_singleton_Some. intros [<- <-]. discriminate. }
  destruct (preemption_timer 3 desk_start desk_installed desk_armed desk_timer Hno eq_refl (conj eq_refl eq_refl) H1 H2)
    as (HA & HB & _). split; [exact HA|].
  intros st Hr. refine (HB 0%nat _ 4%nat st _ _ _ Hr _); [|reflexivity..].
  change (runs 100 (0 + 0) (d_alarms desk_armed) (with_phase Blocked (d_alarms desk_armed))).
  eapply runs_step; [apply runs_refl|]. apply step_wait. reflexivity.
Defined.

Lemma tick_run me n a b :
  runs me n a b → bool_decide (map_Forall (λ _ t, tm_left t ≠ Some 0) (al_timers b)) = true →
  runs me (n + 1) a (with_timers (age <$> al_timers b) b).
Proof.
  intros Hr Hb. eapply runs_step; [exact Hr|]. apply step_tick. intros id t. by apply (bool_decide_eq_true_1 _ Hb).
Qed.

Lemma expire_run me n a b id t :
  runs me n a b → al_timers b !! id = Some t → tm_left t = Some 0 → runs me (n + 0) a (expire me id t b).
Proof. intros Hr H1 H2. eapply runs_step; [exact Hr|]. by apply step_expire. Qed.

(** The alarm of [desk_armed] comes while the thread is between calls, and the
    wait it then begins has none left. *)
Lemma alarm_lost :
  ∃ n st, runs 100 n (d_alarms desk_armed) st ∧ 3 < Z.of_nat n ∧ al_phase st = Busy ∧
    (tm_left <$> al_timers st !! 5) = Some None.
Proof.
  pose proof (runs_refl 100 (d_alarms desk_armed)) as R.
  do 2 (apply tick_run in R; [|vm_compute; reflexivity]).
  eapply (expire_run _ _ _ _ 2) in R; [|vm_compute; reflexivity|reflexivity].
  apply tick_run in R; [|vm_compute; reflexivity].
  eapply (expire_run _ _ _ _ 5) in R; [|vm_compute; reflexivity|reflexivity].
  apply tick_run in R; [|vm_compute; reflexivity].
  eexists _, _. split; [exact R|]. split; [reflexivity|]. split; vm_compute; reflexivity.
Qed.
