(* ===== verification/TimedKernel.v ===== *)
(** * The kernel of the recorder with the timer of [capture/timer.rs] in it

    The scheduler's model takes the timer as three kernel calls; here they are
    the operations of [Timer], on a process of its own beside any kernel.  The
    pair keeps the promises of the tracer, so every theorem about the scheduler
    holds with this timer in place. *)

From S2P Require Import Prelude StdIo TraceFormat TraceLog Payload Ptrace Capture Timer.

Section Timed.
Context {W T : Type} {KW : Kernel W} {TT : Timers T}.

(** The kernel, the process's alarms, and the scheduler's timer once it is
    installed. *)
Definition timed : Type := W * (T * option PreemptionTimer).

Definition in_kernel {A} (k : kop W A) : kop timed A := λ '(w, t), let '(r, w) := k w in (r, (w, t)).

(** The errno inside [CaptureError::Ptrace], the only error of the timer. *)
Definition timer_call {A} (m : stm T CaptureError A) (t : T) : (A + Z) * T :=
  match m t with
  | (Ok a, t) => (inl a, t)
  | (Err (CapPtrace e), t) => (inr e, t)
  | (_, t) => (inr 0, t)
  end.

(** [Scheduler::new]'s installation, of the default quantum. *)
Definition timed_install : kop timed unit := λ '(w, (t, tm)),
  match timer_call (install DEFAULT_QUANTUM) t with
  | (inl tm, t) => (inl tt, (w, (t, Some tm)))
  | (inr e, t) => (inr e, (w, (t, tm)))
  end.

Definition with_timer (op : PreemptionTimer → stm T CaptureError unit) : kop timed unit := λ '(w, (t, tm)),
  match tm with
  | Some tm => let '(r, t) := timer_call (op tm) t in (r, (w, (t, Some tm)))
  | None => (inl tt, (w, (t, None)))
  end.

#[export] Instance timed_kernel : Kernel timed := {|
  sys_waitpid_any := in_kernel sys_waitpid_any;
  sys_waitpid p := in_kernel (sys_waitpid p);
  sys_kill p s := in_kernel (sys_kill p s);
  sys_setaffinity p c := in_kernel (sys_setaffinity p c);
  sys_spawn_traced prog argv := in_kernel (sys_spawn_traced prog argv);
  pt_syscall p s := in_kernel (pt_syscall p s);
  pt_step p := in_kernel (pt_step p);
  pt_kill p := in_kernel (pt_kill p);
  pt_getregs p := in_kernel (pt_getregs p);
  pt_setregs p r := in_kernel (pt_setregs p r);
  pt_getevent p := in_kernel (pt_getevent p);
  pt_setoptions p o := in_kernel (pt_setoptions p o);
  pt_getsiginfo_code p := in_kernel (pt_getsiginfo_code p);
  pt_pokeuser p o v := in_kernel (pt_pokeuser p o v);
  vm_readv p a n := in_kernel (vm_readv p a n);
  vm_writev p a bs := in_kernel (vm_writev p a bs);
  timer_install := timed_install;
  timer_arm := with_timer arm;
  timer_disarm := with_timer disarm;
  clock_elapsed_ns := λ '(w, t), let '(ns, w) := clock_elapsed_ns w in (ns, (w, t));
|}.

(** The scheduler's calls are the timer's operations, errors included. *)
Lemma install_ends q (t : T) r t' :
  install q t = (r, t') → (∃ tm, r = Ok tm) ∨ ∃ n, r = Err (CapPtrace n).
Proof.
  unfold install, call, mbind, stm_bind, st_gets. destruct (sys_sigaction _ _ t) as [[|n] t1]; [|intros [= <- _]; eauto].
  destruct (timer_create _ _ t1) as [[|n] t2]; intros [= <- _]; eauto.
Qed.

Lemma timed_install_spec w t tm :
  call CapPtrace timer_install ((w, (t, tm)) : timed) =
    let '(r, t) := install DEFAULT_QUANTUM t in
    match r with
    | Ok tm => (Ok tt, (w, (t, Some tm)))
    | Err e => (Err e, (w, (t, tm)))
    | Panic => (Panic, (w, (t, tm)))
    end.
Proof.
  unfold call. cbn. unfold timer_call. destruct (install DEFAULT_QUANTUM t) as [r t'] eqn:Hi.
  by apply install_ends in Hi as [[a ->]|[n ->]].
Qed.

Lemma timed_set_interval_spec (op : PreemptionTimer → stm T CaptureError unit) w t tm :
  (∀ tm, ∃ d, op tm = set_interval tm d) →
  call CapPtrace (with_timer op) ((w, (t, Some tm)) : timed) =
    let '(r, t) := op tm t in (r, (w, (t, Some tm))).
Proof.
  intros Hop. destruct (Hop tm) as [d Hd]. unfold call. cbn. rewrite Hd. unfold timer_call, set_interval, call.
  by destruct (timer_settime _ _ _ t) as [[[]|n] t'].
Qed.

Lemma timed_arm_spec w t tm :
  call CapPtrace timer_arm ((w, (t, Some tm)) : timed) = let '(r, t) := arm tm t in (r, (w, (t, Some tm))).
Proof. apply (timed_set_interval_spec arm). intros x. by exists (quantum x). Qed.

Lemma timed_disarm_spec w t tm :
  call CapPtrace timer_disarm ((w, (t, Some tm)) : timed) = let '(r, t) := disarm tm t in (r, (w, (t, Some tm))).
Proof. apply (timed_set_interval_spec disarm). intros x. by exists 0. Qed.

(** The tracees are the kernel's: no call of the timer touches them. *)
Context {TL : TracerLaws W}.

#[export, program] Instance timed_laws : TracerLaws timed :=
  {| attached x := attached x.1; resumed x := resumed x.1 |}.
Next Obligation. intros [w t]. cbn. pose proof (waitpid_any_law w). by destruct (sys_waitpid_any w) as [[] ?]. Qed.
Next Obligation. intros p [w t]. cbn. pose proof (waitpid_law p w). by destruct (sys_waitpid p w) as [[] ?]. Qed.
Next Obligation. intros p s [w t]. cbn. pose proof (syscall_law p s w). by destruct (pt_syscall p s w) as [[] ?]. Qed.
Next Obligation. intros p [w t]. cbn. pose proof (getregs_law p w). by destruct (pt_getregs p w) as [[] ?]. Qed.
Next Obligation. intros p a n [w t]. cbn. pose proof (readv_law p a n w). by destruct (vm_readv p a n w) as [[] ?]. Qed.
Next Obligation. intros p s [w t]. cbn. pose proof (kill_law p s w). by destruct (sys_kill p s w). Qed.
Next Obligation. intros p c [w t]. cbn. pose proof (setaffinity_law p c w). by destruct (sys_setaffinity p c w). Qed.
Next Obligation. intros p [w t]. cbn. pose proof (getevent_law p w). by destruct (pt_getevent p w). Qed.
Next Obligation. intros p o [w t]. cbn. pose proof (setoptions_law p o w). by destruct (pt_setoptions p o w) as [[] ?]. Qed.
Next Obligation. intros p a [w t]. cbn. pose proof (spawn_law p a w). by destruct (sys_spawn_traced p a w). Qed.
Next Obligation. intros [w [t tm]]. cbn. by destruct (timer_call (install DEFAULT_QUANTUM) t) as [[] ?]. Qed.
Next Obligation. intros [w [t [tm|]]]; cbn; [|done]. by destruct (timer_call (arm tm) t). Qed.
Next Obligation. intros [w [t [tm|]]]; cbn; [|done]. by destruct (timer_call (disarm tm) t). Qed.
Next Obligation. intros [w t]. cbn. pose proof (clock_law w). by destruct (clock_elapsed_ns w). Qed.
End Timed.
