(* ===== verification/Discipline.v ===== *)
(** * The schedule discipline: what a recording promises the replay

    The contract between the recording scheduler ([Sched]) and the
    schedule-enforcing replay ([Mt]), stated on the log alone: one thread owns
    the CPU at a time, ownership changes only at a [SchedSwitch] record, every
    syscall, signal and spawn record is made by the owner, and a thread's
    syscall entries and exits alternate and agree on the syscall number. *)

From S2P Require Import Prelude TraceFormat Payload.

(** The owner of the CPU and the syscall each thread is in, by recorded tid. *)
Record discipline_state := mkDisc { owner : Z; open_calls : gmap Z Z }.

(** The syscall number a syscall payload opens with. *)
Definition payload_nr (e : Event) : Z := le_value (take 8 (payload e)).

(** One record: [None] when it breaks the discipline. *)
Definition disc_step (st : discipline_state) (e : Event) : option discipline_state :=
  t ← tid e;
  match kind e with
  | EvSchedSwitch =>
      match SchedSwitch_decode (payload e) with
      | Ok x => if switch_tid x =? t then Some (mkDisc t (open_calls st)) else None
      | _ => None
      end
  | EvSyscallEnter =>
      if (t =? owner st) && bool_decide (open_calls st !! t = None)
      then Some (mkDisc t (<[t := payload_nr e]> (open_calls st))) else None
  | EvSyscallExit =>
      if (t =? owner st) && bool_decide (open_calls st !! t = Some (payload_nr e))
      then Some (mkDisc t (delete t (open_calls st))) else None
  | EvSignal =>
      match SignalDelivery_decode (payload e) with
      | Ok _ => if t =? owner st then Some st else None
      | _ => None
      end
  | EvThreadSpawn =>
      match ThreadSpawn_decode (payload e) with
      | Ok x => if (t =? owner st) && (parent_tid x =? t) then Some st else None
      | _ => None
      end
  | EvThreadExit =>
      match ThreadExit_decode (payload e) with
      | Ok x => if exit_tid x =? t then Some (mkDisc (owner st) (delete t (open_calls st))) else None
      | _ => None
      end
  | _ => None
  end.

Fixpoint discipline (st : discipline_state) (es : list Event) : option discipline_state :=
  match es with
  | [] => Some st
  | e :: es => st' ← disc_step st e; discipline st' es
  end.

(** The thread a recording starts in. *)
Definition disc_start (t : Z) : discipline_state := mkDisc t ∅.

Lemma discipline_app st a b : discipline st (a ++ b) = (st' ← discipline st a; discipline st' b).
Proof.
  revert st. induction a as [|e a IH]; intros st; [done|]. cbn.
  destruct (disc_step st e) as [st'|]; cbn; [apply IH|done].
Qed.

Lemma discipline_snoc st es st' e :
  discipline st es = Some st' → discipline st (es ++ [e]) = disc_step st' e.
Proof. intros H. rewrite discipline_app, H. cbn. by destruct (disc_step st' e). Qed.
