(* ===== verification/Ebpf.v ===== *)
(** * The eBPF capture path: [recorder-ebpf-common], [recorder-ebpf-programs]
    and [recorder-ebpf]

    The wire format the kernel-side program and the userspace collector share,
    the two tracepoint handlers behind their tgid filter, and the collector
    loop that turns ring-buffer items into trace events.  The ring buffer is
    the queue of items reserved and not yet drained; its capacity (in items of
    one event each) is a parameter, because the buffer itself is the kernel's. *)

From S2P Require Import Prelude StdIo TraceFormat TraceLog Payload Crc32 Capture.

(** ** Data *)

Definition KIND_ENTER : Z := 0.
Definition KIND_EXIT : Z := 1.
Definition RAW_EVENT_LEN : nat := 1 + 3 + 4 + 4 + 8 + 8 + 6 * 8 + 8.

Record RawSyscallEvent := mkRaw {
  raw_kind : Z;
  raw_tgid : Z;
  raw_tid : Z;
  raw_timestamp_ns : Z;
  raw_nr : Z;
  raw_args : list Z;
  raw_ret : Z;
}.

(** One firing of a raw tracepoint: what the kernel hands the program. *)
Inductive tracepoint :=
| SysEnter (pid_tgid : Z) (regs : Z → option Z) (nr ts : Z)
| SysExit (pid_tgid : Z) (ret_word ts : Z).

(** ** The wire format *)

(** The output array and the write position. *)
Definition out_buf : Type := list byte * Z.

(** [out[pos..pos + n].copy_from_slice(bs); pos += n]. *)
Definition write_bytes (bs : list byte) : stm out_buf Empty_set unit := λ st,
  let '(out, pos) := st in
  if (0 <=? pos) && (pos + blen bs <=? blen out)
  then (Ok tt, (take (Z.to_nat pos) out ++ bs ++ drop (Z.to_nat pos + length bs) out,
                pos + blen bs))
  else (Panic, st).

Definition write_u32 (v : Z) : stm out_buf Empty_set unit := write_bytes (le_bytes 4 v).
Definition write_u64 (v : Z) : stm out_buf Empty_set unit := write_bytes (le_bytes 8 v).
Definition write_i64 (v : Z) : stm out_buf Empty_set unit := write_bytes (le_bytes 8 v).

Fixpoint write_args (l : list Z) : stm out_buf Empty_set unit :=
  match l with
  | [] => mret tt
  | a :: l => write_u64 a;; write_args l
  end.

(** [RawSyscallEvent::encode]: the kind byte, three bytes of padding that are
    skipped and stay zero, then the fields. *)
Definition raw_encode (e : RawSyscallEvent) : result Empty_set (list byte) :=
  let '(r, (out, _)) :=
    (write_bytes [byte_of_Z (raw_kind e)];;
     st_modify (λ st, (st.1, st.2 + 3));;
     write_u32 (raw_tgid e);;
     write_u32 (raw_tid e);;
     write_u64 (raw_timestamp_ns e);;
     write_u64 (raw_nr e);;
     write_args (raw_args e);;
     write_i64 (raw_ret e)) (replicate RAW_EVENT_LEN x00, 0) in
  _ ← r; Ok out.

Definition ebpf_read_u32 (buf : list byte) : stm Z Empty_set Z := λ pos,
  (sl ← expect (get_range buf pos (pos + 4)); mret (le_value sl), pos + 4).
Definition ebpf_read_u64 (buf : list byte) : stm Z Empty_set Z := λ pos,
  (sl ← expect (get_range buf pos (pos + 8)); mret (le_value sl), pos + 8).

Fixpoint read_n_u64 (n : nat) (buf : list byte) : stm Z Empty_set (list Z) :=
  match n with
  | O => mret []
  | S n => a ← ebpf_read_u64 buf; l ← read_n_u64 n buf; mret (a :: l)
  end.

(** [RawSyscallEvent::decode]. *)
Definition raw_decode (buf : list byte) : result Empty_set (option RawSyscallEvent) :=
  if blen buf <? Z.of_nat RAW_EVENT_LEN then Ok None
  else ((k ← st_lift (expect (get_at buf 0));
         tgid ← ebpf_read_u32 buf;
         t ← ebpf_read_u32 buf;
         ts ← ebpf_read_u64 buf;
         nr ← ebpf_read_u64 buf;
         argv ← read_n_u64 6 buf;
         ret ← ebpf_read_u64 buf;
         mret (Some (mkRaw (Z_of_byte k) tgid t ts nr argv (as_i 64 ret)))) (1 + 3)).1.

(** ** The kernel-side program *)

(** [matching_target]: the configured tgid is [0] while unset. *)
Definition matching_target (target pid_tgid : Z) : option (Z * Z) :=
  if target =? 0 then None
  else
    let tgid := as_u 32 (Z.shiftr pid_tgid 32) in
    if negb (tgid =? target) then None
    else Some (tgid, as_u 32 pid_tgid).

(** The cargo feature the program was built with. *)
Inductive bpf_arch := FeatureX86_64 | FeatureAarch64.

Class BpfBuild := bpf_build : bpf_arch.

Section Programs.
Context {BB : BpfBuild}.

(** [read_syscall_args]: six words of [pt_regs], read at their offsets; the
    first that cannot be read ends it. *)
Definition read_syscall_args (regs : Z → option Z) : option (list Z) :=
  match bpf_build with
  | FeatureX86_64 =>
      rdi ← regs 112; rsi ← regs 104; rdx ← regs 96;
      r10 ← regs 56; r8 ← regs 72; r9 ← regs 64;
      Some [rdi; rsi; rdx; r10; r8; r9]
  | FeatureAarch64 => mapM (λ i, regs (i * 8)) (seqZ 0 6)
  end.

(** [emit]: reserve, write, submit, or drop the event when the ring is full. *)
Definition emit (capacity : nat) (e : RawSyscallEvent) (ring : list (list byte))
    : list (list byte) :=
  if (capacity <=? length ring)%nat then ring
  else match raw_encode e with Ok bs => ring ++ [bs] | _ => ring end.

Definition try_sys_enter (target : Z) (capacity : nat) (pid_tgid : Z) (regs : Z → option Z)
    (nr ts : Z) (ring : list (list byte)) : list (list byte) :=
  match matching_target target pid_tgid with
  | None => ring
  | Some (tgid, t) =>
      match read_syscall_args regs with
      | None => ring
      | Some argv => emit capacity (mkRaw KIND_ENTER tgid t ts nr argv 0) ring
      end
  end.

Definition try_sys_exit (target : Z) (capacity : nat) (pid_tgid ret_word ts : Z)
    (ring : list (list byte)) : list (list byte) :=
  match matching_target target pid_tgid with
  | None => ring
  | Some (tgid, t) =>
      emit capacity (mkRaw KIND_EXIT tgid t ts 0 (replicate 6 0) (as_i 64 ret_word)) ring
  end.

Definition fire (target : Z) (capacity : nat) (ring : list (list byte)) (tp : tracepoint)
    : list (list byte) :=
  match tp with
  | SysEnter pt regs nr ts => try_sys_enter target capacity pt regs nr ts ring
  | SysExit pt ret ts => try_sys_exit target capacity pt ret ts ring
  end.

(** ** The collector *)

Section Collector.
Context {I : Type} {WI : Write I}.

(** One iteration of [drain_ready]: [None] is the [continue] of an item that is
    too short or of an unknown kind. *)
Definition raw_to_event (raw : RawSyscallEvent) (pending_nr : gmap Z Z)
    : option (Event * gmap Z Z) :=
  if raw_kind raw =? KIND_ENTER then
    Some (Event_new_with_tid EvSyscallEnter (raw_timestamp_ns raw) (raw_tid raw)
            (SyscallEnter_encode (mkSyscallEnter (raw_nr raw) (raw_args raw))),
          <[raw_tid raw := raw_nr raw]> pending_nr)
  else if raw_kind raw =? KIND_EXIT then
    let nr := default 0 (pending_nr !! raw_tid raw) in
    Some (Event_new_with_tid EvSyscallExit (raw_timestamp_ns raw) (raw_tid raw)
            (SyscallExit_encode (mkSyscallExit nr (raw_ret raw) [])),
          delete (raw_tid raw) pending_nr)
  else None.

(** [drain_ready]: returns how many events were written. *)
Fixpoint drain_ready (crc32 : list byte → Z) (items : list (list byte)) (written : Z)
    : stm (TraceWriter I * gmap Z Z) TraceError Z := λ st,
  match items with
  | [] => (Ok written, st)
  | item :: items =>
      match raw_decode item with
      | Ok None => drain_ready crc32 items written st
      | Ok (Some raw) =>
          match raw_to_event raw st.2 with
          | None => drain_ready crc32 items written st
          | Some (e, pending') =>
              match append crc32 e st.1 with
              | (Ok _, w) => drain_ready crc32 items (written + 1) (w, pending')
              | (Err err, w) => (Err err, (w, pending'))
              | (Panic, w) => (Panic, (w, pending'))
              end
          end
      | _ => (Panic, st)
      end
  end.

(** What [waitpid(target, WNOHANG)] reports. *)
Inductive poll :=
| StillAlive
| PollExited (code : Z)
| PollSignaled
| PollOther
| PollErr (errno : Z).

(** [EbpfCaptureError]; the source of an aya error is the text it prints. *)
Inductive EbpfCaptureError :=
| BpfLoadObject (path source : list byte)
| BpfMissingProgram (name : list byte)
| BpfProgram (name source : list byte)
| BpfMissingMap (name : list byte)
| BpfMap (name source : list byte)
| BpfSpawn (errno : Z)
| BpfProcess (errno : Z)
| BpfTrace (e : TraceError).

Definition capture_trace {S A} (m : stm S TraceError A) : stm S EbpfCaptureError A := λ st,
  let '(r, st) := m st in (map_err BpfTrace r, st).

(** [drain_until_exit].  [rounds] is the environment: per iteration, the items
    the ring hands over while it is drained and what [waitpid] then reports;
    [None] is an environment that ends with the target still running. *)
Fixpoint drain_loop (crc32 : list byte → Z) (rounds : list (list (list byte) * poll))
    (recorded : Z) : stm (TraceWriter I * gmap Z Z) EbpfCaptureError (option RecordOutcome) :=
  match rounds with
  | [] => mret None
  | (items, status) :: rounds =>
      n ← capture_trace (drain_ready crc32 items 0);
      match status with
      | StillAlive | PollOther => drain_loop crc32 rounds (recorded + n)
      | PollErr e => st_throw (BpfProcess e)
      | PollExited code =>
          m ← capture_trace (drain_ready crc32 (default [] (fst <$> head rounds)) 0);
          mret (Some (mkOutcome (Some code) (recorded + n + m) 1))
      | PollSignaled =>
          m ← capture_trace (drain_ready crc32 (default [] (fst <$> head rounds)) 0);
          mret (Some (mkOutcome None (recorded + n + m) 1))
      end
  end.

Definition drain_until_exit (crc32 : list byte → Z) (rounds : list (list (list byte) * poll))
    (w : TraceWriter I) : result EbpfCaptureError (option RecordOutcome) * TraceWriter I :=
  let '(r, (w, _)) := drain_loop crc32 rounds 0 (w, ∅) in (r, w).

End Collector.

(** ** The specification *)

(** The tracepoints of the target whose registers could be read. *)
Definition observed (target : Z) (tp : tracepoint) : bool :=
  match tp with
  | SysEnter pt regs _ _ =>
      bool_decide (is_Some (matching_target target pt)) && bool_decide (is_Some (read_syscall_args regs))
  | SysExit pt _ _ => bool_decide (is_Some (matching_target target pt))
  end.

Definition tp_tid (tp : tracepoint) : Z :=
  match tp with SysEnter pt _ _ _ | SysExit pt _ _ => as_u 32 pt end.

(** The number of the syscall a thread is in after some tracepoints, the latest
    first: that of its last firing if it was an entry. *)
Fixpoint in_syscall (t : Z) (before : list tracepoint) : option Z :=
  match before with
  | [] => None
  | tp :: before =>
      if tp_tid tp =? t
      then match tp with SysEnter _ _ nr _ => Some nr | SysExit _ _ _ => None end
      else in_syscall t before
  end.

(** The event a firing should be recorded as, given what fired before it. *)
Definition spec_event (before : list tracepoint) (tp : tracepoint) : Event :=
  match tp with
  | SysEnter pt regs nr ts =>
      Event_new_with_tid EvSyscallEnter ts (as_u 32 pt)
        (SyscallEnter_encode (mkSyscallEnter nr (default [] (read_syscall_args regs))))
  | SysExit pt ret ts =>
      Event_new_with_tid EvSyscallExit ts (as_u 32 pt)
        (SyscallExit_encode (mkSyscallExit (default 0 (in_syscall (as_u 32 pt) before)) (as_i 64 ret) []))
  end.

Fixpoint spec_events (before : list tracepoint) (tps : list tracepoint) : list Event :=
  match tps with
  | [] => []
  | tp :: tps => spec_event before tp :: spec_events (tp :: before) tps
  end.

Definition raw_wf (e : RawSyscallEvent) : Prop :=
  in_u 8 (raw_kind e) ∧ in_u 32 (raw_tgid e) ∧ in_u 32 (raw_tid e) ∧
  in_u 64 (raw_timestamp_ns e) ∧ in_u 64 (raw_nr e) ∧
  length (raw_args e) = 6%nat ∧ Forall (in_u 64) (raw_args e) ∧ in_i 64 (raw_ret e).

(** The words of a firing are 64 bits wide. *)
Definition tp_wf (tp : tracepoint) : Prop :=
  match tp with
  | SysEnter pt regs nr ts =>
      in_u 64 pt ∧ in_u 64 nr ∧ in_u 64 ts ∧ ∀ o v, regs o = Some v → in_u 64 v
  | SysExit pt ret ts => in_u 64 pt ∧ in_u 64 ret ∧ in_u 64 ts
  end.

(** ** Lemmas: the wire format *)

Definition raw_layout (e : RawSyscallEvent) : list byte :=
  [byte_of_Z (raw_kind e)] ++ [x00; x00; x00] ++ le_bytes 4 (raw_tgid e) ++
  le_bytes 4 (raw_tid e) ++ le_bytes 8 (raw_timestamp_ns e) ++ le_bytes 8 (raw_nr e) ++
  concat (le_bytes 8 <$> raw_args e) ++ le_bytes 8 (raw_ret e).

(** Writing at the end of what is written replaces the next zeros. *)
Lemma write_bytes_next pre bs n pos :
  pos = blen pre → (length bs ≤ n)%nat →
  write_bytes bs (pre ++ replicate n x00, pos) =
    (Ok tt, ((pre ++ bs) ++ replicate (n - length bs) x00, pos + blen bs)).
Proof.
  intros -> Hn. unfold write_bytes. pose proof (blen_nonneg pre).
  rewrite blen_app. replace (blen (replicate n x00)) with (Z.of_nat n)
    by (unfold blen; by rewrite length_replicate).
  rewrite !(proj2 (Z.leb_le _ _)) by (unfold blen in *; lia). cbn [andb].
  unfold blen at 1 2. rewrite Nat2Z.id, take_app_length, drop_app, drop_replicate.
  rewrite (drop_ge pre), app_nil_l, app_assoc by lia. do 4 f_equal. lia.
Qed.

Lemma write_args_next l : ∀ pre n pos,
  pos = blen pre → (8 * length l ≤ n)%nat →
  write_args l (pre ++ replicate n x00, pos) =
    (Ok tt, ((pre ++ concat (le_bytes 8 <$> l)) ++ replicate (n - 8 * length l) x00,
             pos + 8 * blen l)).
Proof.
  induction l as [|a l IH]; intros pre n pos Hp Hn.
  { cbn [write_args fmap list_fmap concat length]. rewrite app_nil_r, Nat.sub_0_r.
    change (8 * blen []) with 0. by rewrite Z.add_0_r. }
  cbn [length] in Hn. cbn [write_args]. unfold mbind, stm_bind, write_u64.
  rewrite write_bytes_next by (done || (rewrite length_le_bytes; lia)).
  rewrite length_le_bytes, blen_le_bytes, IH by (rewrite ?blen_app, ?blen_le_bytes; lia).
  rewrite fmap_cons, blen_cons. cbn [concat length]. rewrite <- !app_assoc.
  replace (n - 8 - 8 * length l)%nat with (n - 8 * S (length l))%nat by lia.
  by replace (pos + Z.of_nat 8 + 8 * blen l) with (pos + 8 * (1 + blen l)) by lia.
Qed.

Lemma blen_args l : blen (concat (le_bytes 8 <$> l)) = 8 * blen l.
Proof.
  induction l as [|a l IH]; [done|]. rewrite fmap_cons. cbn [concat].
  rewrite blen_app, blen_le_bytes, IH, blen_cons. lia.
Qed.

Lemma raw_encode_layout e : length (raw_args e) = 6%nat → raw_encode e = Ok (raw_layout e).
Proof.
  intros Hl. unfold raw_encode, write_u32, write_u64, write_i64, mbind, stm_bind, st_modify.
  change (replicate RAW_EVENT_LEN x00, 0) with ([] ++ replicate RAW_EVENT_LEN x00, 0).
  rewrite write_bytes_next by (done || (cbn; lia)). cbv beta iota. cbn [fst snd].
  change ((([] ++ [byte_of_Z (raw_kind e)]) ++ replicate (RAW_EVENT_LEN - length [byte_of_Z (raw_kind e)]) x00,
    0 + blen [byte_of_Z (raw_kind e)] + 3)) with
    ([byte_of_Z (raw_kind e); x00; x00; x00] ++ replicate 80 x00, 4).
  rewrite write_bytes_next by (done || (rewrite length_le_bytes; lia)). cbv beta iota.
  rewrite write_bytes_next by (rewrite ?blen_app, ?blen_le_bytes, ?length_le_bytes; (done || lia)). cbv beta iota.
  rewrite write_bytes_next by (rewrite ?blen_app, ?blen_le_bytes, ?length_le_bytes; (done || lia)). cbv beta iota.
  rewrite write_bytes_next by (rewrite ?blen_app, ?blen_le_bytes, ?length_le_bytes; (done || lia)). cbv beta iota.
  rewrite write_args_next by (rewrite ?Hl, ?blen_app, ?blen_le_bytes, ?length_le_bytes; done || lia). cbv beta iota.
  rewrite write_bytes_next;
    [|rewrite ?blen_app, ?blen_le_bytes, blen_args; reflexivity || lia
     |rewrite ?Hl, ?length_le_bytes; lia].
  cbv beta iota. cbn [result_bind]. rewrite Hl, !length_le_bytes.
  change (replicate _ _) with (@nil byte) at 1. rewrite app_nil_r. unfold raw_layout.
  by rewrite <- !app_assoc.
Qed.

Lemma read_n_u64_at l : ∀ n pre post pos,
  length l = n → Forall (in_u 64) l → pos = blen pre →
  read_n_u64 n (pre ++ concat (le_bytes 8 <$> l) ++ post) pos =
    (Ok l, pos + 8 * blen l).
Proof.
  induction l as [|a l IH]; intros n pre post pos <- Hf Hp.
  { change (8 * blen []) with 0. by rewrite Z.add_0_r. }
  apply Forall_cons_iff in Hf as [Ha Hf]. rewrite fmap_cons, blen_cons. cbn [length read_n_u64 concat].
  unfold mbind at 1, stm_bind at 1, ebpf_read_u64. rewrite <- app_assoc.
  rewrite get_range_app by (rewrite ?blen_le_bytes; (done || lia)).
  cbn [expect mbind result_bind mret result_ret]. rewrite le_u64 by done.
  unfold mbind, stm_bind. rewrite app_assoc, (IH (length l)) by (rewrite ?blen_app, ?blen_le_bytes; (done || lia)).
  cbn. by replace (pos + 8 + 8 * blen l) with (pos + 8 * (1 + blen l)) by lia.
Qed.

Lemma ebpf_read_u32_at v pre post pos :
  in_u 32 v → pos = blen pre →
  ebpf_read_u32 (pre ++ le_bytes 4 v ++ post) pos = (Ok v, pos + 4).
Proof.
  intros Hv ->. unfold ebpf_read_u32.
  rewrite get_range_app by (rewrite ?blen_le_bytes; (done || lia)). cbn. by rewrite le_u32.
Qed.

Lemma ebpf_read_u64_at v pre post pos :
  in_u 64 v → pos = blen pre →
  ebpf_read_u64 (pre ++ le_bytes 8 v ++ post) pos = (Ok v, pos + 8).
Proof.
  intros Hv ->. unfold ebpf_read_u64.
  rewrite get_range_app by (rewrite ?blen_le_bytes; (done || lia)). cbn. by rewrite le_u64.
Qed.

(** A signed word is read back as the unsigned word with the same bytes. *)
Lemma le_bytes_signed r : le_bytes 8 r = le_bytes 8 (as_u 64 r).
Proof.
  rewrite <- (le_bytes_le_value (le_bytes 8 r)), length_le_bytes.
  by rewrite le_value_le_bytes.
Qed.

Lemma raw_decode_layout e post :
  raw_wf e → raw_decode (raw_layout e ++ post) = Ok (Some e).
Proof.
  intros (Hk & Hg & Ht & Hts & Hn & Hl & Hf & Hr).
  assert (Hlen : Z.of_nat RAW_EVENT_LEN ≤ blen (raw_layout e ++ post)).
  { unfold raw_layout. rewrite !blen_app, !blen_le_bytes, blen_args.
    pose proof (blen_nonneg post). unfold blen at 3. rewrite Hl.
    change (blen [byte_of_Z (raw_kind e)]) with 1. change (blen [x00; x00; x00]) with 3.
    unfold RAW_EVENT_LEN. lia. }
  unfold raw_decode. rewrite (proj2 (Z.ltb_ge _ _)) by done.
  unfold raw_layout. rewrite <- !app_assoc.
  change (get_at ([byte_of_Z (raw_kind e)] ++ ?r) 0) with (Some (byte_of_Z (raw_kind e))).
  cbn [expect]. unfold mbind at 1, stm_bind at 1, st_lift.
  rewrite (app_assoc [_] [x00; x00; x00]). set (P := [_] ++ [x00; x00; x00]).
  assert (HP : blen P = 4) by done. clearbody P.
  unfold mbind at 1, stm_bind at 1. rewrite ebpf_read_u32_at by done.
  rewrite (app_assoc P). set (P1 := P ++ _).
  assert (HP1 : blen P1 = 8) by (unfold P1; rewrite blen_app, blen_le_bytes; lia). clearbody P1.
  unfold mbind at 1, stm_bind at 1. rewrite ebpf_read_u32_at by done.
  rewrite (app_assoc P1). set (P2 := P1 ++ _).
  assert (HP2 : blen P2 = 12) by (unfold P2; rewrite blen_app, blen_le_bytes; lia). clearbody P2.
  unfold mbind at 1, stm_bind at 1. rewrite ebpf_read_u64_at by done.
  rewrite (app_assoc P2). set (P3 := P2 ++ _).
  assert (HP3 : blen P3 = 20) by (unfold P3; rewrite blen_app, blen_le_bytes; lia). clearbody P3.
  unfold mbind at 1, stm_bind at 1. rewrite ebpf_read_u64_at by done.
  rewrite (app_assoc P3). set (P4 := P3 ++ _).
  assert (HP4 : blen P4 = 28) by (unfold P4; rewrite blen_app, blen_le_bytes; lia). clearbody P4.
  unfold mbind at 1, stm_bind at 1. rewrite read_n_u64_at by done.
  rewrite (app_assoc P4). set (P5 := P4 ++ _).
  assert (HP5 : blen P5 = 76).
  { unfold P5. rewrite blen_app, blen_args. unfold blen at 2. rewrite Hl. lia. }
  unfold blen at 1. rewrite Hl. clearbody P5.
  unfold mbind, stm_bind. rewrite le_bytes_signed, ebpf_read_u64_at
    by (done || apply Z.mod_pos_bound; lia).
  cbn. unfold as_u. rewrite as_i_mod, Z_of_byte_of_Z by done.
  rewrite Z.mod_small by done. by destruct e.
Qed.

(** ** Lemmas: from tracepoints to events *)

Definition kind_ok (e : RawSyscallEvent) : Prop :=
  raw_kind e = KIND_ENTER ∨ raw_kind e = KIND_EXIT.

(** The raw event a firing submits. *)
Definition raw_of (tp : tracepoint) : RawSyscallEvent :=
  match tp with
  | SysEnter pt regs nr ts =>
      mkRaw KIND_ENTER (as_u 32 (Z.shiftr pt 32)) (as_u 32 pt) ts nr
        (default [] (read_syscall_args regs)) 0
  | SysExit pt ret ts =>
      mkRaw KIND_EXIT (as_u 32 (Z.shiftr pt 32)) (as_u 32 pt) ts 0 (replicate 6 0) (as_i 64 ret)
  end.

Lemma matching_target_inv target pt tg t :
  matching_target target pt = Some (tg, t) →
  tg = as_u 32 (Z.shiftr pt 32) ∧ t = as_u 32 pt ∧ tg = target.
Proof.
  unfold matching_target. destruct (target =? 0); [done|].
  destruct (as_u 32 (Z.shiftr pt 32) =? target) eqn:H; [|done]. cbn. apply Z.eqb_eq in H.
  by intros [= <- <-].
Qed.

Lemma read_syscall_args_wf regs l :
  (∀ o v, regs o = Some v → in_u 64 v) → read_syscall_args regs = Some l →
  length l = 6%nat ∧ Forall (in_u 64) l.
Proof.
  intros Hw. unfold read_syscall_args. destruct bpf_build.
  - destruct (regs 112) eqn:H1, (regs 104) eqn:H2, (regs 96) eqn:H3, (regs 56) eqn:H4,
      (regs 72) eqn:H5, (regs 64) eqn:H6; cbn; try done.
    intros [= <-]. split; [done|]. rewrite !Forall_cons_iff. do 6 (split; [by eapply Hw|]). done.
  - intros Hl%mapM_Some. split; [by rewrite <- (Forall2_length _ _ _ Hl)|].
    apply Forall_forall. intros v Hv. apply list_elem_of_lookup in Hv as [i Hi].
    destruct (Forall2_lookup_r _ _ _ _ _ Hl Hi) as (x & _ & Hx). by eapply Hw.
Qed.

Lemma raw_of_wf target tp : tp_wf tp → observed target tp = true → raw_wf (raw_of tp).
Proof.
  assert (Hu : ∀ w x, 0 < w → in_u w (as_u w x)).
  { intros w x Hw. unfold in_u, as_u. apply Z.mod_pos_bound. apply Z.pow_pos_nonneg; lia. }
  destruct tp as [pt regs nr ts|pt ret ts]; cbn.
  - intros (Hp & Hn & Ht & Hr) Ho. apply andb_true_iff in Ho as [_ Ho].
    apply bool_decide_eq_true in Ho as [l Hl]. rewrite Hl. cbn.
    destruct (read_syscall_args_wf _ _ Hr Hl).
    do 7 (split; [done || by apply Hu|]). done.
  - intros (Hp & Hr & Ht) _.
    do 7 (split; [done || by apply Hu || (by apply (Forall_replicate _ 6))|]). by apply as_i_range.
Qed.

Lemma fire_spec target cap ring tp :
  (length ring < cap)%nat → tp_wf tp →
  fire target cap ring tp =
    if observed target tp then ring ++ [raw_layout (raw_of tp)] else ring.
Proof.
  intros Hc Hw. destruct (observed target tp) eqn:Ho.
  - pose proof (raw_of_wf _ _ Hw Ho) as (_ & _ & _ & _ & _ & Hl & _).
    assert (Hem : emit cap (raw_of tp) ring = ring ++ [raw_layout (raw_of tp)]).
    { unfold emit. rewrite (proj2 (Nat.leb_gt _ _)) by done. by rewrite raw_encode_layout. }
    rewrite <- Hem. destruct tp as [pt regs nr ts|pt ret ts]; cbn in Ho |- *.
    + apply andb_true_iff in Ho as [H1 H2]. apply bool_decide_eq_true in H1 as [[tg t] H1].
      apply bool_decide_eq_true in H2 as [l H2]. unfold try_sys_enter. rewrite H1, H2.
      apply matching_target_inv in H1 as (-> & -> & _). done.
    + apply bool_decide_eq_true in Ho as [[tg t] H1]. unfold try_sys_exit. rewrite H1.
      apply matching_target_inv in H1 as (-> & -> & _). done.
  - destruct tp as [pt regs nr ts|pt ret ts]; cbn in Ho |- *.
    + unfold try_sys_enter. destruct (matching_target target pt) as [[tg t]|]; [|done].
      destruct (read_syscall_args regs); [|done].
      by rewrite !bool_decide_eq_true_2 in Ho by (by eexists).
    + unfold try_sys_exit. destruct (matching_target target pt) as [[tg t]|]; [|done].
      by rewrite bool_decide_eq_true_2 in Ho by (by eexists).
Qed.

Lemma fire_all target cap tps : ∀ ring,
  (length ring + length tps ≤ cap)%nat → Forall tp_wf tps →
  foldl (fire target cap) ring tps =
    ring ++ ((λ tp, raw_layout (raw_of tp)) <$> filter (λ tp, observed target tp = true) tps).
Proof.
  induction tps as [|tp tps IH]; intros ring Hc Hw; cbn [foldl].
  { by rewrite app_nil_r. }
  apply Forall_cons_iff in Hw as [Hw1 Hw]. cbn [length] in Hc. rewrite fire_spec by (done || lia).
  rewrite filter_cons. destruct (observed target tp) eqn:Ho; cbn [decide bool_eq_dec].
  - rewrite decide_True by done. rewrite IH by (rewrite ?length_app; cbn; (done || lia)).
    by rewrite <- app_assoc.
  - rewrite decide_False by done. apply IH; (done || lia).
Qed.

(** The pending table holds exactly the threads inside a syscall. *)
Definition pending_ok (before : list tracepoint) (m : gmap Z Z) : Prop :=
  ∀ t, m !! t = in_syscall t before.

Lemma raw_to_event_spec before m tp :
  pending_ok before m →
  ∃ m', raw_to_event (raw_of tp) m = Some (spec_event before tp, m') ∧ pending_ok (tp :: before) m'.
Proof.
  intros Hm. destruct tp as [pt regs nr ts|pt ret ts]; cbn.
  - eexists. split; [done|]. intros t. cbn.
    destruct (Z.eqb_spec (as_u 32 pt) t) as [<-|Hne]; [by rewrite lookup_insert_eq|].
    rewrite lookup_insert_ne by done. apply Hm.
  - rewrite Hm. eexists. split; [done|]. intros t. cbn.
    destruct (Z.eqb_spec (as_u 32 pt) t) as [<-|Hne]; [by rewrite lookup_delete_eq|].
    rewrite lookup_delete_ne by done. apply Hm.
Qed.

Lemma drain_ready_spec crc32 target tps : ∀ before m d sq n,
  Forall tp_wf tps → Forall (λ tp, observed target tp = true) tps → pending_ok before m →
  0 ≤ sq → sq + blen tps < 2 ^ 64 →
  ∃ m', drain_ready crc32 ((λ tp, raw_layout (raw_of tp)) <$> tps) n (mkWriter (Sink d []) sq, m) =
    (Ok (n + blen tps),
     (mkWriter (Sink (d ++ frames crc32 sq (spec_events before tps)) []) (sq + blen tps), m')) ∧
  pending_ok (rev tps ++ before) m'.
Proof.
  induction tps as [|tp tps IH]; intros before m d sq n Hw Ho Hm H0 Hs.
  { exists m. cbn. change (blen []) with 0. by rewrite app_nil_r, !Z.add_0_r. }
  apply Forall_cons_iff in Hw as [Hw1 Hw]. apply Forall_cons_iff in Ho as [Ho1 Ho].
  rewrite blen_cons in *. pose proof (blen_nonneg tps).
  rewrite fmap_cons. cbn [drain_ready]. rewrite <- (app_nil_r (raw_layout _)).
  rewrite raw_decode_layout by (eapply raw_of_wf; done). cbn [snd fst].
  destruct (raw_to_event_spec before m tp Hm) as (m1 & -> & Hm1).
  rewrite append_ok by lia.
  destruct (IH (tp :: before) m1 (d ++ frame crc32 sq (spec_event before tp)) (sq + 1) (n + 1))
    as (m2 & -> & Hm2); [done..|lia|lia|].
  exists m2. cbn [spec_events frames rev]. rewrite <- !app_assoc. split; [|done].
  replace (n + 1 + blen tps) with (n + (1 + blen tps)) by lia.
  by replace (sq + 1 + blen tps) with (sq + (1 + blen tps)) by lia.
Qed.

Lemma spec_events_app a : ∀ before b,
  spec_events before (a ++ b) = spec_events before a ++ spec_events (rev a ++ before) b.
Proof.
  induction a as [|tp a IH]; intros before b; [done|].
  cbn [app spec_events rev]. by rewrite IH, <- app_assoc.
Qed.

Lemma length_spec_events before a : blen (spec_events before a) = blen a.
Proof. revert before. induction a; intros before; [done|]. cbn. by rewrite !blen_cons, IHa. Qed.

Definition seen (target : Z) (tps : list tracepoint) : list tracepoint :=
  filter (λ tp, observed target tp = true) tps.

Definition fits (cap : nat) (tps : list tracepoint) : Prop :=
  (length tps ≤ cap)%nat ∧ Forall tp_wf tps.

(** One round of draining what fired since the ring was last empty. *)
Lemma drain_round crc32 target cap tps before m d sq :
  fits cap tps → pending_ok before m → 0 ≤ sq → sq + blen (seen target tps) < 2 ^ 64 →
  ∃ m', capture_trace (drain_ready crc32 (foldl (fire target cap) [] tps) 0)
          (mkWriter (Sink d []) sq, m) =
    (Ok (blen (seen target tps)),
     (mkWriter (Sink (d ++ frames crc32 sq (spec_events before (seen target tps))) [])
        (sq + blen (seen target tps)), m')) ∧
  pending_ok (rev (seen target tps) ++ before) m'.
Proof.
  intros [Hc Hw] Hm H0 Hs. rewrite fire_all by done. cbn [app].
  assert (Hf : Forall tp_wf (seen target tps)) by 
    (apply Forall_forall; intros tp [_ Htp]%list_elem_of_filter; by eapply Forall_forall in Hw).
  assert (Ho : Forall (λ tp, observed target tp = true) (seen target tps))
    by (apply Forall_forall; intros tp Htp; by apply list_elem_of_filter in Htp as [? _]).
  destruct (drain_ready_spec crc32 target _ before m d sq 0 Hf Ho Hm H0 Hs) as (m' & Hd & Hp).
  exists m'. split; [|done]. unfold capture_trace. fold (seen target tps). by rewrite Hd.
Qed.

Definition ring_round (target : Z) (cap : nat) (c : list tracepoint * poll)
    : list (list byte) * poll := (foldl (fire target cap) [] c.1, c.2).

Definition running (c : list tracepoint * poll) : Prop := c.2 = StillAlive ∨ c.2 = PollOther.

(** The rounds before the target's exit. *)
Lemma drain_loop_running crc32 target cap chunks rest : ∀ before m d sq n,
  Forall running chunks → Forall (fits cap ∘ fst) chunks → pending_ok before m → 0 ≤ sq →
  let s := seen target (concat (fst <$> chunks)) in
  sq + blen s < 2 ^ 64 →
  ∃ m', drain_loop crc32 (ring_round target cap <$> chunks ++ rest) n (mkWriter (Sink d []) sq, m) =
    drain_loop crc32 (ring_round target cap <$> rest) (n + blen s)
      (mkWriter (Sink (d ++ frames crc32 sq (spec_events before s)) []) (sq + blen s), m') ∧
  pending_ok (rev s ++ before) m'.
Proof.
  induction chunks as [|[tps st] chunks IH]; intros before m d sq n Hr Hf Hm H0; cbn zeta.
  { intros _. exists m. cbn. change (blen (seen target [])) with 0.
    by rewrite app_nil_r, !Z.add_0_r. }
  apply Forall_cons_iff in Hr as [Hr1 Hr]. apply Forall_cons_iff in Hf as [Hf1 Hf].
  rewrite fmap_cons. cbn [concat fst]. unfold seen at 1 2 3 4 5. rewrite filter_app.
  fold (seen target tps) (seen target (concat (fst <$> chunks))). set (s1 := seen target tps).
  set (s2 := seen target (concat (fst <$> chunks))). rewrite !blen_app. intros Hs.
  pose proof (blen_nonneg s1). pose proof (blen_nonneg s2).
  destruct (drain_round crc32 target cap tps before m d sq) as (m1 & Hd & Hm1); [done..|fold s1; lia|].
  fold s1 in Hd, Hm1.
  destruct (IH (rev s1 ++ before) m1 (d ++ frames crc32 sq (spec_events before s1)) (sq + blen s1)
              (n + blen s1)) as (m2 & Hl & Hm2); [done..|lia|fold s2; lia|].
  fold s2 in Hl, Hm2. exists m2. rewrite rev_app_distr, <- app_assoc. split; [|done].
  cbn [app]. rewrite fmap_cons. cbn [ring_round fst snd drain_loop].
  unfold mbind at 1, stm_bind at 1. rewrite Hd.
  destruct Hr1 as [Hr1|Hr1]; cbn in Hr1; subst st; rewrite Hl, spec_events_app, frames_app,
    length_spec_events, <- app_assoc, !Z.add_assoc; done.
Qed.

(** ** Properties *)

(** C36. The wire format shared by the kernel-side program and the collector
    round-trips: the encoder never panics and gives the 84 bytes of the layout
    (the kind, three bytes of padding, the process and the thread, the time, the
    number, the six arguments and the result, all little-endian), and the
    decoder recovers the event from them whatever follows; a shorter item is
    refused. *)
Theorem raw_roundtrip (e : RawSyscallEvent) (post : list byte) (n : nat) :
  raw_wf e →
  raw_encode e = Ok (raw_layout e) ∧ length (raw_layout e) = 84%nat ∧
  raw_decode (raw_layout e ++ post) = Ok (Some e) ∧
  ((n < 84)%nat → raw_decode (take n (raw_layout e)) = Ok None).
Proof.
  intros Hw. pose proof Hw as (_ & _ & _ & _ & _ & Hl & _).
  assert (HL : length (raw_layout e) = RAW_EVENT_LEN).
  { apply Nat2Z.inj. change (blen (raw_layout e) = 84). unfold raw_layout.
    rewrite !blen_app, !blen_le_bytes, blen_args. unfold blen. rewrite Hl. done. }
  split; [by apply raw_encode_layout|]. split; [done|]. split; [by apply raw_decode_layout|].
  intros Hn. unfold raw_decode. rewrite (proj2 (Z.ltb_lt _ _)); [done|].
  change (Z.of_nat RAW_EVENT_LEN) with 84. unfold blen. rewrite length_take. lia.
Qed.

(** A capture whose ring never fills between two polls loses nothing: the
    target exits with [code], and the trace holds, in firing order, exactly one
    event per observed tracepoint of the target, however the firings were cut
    into polls; each exit carries the syscall number of the entry its own thread
    last made, and the outcome counts the events. *)
Theorem capture_complete (crc32 : list byte → Z) (target : Z) (cap : nat)
    (chunks : list (list tracepoint * poll)) (t1 t2 : list tracepoint) (code : Z) (p : poll)
    (d : list byte) :
  Forall running chunks → Forall (fits cap ∘ fst) chunks → fits cap t1 → fits cap t2 →
  let s := seen target (concat (fst <$> chunks) ++ t1 ++ t2) in
  blen s < 2 ^ 64 →
  drain_until_exit crc32 (ring_round target cap <$> chunks ++ [(t1, PollExited code); (t2, p)])
    (mkWriter (Sink d []) 0) =
  (Ok (Some (mkOutcome (Some code) (blen s) 1)),
   mkWriter (Sink (d ++ frames crc32 0 (spec_events [] s)) []) (blen s)).
Proof.
  intros Hr Hf H1 H2. cbn zeta. unfold seen at 1 2 3 4. rewrite !filter_app.
  fold (seen target (concat (fst <$> chunks))) (seen target t1) (seen target t2).
  set (s0 := seen target (concat (fst <$> chunks))). rewrite !blen_app. intros Hs.
  pose proof (blen_nonneg s0). pose proof (blen_nonneg (seen target t1)).
  pose proof (blen_nonneg (seen target t2)). unfold drain_until_exit.
  assert (Hm : pending_ok [] ∅) by (intros t; by rewrite lookup_empty).
  destruct (drain_loop_running crc32 target cap chunks [(t1, PollExited code); (t2, p)] [] ∅ d 0 0)
    as (m0 & -> & Hm0); [done..|fold s0; lia|].
  fold s0 in Hm0 |- *. cbn [fmap list_fmap ring_round fst snd drain_loop head option_fmap option_map default].
  destruct (drain_round crc32 target cap t1 _ m0 (d ++ frames crc32 0 (spec_events [] s0)) (0 + blen s0) H1 Hm0)
    as (m1 & Hd1 & Hm1); [lia..|].
  unfold mbind at 1, stm_bind at 1. rewrite Hd1.
  pose proof (λ d' sq', drain_round crc32 target cap t2 _ m1 d' sq' H2 Hm1) as Hd.
  edestruct Hd as (m2 & Hd2 & _); cycle 2. { unfold mbind, stm_bind. rewrite Hd2.
  cbn. rewrite !spec_events_app, !frames_app, !length_spec_events, <- !app_assoc, !app_nil_r.
  rewrite !Z.add_assoc. done. }
  all: lia.
Qed.

End Programs.

(** ** Witnesses *)

#[local] Instance sample_build : BpfBuild := FeatureX86_64.

Definition sample_raw : RawSyscallEvent :=
  mkRaw KIND_EXIT 7 8 123 0 [1; 2; 3; 4; 5; 2 ^ 64 - 1] (-14).

Lemma raw_roundtrip_witness :
  raw_wf sample_raw ∧
  raw_encode sample_raw = Ok (raw_layout sample_raw) ∧ length (raw_layout sample_raw) = 84%nat ∧
  raw_decode (raw_layout sample_raw ++ [x07]) = Ok (Some sample_raw) ∧
  ((83 < 84)%nat → raw_decode (take 83 (raw_layout sample_raw)) = Ok None).
Proof.
  assert (H : raw_wf sample_raw).
  { unfold raw_wf, sample_raw. cbn [raw_kind raw_tgid raw_tid raw_timestamp_ns raw_nr raw_args raw_ret].
    eval_bounds. }
  split; [done|]. exact (raw_roundtrip sample_raw [x07] 83 H).
Defined.

(** Thread 8 of process 7 enters a read, thread 9 an open; the read returns in
    a later poll; another process fires in between. *)
Definition sample_regs : Z → option Z := λ o, Some (as_u 64 o).
Definition sample_chunks : list (list tracepoint * poll) :=
  [([SysEnter (7 * 2 ^ 32 + 8) sample_regs 0 1; SysEnter (7 * 2 ^ 32 + 9) sample_regs 2 2], StillAlive);
   ([SysEnter (6 * 2 ^ 32 + 6) sample_regs 1 3], PollOther)].
Definition sample_last : list tracepoint :=
  [SysExit (7 * 2 ^ 32 + 8) (2 ^ 64 - 14) 4].

Lemma sample_regs_wf o v : sample_regs o = Some v → in_u 64 v.
Proof. intros [= <-]. by apply Z.mod_pos_bound. Qed.

Lemma sample_last_fits : fits 4 sample_last.
Proof. split; [cbn; lia|]. apply Forall_singleton. cbn. eval_bounds. Qed.

Lemma sample_chunks_fit : Forall (fits 4 ∘ fst) sample_chunks.
Proof.
  pose proof sample_regs_wf.
  repeat (apply Forall_cons_2 || apply Forall_nil_2); (split; [cbn; lia|]); cbn [fst];
    repeat (apply Forall_cons_2 || apply Forall_nil_2); unfold tp_wf; split_and!; eauto; eval_bounds.
Qed.

Lemma capture_complete_witness :
  drain_until_exit crc32_ieee
    (ring_round 7 4 <$> (sample_chunks ++ [(sample_last, PollExited 3); ([], StillAlive)]))
    (mkWriter (Sink [] []) 0) =
  (Ok (Some (mkOutcome (Some 3) 3 1)),
   mkWriter (Sink (frames crc32_ieee 0
     [Event_new_with_tid EvSyscallEnter 1 8 (SyscallEnter_encode (mkSyscallEnter 0 [112; 104; 96; 56; 72; 64]));
      Event_new_with_tid EvSyscallEnter 2 9 (SyscallEnter_encode (mkSyscallEnter 2 [112; 104; 96; 56; 72; 64]));
      Event_new_with_tid EvSyscallExit 4 8 (SyscallExit_encode (mkSyscallExit 0 (-14) []))]) []) 3).
Proof.
  etransitivity; [apply (capture_complete crc32_ieee 7 4 sample_chunks sample_last [] 3 StillAlive [])|].
  - apply Forall_cons_2; [by left|]. apply Forall_cons_2; [by right|]. apply Forall_nil_2.
  - exact sample_chunks_fit.
  - exact sample_last_fits.
  - split; [cbn; lia|apply Forall_nil_2].
  - reflexivity.
  - vm_compute. reflexivity.
Defined.
