(* ===== verification/EbpfRecord.v ===== *)
(** * Recording through eBPF: [recorder-ebpf/capture.rs] and [error.rs]

    [record_command] from the loading of the object to the outcome, over the
    [aya] crate, the target process and the file system as a world of calls
    ([Aya]); what those calls promise ([AyaLaws]) is stated on the kernel-side
    program of [Ebpf], which fires between them.  The theorem joins the
    kernel-side program, the collector, the trace writer and the reader. *)

From S2P Require Import Prelude StdIo BufOut Text TraceFormat Crc32 TraceLog Payload Ptrace Capture Ebpf.

(** ** The calls *)

(** A call that fails with an error the code only prints. *)
Definition aya_op (W A : Type) : Type := W → (A + list byte) * W.

(** [aya], [std::process], [std::fs] and [waitpid] as the collector calls them.
    The one loaded object is part of the world. *)
Class Aya (W : Type) := {
  load_file : list byte → aya_op W unit;
  program_mut : list byte → W → bool;
  as_raw_tracepoint : list byte → aya_op W unit;
  program_load : list byte → aya_op W unit;
  program_attach : list byte → aya_op W unit;
  take_map : list byte → W → bool * W;
  ring_try_from : list byte → aya_op W unit;
  map_mut : list byte → W → bool;
  array_try_from : list byte → aya_op W unit;
  array_set : list byte → Z → Z → Z → aya_op W unit;
  command_spawn : list byte → list (list byte) → W → (Z + Z) * W;
  create_file : list byte → W → (unit + io_error) * W;
  ring_next : W → option (list byte) * W;
  waitpid_nohang : Z → W → poll * W;
}.

Definition EVENTS : list byte := str "EVENTS".
Definition TARGET_TGID : list byte := str "TARGET_TGID".

Section Collector.
Context {W : Type} {AW : Aya W} (crc32 : list byte → Z).
#[local] Abbreviation M := (stm W EbpfCaptureError).

(** [.map_err(f)?] and [.ok_or(e)?]. *)
Definition aya {A} (f : list byte → EbpfCaptureError) (k : aya_op W A) : M A := λ w,
  let '(r, w) := k w in (match r with inl a => Ok a | inr e => Err (f e) end, w).
Definition present (e : EbpfCaptureError) (found : bool) : M unit := if found then mret tt else st_throw e.

Definition attach_raw_tracepoint (name : list byte) : M unit :=
  found ← st_gets (program_mut name);
  present (BpfMissingProgram name) found;;
  aya (BpfProgram name) (as_raw_tracepoint name);;
  aya (BpfProgram name) (program_load name);;
  aya (BpfProgram name) (program_attach name).

Definition load_and_attach (bpf_object_path : list byte) : M unit :=
  aya (BpfLoadObject bpf_object_path) (load_file bpf_object_path);;
  attach_raw_tracepoint (str "sys_enter");;
  attach_raw_tracepoint (str "sys_exit").

(** [take_map] and [RingBuf::try_from]. *)
Definition open_ring : M unit :=
  found ← (λ w, let '(b, w) := take_map EVENTS w in (Ok b, w));
  present (BpfMissingMap EVENTS) found;;
  aya (BpfMap EVENTS) (ring_try_from EVENTS).

Definition ebpf_spawn (prog : list byte) (argv : list (list byte)) : M Z := λ w,
  let '(r, w) := command_spawn prog argv w in
  (match r with inl pid => Ok pid | inr e => Err (BpfSpawn e) end, w).

Definition configure_target (target : Z) : M unit :=
  found ← st_gets (map_mut TARGET_TGID);
  present (BpfMissingMap TARGET_TGID) found;;
  aya (BpfMap TARGET_TGID) (array_try_from TARGET_TGID);;
  aya (BpfMap TARGET_TGID) (array_set TARGET_TGID 0 (as_u 32 target) 0).

(** ** The collector over the world *)

(** The world, the writer and the pending table. *)
Definition collecting : Type := W * (TraceWriter bufwriter * gmap Z Z).

(** [while let Some(item) = ring_buf.next()], one pass being [drain_ready] of
    that item. *)
Fixpoint drain_ring (fuel : nat) (written : Z) : stm collecting EbpfCaptureError (option Z) := λ '(w, st),
  match fuel with
  | O => (Ok None, (w, st))
  | S fuel =>
      let '(item, w) := ring_next w in
      match item with
      | None => (Ok (Some written), (w, st))
      | Some item =>
          match capture_trace (drain_ready crc32 [item] 0) st with
          | (Ok n, st) => drain_ring fuel (written + n) (w, st)
          | (Err e, st) => (Err e, (w, st))
          | (Panic, st) => (Panic, (w, st))
          end
      end
  end.

(** The last drain, once the target is gone. *)
Definition last_drain (drains : nat) (code : option Z) (recorded : Z)
    : stm collecting EbpfCaptureError (option RecordOutcome) :=
  drained ← drain_ring drains 0;
  mret ((λ n, mkOutcome code (recorded + n) 1) <$> drained).

(** The loop of [drain_until_exit]; [drains] bounds each drain. *)
Fixpoint capture_loop (fuel drains : nat) (target recorded : Z)
    : stm collecting EbpfCaptureError (option RecordOutcome) :=
  match fuel with
  | O => mret None
  | S fuel =>
      drained ← drain_ring drains 0;
      match drained with
      | None => mret None
      | Some n =>
          status ← (λ '(w, st), let '(p, w) := waitpid_nohang target w in (Ok p, (w, st)));
          match status with
          | StillAlive | PollOther => capture_loop fuel drains target (recorded + n)
          | PollExited code => last_drain drains (Some code) (recorded + n)
          | PollSignaled => last_drain drains None (recorded + n)
          | PollErr e => st_throw (BpfProcess e)
          end
      end
  end.

(** Everything before the file is created. *)
Definition start_capture (prog : list byte) (argv : list (list byte)) (bpf_object_path : list byte) : M Z :=
  load_and_attach bpf_object_path;;
  open_ring;;
  child_pid ← ebpf_spawn prog argv;
  configure_target child_pid;;
  mret child_pid.

(** [record_command]; once the file is created, every way out drops the
    [BufWriter] over it. *)
Definition ebpf_record_command (prog : list byte) (argv : list (list byte)) (trace_path bpf_object_path : list byte)
    (fuel drains : nat) : stm (W * sink) EbpfCaptureError (option RecordOutcome) := λ '(w, file),
  match start_capture prog argv bpf_object_path w with
  | (Ok child_pid, w) =>
      match create_file trace_path w with
      | (inl _, w) =>
          match create_with_cmdline prog argv (BufWriter_new file) with
          | (Ok wr, _) =>
              let '(r, (w, (wr, _))) := capture_loop fuel drains child_pid 0 (w, (wr, ∅)) in
              (r, (w, bw_drop (w_inner wr)))
          | (Err e, b) => (Err (BpfTrace e), (w, bw_drop b))
          | (Panic, b) => (Panic, (w, bw_drop b))
          end
      | (inr e, w) => (Err (BpfTrace (TraceIo e)), (w, file))
      end
  | (Err e, w) => (Err e, (w, file))
  | (Panic, w) => (Panic, (w, file))
  end.

(** ** Messages *)

Context (nix_text io_text : Z → list byte) (trace_text : TraceError → list byte).

Definition nl : list byte := [x0a].

(** [EbpfCaptureError]'s [Display]. *)
Definition ebpf_error_display (e : EbpfCaptureError) : list byte :=
  match e with
  | BpfLoadObject path source =>
      str "failed to load eBPF object " ++ path ++ str ": " ++ source ++ nl
      ++ str "hint: build it first (crates/recorder-ebpf-programs/README.md), and confirm the kernel exposes BTF (/sys/kernel/btf/vmlinux)"
  | BpfMissingProgram name => str "eBPF object is missing expected program " ++ name
  | BpfProgram name source =>
      str "failed to load/attach eBPF program " ++ name ++ str ": " ++ source ++ nl
      ++ str "hint: this needs root (CAP_BPF + CAP_PERFMON)"
  | BpfMissingMap name => str "eBPF object is missing expected map " ++ name
  | BpfMap name source => str "eBPF map " ++ name ++ str " access failed: " ++ source
  | BpfSpawn e => str "failed to spawn target: " ++ io_text e
  | BpfProcess e => str "process control failure: " ++ nix_text e
  | BpfTrace e => trace_text e
  end.

End Collector.

(** ** What the calls promise *)

(** The attached programs: their target, the ring, every firing so far, those
    whose event the ring took, and how many observed ones found it full. *)
Record bpf_state := BpfState {
  b_target : Z; b_ring : list (list byte); b_log : list tracepoint; b_kept : list tracepoint; b_lost : nat
}.

Definition with_target (v : Z) (s : bpf_state) : bpf_state := BpfState v (b_ring s) (b_log s) (b_kept s) (b_lost s).
Definition with_ring (r : list (list byte)) (s : bpf_state) : bpf_state :=
  BpfState (b_target s) r (b_log s) (b_kept s) (b_lost s).

Section Laws.
Context {BB : BpfBuild} (capacity : nat).

(** One firing: the program runs. *)
Definition fires (s : bpf_state) (tp : tracepoint) : bpf_state :=
  let ring := fire (b_target s) capacity (b_ring s) tp in
  let taken := (length (b_ring s) <? length ring)%nat in
  BpfState (b_target s) ring (b_log s ++ [tp]) (if taken then b_kept s ++ [tp] else b_kept s)
    (if observed (b_target s) tp && negb taken then S (b_lost s) else b_lost s).

(** Time passes. *)
Definition later (s s' : bpf_state) : Prop := ∃ tps, Forall tp_wf tps ∧ s' = foldl fires s tps.

(** The documented behaviour of the calls; firings may come at any of them.  A
    loaded object starts with zeroed maps. *)
Class AyaLaws (W : Type) {AW : Aya W} := {
  bpf : W → bpf_state;
  load_law p w w' : load_file p w = (inl tt, w') → bpf w' = BpfState 0 [] [] [] 0;
  tracepoint_law n w w' : as_raw_tracepoint n w = (inl tt, w') → later (bpf w) (bpf w');
  program_load_law n w w' : program_load n w = (inl tt, w') → later (bpf w) (bpf w');
  attach_law n w w' : program_attach n w = (inl tt, w') → later (bpf w) (bpf w');
  take_law n w b w' : take_map n w = (b, w') → later (bpf w) (bpf w');
  ring_law n w w' : ring_try_from n w = (inl tt, w') → later (bpf w) (bpf w');
  array_law n w w' : array_try_from n w = (inl tt, w') → later (bpf w) (bpf w');
  set_law v w w' : array_set TARGET_TGID 0 v 0 w = (inl tt, w') →
    ∃ s, later (bpf w) s ∧ later (with_target v s) (bpf w');
  command_law p a w pid w' : command_spawn p a w = (inl pid, w') → later (bpf w) (bpf w');
  file_law p w w' : create_file p w = (inl tt, w') → later (bpf w) (bpf w');
  poll_law pid w p w' : waitpid_nohang pid w = (p, w') → later (bpf w) (bpf w');
  next_law w r w' : ring_next w = (r, w') → ∃ s, later (bpf w) s ∧
    match r with
    | None => b_ring s = [] ∧ bpf w' = s
    | Some item => ∃ rest, b_ring s = item :: rest ∧ bpf w' = with_ring rest s
    end;
}.

Lemma later_refl s : later s s.
Proof. by exists []. Qed.

Lemma later_trans s1 s2 s3 : later s1 s2 → later s2 s3 → later s1 s3.
Proof.
  intros (a & Ha & ->) (b & Hb & ->). exists (a ++ b). split; [by apply Forall_app|]. by rewrite foldl_app.
Qed.

(** What a firing does, by cases. *)
Lemma fires_cases s tp :
  tp_wf tp →
  b_target (fires s tp) = b_target s ∧ b_log (fires s tp) = b_log s ++ [tp] ∧
  (observed (b_target s) tp = true ∧ b_ring (fires s tp) = b_ring s ++ [raw_layout (raw_of tp)] ∧
     b_kept (fires s tp) = b_kept s ++ [tp] ∧ b_lost (fires s tp) = b_lost s ∨
   b_ring (fires s tp) = b_ring s ∧ b_kept (fires s tp) = b_kept s ∧
     (observed (b_target s) tp = true ∧ b_lost (fires s tp) = S (b_lost s) ∨
      observed (b_target s) tp = false ∧ b_lost (fires s tp) = b_lost s)).
Proof.
  intros Hw. split; [done|]. split; [done|]. unfold fires. cbn [b_target b_ring b_log b_kept b_lost].
  destruct (decide (length (b_ring s) < capacity)%nat) as [Hc|Hc].
  - rewrite (fire_spec (b_target s) capacity (b_ring s) tp Hc Hw). destruct (observed (b_target s) tp) eqn:Ho.
    + left. assert (Ht : (length (b_ring s) <? length (b_ring s ++ [raw_layout (raw_of tp)]))%nat = true)
        by (apply Nat.ltb_lt; rewrite length_app; cbn; lia). by rewrite Ht.
    + right. rewrite Nat.ltb_irrefl. split_and!; [done..|]. by right.
  - assert (Hf : fire (b_target s) capacity (b_ring s) tp = b_ring s).
    { assert (He : ∀ e, emit capacity e (b_ring s) = b_ring s)
        by (intros e; unfold emit; by rewrite (proj2 (Nat.leb_le _ _)) by lia).
      destruct tp; cbn; unfold try_sys_enter, try_sys_exit; destruct (matching_target _ _) as [[]|]; try done.
      by destruct (read_syscall_args _). }
    right. rewrite Hf, Nat.ltb_irrefl. split_and!; [done..|]. destruct (observed (b_target s) tp); auto.
Qed.

(** *** Before the target is configured, and after *)

(** The filter lets nothing through. *)
Definition idle (s : bpf_state) : Prop := b_target s = 0 ∧ b_ring s = [] ∧ b_kept s = [] ∧ b_lost s = 0%nat.

Lemma observed_none tp : observed 0 tp = false.
Proof. by destruct tp. Qed.

Lemma later_idle s s' : later s s' → idle s → idle s'.
Proof.
  intros (tps & Hw & ->). revert s. induction Hw as [|tp tps Hwf _ IH]; intros s Hs; [done|]. apply IH.
  destruct Hs as (Ht & Hr & Hk & Hl). destruct (fires_cases s tp Hwf) as (T & _ & C). unfold idle.
  rewrite T. destruct C as [(O & _)|(R & K & [[O _]|[_ L]])]; try (by rewrite Ht, observed_none in O). split_and!; congruence.
Qed.

(** The target [v] was configured after the firings [early]. *)
Definition since (v : Z) (early : list tracepoint) (s : bpf_state) : Prop :=
  b_target s = v ∧ Forall tp_wf (b_kept s) ∧ Forall (λ tp, observed v tp = true) (b_kept s) ∧
  ∃ late, b_log s = early ++ late ∧ b_kept s `sublist_of` seen v late ∧
    (b_lost s = 0%nat → b_kept s = seen v late).

Lemma seen_snoc v late tp : seen v (late ++ [tp]) = seen v late ++ (if observed v tp then [tp] else []).
Proof. unfold seen. rewrite filter_app, filter_cons, filter_nil. by destruct (observed v tp). Qed.

Lemma idle_since v s : idle s → since v (b_log s) (with_target v s).
Proof.
  intros (Ht & Hr & Hk & Hl). split; [done|]. cbn. rewrite Hk. split; [done|]. split; [done|].
  exists []. rewrite app_nil_r. done.
Qed.

Lemma later_since v early s s' : later s s' → since v early s → since v early s'.
Proof.
  intros (tps & Hw & ->). revert s. induction Hw as [|tp tps Hwf _ IH]; intros s Hs; [done|]. apply IH. clear IH.
  destruct Hs as (<- & Hk1 & Hk2 & late & Hl & Hsub & Hall).
  destruct (fires_cases s tp Hwf) as (T & L & C). split; [done|]. rewrite L. clear T.
  destruct C as [(O & _ & K & N)|(_ & K & C)]; rewrite K.
  - split; [by apply Forall_app_2, Forall_singleton|]. split; [by apply Forall_app_2, Forall_singleton|]. exists (late ++ [tp]).
    rewrite Hl, app_assoc, seen_snoc, O. split; [done|]. split; [by apply sublist_app|].
    rewrite N. intros H0. by rewrite Hall.
  - split; [done|]. split; [done|]. exists (late ++ [tp]). rewrite Hl, app_assoc, seen_snoc. split; [done|].
    split; [by apply sublist_inserts_r|]. destruct C as [[_ N]|[O N]]; rewrite N; [done|].
    rewrite O, app_nil_r. done.
Qed.

(** *** What has been written *)

Definition raws (tps : list tracepoint) : list (list byte) := (λ tp, raw_layout (raw_of tp)) <$> tps.

(** The first [n] kept firings are written after [d], the others in the ring; a
    [healthy] file still takes every write. *)
Definition collected (healthy : Prop) (crc32 : list byte → Z) (d : list byte) (n : Z) (s : bpf_state) (st : TraceWriter bufwriter * gmap Z Z)
    : Prop :=
  ∃ gone todo, b_kept s = gone ++ todo ∧ b_ring s = raws todo ∧ n = blen gone ∧ pending_ok (rev gone) st.2 ∧
    (blen (b_kept s) < 2 ^ 64 →
     written (w_inner st.1) = d ++ frames crc32 0 (spec_events [] gone) ∧ next_seq st.1 = blen gone) ∧
    (healthy → accepts_all (bw_inner (w_inner st.1))).

Lemma later_collected h crc32 d n s s' st : later s s' → collected h crc32 d n s st → collected h crc32 d n s' st.
Proof.
  intros (tps & Hw & ->). revert s. induction Hw as [|tp tps Hwf _ IH]; intros s Hs; [done|]. apply IH. clear IH.
  destruct Hs as (gone & todo & Hk & Hr & Hn & Hp & Hd & Ha). destruct (fires_cases s tp Hwf) as (_ & _ & C).
  destruct C as [(_ & R & K & _)|(R & K & _)].
  - exists gone, (todo ++ [tp]). rewrite R, K, Hk, Hr. unfold raws. rewrite fmap_app, app_assoc.
    split_and!; [done..| |done]. rewrite Hk in Hd. rewrite !blen_app. intros Hb. apply Hd. rewrite blen_app.
    pose proof (blen_nonneg [tp]). lia.
  - exists gone, todo. rewrite R, K. done.
Qed.

(** One item taken from the ring and written. *)
Lemma item_collected h crc32 d n s st item rest k st' v early :
  since v early s → collected h crc32 d n s st → b_ring s = item :: rest →
  capture_trace (drain_ready crc32 [item] 0) st = (Ok k, st') →
  collected h crc32 d (n + k) (with_ring rest s) st'.
Proof.
  intros (_ & Hwf & Hob & _) (gone & todo & Hk & Hr & Hn & Hp & Hd & Hh) Hi Hx. rewrite Hi in Hr.
  destruct todo as [|tp todo]; [done|]. unfold raws in Hr. rewrite fmap_cons in Hr. injection Hr as -> Hr.
  rewrite Hk in Hwf, Hob. apply Forall_app in Hwf as [_ Hwf]. apply Forall_app in Hob as [_ Hob].
  apply Forall_cons_iff in Hwf as [Hwf _]. apply Forall_cons_iff in Hob as [Hob _].
  unfold capture_trace in Hx. destruct st as [wr m]. cbn [drain_ready fst snd] in Hx, Hp, Hd.
  rewrite <- (app_nil_r (raw_layout _)), raw_decode_layout in Hx by (eapply raw_of_wf; done).
  destruct (raw_to_event_spec _ _ tp Hp) as (m1 & He & Hm1). rewrite He in Hx.
  destruct (append crc32 _ wr) as [[q| |] wr1] eqn:Ha; [|done..]. injection Hx as <- <-.
  pose proof (append_kept (λ b, accepts_all (bw_inner b)) bw_accepts _ _ _ _ _ Ha) as Hkept.
  apply append_success in Ha as [Hdata Hq]. exists (gone ++ [tp]), todo. cbn [fst snd b_kept b_ring with_ring].
  rewrite <- app_assoc, Hk, Hn, rev_app_distr. split_and!; [done|done|by rewrite blen_app|done| |by auto].
  rewrite Hk in Hd. intros Hb. destruct (Hd Hb) as [Hd1 Hd2]. rewrite Hd1, Hd2 in Hdata. rewrite Hd2 in Hq.
  rewrite spec_events_app, frames_app, length_spec_events, app_nil_r. cbn [frames spec_events]. rewrite app_nil_r, Hdata, <- app_assoc.
  split; [done|]. rewrite Hq, blen_app.
  by change (blen [tp]) with 1.
Qed.

End Laws.

Arguments bpf {BB capacity W AW AyaLaws} : rename.

(** ** Runs of the collector *)

Section Runs.
Context {BB : BpfBuild} (capacity : nat) {W : Type} {AW : Aya W} {AL : AyaLaws capacity W} (crc32 : list byte → Z).
#[local] Abbreviation later := (later capacity).

(** The collector's state between two of its calls. *)
Definition caught_up (healthy : Prop) (v : Z) (early : list tracepoint) (d : list byte) (n : Z) (x : collecting (W := W)) : Prop :=
  since v early (bpf x.1) ∧ collected healthy crc32 d n (bpf x.1) x.2.

Lemma later_caught_up h v early d n (w w' : W) st :
  later (bpf w) (bpf w') → caught_up h v early d n (w, st) → caught_up h v early d n (w', st).
Proof. intros Hl [H1 H2]. split; [by eapply later_since|by eapply later_collected]. Qed.

Lemma drain_ring_caught_up h v early d fuel : ∀ base written x m x',
  caught_up h v early d (base + written) x → drain_ring crc32 fuel written x = (Ok (Some m), x') →
  caught_up h v early d (base + m) x' ∧ b_ring (bpf x'.1) = [].
Proof.
  induction fuel as [|fuel IH]; intros base written [w st] m x' Hc Hx; [done|]. cbn [drain_ring] in Hx.
  destruct (ring_next w) as [r w1] eqn:Hr. apply (next_law capacity) in Hr as (s & Hl & Hn).
  destruct Hc as [Hs Hc]. cbn [fst snd] in Hs, Hc.
  eapply later_since in Hs; [|exact Hl]. eapply later_collected in Hc; [|exact Hl].
  destruct r as [item|].
  - destruct Hn as (rest & Hi & Hw1).
    destruct (capture_trace (drain_ready crc32 [item] 0) st) as [[k| |] st1] eqn:Hd; [|done..].
    apply IH with (base := base) in Hx; [done|]. unfold caught_up. cbn [fst snd]. rewrite Hw1. split.
    + destruct Hs as (? & ? & ? & ?). split; [done|]. done.
    + rewrite Z.add_assoc. by eapply item_collected.
  - destruct Hn as [Hn <-]. injection Hx as <- <-. done.
Qed.

Lemma capture_loop_caught_up h v early d drains target fuel : ∀ n x o x',
  caught_up h v early d n x → capture_loop crc32 fuel drains target n x = (Ok (Some o), x') →
  caught_up h v early d (events_recorded o) x' ∧ b_ring (bpf x'.1) = [] ∧ threads_followed o = 1.
Proof.
  induction fuel as [|fuel IH]; intros n x o x' Hc Hx; [done|]. cbn [capture_loop] in Hx.
  apply st_bind_ok in Hx as (dr & x1 & Hd & Hx). destruct dr as [k|]; [|done].
  rewrite <- (Z.add_0_r n) in Hc. apply (drain_ring_caught_up h v early d _ n) in Hd as [Hc1 _]; [|done].
  apply st_bind_ok in Hx as (p & x2 & Hp & Hx). destruct x1 as [w1 st1].
  destruct (waitpid_nohang target w1) as [q w2] eqn:Hq. injection Hp as <- <-.
  eapply later_caught_up in Hc1; [|by eapply (poll_law capacity)].
  assert (Hlast : ∀ code, last_drain crc32 drains code (n + k) (w2, st1) = (Ok (Some o), x') →
    caught_up h v early d (events_recorded o) x' ∧ b_ring (bpf x'.1) = [] ∧ threads_followed o = 1).
  { intros code Hl. unfold last_drain in Hl. apply st_bind_ok in Hl as (dr & x3 & Hd & Hl).
    destruct dr as [j|]; [|done]. injection Hl as <- <-. rewrite <- (Z.add_0_r (n + k)) in Hc1.
    apply (drain_ring_caught_up h v early d _ (n + k)) in Hd as [??]; done. }
  destruct q; [by eapply IH|by eapply Hlast|by eapply Hlast|by eapply IH|done].
Qed.

(** *** The start *)

Lemma aya_later {A} f (k : aya_op W A) (w w' : W) a :
  (∀ w w' b, k w = (inl b, w') → later (bpf w) (bpf w')) → aya f k w = (Ok a, w') → later (bpf w) (bpf w').
Proof.
  intros Hk. unfold aya. destruct (k w) as [[b|e] w1] eqn:Hw; [|done]. intros [= _ <-]. by eapply Hk.
Qed.

Lemma present_ok e b (w w' : W) u : present e b w = (Ok u, w') → w' = w.
Proof. unfold present. destruct b; [|done]. by intros [= _ <-]. Qed.

Lemma attach_later name (w w' : W) u : attach_raw_tracepoint name w = (Ok u, w') → later (bpf w) (bpf w').
Proof.
  intros Hx. unfold attach_raw_tracepoint in Hx. st_inv. apply present_ok in Hm0 as ->.
  eapply later_trans; [|eapply later_trans]; (eapply aya_later; [|eassumption]); intros ? ? [] ?;
    [by eapply (tracepoint_law capacity)|by eapply (program_load_law capacity)|by eapply (attach_law capacity)].
Qed.

Lemma load_idle path (w w' : W) u : load_and_attach path w = (Ok u, w') → idle (bpf w').
Proof.
  intros Hx. unfold load_and_attach in Hx. st_inv. unfold aya in Hm.
  destruct (load_file path w) as [[[]|e] w1] eqn:Hl; [|done]. injection Hm as _ <-.
  apply (load_law capacity) in Hl. apply attach_later in Hm0, Hx.
  eapply later_idle; [exact Hx|]. eapply later_idle; [exact Hm0|]. by rewrite Hl.
Qed.

Lemma open_ring_later (w w' : W) u : open_ring w = (Ok u, w') → later (bpf w) (bpf w').
Proof.
  intros Hx. unfold open_ring in Hx. st_inv. destruct (take_map EVENTS w) as [b w1] eqn:Ht.
  injection Hm as <- <-. apply present_ok in Hm0 as ->. eapply later_trans; [by eapply (take_law capacity)|].
  eapply aya_later; [|exact Hx]. intros ? ? [] ?. by eapply (ring_law capacity).
Qed.

Lemma spawn_later prog argv (w w' : W) pid : ebpf_spawn prog argv w = (Ok pid, w') → later (bpf w) (bpf w').
Proof.
  unfold ebpf_spawn. destruct (command_spawn prog argv w) as [[p|e] w1] eqn:Hs; [|done].
  intros [= _ <-]. by eapply (command_law capacity).
Qed.

Lemma configure_sets pid (w w' : W) u :
  configure_target pid w = (Ok u, w') →
  ∃ s, later (bpf w) s ∧ later (with_target (as_u 32 pid) s) (bpf w').
Proof.
  intros Hx. unfold configure_target in Hx. st_inv. apply present_ok in Hm0 as ->. unfold aya in Hx.
  destruct (array_set _ _ _ _ _) as [[[]|e] w1] eqn:Hs; [|done]. injection Hx as _ <-.
  apply (set_law capacity) in Hs as (s & H1 & H2). exists s. split; [|done].
  eapply later_trans; [|exact H1]. eapply aya_later; [|exact Hm1]. intros ? ? [] ?. by eapply (array_law capacity).
Qed.

(** Until the filter is set nothing is kept; what fires from then on is. *)
Lemma start_capture_since prog argv path (w w' : W) pid :
  start_capture prog argv path w = (Ok pid, w') →
  ∃ s, idle s ∧ later (with_target (as_u 32 pid) s) (bpf w').
Proof.
  intros Hx. unfold start_capture in Hx. st_inv. apply load_idle in Hm.
  apply configure_sets in Hm2 as (s' & H1 & H2). exists s'. split; [|done].
  eapply later_idle; [exact H1|]. eapply later_idle; [by eapply spawn_later|].
  eapply later_idle; [by eapply open_ring_later|done].
Qed.

Lemma spec_events_fit v before tps :
  Forall tp_wf tps → Forall (λ tp, observed v tp = true) tps → Forall event_fits (spec_events before tps).
Proof.
  revert before. induction tps as [|tp tps IH]; intros before Hw Ho; [done|].
  apply Forall_cons_iff in Hw as [Hw1 Hw]. apply Forall_cons_iff in Ho as [Ho1 Ho].
  apply Forall_cons_2; [|by apply IH]. clear IH.
  assert (Hu : ∀ x, in_u 32 (as_u 32 x)) by (intros x; by apply Z.mod_pos_bound).
  destruct tp as [pt regs nr ts|pt ret ts]; cbn in Hw1, Ho1.
  - destruct Hw1 as (_ & _ & Ht & Hr). apply andb_true_iff in Ho1 as [_ Hl].
    apply bool_decide_eq_true in Hl as [l Hl]. cbn. rewrite Hl. cbn.
    destruct (read_syscall_args_wf _ _ Hr Hl) as [Hl6 _]. split; [exact (conj I (conj Ht (Hu _)))|]. cbn [payload Event_new_with_tid].
    by rewrite enter_encode_length.
  - destruct Hw1 as (_ & _ & Ht). split; [exact (conj I (conj Ht (Hu _)))|]. cbn [payload Event_new_with_tid spec_event].
    by rewrite exit_encode_length.
Qed.

(** *** Termination *)

(** A target that ends after finitely much: every item handed over, and every
    poll that finds it running, uses some of it up. *)
Class FiniteTarget := {
  ahead : W → nat;
  next_spends w item w' : ring_next w = (item, w') →
    (ahead w' + (if item is Some _ then 1 else 0) ≤ ahead w)%nat;
  poll_spends pid w p w' : waitpid_nohang pid w = (p, w') →
    (ahead w' + (match p with StillAlive | PollOther => 1 | _ => 0 end) ≤ ahead w)%nat;
}.

Context {FT : FiniteTarget}.

Lemma drain_ring_ends fuel : ∀ n w st,
  (ahead w < fuel)%nat →
  (drain_ring crc32 fuel n (w, st)).1 ≠ Ok None ∧ (ahead (drain_ring crc32 fuel n (w, st)).2.1 ≤ ahead w)%nat.
Proof.
  induction fuel as [|fuel IH]; intros n w st Hf; [lia|]. cbn [drain_ring].
  destruct (ring_next w) as [[item|] w1] eqn:Hr; apply next_spends in Hr; [|split; [done|cbn; lia]].
  destruct (capture_trace _ st) as [[k|e|] st1]; [|split; [done|cbn; lia]..].
  destruct (IH (n + k) w1 st1) as [H1 H2]; [lia|]. split; [done|lia].
Qed.

Lemma capture_loop_ends drains target fuel : ∀ n w st,
  (ahead w < fuel)%nat → (ahead w < drains)%nat → (capture_loop crc32 fuel drains target n (w, st)).1 ≠ Ok None.
Proof.
  induction fuel as [|fuel IH]; intros n w st Hf Hd; [lia|]. cbn [capture_loop].
  destruct (drain_ring_ends drains 0 w st Hd) as [H1 H2].
  destruct (drain_ring crc32 drains 0 (w, st)) as [[[k|]|e|] [w1 st1]] eqn:Hx; cbn in H1, H2; [|done|..].
  - erewrite bind_run by exact Hx. destruct (waitpid_nohang target w1) as [p w2] eqn:Hp.
    erewrite bind_run by (by rewrite Hp). apply poll_spends in Hp.
    destruct p; try done; try (apply IH; lia);
      (unfold last_drain; intros Hl; destruct (drain_ring_ends drains 0 w2 st1) as [H3 _]; [lia|];
       destruct (drain_ring crc32 drains 0 (w2, st1)) as [[[j|]|e|] x] eqn:Hy; cbn in H3; try done;
       [erewrite bind_run in Hl by exact Hy; done|erewrite bind_err in Hl by exact Hy; done|
        unfold mbind, stm_bind in Hl; by rewrite Hy in Hl]).
  - by erewrite bind_err by exact Hx.
  - unfold mbind, stm_bind. by rewrite Hx.
Qed.

Lemma ebpf_record_ends prog argv trace_path path fuel drains (w : W) file :
  (∀ pid w1 w2, start_capture prog argv path w = (Ok pid, w1) → create_file trace_path w1 = (inl tt, w2) →
     (ahead w2 < fuel)%nat ∧ (ahead w2 < drains)%nat) →
  (ebpf_record_command crc32 prog argv trace_path path fuel drains (w, file)).1 ≠ Ok None.
Proof.
  intros Hb. unfold ebpf_record_command. destruct (start_capture _ _ _ w) as [[pid| |] w1] eqn:Hs; [|done..].
  destruct (create_file trace_path w1) as [[[]|e] w2] eqn:Hf; [|done].
  destruct (create_with_cmdline _ _ _) as [[wr| |] f1]; [|done..].
  destruct (Hb _ _ _ eq_refl Hf) as [H1 H2].
  pose proof (capture_loop_ends drains pid fuel 0 w2 (wr, ∅) H1 H2) as He.
  by destruct (capture_loop _ _ _ _ _ _) as [r [w3 [wr' m]]].
Qed.

(** ** Properties *)

(** C39. An eBPF recording is what the kernel-side program saw.  When
    [record_command] returns an outcome, some target was configured as the
    filter after the firings [early]; whatever fired when, the file is a
    prefix of, and if it takes every write all of, the header of the command
    followed by the frames of exactly the firings the ring took, in firing
    order, each exit under the number of the call its thread last entered; they
    are firings of that target from the moment the filter was set, none of those
    before it, and all of them if no firing found the ring full; the outcome
    counts them.  Read back, in any chunks, the whole file gives the command and
    exactly those events.  And on a target that ends, the
    recording returns: enough fuel is what the world has left when the loop
    starts. *)
Theorem ebpf_recording_reads_back (c : Cmdline) (trace_path bpf_object_path : list byte) (fuel drains : nat) :
  (∀ bs, in_u 32 (crc32 bs)) → cmdline_fits c →
  BASE_HEADER_LEN + blen (encode_cmdline (program c) (args c)) < 2 ^ 16 →
  (∀ (w : W) (file : sink), (∀ pid w1 w2, start_capture (program c) (args c) bpf_object_path w = (Ok pid, w1) →
       create_file trace_path w1 = (inl tt, w2) → (ahead w2 < fuel)%nat ∧ (ahead w2 < drains)%nat) →
     (ebpf_record_command crc32 (program c) (args c) trace_path bpf_object_path fuel drains (w, file)).1 ≠ Ok None) ∧
  ∀ (w w' : W) (sc : list write_step) (file : sink) (o : RecordOutcome),
  ebpf_record_command crc32 (program c) (args c) trace_path bpf_object_path fuel drains (w, Sink [] sc)
    = (Ok (Some o), (w', file)) →
  ∃ target early late kept,
    b_log (bpf w') = early ++ late ∧ b_target (bpf w') = target ∧ b_kept (bpf w') = kept ∧
    kept `sublist_of` seen target late ∧ (b_lost (bpf w') = 0%nat → kept = seen target late) ∧
    events_recorded o = blen kept ∧ threads_followed o = 1 ∧
    (blen kept < 2 ^ 64 →
     (∃ n, snk_data file = take n (log_bytes crc32 c (spec_events [] kept))) ∧
     (accepts_all (Sink [] sc) →
      snk_data file = log_bytes crc32 c (spec_events [] kept) ∧
      ∀ s, only_chunks s = true → src_data s = snk_data file →
        ∃ r, open s = Ok r ∧ r_cmdline r = Some c ∧
          collect crc32 (collect_fuel r) r = Ok (number 0 (spec_events [] kept)))).
Proof.
  intros Hcrc Hc Hlen. split; [intros w file; apply ebpf_record_ends|].
  intros w w' sc file o Hx. unfold ebpf_record_command in Hx.
  destruct (start_capture _ _ _ w) as [[pid| |] w1] eqn:Hs; [|done..].
  apply start_capture_since in Hs as (s & Hi & Hl).
  destruct (create_file trace_path w1) as [[[]|e] w2] eqn:Hf; [|done]. apply (file_law capacity) in Hf.
  destruct (create_with_cmdline _ _ _) as [[wr| |] f1] eqn:Hcr; [|done..].
  apply (create_buffered crc32) in Hcr as [Hcl Ha0]; [|done]. destruct (Hcl ltac:(by vm_compute)) as [Hd Hq]. cbn in Hd.
  destruct (capture_loop _ _ _ _ _ _) as [r [w3 [wr' m]]] eqn:Hrun. injection Hx as -> <- <-.
  set (v := as_u 32 pid) in *. assert (Hl2 : later (with_target v s) (bpf w2)) by (by eapply later_trans).
  set (d := header_bytes (encode_cmdline (program c) (args c))) in *.
  assert (Hcu : caught_up (accepts_all (Sink [] sc)) v (b_log s) d 0 (w2, (wr, ∅))).
  { destruct Hi as (H1 & H2 & H3 & H4). split.
    - eapply later_since; [exact Hl2|]. by apply idle_since.
    - eapply later_collected; [exact Hl2|]. exists [], []. cbn. split_and!; [done|done|done| |done|done].
      intros t. by rewrite lookup_empty. }
  destruct (capture_loop_caught_up _ _ _ _ _ _ _ _ _ _ _ Hcu Hrun) as (Hdone & He & Hth). clear Hrun Hcu.
  destruct Hdone as [(Htgt & Hwf & Hob & late & Hlog & Hsub & Hall) (gone & todo & Hk & Hr & Hn & Hp & Hdata & Hacc)].
  cbn [fst snd] in *. rewrite He in Hr. destruct todo; [|done]. rewrite app_nil_r in Hk.
  exists v, (b_log s), late, gone. rewrite <- Hk. do 5 (split; [done|]). rewrite Hn, Hk. split; [done|]. split; [done|].
  intros Hb. rewrite Hk in Hdata, Hwf, Hob. destruct (Hdata Hb) as [Hf1 _].
  destruct (buffered_file _ _ _ Hf1 Hacc) as [Hpre Hwhole]. split; [done|]. intros Hh. split; [by apply Hwhole|].
  intros src Hch Hsrc. rewrite (Hwhole Hh) in Hsrc.
  destruct (read_back crc32 c (spec_events [] gone) src Hcrc Hc Hlen) as (rd & Ho & _ & Hrc & Hcol); try done.
  - by eapply spec_events_fit.
  - by rewrite length_spec_events.
  - eauto.
Qed.
End Runs.

(** ** A concrete world *)

#[local] Instance lab_build : BpfBuild := FeatureX86_64.

(** Firings whose words have their width. *)
Definition firing : Type := { tp : tracepoint | tp_wf tp }.

(** The programs, the firings that come at each call from the spawn on, and
    what each poll will report. *)
Record lab := Lab { l_bpf : bpf_state; l_script : list (list firing); l_polls : list poll }.

Definition tick (w : lab) : lab :=
  Lab (foldl (fires 4) (l_bpf w) (proj1_sig <$> default [] (head (l_script w)))) (tail (l_script w)) (l_polls w).

#[local] Instance lab_aya : Aya lab := {|
  load_file p w := if bool_decide (p = str "prog.o") then (inl tt, Lab (BpfState 0 [] [] [] 0) (l_script w) (l_polls w))
    else (inr (str "no such file"), w);
  program_mut n w := bool_decide (n = str "sys_enter") || bool_decide (n = str "sys_exit");
  as_raw_tracepoint n w := (inl tt, w);
  program_load n w := (inl tt, w);
  program_attach n w := (inl tt, w);
  take_map n w := (bool_decide (n = EVENTS), w);
  ring_try_from n w := (inl tt, w);
  map_mut n w := bool_decide (n = TARGET_TGID);
  array_try_from n w := (inl tt, w);
  array_set n i v fl w := let w := tick w in (inl tt, Lab (with_target v (l_bpf w)) (l_script w) (l_polls w));
  command_spawn p a w := (inl 7, tick w);
  create_file p w := if bool_decide (p = str "/") then (inr (OsError 21), w) else (inl tt, tick w);
  ring_next w := let w := tick w in
    match b_ring (l_bpf w) with
    | [] => (None, w)
    | item :: rest => (Some item, Lab (with_ring rest (l_bpf w)) (l_script w) (l_polls w))
    end;
  waitpid_nohang pid w := let w := tick w in
    match l_polls w with
    | [] => (PollExited 3, w)
    | p :: polls => (p, Lab (l_bpf w) (l_script w) polls)
    end;
|}.

Lemma wf_firings (l : list firing) : Forall tp_wf (proj1_sig <$> l).
Proof. apply Forall_fmap, Forall_forall. intros [tp H] _. exact H. Qed.

Lemma tick_later w : later 4 (l_bpf w) (l_bpf (tick w)).
Proof. eexists. split; [apply wf_firings|reflexivity]. Qed.

Lemma lab_next w :
  ring_next w =
    match b_ring (l_bpf (tick w)) with
    | [] => (None, tick w)
    | item :: rest => (Some item, Lab (with_ring rest (l_bpf (tick w))) (l_script (tick w)) (l_polls (tick w)))
    end.
Proof. reflexivity. Qed.

Lemma lab_poll pid w :
  waitpid_nohang pid w =
    match l_polls w with
    | [] => (PollExited 3, tick w)
    | p :: polls => (p, Lab (l_bpf (tick w)) (l_script (tick w)) polls)
    end.
Proof. reflexivity. Qed.

#[local, program] Instance lab_laws : AyaLaws 4 lab := {| bpf := l_bpf |}.
Next Obligation. intros p w w'. cbn. case_bool_decide; [|done]. by intros [= <-]. Qed.
Next Obligation. intros n w w' [= <-]. apply later_refl. Qed.
Next Obligation. intros n w w' [= <-]. apply later_refl. Qed.
Next Obligation. intros n w w' [= <-]. apply later_refl. Qed.
Next Obligation. intros n w b w' [= _ <-]. apply later_refl. Qed.
Next Obligation. intros n w w' [= <-]. apply later_refl. Qed.
Next Obligation. intros n w w' [= <-]. apply later_refl. Qed.
Next Obligation. intros v w w' [= <-]. exists (l_bpf (tick w)). split; [apply tick_later|apply later_refl]. Qed.
Next Obligation. intros p a w pid w' [= _ <-]. apply tick_later. Qed.
Next Obligation. intros p w w'. cbn. case_bool_decide; [done|]. intros [= <-]. apply tick_later. Qed.
Next Obligation.
  intros pid w p w'. cbn. destruct (l_polls w) as [|q polls]; intros [= _ <-]; exact (tick_later w).
Qed.
Next Obligation.
  intros w r w' Hx. exists (l_bpf (tick w)). split; [apply tick_later|]. rewrite lab_next in Hx.
  destruct (b_ring (l_bpf (tick w))) as [|item rest] eqn:Hr.
  - by injection Hx as <- <-.
  - injection Hx as <- <-. by exists rest.
Qed.

Definition lab_ahead (w : lab) : nat :=
  length (b_ring (l_bpf w)) + length (concat (l_script w)) + length (l_polls w).

Lemma fires_ring l s : (length (b_ring (foldl (fires 4) s (proj1_sig <$> l))) ≤ length (b_ring s) + length (l : list firing))%nat.
Proof.
  revert s. induction l as [|[tp Hw] l IH]; intros s; cbn [fmap list_fmap foldl proj1_sig length]; [lia|].
  specialize (IH (fires 4 s tp)). destruct (fires_cases 4 s tp Hw) as (_ & _ & [(_ & R & _)|(R & _)]); rewrite R in IH.
  - rewrite length_app in IH. cbn in IH. lia.
  - lia.
Qed.

Lemma tick_ahead w : (lab_ahead (tick w) ≤ lab_ahead w)%nat.
Proof.
  unfold lab_ahead, tick. cbn [l_bpf l_script l_polls]. destruct (l_script w) as [|l ls]; cbn [head tail default concat].
  - cbn. lia.
  - pose proof (fires_ring l (l_bpf w)). cbn in *. rewrite length_app. lia.
Qed.

#[local, program] Instance lab_finite : FiniteTarget (W := lab) := {| ahead := lab_ahead |}.
Next Obligation.
  intros w r w' Hx. pose proof (tick_ahead w) as Ha. rewrite lab_next in Hx.
  destruct (b_ring (l_bpf (tick w))) as [|item rest] eqn:Hr; injection Hx as <- <-.
  - lia.
  - revert Ha. unfold lab_ahead. rewrite Hr. cbn. lia.
Qed.
Next Obligation.
  intros pid w p w' Hx. pose proof (tick_ahead w) as Ha. rewrite lab_poll in Hx.
  assert (Hp : l_polls (tick w) = l_polls w) by reflexivity.
  revert Ha Hp Hx. generalize (tick w). intros y Ha Hp. unfold lab_ahead in *. rewrite Hp in Ha.
  destruct (l_polls w) as [|q polls]; intros [= <- <-].
  - rewrite Hp. cbn [length] in *. lia.
  - cbn [l_bpf l_script l_polls length] in *. destruct q; lia.
Qed.

(** Process 7 enters an open before the filter is set and leaves it after, then
    writes; another process fires in between. *)
Definition lab_regs : Z → option Z := λ _, Some 5.

Program Definition early_open : firing := SysEnter (7 * 2 ^ 32 + 7) lab_regs 257 1.
Next Obligation. split_and!; try eval_bounds. intros o v [= <-]. eval_bounds. Qed.
Program Definition open_returns : firing := SysExit (7 * 2 ^ 32 + 7) 3 2.
Next Obligation. split_and!; eval_bounds. Qed.
Program Definition other_write : firing := SysEnter (6 * 2 ^ 32 + 6) lab_regs 1 3.
Next Obligation. split_and!; try eval_bounds. intros o v [= <-]. eval_bounds. Qed.
Program Definition write_starts : firing := SysEnter (7 * 2 ^ 32 + 7) lab_regs 1 4.
Next Obligation. split_and!; try eval_bounds. intros o v [= <-]. eval_bounds. Qed.
Program Definition write_returns : firing := SysExit (7 * 2 ^ 32 + 7) 64 5.
Next Obligation. split_and!; eval_bounds. Qed.

Definition lab_start : lab :=
  Lab (BpfState 0 [] [] [] 0) [[early_open]; []; [open_returns]; [other_write; write_starts]; []; []; []; [write_returns]]
    [StillAlive].

Definition lab_kept : list tracepoint := proj1_sig <$> [open_returns; write_starts; write_returns].

#[local] Abbreviation lab_record path :=
  (ebpf_record_command crc32_ieee (program sample_cmdline) (args sample_cmdline) path (str "prog.o") 20 20
    (lab_start, Sink [] [])).

Lemma ebpf_recording_reads_back_witness :
  ∃ w' file, lab_record (str "t") = (Ok (Some (mkOutcome (Some 3) 3 1)), (w', file)) ∧
    snk_data file = log_bytes crc32_ieee sample_cmdline (spec_events [] lab_kept) ∧
    seen 7 (b_log (l_bpf w')) = proj1_sig <$> [early_open; open_returns; write_starts; write_returns].
Proof.
  assert (Hok : (lab_record (str "t")).1 = Ok (Some (mkOutcome (Some 3) 3 1))) by (vm_compute; reflexivity).
  assert (Hk : b_kept (l_bpf (lab_record (str "t")).2.1) = lab_kept) by (vm_compute; reflexivity).
  assert (Hl : seen 7 (b_log (l_bpf (lab_record (str "t")).2.1)) = proj1_sig <$> [early_open; open_returns; write_starts; write_returns])
    by (vm_compute; reflexivity).
  destruct (lab_record (str "t")) as [r [w' file]] eqn:Hx. cbn [fst snd] in Hok, Hk, Hl. subst r.
  exists w', file. split; [reflexivity|]. split; [|exact Hl].
  destruct (ebpf_recording_reads_back 4 crc32_ieee sample_cmdline (str "t") (str "prog.o") 20 20 crc32_ieee_range
    sample_cmdline_fits eq_refl) as [_ H].
  destruct (H lab_start w' [] file (mkOutcome (Some 3) 3 1) Hx)
    as (target & early & late & kept & _ & _ & Hkept & _ & _ & _ & _ & Hf).
  change (b_kept (l_bpf w') = kept) in Hkept. rewrite Hk in Hkept. subst kept.
  destruct Hf as [_ Hf]; [reflexivity|]. apply Hf. exact (Forall_nil_2 _).
Defined.

(** The call in flight when the filter was set is recorded under number 0. *)
Lemma call_in_flight_misnamed :
  spec_events [] lab_kept !! 0%nat =
    Some (Event_new_with_tid EvSyscallExit 2 7 (SyscallExit_encode (mkSyscallExit SYS_read 3 []))).
Proof. vm_compute. reflexivity. Qed.

(** When the trace file cannot be created the target has been spawned, and is
    neither waited for nor killed: its polls are all left. *)
Lemma unwritable_trace_leaves_target :
  ∃ w', lab_record (str "/") = (Err (BpfTrace (TraceIo (OsError 21))), (w', Sink [] [])) ∧
    b_target (l_bpf w') = 7 ∧ l_polls w' = l_polls lab_start.
Proof.
  eexists (lab_record (str "/")).2.1. split; [|split]; vm_compute; reflexivity.
Qed.
