(* ===== verification/Sched.v ===== *)
(** * The recording scheduler: [capture/sched.rs] and [capture/ptrace.rs]

    The loop that runs one tracee at a time and writes what it sees, against
    any kernel ([Ptrace.Kernel]) and any sink of events ([Capture.TraceSink]).
    [run_loop] takes fuel, one unit per iteration of the [while]; the iteration
    itself, [iterate], is total, and the theorems speak of the states it
    reaches, so no bound on the fuel is needed for them. *)

From S2P Require Import Prelude StdIo TraceFormat TraceLog Payload Ptrace Capture.

(** ** Data *)

Record Thread := mkThread {
  pending_enter : option SyscallRegs;
  resume_signal : option Z;
}.

Definition Thread_default : Thread := mkThread None None.

(** The [Scheduler], with the world its calls act on. *)
Record Scheduler (W S : Type) := mkSched {
  s_world : W;
  writer : S;
  threads : gmap Z Thread;
  ready : list Z;
  running : option Z;
  last_scheduled : option Z;
  leader : Z;
  leader_exit : option Z;
  s_events_recorded : Z;
  s_threads_followed : Z;
  vfork_pending : gmap Z Z;
}.
Arguments mkSched {W S}.
Arguments s_world {W S}. Arguments writer {W S}. Arguments threads {W S}.
Arguments ready {W S}. Arguments running {W S}. Arguments last_scheduled {W S}.
Arguments leader {W S}. Arguments leader_exit {W S}. Arguments s_events_recorded {W S}.
Arguments s_threads_followed {W S}. Arguments vfork_pending {W S}.

Section Sched.
Context {W S : Type}.
#[local] Abbreviation Sch := (Scheduler W S).

(** Assignments to one field. *)
Definition set_world (x : W) (s : Sch) : Sch :=
  mkSched x (writer s) (threads s) (ready s) (running s) (last_scheduled s) (leader s)
    (leader_exit s) (s_events_recorded s) (s_threads_followed s) (vfork_pending s).
Definition set_writer (x : S) (s : Sch) : Sch :=
  mkSched (s_world s) x (threads s) (ready s) (running s) (last_scheduled s) (leader s)
    (leader_exit s) (s_events_recorded s) (s_threads_followed s) (vfork_pending s).
Definition set_threads (x : gmap Z Thread) (s : Sch) : Sch :=
  mkSched (s_world s) (writer s) x (ready s) (running s) (last_scheduled s) (leader s)
    (leader_exit s) (s_events_recorded s) (s_threads_followed s) (vfork_pending s).
Definition set_ready (x : list Z) (s : Sch) : Sch :=
  mkSched (s_world s) (writer s) (threads s) x (running s) (last_scheduled s) (leader s)
    (leader_exit s) (s_events_recorded s) (s_threads_followed s) (vfork_pending s).
Definition set_running (x : option Z) (s : Sch) : Sch :=
  mkSched (s_world s) (writer s) (threads s) (ready s) x (last_scheduled s) (leader s)
    (leader_exit s) (s_events_recorded s) (s_threads_followed s) (vfork_pending s).
Definition set_last_scheduled (x : option Z) (s : Sch) : Sch :=
  mkSched (s_world s) (writer s) (threads s) (ready s) (running s) x (leader s)
    (leader_exit s) (s_events_recorded s) (s_threads_followed s) (vfork_pending s).
Definition set_leader_exit (x : option Z) (s : Sch) : Sch :=
  mkSched (s_world s) (writer s) (threads s) (ready s) (running s) (last_scheduled s) (leader s)
    x (s_events_recorded s) (s_threads_followed s) (vfork_pending s).
Definition set_events_recorded (x : Z) (s : Sch) : Sch :=
  mkSched (s_world s) (writer s) (threads s) (ready s) (running s) (last_scheduled s) (leader s)
    (leader_exit s) x (s_threads_followed s) (vfork_pending s).
Definition set_threads_followed (x : Z) (s : Sch) : Sch :=
  mkSched (s_world s) (writer s) (threads s) (ready s) (running s) (last_scheduled s) (leader s)
    (leader_exit s) (s_events_recorded s) x (vfork_pending s).
Definition set_vfork_pending (x : gmap Z Z) (s : Sch) : Sch :=
  mkSched (s_world s) (writer s) (threads s) (ready s) (running s) (last_scheduled s) (leader s)
    (leader_exit s) (s_events_recorded s) (s_threads_followed s) x.

(** [threads.get_mut(&pid)] followed by an update of the thread, if any. *)
Definition update_thread (pid : Z) (f : Thread → Thread) (s : Sch) : Sch :=
  match threads s !! pid with
  | Some t => set_threads (<[pid := f t]> (threads s)) s
  | None => s
  end.

Context `{Kernel W} `{TraceSink S}.
#[local] Abbreviation M := (stm Sch CaptureError).

(** A computation on the world alone. *)
Definition on_world {A} (m : stm W CaptureError A) : M A := λ s,
  let '(r, w) := m (s_world s) in (r, set_world w s).

Definition trace_options : Z :=
  Z.lor O_TRACESYSGOOD (Z.lor O_EXITKILL (Z.lor O_TRACECLONE (Z.lor O_TRACEFORK
    (Z.lor O_TRACEVFORK O_TRACEEXEC)))).

Definition is_spawn_event (ev : Z) : bool :=
  (ev =? PTRACE_EVENT_CLONE) || (ev =? PTRACE_EVENT_FORK) || (ev =? PTRACE_EVENT_VFORK).

(** [self.started.elapsed().as_nanos() as u64]. *)
Definition now : M Z := λ s,
  let '(t, w) := clock_elapsed_ns (s_world s) in (Ok (as_u 64 t), set_world w s).

(** [self.writer.append(&event)?]. *)
Definition writer_append (e : Event) : M unit := λ s,
  let '(r, w) := sink_append e (writer s) in
  (_ ← map_err CapTrace r; mret tt, set_writer w s).

(** [Scheduler::append]; overflow of a [u64] counter panics (debug profile). *)
Definition sched_append (e : Event) : M unit :=
  writer_append e;;
  n ← st_gets s_events_recorded;
  n ← st_lift (expect (checked_add 64 n 1));
  st_modify (set_events_recorded n).

Definition requeue (pid : Z) (s : Sch) : Sch :=
  if bool_decide (is_Some (threads s !! pid)) && negb (bool_decide (pid ∈ ready s))
  then set_ready (ready s ++ [pid]) s else s.

Definition clear_running (pid : Z) (s : Sch) : Sch :=
  if bool_decide (running s = Some pid) then set_running None s else s.

Definition record_sched_switch (next : Z) : M unit :=
  last ← st_gets last_scheduled;
  if bool_decide (last = Some next) then mret tt
  else
    st_modify (set_last_scheduled (Some next));;
    ts ← now;
    let t := as_u 32 next in
    sched_append (Event_new_with_tid EvSchedSwitch ts t (SchedSwitch_encode (mkSchedSwitch t))).

Definition register_child (pid : Z) : M unit :=
  on_world (pin_to_serialization_cpu pid);;
  on_world (call CapPtrace (pt_setoptions pid trace_options));;
  st_modify (λ s, set_threads (<[pid := Thread_default]> (threads s)) s);;
  n ← st_gets s_threads_followed;
  n ← st_lift (expect (checked_add 64 n 1));
  st_modify (set_threads_followed n).

(** [self.threads.get_mut(&pid).and_then(|t| t.pending_enter.take())]. *)
Definition take_pending_enter (pid : Z) : M (option SyscallRegs) := λ s,
  (Ok (t ← threads s !! pid; pending_enter t),
   update_thread pid (λ t, mkThread None (resume_signal t)) s).

(** [self.threads.get_mut(&next).and_then(|t| t.resume_signal.take())]. *)
Definition take_resume_signal (pid : Z) : M (option Z) := λ s,
  (Ok (t ← threads s !! pid; resume_signal t),
   update_thread pid (λ t, mkThread (pending_enter t) None) s).

Definition on_syscall (pid : Z) : M unit :=
  regs ← on_world (read_syscall_regs pid);
  ts ← now;
  let t := as_u 32 pid in
  pending ← take_pending_enter pid;
  match pending with
  | None =>
      sched_append (enter_event ts t regs);;
      st_modify (update_thread pid (λ th, mkThread (Some regs) (resume_signal th)))
  | Some enter =>
      e ← on_world (exit_event ts t pid enter (regs_ret regs));
      sched_append e
  end.

(** [Pid::from_raw(ptrace::getevent(parent)? as i32)]. *)
Definition on_spawn (parent : Z) : M Z :=
  ev ← on_world (call CapPtrace (pt_getevent parent));
  let child := as_i 32 ev in
  ts ← now;
  sched_append (Event_new_with_tid EvThreadSpawn ts (as_u 32 parent)
    (ThreadSpawn_encode (mkThreadSpawn (as_u 32 parent) (as_u 32 child))));;
  mret child.

Definition on_stopped (pid sig : Z) : M unit :=
  ths ← st_gets threads;
  if negb (bool_decide (is_Some (ths !! pid))) then
    register_child pid;;
    st_modify (requeue pid)
  else
    st_modify (clear_running pid);;
    st_when (negb (sig =? SIGSTOP))
      (ts ← now;
       sched_append (Event_new_with_tid EvSignal ts (as_u 32 pid)
         (SignalDelivery_encode (mkSignalDelivery sig)));;
       st_modify (update_thread pid (λ th, mkThread (pending_enter th) (Some sig))));;
    st_modify (requeue pid).

(** [self.vfork_pending.remove(&pid)], then the requeue of the parent. *)
Definition release_vfork_parent (pid : Z) (s : Sch) : Sch :=
  match vfork_pending s !! pid with
  | Some parent => requeue parent (set_vfork_pending (delete pid (vfork_pending s)) s)
  | None => s
  end.

Definition on_exit (pid : Z) (code : option Z) : M unit :=
  st_modify (clear_running pid);;
  ths ← st_gets threads;
  st_modify (set_threads (delete pid ths));;
  followed ← st_gets s_threads_followed;
  st_when (bool_decide (is_Some (ths !! pid)) && (1 <? followed))
    (ts ← now;
     sched_append (Event_new_with_tid EvThreadExit ts (as_u 32 pid)
       (ThreadExit_encode (mkThreadExit (as_u 32 pid)))));;
  st_modify (λ s, set_ready (filter (λ p, p ≠ pid) (ready s)) s);;
  ldr ← st_gets leader;
  st_when (pid =? ldr) (st_modify (set_leader_exit code));;
  st_modify (release_vfork_parent pid).

Definition handle (status : wait_status) : M unit :=
  match status with
  | PtraceSyscall pid =>
      st_modify (clear_running pid);;
      on_syscall pid;;
      st_modify (requeue pid)
  | PtraceEvent pid ev =>
      st_modify (clear_running pid);;
      if is_spawn_event ev then
        child ← on_spawn pid;
        if ev =? PTRACE_EVENT_VFORK
        then st_modify (λ s, set_vfork_pending (<[child := pid]> (vfork_pending s)) s)
        else st_modify (requeue pid)
      else st_modify (requeue pid)
  | Stopped pid sig => on_stopped pid sig
  | Exited pid code => on_exit pid (Some code)
  | Signaled pid _ => on_exit pid None
  | OtherStatus => mret tt
  end.

Definition resume_next : M unit :=
  queue ← st_gets ready;
  match queue with
  | [] => mret tt
  | next :: rest =>
      st_modify (set_ready rest);;
      record_sched_switch next;;
      sig ← take_resume_signal next;
      on_world (call CapPtrace (pt_syscall next sig));;
      st_modify (set_running (Some next))
  end.

(** A call whose errno is inspected. *)
Definition try_call {A} (k : kop W A) : M (A + Z) := λ s,
  let '(r, w) := k (s_world s) in (Ok r, set_world w s).

Definition preempt (cur : Z) : M unit :=
  r ← try_call (sys_kill cur SIGSTOP);
  match r with
  | inr e => if e =? ESRCH then mret tt else st_throw (CapPtrace e)
  | inl _ => mret tt
  end;;
  status ← on_world (call CapPtrace (sys_waitpid cur));
  handle status.

(** One iteration of the [while] of [run]; [true] is its [break]. *)
Definition iterate : M bool :=
  cur ← st_gets running;
  st_when (bool_decide (cur = None)) resume_next;;
  on_world (call CapPtrace timer_arm);;
  r ← try_call sys_waitpid_any;
  match r with
  | inl status =>
      on_world (call CapPtrace timer_disarm);;
      handle status;;
      mret false
  | inr e =>
      if e =? EINTR then
        on_world (call CapPtrace timer_disarm);;
        cur ← st_gets running;
        match cur with Some cur => preempt cur | None => mret tt end;;
        mret false
      else if e =? ECHILD then mret true
      else st_throw (CapPtrace e)
  end.

(** [None] when the fuel ran out before the loop ended. *)
Fixpoint run_loop (fuel : nat) : M (option RecordOutcome) := λ s,
  let outcome := mkOutcome (leader_exit s) (s_events_recorded s) (s_threads_followed s) in
  if bool_decide (threads s = ∅) then (Ok (Some outcome), s)
  else match fuel with
  | O => (Ok None, s)
  | Datatypes.S fuel =>
      match iterate s with
      | (Ok true, s) => (Ok (Some (mkOutcome (leader_exit s) (s_events_recorded s) (s_threads_followed s))), s)
      | (Ok false, s) => run_loop fuel s
      | (Err e, s) => (Err e, s)
      | (Panic, s) => (Panic, s)
      end
  end.

Definition Scheduler_init (w : W) (wr : S) (ldr : Z) : Sch :=
  mkSched w wr {[ldr := Thread_default]} [ldr] None (Some ldr) ldr None 0 1 ∅.

(** [Scheduler::new]; the [Instant] it starts is the world's clock. *)
Definition Scheduler_new (wr : S) (ldr : Z) : stm W CaptureError Sch :=
  pin_to_serialization_cpu ldr;;
  call CapPtrace timer_install;;
  st_gets (λ w, Scheduler_init w wr ldr).

End Sched.
