(* ===== verification/ToyKernel.v ===== *)
(** * A scripted kernel

    A concrete [Ptrace.Kernel] that satisfies [Ptrace.TracerLaws], for the
    witnesses: it reports the statuses of a script as long as they are legal
    for the tracees it tracks, and [ECHILD] from the first that is not. *)

From S2P Require Import Prelude Ptrace.

Record toy := mkToy {
  t_script : list (wait_status + Z);
  t_regs : list user_regs;
  t_events : list Z;
  t_clock : Z;
  t_attached : gset Z;
  t_resumed : gset Z;
}.

Definition toy_sets (a r : gset Z) (w : toy) : toy :=
  mkToy (t_script w) (t_regs w) (t_events w) (t_clock w) a r.

#[export] Instance pid_ok_dec p : Decision (pid_ok p).
Proof. unfold pid_ok. apply _. Defined.
#[export] Instance word_regs_dec r : Decision (word_regs r).
Proof. unfold word_regs. apply _. Defined.

(** The sets after a status, [None] when it cannot be reported. *)
Definition after (s : wait_status) (a r : gset Z) : option (gset Z * gset Z) :=
  match s with
  | PtraceSyscall p | PtraceEvent p _ =>
      if decide (pid_ok p ∧ p ∈ r) then Some (a, r ∖ {[p]}) else None
  | Stopped p sig =>
      if decide (pid_ok p ∧ in_i 32 sig) then
        if decide (p ∈ r) then Some (a, r ∖ {[p]})
        else if decide (p ∉ a) then Some ({[p]} ∪ a, r) else None
      else None
  | Exited p _ | Signaled p _ =>
      if decide (pid_ok p) then Some (a ∖ {[p]}, r ∖ {[p]}) else None
  | OtherStatus => Some (a, r)
  end.

Definition toy_wait : kop toy wait_status := λ w,
  match t_script w with
  | [] => (inr ECHILD, w)
  | inr e :: sc => (inr e, mkToy sc (t_regs w) (t_events w) (t_clock w) (t_attached w) (t_resumed w))
  | inl s :: sc =>
      match after s (t_attached w) (t_resumed w) with
      | Some (a, r) => (inl s, mkToy sc (t_regs w) (t_events w) (t_clock w) a r)
      | None => (inr ECHILD, w)
      end
  end.

Definition zero_regs : user_regs := mkRegs 0 0 0 0 0 0 0 0 0 [].

Definition toy_getregs : kop toy user_regs := λ w,
  match t_regs w with
  | [] => (inl zero_regs, w)
  | r :: rs =>
      (inl (if decide (word_regs r) then r else zero_regs),
       mkToy (t_script w) rs (t_events w) (t_clock w) (t_attached w) (t_resumed w))
  end.

Definition toy_getevent : kop toy Z := λ w,
  match t_events w with
  | [] => (inr ESRCH, w)
  | e :: es => (inl e, mkToy (t_script w) (t_regs w) es (t_clock w) (t_attached w) (t_resumed w))
  end.

Definition quiet {A} (a : A) : kop toy A := λ w, (inl a, w).

#[export] Instance toy_kernel : Kernel toy := {|
  sys_waitpid_any := toy_wait;
  sys_waitpid _ := toy_wait;
  sys_kill _ _ := quiet tt;
  sys_setaffinity _ _ := quiet tt;
  sys_spawn_traced _ _ := quiet 100;
  pt_syscall p _ := λ w,
    if decide (p ∈ t_attached w) then (inl tt, toy_sets (t_attached w) ({[p]} ∪ t_resumed w) w)
    else (inr ESRCH, w);
  pt_step p := λ w, (inl tt, toy_sets (t_attached w) ({[p]} ∪ t_resumed w) w);
  pt_kill _ := quiet tt;
  pt_getregs _ := toy_getregs;
  pt_setregs _ _ := quiet tt;
  pt_getevent _ := toy_getevent;
  pt_setoptions p _ := λ w, (if decide (p ∈ t_attached w) then inl tt else inr ESRCH, w);
  pt_getsiginfo_code _ := quiet 0;
  pt_pokeuser _ _ _ := quiet tt;
  vm_readv _ _ n := quiet (replicate (Z.to_nat n) x41);
  vm_writev _ _ d := quiet (blen d);
  timer_install := quiet tt;
  timer_arm := quiet tt;
  timer_disarm := quiet tt;
  clock_elapsed_ns := λ w, (t_clock w,
    mkToy (t_script w) (t_regs w) (t_events w) (t_clock w + 1) (t_attached w) (t_resumed w));
|}.

Lemma after_reported s a r a' r' : after s a r = Some (a', r') → reported s a r a' r'.
Proof.
  unfold after, reported. destruct s; repeat case_decide; intros; simplify_eq; naive_solver.
Qed.

Lemma zero_regs_words : word_regs zero_regs.
Proof. by apply (bool_decide_unpack _). Qed.

Lemma toy_wait_law w : match toy_wait w with
  | (inl s, w') => reported s (t_attached w) (t_resumed w) (t_attached w') (t_resumed w')
  | (inr _, w') => t_attached w' = t_attached w ∧ t_resumed w' = t_resumed w end.
Proof.
  unfold toy_wait. destruct (t_script w) as [|[s|e] sc]; [done| |done].
  destruct (after s (t_attached w) (t_resumed w)) as [[a r]|] eqn:Ha; [|done].
  by apply after_reported.
Qed.

#[export] Program Instance toy_laws : TracerLaws toy :=
  {| attached := t_attached; resumed := t_resumed |}.
Next Obligation. intros w. apply toy_wait_law. Qed.
Next Obligation. intros p w. apply toy_wait_law. Qed.
Next Obligation. intros p sig w. cbn. by case_decide. Qed.
Next Obligation.
  intros p w. cbn. unfold toy_getregs. destruct (t_regs w) as [|r rs]; cbn.
  - split; [apply zero_regs_words|done].
  - split; [case_decide; [done|apply zero_regs_words]|done].
Qed.
Next Obligation.
  intros p a n w. cbn. split; [|done]. unfold blen. rewrite length_replicate. lia.
Qed.
Next Obligation. done. Qed.
Next Obligation. done. Qed.
Next Obligation. intros p w. cbn. unfold toy_getevent. by destruct (t_events w). Qed.
Next Obligation. intros p o w. cbn. by case_decide. Qed.
Next Obligation. done. Qed.
Next Obligation. done. Qed.
Next Obligation. done. Qed.
Next Obligation. done. Qed.
Next Obligation. done. Qed.
