(* ===== verification/SchedLog.v ===== *)
(** * The recording scheduler is correct: the invariant and its theorems

    For every lawful kernel ([Ptrace.TracerLaws]) and sink
    ([Capture.TraceSinkLaws]): at most one tracee ever runs, and the log keeps
    the schedule discipline ([Discipline]). *)

From S2P Require Import Prelude StdIo TraceFormat TraceLog Payload Ptrace Capture Discipline Sched ToyKernel.

Section Invariant.
Context {W S : Type} {KW : Kernel W} {KL : TracerLaws W} {TS : TraceSink S} {TL : TraceSinkLaws S}.
(** The leader of the recording. *)
Context (ldr : Z).
#[local] Abbreviation Sch := (Scheduler W S).

(** ** The invariant *)

(** The tracees: the scheduler's table mirrors the kernel's, and only the
    running thread has been resumed. *)
Record Serial (s : Sch) : Prop := {
  ser_attached : attached (s_world s) = dom (threads s);
  ser_resumed : resumed (s_world s) = match running s with Some p => {[p]} | None => ∅ end;
  ser_running : ∀ p, running s = Some p →
    last_scheduled s = Some p ∧ is_Some (threads s !! p);
  ser_nodup : NoDup (ready s);
  ser_ready : ∀ p, p ∈ ready s → is_Some (threads s !! p);
  ser_pids : ∀ p, is_Some (threads s !! p) → pid_ok p;
}.

(** While only the leader was ever followed, it is the only thread. *)
Record Solo (es : list Event) (s : Sch) : Prop := {
  solo_pos : 1 ≤ s_threads_followed s;
  solo_threads : s_threads_followed s = 1 → ∀ p, is_Some (threads s !! p) → p = leader s;
  solo_last : s_threads_followed s = 1 → last_scheduled s = Some (leader s);
  solo_log : s_threads_followed s = 1 →
    Forall (λ e, kind e ≠ EvSchedSwitch ∧ kind e ≠ EvThreadExit) es;
}.

(** The log so far. *)
Record LogOk (es : list Event) (st : discipline_state) (s : Sch) : Prop := {
  log_logged : logged (writer s) es;
  log_disc : discipline (disc_start ldr) es = Some st;
  log_leader : leader s = ldr;
  log_wf : Forall event_wf es;
  log_bound : blen es < 2 ^ 64;
  log_count : s_events_recorded s = blen es;
}.

(** The log's view of the threads is the scheduler's. *)
Record Calls (st : discipline_state) (s : Sch) : Prop := {
  calls_last : last_scheduled s = Some (owner st) ∧ pid_ok (owner st);
  calls_open : ∀ p th, threads s !! p = Some th →
    open_calls st !! p = regs_nr <$> pending_enter th;
  calls_closed : threads s ≠ ∅ → ∀ t, is_Some (open_calls st !! t) → is_Some (threads s !! t);
  calls_nr : ∀ p th r, threads s !! p = Some th → pending_enter th = Some r → in_u 64 (regs_nr r);
}.

Definition Inv (s : Sch) : Prop :=
  Serial s ∧ ∃ es st, Solo es s ∧ LogOk es st s ∧ Calls st s.

(** ** Lemmas: the calls *)

Lemma as_u_pid p : pid_ok p → as_u 32 p = p.
Proof. intros [? ?]. unfold as_u. apply Z.mod_small. lia. Qed.

Lemma on_world_ok {A} (m : stm W CaptureError A) (s s' : Sch) a :
  on_world m s = (Ok a, s') → ∃ w, m (s_world s) = (Ok a, w) ∧ s' = set_world w s.
Proof. unfold on_world. destruct (m (s_world s)) as [r w]. intros [= -> <-]. eauto. Qed.

Lemma same_trans w1 w2 w3 : same_tracees w1 w2 → same_tracees w2 w3 → same_tracees w1 w3.
Proof. intros [? ?] [? ?]. split; congruence. Qed.

Lemma same_refl w : same_tracees w w.
Proof. done. Qed.

Lemma now_ok (s s' : Sch) t :
  now s = (Ok t, s') → in_u 64 t ∧ ∃ w, same_tracees (s_world s) w ∧ s' = set_world w s.
Proof.
  unfold now. pose proof (clock_law (s_world s)) as Hc.
  destruct (clock_elapsed_ns (s_world s)) as [x w]. intros [= <- <-].
  split; [by apply Z.mod_pos_bound|eauto].
Qed.

Lemma read_tracee_memory_same pid addr len w data w' :
  read_tracee_memory pid addr len w = (Ok data, w') → same_tracees w w'.
Proof.
  intros (bs & Hv & _)%read_tracee_memory_ok. pose proof (readv_law pid addr len w) as Hr.
  rewrite Hv in Hr. apply Hr.
Qed.

Lemma exit_event_ok ts t pid enter ret w e w' :
  exit_event ts t pid enter ret w = (Ok e, w') →
  same_tracees w w' ∧ ∃ data,
    e = Event_new_with_tid EvSyscallExit ts t
          (SyscallExit_encode (mkSyscallExit (regs_nr enter) ret data)).
Proof.
  unfold exit_event. intros He. st_inv. split; [|eauto].
  destruct (kernel_written_region _ _ _) as [[addr len]|].
  - by eapply read_tracee_memory_same.
  - by injection Hm as _ ->.
Qed.

Lemma read_syscall_regs_ok pid w regs w' :
  read_syscall_regs pid w = (Ok regs, w') → same_tracees w w' ∧ in_u 64 (regs_nr regs).
Proof.
  unfold read_syscall_regs. intros Hr. st_inv. apply call_ok in Hm.
  pose proof (getregs_law pid w) as Hl. rewrite Hm in Hl. destruct Hl as [(Ho & _) Hs].
  split; [done|apply Ho].
Qed.

(** ** Lemmas: the discipline accepts what the scheduler writes *)

Lemma enter_payload_nr x rest :
  in_u 64 (enter_nr x) → le_value (take 8 (SyscallEnter_encode x ++ rest)) = enter_nr x.
Proof.
  intros Hn. unfold SyscallEnter_encode. rewrite <- app_assoc, take_app_length' by
    (rewrite length_le_bytes; done). by apply le_u64.
Qed.

Lemma exit_payload_nr x rest :
  in_u 64 (exit_nr x) → le_value (take 8 (SyscallExit_encode x ++ rest)) = exit_nr x.
Proof.
  intros Hn. unfold SyscallExit_encode. rewrite <- !app_assoc, take_app_length' by
    (rewrite length_le_bytes; done). by apply le_u64.
Qed.

Lemma disc_enter st ts t regs :
  in_u 64 (regs_nr regs) → t = owner st → open_calls st !! t = None →
  disc_step st (enter_event ts t regs) = Some (mkDisc t (<[t := regs_nr regs]> (open_calls st))).
Proof.
  intros Hn -> Ho. unfold disc_step, enter_event, payload_nr.
  cbn [tid kind payload Event_new_with_tid mbind option_bind].
  rewrite Z.eqb_refl, bool_decide_eq_true_2 by done. cbn [andb].
  rewrite <- (app_nil_r (SyscallEnter_encode _)), enter_payload_nr by done. done.
Qed.

Lemma disc_exit st ts t nr ret data :
  in_u 64 nr → t = owner st → open_calls st !! t = Some nr →
  disc_step st (Event_new_with_tid EvSyscallExit ts t (SyscallExit_encode (mkSyscallExit nr ret data)))
    = Some (mkDisc t (delete t (open_calls st))).
Proof.
  intros Hn -> Ho. unfold disc_step, payload_nr.
  cbn [tid kind payload Event_new_with_tid mbind option_bind].
  rewrite <- (app_nil_r (SyscallExit_encode _)), exit_payload_nr by done. cbn [exit_nr].
  rewrite Z.eqb_refl, bool_decide_eq_true_2 by done. done.
Qed.

Lemma disc_switch st ts t :
  in_u 32 t →
  disc_step st (Event_new_with_tid EvSchedSwitch ts t (SchedSwitch_encode (mkSchedSwitch t)))
    = Some (mkDisc t (open_calls st)).
Proof.
  intros Ht. unfold disc_step. cbn [tid kind payload Event_new_with_tid mbind option_bind].
  rewrite <- (app_nil_r (SchedSwitch_encode _)), switch_decode_encode by done.
  cbn [switch_tid]. by rewrite Z.eqb_refl.
Qed.

Lemma disc_spawn st ts t c :
  in_u 32 t → in_u 32 c → t = owner st →
  disc_step st (Event_new_with_tid EvThreadSpawn ts t (ThreadSpawn_encode (mkThreadSpawn t c)))
    = Some st.
Proof.
  intros Ht Hc ->. unfold disc_step. cbn [tid kind payload Event_new_with_tid mbind option_bind].
  rewrite <- (app_nil_r (ThreadSpawn_encode _)), spawn_decode_encode by done.
  cbn [parent_tid]. by rewrite Z.eqb_refl.
Qed.

Lemma disc_thread_exit st ts t :
  in_u 32 t →
  disc_step st (Event_new_with_tid EvThreadExit ts t (ThreadExit_encode (mkThreadExit t)))
    = Some (mkDisc (owner st) (delete t (open_calls st))).
Proof.
  intros Ht. unfold disc_step. cbn [tid kind payload Event_new_with_tid mbind option_bind].
  rewrite <- (app_nil_r (ThreadExit_encode _)), thread_exit_decode_encode by done.
  cbn [exit_tid]. by rewrite Z.eqb_refl.
Qed.

Lemma disc_signal st ts t sig :
  in_i 32 sig → t = owner st →
  disc_step st (Event_new_with_tid EvSignal ts t (SignalDelivery_encode (mkSignalDelivery sig)))
    = Some st.
Proof.
  intros Hs ->. unfold disc_step. cbn [tid kind payload Event_new_with_tid mbind option_bind].
  rewrite <- (app_nil_r (SignalDelivery_encode _)), signal_decode_encode by done.
  by rewrite Z.eqb_refl.
Qed.

(** ** Lemmas: what each update keeps *)

Lemma count_up_ok n m :
  expect (checked_add 64 n 1) = (Ok m : result CaptureError Z) → m = n + 1 ∧ m < 2 ^ 64.
Proof. unfold checked_add. destruct (Z.ltb_spec (n + 1) (2 ^ 64)); [|done]. by intros [= <-]. Qed.

Lemma sched_append_ok e (s s' : Sch) u :
  sched_append e s = (Ok u, s') →
  ∃ w q, (sink_append e (writer s) = (Ok q, w) ∧ s_events_recorded s + 1 < 2 ^ 64) ∧
    s' = set_events_recorded (s_events_recorded s + 1) (set_writer w s).
Proof.
  unfold sched_append. intros Ha. st_inv. unfold writer_append in Hm.
  destruct (sink_append e (writer s)) as [[q| |] w] eqn:Hq; cbn in Hm; try done.
  injection Hm as _ <-.
  match goal with Hn : expect _ = Ok _ |- _ => apply count_up_ok in Hn as [-> Hn] end. eauto.
Qed.

Lemma event_wf_pid k ts p pl :
  kind_wf k → in_u 64 ts → pid_ok p → event_wf (Event_new_with_tid k ts p pl).
Proof. intros Hk Hts [? ?]. split; [done|]. split; [done|]. cbn. unfold in_u. lia. Qed.

(** Appending a record the discipline accepts. *)
Lemma append_log e (s s' : Sch) u es st st' :
  sched_append e s = (Ok u, s') → LogOk es st s → event_wf e → disc_step st e = Some st' →
  LogOk (es ++ [e]) st' s'.
Proof.
  intros (w & q & Hq & ->)%sched_append_ok [Hl Hd Hld Hwf Hbd Hc] He Hs. destruct Hq as [Hq Hlt]. constructor; cbn.
  - by eapply logged_append.
  - by rewrite (discipline_snoc _ _ _ _ Hd).
  - done.
  - apply Forall_app. split; [done|]. by apply Forall_singleton.
  - rewrite blen_app. rewrite Hc in Hlt. exact Hlt.
  - rewrite Hc, blen_app. done.
Qed.

Lemma append_serial e (s s' : Sch) u : sched_append e s = (Ok u, s') → Serial s → Serial s'.
Proof. intros (w & q & Hq & ->)%sched_append_ok []. by constructor. Qed.

Lemma append_calls e (s s' : Sch) u st : sched_append e s = (Ok u, s') → Calls st s → Calls st s'.
Proof. intros (w & q & Hq & ->)%sched_append_ok []. by constructor. Qed.

Lemma append_solo e (s s' : Sch) u es :
  sched_append e s = (Ok u, s') → Solo es s →
  (s_threads_followed s = 1 → kind e ≠ EvSchedSwitch ∧ kind e ≠ EvThreadExit) →
  Solo (es ++ [e]) s'.
Proof.
  intros (w & q & Hq & ->)%sched_append_ok [Hp Ht Hl Hg] He. constructor; cbn; try done.
  intros Hf. apply Forall_app. split; [by apply Hg|]. apply Forall_singleton. by apply He.
Qed.

Lemma world_serial w (s : Sch) : same_tracees (s_world s) w → Serial s → Serial (set_world w s).
Proof. intros [Ha Hr] []. constructor; cbn; (done || congruence). Qed.

Lemma world_log w es st (s : Sch) : LogOk es st s → LogOk es st (set_world w s).
Proof. intros []. by constructor. Qed.
Lemma world_calls w st (s : Sch) : Calls st s → Calls st (set_world w s).
Proof. intros []. by constructor. Qed.
Lemma world_solo w es (s : Sch) : Solo es s → Solo es (set_world w s).
Proof. intros []. by constructor. Qed.

Lemma ready_log l es st (s : Sch) : LogOk es st s → LogOk es st (set_ready l s).
Proof. intros []. by constructor. Qed.
Lemma ready_calls l st (s : Sch) : Calls st s → Calls st (set_ready l s).
Proof. intros []. by constructor. Qed.
Lemma ready_solo l es (s : Sch) : Solo es s → Solo es (set_ready l s).
Proof. intros []. by constructor. Qed.

Lemma requeue_inv p (s : Sch) : Inv s → Inv (requeue p s).
Proof.
  intros Hi. pose proof Hi as (Hs & es & st & Ho & Hl & Hc). unfold requeue.
  case_bool_decide as Hp; [|exact Hi]. case_bool_decide as Hin; cbn [negb andb]; [exact Hi|].
  split; [|exists es, st; split; [by apply ready_solo|split; [by apply ready_log|by apply ready_calls]]].
  destruct Hs as [Ha Hre Hru Hn Hrd Hpid]. constructor; cbn; try done.
  - apply NoDup_app. split; [done|]. split; [|apply NoDup_singleton].
    intros q Hq Hq2%list_elem_of_singleton. by subst.
  - intros q [?|Hq%list_elem_of_singleton]%elem_of_app; [auto|by subst].
Qed.

(** Writing the entry of a thread that has one. *)
Lemma update_thread_some p f (s : Sch) th :
  threads s !! p = Some th → update_thread p f s = set_threads (<[p := f th]> (threads s)) s.
Proof. intros Hp. unfold update_thread. by rewrite Hp. Qed.

Lemma put_thread_some `{Countable K} {A} (m : gmap K A) p x q :
  is_Some (m !! p) → is_Some (<[p := x]> m !! q) ↔ is_Some (m !! q).
Proof.
  intros Hp. destruct (decide (p = q)) as [<-|Hn].
  - rewrite lookup_insert_eq. by split.
  - by rewrite lookup_insert_ne.
Qed.

Lemma put_thread_serial p th (s : Sch) :
  is_Some (threads s !! p) → Serial s → Serial (set_threads (<[p := th]> (threads s)) s).
Proof.
  intros Hp [Ha Hre Hru Hn Hrd Hpid]. constructor; cbn; try done.
  - rewrite dom_insert_lookup_L by done. done.
  - intros q Hq. rewrite put_thread_some by done. auto.
  - intros q Hq. rewrite put_thread_some by done. auto.
  - intros q. rewrite put_thread_some by done. auto.
Qed.

Lemma put_thread_solo p th es (s : Sch) :
  is_Some (threads s !! p) → Solo es s → Solo es (set_threads (<[p := th]> (threads s)) s).
Proof.
  intros Hp []. constructor; cbn; try done. intros Hf q. rewrite put_thread_some by done. auto.
Qed.

Lemma threads_log m es st (s : Sch) : LogOk es st s → LogOk es st (set_threads m s).
Proof. intros []. by constructor. Qed.

(** The calls of the log follow the entry of the thread that made the record. *)
Lemma put_thread_calls p th open' st (s : Sch) :
  is_Some (threads s !! p) → last_scheduled s = Some p → Calls st s →
  open' = partial_alter (λ _, regs_nr <$> pending_enter th) p (open_calls st) →
  (∀ r, pending_enter th = Some r → in_u 64 (regs_nr r)) →
  Calls (mkDisc p open') (set_threads (<[p := th]> (threads s)) s).
Proof.
  intros Hp Hlast [[Hl Hpid] Ho Hc Hnr] -> Hth. constructor; cbn.
  - split; [done|]. by rewrite Hl in Hlast; injection Hlast as <-.
  - intros q th' Hq. destruct (decide (p = q)) as [<-|Hn].
    + rewrite lookup_insert_eq in Hq. injection Hq as <-. by rewrite lookup_partial_alter_eq.
    + rewrite lookup_insert_ne in Hq by done. rewrite lookup_partial_alter_ne by done. by apply Ho.
  - intros _ t Ht. rewrite put_thread_some by done. destruct (decide (p = t)) as [<-|Hn]; [done|].
    rewrite lookup_partial_alter_ne in Ht by done. apply Hc; [|done].
    intros He. rewrite He, lookup_empty in Hp. by destruct Hp.
  - intros q th' r Hq Hr. destruct (decide (p = q)) as [<-|Hn].
    + rewrite lookup_insert_eq in Hq. injection Hq as <-. auto.
    + rewrite lookup_insert_ne in Hq by done. eauto.
Qed.

(** The thread that just stopped, between its stop and its requeue. *)
Definition At (p : Z) (s : Sch) : Prop :=
  Inv s ∧ last_scheduled s = Some p ∧ is_Some (threads s !! p) ∧ running s = None.

Lemma at_world p w (s : Sch) : same_tracees (s_world s) w → At p s → At p (set_world w s).
Proof.
  intros Hw ((Hs & es & st & Ho & Hl & Hc) & ? & ? & ?). split; [|done].
  split; [by apply world_serial|]. exists es, st.
  split; [by apply world_solo|]. split; [by apply world_log|by apply world_calls].
Qed.

Lemma at_owner p st (s : Sch) : Calls st s → last_scheduled s = Some p → p = owner st ∧ pid_ok p.
Proof. intros [[Hl Hp] _ _ _] H2. rewrite H2 in Hl. injection Hl as ->. done. Qed.

Lemma on_syscall_inv p (s s' : Sch) u : on_syscall p s = (Ok u, s') → At p s → At p s'.
Proof.
  unfold on_syscall. intros Hx Hat. st_inv.
  apply on_world_ok in Hm as (w1 & Hr & ->). apply read_syscall_regs_ok in Hr as [Hw1 Hnr].
  apply now_ok in Hm0 as (Hts & w2 & Hw2 & ->). cbn in Hw2.
  apply (at_world p w1) in Hat; [|done]. apply (at_world p w2) in Hat; [|done].
  set (s1 := set_world w2 (set_world w1 s)) in *. clearbody s1. clear Hw1 Hw2.
  destruct Hat as ((Hs & es & st & Ho & Hl & Hc) & Hlast & [th Hp] & Hrun).
  destruct (at_owner _ _ _ Hc Hlast) as [Hown Hpid]. rewrite as_u_pid in Hx by done.
  unfold take_pending_enter in Hm1. injection Hm1 as <- <-. rewrite Hp in Hx. cbn [mbind option_bind] in Hx.
  rewrite (update_thread_some _ _ _ _ Hp) in Hx. pose proof (calls_open _ _ Hc _ _ Hp) as Hopen.
  set (s2 := set_threads (<[p:=_]> (threads s1)) s1) in Hx.
  assert (Hp2 : threads s2 !! p = Some (mkThread None (resume_signal th))) by apply lookup_insert_eq.
  assert (Hs2 : Serial s2) by (by apply put_thread_serial; [eexists|]).
  assert (Ho2 : Solo es s2) by (by apply put_thread_solo; [eexists|]).
  assert (Hl2 : LogOk es st s2) by (by apply threads_log).
  destruct (pending_enter th) as [enter|] eqn:Hpe; st_inv.
  - apply on_world_ok in Hm as (w3 & He & ->). apply exit_event_ok in He as (Hw3 & data & ->).
    assert (Hst : ∀ ts, disc_step st (Event_new_with_tid EvSyscallExit ts p
        (SyscallExit_encode (mkSyscallExit (regs_nr enter) (regs_ret a) data))) =
        Some (mkDisc p (delete p (open_calls st)))).
    { intros ts. apply disc_exit; [by eapply calls_nr|done|done]. }
    assert (Hc2 : Calls (mkDisc p (delete p (open_calls st))) s2).
    { apply put_thread_calls with st; [by eexists|done|done|done|done]. }
    split; [|apply sched_append_ok in Hx as (w4 & q & _ & ->); cbn; by eauto].
    split; [eapply append_serial; [exact Hx|by apply world_serial]|].
    eexists _, _. split; [eapply append_solo; [exact Hx|by apply world_solo|done]|].
    split; [eapply append_log; [exact Hx|by apply world_log|by apply event_wf_pid|apply Hst]|].
    eapply append_calls; [exact Hx|by apply world_calls].
  - assert (Hst : ∀ ts, disc_step st (enter_event ts p a) =
        Some (mkDisc p (<[p := regs_nr a]> (open_calls st)))).
    { intros ts. apply disc_enter; [done|done|by rewrite Hopen]. }
    pose proof (append_serial _ _ _ _ Hm Hs2) as Hs3.
    pose proof (append_log _ _ _ _ _ _ _ Hm Hl2 ltac:(by apply event_wf_pid) (Hst _)) as Hl3.
    pose proof (append_solo _ _ _ _ _ Hm Ho2 ltac:(done)) as Ho3.
    apply sched_append_ok in Hm as (w4 & q & _ & ->).
    set (s3 := set_events_recorded _ _) in *. change (threads s2) with (threads s3) in Hp2.
    rewrite (update_thread_some _ _ _ _ Hp2). cbn [resume_signal].
    split; [|split; [done|]; split; [cbn; by rewrite lookup_insert_eq|done]].
    split; [by apply put_thread_serial; [eexists|]|].
    eexists _, _. split; [apply put_thread_solo; [by eexists|exact Ho3]|].
    split; [apply threads_log; exact Hl3|].
    replace (<[p:=_]> (threads s3)) with (<[p := mkThread (Some a) (resume_signal th)]> (threads s1))
      by (cbn; by rewrite insert_insert_eq).
    pose proof (put_thread_calls p (mkThread (Some a) (resume_signal th))
      (<[p:=regs_nr a]> (open_calls st)) st s1 ltac:(by eexists) Hlast Hc eq_refl) as Hc4.
    destruct Hc4 as [H1 H2 H3 H4]; [by intros r [= <-]|]. by constructor.
Qed.

Lemma requeue_at p q (s : Sch) : At p s → Inv (requeue q s).
Proof. intros [Hi _]. by apply requeue_inv. Qed.

(** A stop of a resumed thread: it was the running one. *)
Lemma stopped_at p w (s : Sch) :
  Inv s → p ∈ resumed (s_world s) → attached w = attached (s_world s) →
  resumed w = (resumed (s_world s) ∖ {[p]}) → At p (clear_running p (set_world w s)).
Proof.
  intros ([Ha Hre Hru Hn Hrd Hpid] & es & st & Ho & Hl & Hc) Hp Hwa Hwr.
  rewrite Hre in Hp, Hwr. destruct (running s) as [r|] eqn:Hr; [|by apply elem_of_empty in Hp].
  apply elem_of_singleton in Hp as ->. destruct (Hru r eq_refl) as [Hlast Hth].
  unfold clear_running. cbn. rewrite bool_decide_eq_true_2 by done.
  split; [|by split]. split.
  - constructor; cbn; try done; [congruence|]. by rewrite Hwr, difference_diag_L.
  - exists es, st. destruct Ho, Hl, Hc. split; [by constructor|]. split; by constructor.
Qed.

Lemma on_spawn_inv p (s s' : Sch) c : on_spawn p s = (Ok c, s') → At p s → At p s'.
Proof.
  unfold on_spawn. intros Hx Hat. st_inv.
  apply on_world_ok in Hm as (w1 & Hr%call_ok & ->).
  pose proof (getevent_law p (s_world s)) as Hw1. rewrite Hr in Hw1.
  apply now_ok in Hm0 as (Hts & w2 & Hw2 & ->). cbn in Hw2.
  apply (at_world p w1) in Hat; [|done]. apply (at_world p w2) in Hat; [|done].
  destruct Hat as ((Hs & es & st & Ho & Hl & Hc) & Hlast & Hp & Hrun).
  destruct (at_owner _ _ _ Hc Hlast) as [Hown Hpid]. rewrite as_u_pid in Hm1 by done.
  assert (Hst : ∀ ts ch, disc_step st (Event_new_with_tid EvThreadSpawn ts p
      (ThreadSpawn_encode (mkThreadSpawn p (as_u 32 ch)))) = Some st).
  { intros ts ch. apply disc_spawn; [unfold in_u; destruct Hpid; lia|by apply Z.mod_pos_bound|done]. }
  pose proof Hm1 as (w3 & q & _ & ->)%sched_append_ok. split; [|done].
  split; [by eapply append_serial|]. eexists _, st. split; [by eapply append_solo|].
  split; [eapply append_log; [exact Hm1|exact Hl|by apply event_wf_pid|apply Hst]|by eapply append_calls].
Qed.

(** Changing the signal to deliver changes nothing else. *)
Lemma at_resume_signal p sg (s : Sch) :
  At p s → At p (update_thread p (λ th, mkThread (pending_enter th) sg) s).
Proof.
  intros ((Hs & es & st & Ho & Hl & Hc) & Hlast & [th Hp] & Hrun).
  rewrite (update_thread_some _ _ _ _ Hp).
  split; [|split; [done|]; split; [cbn; by rewrite lookup_insert_eq|done]].
  split; [by apply put_thread_serial; [eexists|]|]. eexists _, st.
  split; [by apply put_thread_solo; [eexists|]|]. split; [by apply threads_log|].
  destruct (at_owner _ _ _ Hc Hlast) as [Hown _].
  pose proof (put_thread_calls p (mkThread (pending_enter th) sg) (open_calls st) st s
    ltac:(by eexists) Hlast Hc) as Hc3.
  replace st with (mkDisc p (open_calls st)) by (destruct st; cbn in Hown; by subst).
  apply Hc3; [|intros r Hr; by eapply (calls_nr _ _ Hc)].
  cbn. apply map_eq. intros i. destruct (decide (p = i)) as [<-|Hne].
  - rewrite lookup_partial_alter_eq. by eapply calls_open.
  - by rewrite lookup_partial_alter_ne.
Qed.

(** The signal of a known thread. *)
Lemma signal_inv p sig (s s' : Sch) u ts :
  in_i 32 sig → in_u 64 ts →
  sched_append (Event_new_with_tid EvSignal ts (as_u 32 p)
    (SignalDelivery_encode (mkSignalDelivery sig))) s = (Ok u, s') →
  At p s → At p (update_thread p (λ th, mkThread (pending_enter th) (Some sig)) s').
Proof.
  intros Hsig Hts Hx ((Hs & es & st & Ho & Hl & Hc) & Hlast & Hp & Hrun).
  destruct (at_owner _ _ _ Hc Hlast) as [Hown Hpid]. rewrite as_u_pid in Hx by done.
  apply at_resume_signal. split; [|pose proof Hx as (w & q & _ & ->)%sched_append_ok; done].
  split; [by eapply append_serial|]. eexists _, st. split; [by eapply append_solo|].
  split; [|by eapply append_calls].
  eapply append_log; [exact Hx|exact Hl|by apply event_wf_pid|by apply disc_signal].
Qed.

(** The first stop of a new tracee. *)
Lemma register_inv p w (s s' : Sch) u :
  Inv s → threads s ≠ ∅ → pid_ok p → p ∉ attached (s_world s) →
  attached w = ({[p]} ∪ attached (s_world s)) → resumed w = resumed (s_world s) →
  register_child p (set_world w s) = (Ok u, s') → Inv s'.
Proof.
  intros ([Ha Hre Hru Hn Hrd Hpid] & es & st & [Hpos Ht1 Hl1 Hg1] & [Hlg Hd Hld Hwf Hbd Hcnt] & [Hlast Ho Hc Hnr])
    Hne Hp Hnew Hwa Hwr Hx.
  unfold register_child in Hx. st_inv.
  apply on_world_ok in Hm as (w1 & Hr1%call_ok & ->). apply on_world_ok in Hm0 as (w2 & Hr2%call_ok & ->).
  cbn in Hr1, Hr2. pose proof (setaffinity_law p SERIALIZATION_CPU w) as Hw1. rewrite Hr1 in Hw1.
  pose proof (setoptions_law p trace_options w1) as Hw2. rewrite Hr2 in Hw2. destruct Hw2 as [_ Hw2].
  assert (Hw : same_tracees w w2) by (by eapply same_trans). destruct Hw as [Hwa2 Hwr2].
  match goal with Hn : expect _ = Ok _ |- _ => apply count_up_ok in Hn as [-> _] end. cbn.
  rewrite Ha in Hnew. apply not_elem_of_dom in Hnew.
  split; [|exists es, st; split; [|split; [by constructor|]]].
  - constructor; cbn.
    + rewrite Hwa2, Hwa, Ha, dom_insert_L. done.
    + by rewrite Hwr2, Hwr.
    + intros q Hq. destruct (Hru q Hq) as [? Hin]. split; [done|].
      by apply lookup_insert_is_Some'; right.
    + done.
    + intros q Hq. apply lookup_insert_is_Some'. auto.
    + intros q Hq. apply lookup_insert_is_Some' in Hq as [<-|Hq]; auto.
  - constructor; cbn; (done || lia).
  - constructor; cbn; try done.
    + intros q th Hq. destruct (decide (p = q)) as [<-|Hnq].
      * rewrite lookup_insert_eq in Hq. injection Hq as <-. cbn.
        destruct (open_calls st !! p) as [nr|] eqn:Hop; [|done].
        destruct (Hc Hne p) as [? Hbad]; [by eexists|]. by rewrite Hnew in Hbad.
      * rewrite lookup_insert_ne in Hq by done. by apply Ho.
    + intros _ t Ht. apply lookup_insert_is_Some'. auto.
    + intros q th r Hq. destruct (decide (p = q)) as [<-|Hnq].
      * rewrite lookup_insert_eq in Hq. injection Hq as <-. done.
      * rewrite lookup_insert_ne in Hq by done. by eapply Hnr.
Qed.

(** A death: the entry goes, whichever thread was running. *)
Lemma removed_parts p w (s : Sch) :
  Inv s → attached w = (attached (s_world s) ∖ {[p]}) → resumed w = (resumed (s_world s) ∖ {[p]}) →
  let s1 := clear_running p (set_world w s) in
  let s2 := set_threads (delete p (threads s)) s1 in
  Serial (set_ready (filter (λ q, q ≠ p) (ready s)) s2) ∧ threads s1 = threads s ∧
  ready s1 = ready s ∧ s_threads_followed s1 = s_threads_followed s.
Proof.
  intros ([Ha Hre Hru Hn Hrd Hpid] & _) Hwa Hwr. cbv zeta.
  assert (Hth : ∀ q, is_Some (delete p (threads s) !! q) ↔ q ≠ p ∧ is_Some (threads s !! q)).
  { intros q. rewrite lookup_delete_is_Some. split; intros [? ?]; auto. }
  split; [|unfold clear_running; cbn; by case_bool_decide].
  assert (Hrun : running (clear_running p (set_world w s)) =
    match running s with Some r => if decide (r = p) then None else Some r | None => None end).
  { unfold clear_running. cbn. case_bool_decide as Hr; cbn.
    - rewrite Hr. by rewrite decide_True.
    - destruct (running s) as [r|]; [|done]. rewrite decide_False; [done|congruence]. }
  constructor; cbn -[clear_running].
  - rewrite dom_delete_L. unfold clear_running. cbn. case_bool_decide; cbn; by rewrite Hwa, Ha.
  - rewrite Hrun. unfold clear_running. cbn. case_bool_decide; cbn; rewrite Hwr, Hre;
      (destruct (running s) as [r|]; [case_decide|]; set_solver).
  - intros q. rewrite Hrun, Hth. destruct (running s) as [r|]; [|done]. case_decide; [done|].
    intros [= <-]. destruct (Hru r eq_refl) as [Hl Hin].
    split; [|done]. unfold clear_running. cbn. by case_bool_decide.
  - by apply NoDup_filter.
  - intros q Hq%list_elem_of_filter. rewrite Hth. naive_solver.
  - intros q Hq%Hth. naive_solver.
Qed.

(** The log side of a death: either a [ThreadExit] record, or nothing because
    no thread, or the only one, has gone. *)
Lemma exit_record_inv p es st (s s1 s3 : Sch) b u :
  pid_ok p → Solo es s → LogOk es st s → Calls st s →
  threads s1 = delete p (threads s) →
  writer s1 = writer s → leader s1 = leader s → s_events_recorded s1 = s_events_recorded s →
  last_scheduled s1 = last_scheduled s → s_threads_followed s1 = s_threads_followed s →
  b = bool_decide (is_Some (threads s !! p)) && (1 <? s_threads_followed s1) →
  st_when b (ts ← now; sched_append (Event_new_with_tid EvThreadExit ts (as_u 32 p)
      (ThreadExit_encode (mkThreadExit (as_u 32 p))))) s1 = (Ok u, s3) →
  (∃ w wr n, same_tracees (s_world s1) w ∧
     s3 = set_events_recorded n (set_writer wr (set_world w s1))) ∧
  ∃ es' st', Solo es' s3 ∧ LogOk es' st' s3 ∧ Calls st' s3.
Proof.
  intros Hp [Hpos Hso Hsl Hsg] [Hlg Hd Hld Hwf Hbd Hcnt] [Hlast Ho Hc Hnr] Et Ew Eld Ec El Ef -> Hx.
  assert (Hdel : ∀ q th, delete p (threads s) !! q = Some th → q ≠ p ∧ threads s !! q = Some th).
  { intros q th Hq. apply lookup_delete_Some in Hq as [? ?]. auto. }
  assert (Hsolo : Solo es s1).
  { constructor; rewrite ?Et, ?Ef, ?Eld, ?El; try done. intros Hf q [th Hq]. apply Hso; [done|].
    destruct (Hdel _ _ Hq) as [_ Hq']. by eexists. }
  assert (Hlog : LogOk es st s1) by (constructor; congruence).
  apply st_when_ok in Hx. destruct (bool_decide _) eqn:Hb; cbn [andb] in Hx.
  2:{ apply bool_decide_eq_false in Hb. subst s3. split.
      { eexists (s_world s1), (writer s1), (s_events_recorded s1). split; [done|]. by destruct s1. }
      exists es, st. split; [done|]. split; [done|].
      assert (Hdp : delete p (threads s) = threads s) by (apply delete_id; by apply eq_None_not_Some).
      constructor; rewrite ?Et, ?El, ?Hdp; done. }
  apply bool_decide_eq_true in Hb. destruct (Z.ltb_spec 1 (s_threads_followed s1)) as [Hf|Hf].
  - st_inv. apply now_ok in Hm as (Hts & w & Hw & ->). rewrite as_u_pid in Hx by done.
    split; [pose proof Hx as (w2 & q & _ & ->)%sched_append_ok; by eauto|].
    assert (Hst : ∀ ts, disc_step st (Event_new_with_tid EvThreadExit ts p
        (ThreadExit_encode (mkThreadExit p))) = Some (mkDisc (owner st) (delete p (open_calls st)))).
    { intros ts. apply disc_thread_exit. destruct Hp. unfold in_u. lia. }
    eexists _, _. split; [eapply append_solo; [exact Hx|by apply world_solo|cbn; lia]|].
    split; [eapply append_log; [exact Hx|by apply world_log|by apply event_wf_pid|apply Hst]|].
    eapply append_calls; [exact Hx|]. apply world_calls. constructor; rewrite ?El, ?Et; cbn.
    + done.
    + intros q th [Hqp Hq]%Hdel. rewrite lookup_delete_ne by done. by apply Ho.
    + intros Hne t [Htp Ht]%lookup_delete_is_Some. apply lookup_delete_is_Some. split; [done|].
      apply Hc; [|done]. intros He. apply Hne. rewrite He. apply delete_empty.
    + intros q th r [_ Hq]%Hdel. by eapply Hnr.
  - subst s3. split.
    { eexists (s_world s1), (writer s1), (s_events_recorded s1). split; [done|]. by destruct s1. }
    exists es, st. split; [done|]. split; [done|].
    assert (He : delete p (threads s) = ∅).
    { apply map_eq. intros q. rewrite lookup_empty. destruct (delete p (threads s) !! q) as [th|] eqn:Hq; [|done].
      destruct (Hdel _ _ Hq) as [Hqp Hq']. exfalso. apply Hqp.
      rewrite (Hso ltac:(lia) q), (Hso ltac:(lia) p); [done|done|by eexists]. }
    constructor; rewrite ?Et, ?El, ?He; done.
Qed.

Lemma on_exit_inv p code w (s s' : Sch) u :
  Inv s → pid_ok p → attached w = (attached (s_world s) ∖ {[p]}) →
  resumed w = (resumed (s_world s) ∖ {[p]}) → on_exit p code (set_world w s) = (Ok u, s') → Inv s'.
Proof.
  intros Hi Hp Hwa Hwr Hx. destruct (removed_parts p w s Hi Hwa Hwr) as (Hser & Hth & Hrd & Hfo).
  destruct Hi as (_ & es & st & Ho & Hl & Hc). unfold on_exit in Hx. st_inv.
  rewrite Hth in *. set (s1 := clear_running p (set_world w s)) in *.
  set (s2 := set_threads (delete p (threads s)) s1) in *.
  assert (∃ r, s1 = set_running r (set_world w s)) as [r Hcl].
  { unfold s1, clear_running. destruct (bool_decide (running _ = _)); [by exists None|]. exists (running s). by destruct s. }
  match goal with Hr : st_when (_ && _) _ _ = _ |- _ => rename Hr into Hrec end.
  match goal with Hr : st_when (_ =? _) _ _ = _ |- _ => rename Hr into Hlead end.
  eapply (exit_record_inv p es st s s2) in Hrec as [(w3 & wr & n & Hw3 & ->) (es' & st' & Ho' & Hl' & Hc')];
    try done; try (unfold s2; by rewrite Hcl).
  assert (Hinv : Inv (set_ready (filter (λ q, q ≠ p) (ready s))
    (set_events_recorded n (set_writer wr (set_world w3 s2))))).
  { split; [|exists es', st'; split; [by apply ready_solo|split; [by apply ready_log|by apply ready_calls]]].
    destruct Hser, Hw3. constructor; cbn in *; (done || congruence). }
  replace (ready (set_events_recorded n (set_writer wr (set_world w3 s2)))) with (ready s) in Hlead
    by (cbn; by rewrite Hrd).
  set (s4 := set_ready _ _) in *. clearbody s4.
  assert (Hinv5 : ∀ x, Inv (set_leader_exit x s4)).
  { intros x. destruct Hinv as ([] & es5 & st5 & [] & [] & []).
    split; [by constructor|]. exists es5, st5. split; [by constructor|]. split; by constructor. }
  apply st_when_ok in Hlead. assert (Hinv7 : Inv s7).
  { destruct (p =? leader s4); [st_inv; apply Hinv5|by subst s7]. }
  unfold release_vfork_parent. destruct (vfork_pending s7 !! p) as [parent|]; [|done].
  apply requeue_inv. destruct Hinv7 as ([] & es7 & st7 & [] & [] & []).
  split; [by constructor|]. exists es7, st7. split; [by constructor|]. split; by constructor.
Qed.

Lemma on_stopped_inv p sig w (s s' : Sch) u :
  Inv s → threads s ≠ ∅ →
  reported (Stopped p sig) (attached (s_world s)) (resumed (s_world s)) (attached w) (resumed w) →
  on_stopped p sig (set_world w s) = (Ok u, s') → Inv s'.
Proof.
  intros Hi Hne (Hp & Hsig & Hcase) Hx. pose proof (ser_attached _ (proj1 Hi)) as Ha.
  unfold on_stopped in Hx. st_inv. cbn [threads set_world] in Hx.
  destruct Hcase as [(Hin & Hwa & Hwr)|(Hnew & Hwa & Hwr)].
  - pose proof (stopped_at p w s Hi Hin Hwa Hwr) as Hat. pose proof Hat as (_ & _ & Hth & _).
    assert (Hth' : is_Some (threads s !! p)).
    { revert Hth. unfold clear_running. by destruct (bool_decide (running _ = _)). }
    rewrite bool_decide_eq_true_2 in Hx by done. cbn [negb] in Hx. st_inv.
    match goal with Hr : st_when _ _ _ = _ |- _ => apply st_when_ok in Hr; rename Hr into Hw end.
    destruct (sig =? SIGSTOP) eqn:Es; cbn [negb] in Hw.
    + subst. by eapply requeue_at.
    + st_inv. apply now_ok in Hm as (Hts & w2 & Hw2 & ->). apply (at_world p w2) in Hat; [|done].
      eapply requeue_at, signal_inv; [exact Hsig|exact Hts| |exact Hat].
      match goal with Hr : sched_append _ _ = _ |- _ => exact Hr end.
  - assert (Hth : threads s !! p = None) by (apply not_elem_of_dom; by rewrite <- Ha).
    rewrite Hth, bool_decide_eq_false_2 in Hx by (by intros [? ?]). cbn [negb] in Hx. st_inv.
    apply requeue_inv. by eapply register_inv.
Qed.

(** Every status a lawful kernel reports is handled soundly. *)
Lemma handle_inv status w (s s' : Sch) u :
  Inv s → threads s ≠ ∅ →
  reported status (attached (s_world s)) (resumed (s_world s)) (attached w) (resumed w) →
  handle status (set_world w s) = (Ok u, s') → Inv s'.
Proof.
  intros Hi Hne Hrep Hx. destruct status as [p|p ev|p sig|p code|p sig|]; cbn in Hx.
  - destruct Hrep as (Hp & Hin & Hwa & Hwr). st_inv.
    eapply requeue_at, on_syscall_inv; [done|]. by apply stopped_at.
  - destruct Hrep as (Hp & Hin & Hwa & Hwr). st_inv. pose proof (stopped_at p w s Hi Hin Hwa Hwr) as Hat.
    destruct (is_spawn_event ev); st_inv; [|by eapply requeue_at].
    apply on_spawn_inv in Hm; [|done]. destruct (ev =? PTRACE_EVENT_VFORK); st_inv; [|by eapply requeue_at].
    destruct Hm as [([] & es & st & [] & [] & []) _].
    split; [by constructor|]. exists es, st. split; [by constructor|]. split; by constructor.
  - by eapply on_stopped_inv.
  - destruct Hrep as (Hp & Hwa & Hwr). by eapply on_exit_inv.
  - destruct Hrep as (Hp & Hwa & Hwr). by eapply on_exit_inv.
  - destruct Hrep as (Hwa & Hwr). st_inv. destruct Hi as (Hs & es & st & Ho & Hl & Hc).
    split; [by apply world_serial|]. exists es, st.
    split; [by apply world_solo|]. split; [by apply world_log|by apply world_calls].
Qed.

(** ** Lemmas: the loop *)

Lemma record_sched_switch_inv p (s s' : Sch) u :
  Inv s → running s = None → is_Some (threads s !! p) → record_sched_switch p s = (Ok u, s') →
  At p s' ∧ threads s' = threads s.
Proof.
  intros Hi Hrun Hp Hx. unfold record_sched_switch in Hx. st_inv.
  destruct (decide (last_scheduled s = Some p)) as [Hl|Hl];
    [rewrite bool_decide_eq_true_2 in Hx by done|rewrite bool_decide_eq_false_2 in Hx by done]; st_inv.
  { split; [|done]. split; [exact Hi|done]. }
  apply now_ok in Hm0 as (Hts & w & Hw & ->).
  destruct Hi as ([Ha Hre Hru Hn Hrd Hpid] & es & st & [Hpos Ht1 Hl1 Hg1] & [Hlg Hd Hld Hwf Hbd Hcnt] & [Hlast Ho Hc Hnr]).
  pose proof (Hpid p Hp) as Hpp. rewrite as_u_pid in Hx by done. destruct Hw as [Hwa Hwr].
  set (s1 := set_world w (set_last_scheduled (Some p) s)) in *.
  assert (Hs1 : Serial s1).
  { constructor; cbn in *; try done; congruence. }
  assert (Hf1 : s_threads_followed s ≠ 1).
  { intros Hf. apply Hl. rewrite (Hl1 Hf). f_equal. symmetry. by apply Ht1. }
  assert (Ho1 : Solo es s1) by (constructor; cbn; (done || intros; congruence)).
  assert (Hlog1 : LogOk es st s1) by (by constructor).
  assert (Hc1 : Calls (mkDisc p (open_calls st)) s1) by (by constructor).
  assert (Hst : ∀ ts, disc_step st (Event_new_with_tid EvSchedSwitch ts p
    (SchedSwitch_encode (mkSchedSwitch p))) = Some (mkDisc p (open_calls st))).
  { intros ts. apply disc_switch. destruct Hpp. unfold in_u. lia. }
  pose proof Hx as (w2 & q & _ & Es)%sched_append_ok. rewrite Es. split; [|done]. rewrite <- Es.
  split; [|by rewrite Es]. split; [by eapply append_serial|]. eexists _, _.
  split; [eapply append_solo; [exact Hx|exact Ho1|by intros ?]|].
  split; [eapply append_log; [exact Hx|exact Hlog1|by apply event_wf_pid|apply Hst]|by eapply append_calls].
Qed.

Lemma resume_next_inv (s s' : Sch) u :
  Inv s → running s = None → threads s ≠ ∅ → resume_next s = (Ok u, s') → Inv s' ∧ threads s' ≠ ∅.
Proof.
  intros Hi Hrun Hne Hx. unfold resume_next in Hx. st_inv. destruct (ready s) as [|next rest] eqn:Hready; st_inv.
  { done. }
  assert (Hi1 : Inv (set_ready rest s)).
  { destruct Hi as ([Ha Hre Hru Hn Hrd Hpid] & es & st & Ho & Hl & Hc).
    rewrite Hready in Hn, Hrd. apply NoDup_cons in Hn as [_ Hn].
    split; [|exists es, st; split; [by apply ready_solo|split; [by apply ready_log|by apply ready_calls]]].
    constructor; cbn; try done. intros q Hq. apply Hrd. by right. }
  assert (Hp : is_Some (threads s !! next)) by (eapply ser_ready; [apply Hi|rewrite Hready; by left]).
  destruct (record_sched_switch_inv _ _ _ _ Hi1 Hrun Hp Hm0) as [Hat Hth]. cbn in Hth.
  match goal with Hr : take_resume_signal next _ = _ |- _ =>
    unfold take_resume_signal in Hr; injection Hr as <- <- end.
  match goal with Hr : on_world _ _ = _ |- _ =>
    apply on_world_ok in Hr as (w & Hsys%call_ok & ->) end.
  match goal with Ha : At next ?x |- _ => rename x into s2 end.
  apply (at_resume_signal _ None) in Hat.
  set (s3 := update_thread next (λ th, mkThread (pending_enter th) None) s2) in *.
  pose proof (syscall_law next (t ← threads s2 !! next; resume_signal t) (s_world s3)) as Hlaw.
  rewrite Hsys in Hlaw. destruct Hlaw as [Hwa Hwr].
  destruct Hat as (([Ha Hre Hru Hn Hrd Hpid] & es & st & [] & [] & []) & Hlast & Hth3 & Hrun3).
  clearbody s3. split.
  - split; [|exists es, st; split; [by constructor|split; by constructor]].
    constructor; cbn; try done; [congruence| |by intros q [= <-]].
    rewrite Hwr, Hre, Hrun3. by rewrite union_empty_r_L.
  - cbn. intros He. rewrite He, lookup_empty in Hth3. by destruct Hth3.
Qed.

Lemma world_inv w (s : Sch) : same_tracees (s_world s) w → Inv s → Inv (set_world w s).
Proof.
  intros Hw (Hs & es & st & Ho & Hl & Hc). split; [by apply world_serial|]. exists es, st.
  split; [by apply world_solo|]. split; [by apply world_log|by apply world_calls].
Qed.

Lemma reported_same status w0 w1 w2 :
  reported status (attached w0) (resumed w0) (attached w1) (resumed w1) → same_tracees w1 w2 →
  reported status (attached w0) (resumed w0) (attached w2) (resumed w2).
Proof. intros Hr [-> ->]. done. Qed.

Lemma preempt_inv p (s s' : Sch) u :
  Inv s → threads s ≠ ∅ → preempt p s = (Ok u, s') → Inv s'.
Proof.
  intros Hi Hne Hx. unfold preempt in Hx. st_inv. unfold try_call in Hm.
  pose proof (kill_law p SIGSTOP (s_world s)) as Hk.
  destruct (sys_kill p SIGSTOP (s_world s)) as [r w1]. injection Hm as <- <-. cbn in Hk.
  apply (world_inv w1) in Hi; [|done].
  assert (Hs0 : s1 = set_world w1 s) by (destruct r as [[]|e]; [by st_inv|destruct (e =? ESRCH); by st_inv]).
  subst. apply on_world_ok in Hm1 as (w2 & Hwait%call_ok & ->). cbn in Hwait.
  pose proof (waitpid_law p w1) as Hl. rewrite Hwait in Hl.
  eapply handle_inv; [exact Hi|done|exact Hl|exact Hx].
Qed.

Lemma iterate_inv (s s' : Sch) b : Inv s → threads s ≠ ∅ → iterate s = (Ok b, s') → Inv s'.
Proof.
  intros Hi Hne Hx. unfold iterate in Hx. st_inv.
  assert (Hi1 : Inv s1 ∧ threads s1 ≠ ∅).
  { apply st_when_ok in Hm0. case_bool_decide as Hrun; [by eapply resume_next_inv|by subst]. }
  clear Hi Hne Hm0. destruct Hi1 as [Hi Hne].
  apply on_world_ok in Hm1 as (w & Harm%call_ok & ->).
  pose proof (arm_law (s_world s1)) as Hw. rewrite Harm in Hw.
  apply (world_inv w) in Hi; [|done]. unfold try_call in Hm2. cbn in Hm2.
  pose proof (waitpid_any_law w) as Hl. destruct (sys_waitpid_any w) as [r w1]. injection Hm2 as <- <-.
  assert (Hdis : ∀ w1 w2, call CapPtrace timer_disarm w1 = (Ok tt, w2) → same_tracees w1 w2).
  { intros v1 v2 Hd%call_ok. pose proof (disarm_law v1) as Hd'. by rewrite Hd in Hd'. }
  destruct r as [status|e]; [|destruct (e =? EINTR); [|destruct (e =? ECHILD)]]; st_inv.
  - apply on_world_ok in Hm as (w2 & Hd & ->). destruct a. apply Hdis in Hd.
    eapply (handle_inv status w2 (set_world w s1)); [exact Hi|done| |exact Hm0].
    by eapply reported_same.
  - apply on_world_ok in Hm as (w2 & Hd & ->). destruct a. apply Hdis in Hd.
    assert (Hi2 : Inv (set_world w2 (set_world w1 (set_world w s1)))).
    { apply world_inv; [done|]. by apply world_inv. }
    cbn [running set_world] in Hm1. destruct (running s1) as [cur|]; [by eapply preempt_inv|].
    by st_inv.
  - by apply world_inv.
Qed.

(** One turn of the loop. *)
Definition loop_step (s s' : Sch) : Prop := threads s ≠ ∅ ∧ ∃ b, iterate s = (Ok b, s').

(** A recording starts with the leader stopped and an empty log. *)
Record starts (w : W) (wr : S) : Prop := {
  starts_attached : attached w = {[ldr]};
  starts_resumed : resumed w = ∅;
  starts_pid : pid_ok ldr;
  starts_log : logged wr [];
}.

Lemma init_inv w wr : starts w wr → Inv (Scheduler_init w wr ldr).
Proof.
  intros [Ha Hr Hp Hl].
  assert (Hth : ∀ q, is_Some (({[ldr := Thread_default]} : gmap Z Thread) !! q) → q = ldr).
  { intros q [th Hq]. by apply lookup_singleton_Some in Hq as [-> _]. }
  split; [|exists [], (disc_start ldr); split; [|split]].
  - constructor; cbn; try done.
    + by rewrite Ha, dom_singleton_L.
    + apply NoDup_singleton.
    + intros q Hq%list_elem_of_singleton. subst. rewrite lookup_singleton_eq. by eexists.
    + intros q Hq%Hth. by subst.
  - constructor; cbn; try done; auto.
  - by constructor.
  - constructor; cbn; try done.
    + intros q th Hq. rewrite lookup_empty. by apply lookup_singleton_Some in Hq as [_ <-].
    + intros _ t Ht. rewrite lookup_empty in Ht. by destruct Ht.
    + intros q th r Hq. by apply lookup_singleton_Some in Hq as [_ <-].
Qed.

Lemma reaches_inv (s s' : Sch) : rtc loop_step s s' → Inv s → Inv s'.
Proof. induction 1 as [|s1 s2 s3 [Hne [b Hb]] _ IH]; [done|]. intros Hi. by eapply IH, iterate_inv. Qed.

Lemma run_loop_reaches fuel : ∀ (s s' : Sch) o,
  run_loop fuel s = (Ok o, s') →
  rtc loop_step s s' ∧
  (o = None ∨ o = Some (mkOutcome (leader_exit s') (s_events_recorded s') (s_threads_followed s'))).
Proof.
  induction fuel as [|fuel IH]; intros s s' o; cbn; case_bool_decide as He; try done.
  { intros [= <- <-]. eauto using rtc_refl. }
  { intros [= <- <-]. eauto using rtc_refl. }
  { intros [= <- <-]. eauto using rtc_refl. }
  destruct (iterate s) as [[[]| |] s1] eqn:Hit; try done.
  - intros [= <- <-]. split; [|by right]. apply rtc_once. split; [done|by eexists].
  - intros [Hr Ho]%IH. split; [|done]. eapply rtc_l; [|exact Hr]. split; [done|by eexists].
Qed.

Lemma run_log fuel w wr o (s' : Sch) :
  starts w wr → run_loop fuel (Scheduler_init w wr ldr) = (Ok (Some o), s') →
  ∃ es st, Solo es s' ∧ LogOk es st s' ∧
    o = mkOutcome (leader_exit s') (s_events_recorded s') (s_threads_followed s').
Proof.
  intros Hst [Hr [[=]|[= ->]]]%run_loop_reaches. apply reaches_inv in Hr; [|by apply init_inv].
  destruct Hr as (_ & es & st & Ho & Hl & _). eauto 10.
Qed.

(** ** Properties *)

(** C6. Single-core serialization: in every state the recording loop reaches,
    at most one tracee has been resumed, it is the scheduler's [running] thread
    and the one last scheduled; the scheduler's thread table is exactly the set
    of live tracees; the ready queue holds only live tracees, without repeats. *)
Theorem serialized (w : W) (wr : S) (s : Sch) :
  starts w wr → rtc loop_step (Scheduler_init w wr ldr) s →
  resumed (s_world s) = match running s with Some p => {[p]} | None => ∅ end ∧
  (∀ p, running s = Some p → last_scheduled s = Some p) ∧
  attached (s_world s) = dom (threads s) ∧
  NoDup (ready s) ∧ ∀ p, p ∈ ready s → p ∈ attached (s_world s).
Proof.
  intros Hst Hr. apply reaches_inv in Hr; [|by apply init_inv]. destruct Hr as ([Ha Hre Hru Hn Hrd _] & _).
  split; [done|]. split; [intros p Hp; by apply Hru|]. split; [done|]. split; [done|].
  intros p Hp. rewrite Ha. apply elem_of_dom. auto.
Qed.

(** C4. Every recording that completes keeps the schedule discipline
    ([Discipline.disc_step]): its log, read from the leader, lets only the
    scheduled thread make syscall, signal and spawn records, and a switch record
    names the thread it schedules; a thread's exit may be recorded whichever
    thread is scheduled.  Each thread's syscall entries and exits alternate and
    agree; the outcome counts the records, all of them encodable.  A recording
    that followed one thread only has no switch and no thread-exit record; it
    may have a spawn record, of a child that never reported a stop. *)
Theorem recording_disciplined (fuel : nat) (w : W) (wr : S) (o : RecordOutcome) (s' : Sch) :
  starts w wr → run_loop fuel (Scheduler_init w wr ldr) = (Ok (Some o), s') →
  ∃ es st, logged (writer s') es ∧ discipline (disc_start ldr) es = Some st ∧
    Forall event_wf es ∧ events_recorded o = blen es ∧
    (threads_followed o = 1 → Forall (λ e, kind e ≠ EvSchedSwitch ∧ kind e ≠ EvThreadExit) es).
Proof.
  intros Hst Hr. apply run_log in Hr as (es & st & Ho & Hl & ->); [|done]. exists es, st.
  split; [apply Hl|]. split; [apply Hl|]. split; [apply Hl|]. split; [apply Hl|]. apply Ho.
Qed.

End Invariant.

(** ** Witnesses *)

(** Thread 100 clones thread 101 and is preempted in a compute loop; 101 reads
    five bytes; 100 calls [exit_group]; 101 enters a [futex] wait;
    100 goes on and kills it. *)
Definition regs_of (nr ret a1 : Z) : user_regs := mkRegs nr ret 3 a1 5 0 0 0 4096 [].

Definition sample_script : list (wait_status + Z) :=
  [inl (PtraceSyscall 100); inl (PtraceEvent 100 PTRACE_EVENT_CLONE); inl (Stopped 101 SIGSTOP);
   inl (PtraceSyscall 100); inl (PtraceSyscall 101); inr EINTR; inl (Stopped 100 SIGSTOP);
   inl (PtraceSyscall 101); inl (PtraceSyscall 100); inl (PtraceSyscall 101); inl (Exited 101 0);
   inl (Exited 100 7)].

Definition sample_regs : list user_regs :=
  [regs_of 56 0 0; regs_of 56 101 0; regs_of 0 0 8192; regs_of 0 5 8192; regs_of 231 0 0;
   regs_of 202 0 0].

Definition sample_world (a : gset Z) (sc : list (wait_status + Z)) : toy :=
  mkToy sc sample_regs [101] 0 a ∅.

Definition sample_init : Scheduler toy (list Event) :=
  Scheduler_init (sample_world {[100]} sample_script) [] 100.

Lemma sample_starts : starts 100 (sample_world {[100]} sample_script) ([] : list Event).
Proof. constructor; reflexivity || (split; reflexivity). Qed.

Lemma serialized_witness :
  ∃ s, rtc loop_step sample_init s ∧ running s = Some 100 ∧ resumed (s_world s) = {[100]} ∧
    attached (s_world s) = dom (threads s) ∧ NoDup (ready s).
Proof.
  assert (Hr : run_loop 10 sample_init = (Ok None, (run_loop 10 sample_init).2)) by (vm_compute; reflexivity).
  apply run_loop_reaches in Hr as [Hr _].
  pose proof (serialized 100 (sample_world {[100]} sample_script) [] _ sample_starts Hr) as (H1 & _ & H3 & H4 & _).
  exists (run_loop 10 sample_init).2. split; [exact Hr|]. split; [vm_compute; reflexivity|].
  split; [|split; [exact H3|exact H4]]. rewrite H1. vm_compute. reflexivity.
Defined.

Lemma recording_disciplined_witness :
  let r := run_loop 20 sample_init in
  r.1 = Ok (Some (mkOutcome (Some 7) 15 2)) ∧
  ∃ es st, logged (writer r.2) es ∧ discipline (disc_start 100) es = Some st ∧ blen es = 15.
Proof.
  assert (Hr : run_loop 20 sample_init =
    (Ok (Some (mkOutcome (Some 7) 15 2)), (run_loop 20 sample_init).2)) by (vm_compute; reflexivity).
  split; [vm_compute; reflexivity|].
  destruct (recording_disciplined 100 20 _ _ _ _ sample_starts Hr) as (es & st & H1 & H2 & _ & H4 & _).
  exists es, st. split; [exact H1|]. split; [exact H2|]. symmetry. exact H4.
Defined.
