(* ===== verification/Recording.v ===== *)
(** * Recording a command: [capture/ptrace.rs]

    [record_command] end to end: the file's header, the traced spawn, the
    scheduling loop, and what the file then holds once the [BufWriter] between
    the trace writer and the file is dropped. *)

From S2P Require Import Prelude StdIo BufOut TraceFormat Crc32 TraceLog Payload Ptrace Capture Discipline Sched.
From S2P Require Import ToyKernel SchedLog.

Section Record.
Context {W : Type} `{Kernel W} (crc32 : list byte → Z).

(** The calls between the spawn and the loop. *)
Definition start_recording {I} (prog : list byte) (argv : list (list byte)) (wr : TraceWriter I)
    : stm W CaptureError (Scheduler W (TraceWriter I)) :=
  ldr ← call CapSpawn (sys_spawn_traced prog argv);
  call CapPtrace (sys_waitpid ldr);;
  call CapPtrace (pt_setoptions ldr trace_options);;
  Scheduler_new wr ldr.

(** The file is the one at the trace's path; once it is open, every way out
    drops the [BufWriter] over it. *)
Definition record_command (prog : list byte) (argv : list (list byte)) (fuel : nat)
    : stm (W * sink) CaptureError (option RecordOutcome) := λ '(w, file),
  match File_create file with
  | (Ok _, file) =>
      match create_with_cmdline prog argv (BufWriter_new file) with
      | (Ok wr, _) =>
          match start_recording prog argv wr w with
          | (Ok s, w) =>
              let '(r, s) := run_loop (H0 := TraceWriter_sink crc32) fuel (set_world w s) in
              (r, (s_world s, bw_drop (w_inner (writer s))))
          | (Err e, w) => (Err e, (w, bw_drop (w_inner wr)))
          | (Panic, w) => (Panic, (w, bw_drop (w_inner wr)))
          end
      | (Err e, b) => (Err (CapTrace e), (w, bw_drop b))
      | (Panic, b) => (Panic, (w, bw_drop b))
      end
  | (Err e, file) => (Err (CapTrace (TraceIo e)), (w, file))
  | (Panic, file) => (Panic, (w, file))
  end.

(** ** Lemmas *)

(** What the start of a recording leaves: the leader stopped, alone. *)
Lemma start_recording_starts {I} `{!TracerLaws W} `{TK : TraceSink (TraceWriter I)} (TKL : TraceSinkLaws (TraceWriter I))
    prog argv (wr : TraceWriter I) w s w' :
  attached w = ∅ → resumed w = ∅ → logged wr [] →
  start_recording prog argv wr w = (Ok s, w') →
  ∃ ldr, s = Scheduler_init w' wr ldr ∧ starts (TL := TKL) ldr w' wr.
Proof.
  intros Ha Hr Hlg Hx. unfold start_recording, Scheduler_new, pin_to_serialization_cpu in Hx. st_inv.
  repeat match goal with Hc : call _ _ _ = (Ok _, _) |- _ => apply call_ok in Hc end.
  pose proof (spawn_law prog argv w) as L1. rewrite Hm in L1. cbn in L1. destruct L1 as [A1 R1].
  pose proof (waitpid_law a s0) as L2. rewrite Hm0, A1, R1, Ha, Hr in L2.
  pose proof (setoptions_law a trace_options s1) as L3. rewrite Hm1 in L3. destruct L3 as [Hin [A3 R3]].
  pose proof (setaffinity_law a SERIALIZATION_CPU s2) as L4. rewrite Hm2 in L4. destruct L4 as [A4 R4].
  pose proof (install_law s3) as L5. rewrite Hm3 in L5. destruct L5 as [A5 R5]. cbn in A4, R4, A5, R5.
  assert (Hone : pid_ok a ∧ attached s1 = {[a]} ∧ resumed s1 = ∅).
  { destruct a0 as [p|p ev|p sig|p c|p sig|]; cbn in L2.
    - destruct L2 as (_ & []%not_elem_of_empty & _).
    - destruct L2 as (_ & []%not_elem_of_empty & _).
    - destruct L2 as (Hp & _ & [([]%not_elem_of_empty & _)|(_ & Hat & Hre)]).
      rewrite union_empty_r_L in Hat. rewrite Hat in Hin. apply elem_of_singleton in Hin as ->. done.
    - destruct L2 as (_ & Hat & _). rewrite Hat in Hin. by apply elem_of_difference in Hin as [[]%not_elem_of_empty _].
    - destruct L2 as (_ & Hat & _). rewrite Hat in Hin. by apply elem_of_difference in Hin as [[]%not_elem_of_empty _].
    - destruct L2 as (Hat & _). rewrite Hat in Hin. by apply not_elem_of_empty in Hin. }
  destruct Hone as (Hp & A2 & R2). exists a. split; [done|]. by constructor; [congruence..|done|].
Qed.

(** ** Properties *)

(** C10. A recording that completes leaves, once its buffered writer is dropped,
    in place of whatever the file held a prefix of the header of the recorded command followed by the frames of a
    disciplined event sequence, as many as the outcome says: the drop ignores a
    failing flush.  When the file takes every write it is all of that; and if
    every record fits the reader's bound, reading that file back, in any chunks,
    gives the command and exactly those events, numbered from zero. *)
Theorem recorded_file_reads_back `{!TracerLaws W} (c : Cmdline) (fuel : nat) (w w' : W)
    (file0 file : sink) (o : RecordOutcome) :
  (∀ bs, in_u 32 (crc32 bs)) → cmdline_fits c →
  BASE_HEADER_LEN + blen (encode_cmdline (program c) (args c)) < 2 ^ 16 →
  attached w = ∅ → resumed w = ∅ →
  record_command (program c) (args c) fuel (w, file0) = (Ok (Some o), (w', file)) →
  ∃ ldr es st, discipline (disc_start ldr) es = Some st ∧ events_recorded o = blen es ∧
    (∃ n, snk_data file = take n (log_bytes crc32 c es)) ∧
    (accepts_all file0 →
     snk_data file = log_bytes crc32 c es ∧
     (Forall (λ e, BODY_PREFIX_LEN_V3 + blen (payload e) ≤ MAX_BODY_LEN) es →
      ∀ s, only_chunks s = true → src_data s = snk_data file →
      ∃ r, open s = Ok r ∧ r_cmdline r = Some c ∧
        collect crc32 (collect_fuel r) r = Ok (number 0 es))).
Proof.
  intros Hcrc Hc Hlen Ha Hr Hx. unfold record_command in Hx.
  destruct (File_create file0) as [[u|e|] file1] eqn:Hcf; try done. apply File_create_ok in Hcf as [Hemp Hall].
  destruct (create_with_cmdline _ _ _) as [[wr|e|] f1] eqn:Hcr; try done.
  destruct (start_recording _ _ wr w) as [[s|e|] w1] eqn:Hs; try done.
  destruct (run_loop fuel _) as [r s'] eqn:Hrun. injection Hx as -> <- <-.
  apply (create_buffered crc32) in Hcr; [|done].
  destruct (start_recording_starts (buffered_sink_laws _ crc32 _) _ _ _ _ _ _ Ha Hr Hcr Hs) as (ldr & -> & Hst).
  destruct (run_log (TL := buffered_sink_laws _ crc32 _) ldr _ _ _ _ _ Hst Hrun) as (es & st & _ & Hl & ->).
  destruct (log_logged _ _ _ _ Hl) as [Hw Hacc].
  destruct (Hw (log_bound _ _ _ _ Hl)) as [Hbytes _]. destruct (buffered_file _ _ _ Hbytes (λ h, Hacc (Hall h))) as [Hpre Hfile].
  exists ldr, es, st. split; [apply Hl|]. split; [apply Hl|]. split; [done|]. intros Hh. split; [by apply Hfile|].
  intros Hfit s Hch Hsrc. rewrite (Hfile Hh) in Hsrc.
  assert (Hfits : Forall event_fits es) by (apply Forall_and; split; [apply Hl|done]).
  destruct (read_back crc32 c es s Hcrc Hc Hlen Hfits (log_bound _ _ _ _ Hl) Hch Hsrc)
    as (rd & Ho & _ & Hrc & Hcol). eauto.
Qed.

(** C13. A command line too long for the 16-bit header length is lost by the
    recorder without a word: the recording completes and reports its outcome,
    but the length [write_header] wrote has wrapped, so opening the file either
    fails on its header or yields a reader with no command line, never the one
    that was recorded. *)
Theorem oversized_cmdline_lost `{!TracerLaws W} (c : Cmdline) (fuel : nat) (w w' : W)
    (file0 file : sink) (o : RecordOutcome) (s : source) :
  cmdline_fits c → 2 ^ 16 ≤ BASE_HEADER_LEN + blen (encode_cmdline (program c) (args c)) →
  attached w = ∅ → resumed w = ∅ → accepts_all file0 →
  record_command (program c) (args c) fuel (w, file0) = (Ok (Some o), (w', file)) →
  only_chunks s = true → src_data s = snk_data file →
  open s = Err MalformedHeader ∨ ∃ r, open s = Ok r ∧ r_cmdline r = None.
Proof.
  intros Hc Hbig Ha Hr Hh Hx Hch Hsrc. unfold record_command in Hx.
  destruct (File_create file0) as [[u|e|] file1] eqn:Hcf; try done. apply File_create_ok in Hcf as [Hemp Hall].
  destruct (create_with_cmdline _ _ _) as [[wr|e|] f1] eqn:Hcr; try done.
  destruct (start_recording _ _ wr w) as [[s1|e|] w1] eqn:Hs; try done.
  destruct (run_loop fuel _) as [r s'] eqn:Hrun. injection Hx as -> <- <-.
  apply (create_buffered crc32) in Hcr; [|done].
  destruct (start_recording_starts (buffered_sink_laws _ crc32 _) _ _ _ _ _ _ Ha Hr Hcr Hs) as (ldr & -> & Hst).
  destruct (run_log (TL := buffered_sink_laws _ crc32 _) ldr _ _ _ _ _ Hst Hrun) as (es & st & _ & Hl & ->).
  destruct (log_logged _ _ _ _ Hl) as [Hw Hacc].
  destruct (Hw (log_bound _ _ _ _ Hl)) as [Hbytes _].
  destruct (buffered_file _ _ _ Hbytes (λ h, Hacc (Hall h))) as [_ Hfile].
  rewrite (Hfile Hh) in Hsrc. by eapply oversized_header.
Qed.

End Record.

(** ** Witnesses *)

Definition recording_world : toy := sample_world ∅ (inl (Stopped 100 SIGTRAP) :: sample_script).

#[local] Abbreviation toy_recording file :=
  (record_command crc32_ieee (program sample_cmdline) (args sample_cmdline) 20 (recording_world, file)).

Lemma recorded_file_reads_back_witness :
  ∃ w' file ldr es st,
    toy_recording (Sink [x01; x02] [WriteOk; WriteOk]) = (Ok (Some (mkOutcome (Some 7) 15 2)), (w', file)) ∧
    discipline (disc_start ldr) es = Some st ∧ blen es = 15 ∧
    snk_data file = log_bytes crc32_ieee sample_cmdline es.
Proof.
  assert (Hok : (toy_recording (Sink [x01; x02] [WriteOk; WriteOk])).1 = Ok (Some (mkOutcome (Some 7) 15 2)))
    by (vm_compute; reflexivity).
  destruct (toy_recording (Sink [x01; x02] [WriteOk; WriteOk])) as [r [w' file]] eqn:Hr.
  cbn [fst] in Hok. subst r.
  destruct (recorded_file_reads_back crc32_ieee sample_cmdline 20 recording_world w' (Sink [x01; x02] [WriteOk; WriteOk]) file (mkOutcome (Some 7) 15 2)
    crc32_ieee_range sample_cmdline_fits) as (ldr & es & st & H1 & H2 & _ & H3);
    [reflexivity|reflexivity|reflexivity|exact Hr|].
  exists w', file, ldr, es, st. split; [reflexivity|]. split; [exact H1|].
  split; [symmetry; exact H2|]. apply H3. unfold accepts_all. by repeat constructor.
Defined.

(** One argument of 65600 bytes: recorded to the end, and lost. *)
#[local] Abbreviation huge_recording :=
  (record_command crc32_ieee (program huge_cmdline) (args huge_cmdline) 20 (recording_world, Sink [] [])).

Lemma oversized_cmdline_lost_witness :
  huge_recording.1 = Ok (Some (mkOutcome (Some 7) 15 2)) ∧
  let s := Source (snk_data huge_recording.2.2) [] in
  open s = Err MalformedHeader ∨ ∃ r, open s = Ok r ∧ r_cmdline r = None.
Proof.
  assert (Hok : huge_recording.1 = Ok (Some (mkOutcome (Some 7) 15 2))) by (vm_compute; reflexivity).
  split; [exact Hok|]. destruct huge_recording as [r [w' file]] eqn:Hr. cbn [fst snd] in *. subst r.
  apply (oversized_cmdline_lost crc32_ieee huge_cmdline 20 recording_world w' (Sink [] []) file
    (mkOutcome (Some 7) 15 2)); [exact huge_cmdline_fits|apply Z.leb_le; vm_compute; reflexivity|reflexivity|reflexivity|constructor|exact Hr|reflexivity|reflexivity].
Defined.

(** The same recording on a full disk: the outcome is the same, and the trace is
    empty. *)
Lemma full_disk_unreported :
  ∃ w', toy_recording (Sink [] [WriteOk; WriteFail 0 28]) = (Ok (Some (mkOutcome (Some 7) 15 2)), (w', Sink [] [])).
Proof. eexists (toy_recording (Sink [] [WriteOk; WriteFail 0 28])).2.1. vm_compute. reflexivity. Qed.
