(* ===== verification/SchedTurns.v ===== *)
(** * Turns and termination of the recording scheduler

    What decides when a thread gets its next turn (the [vfork] hand-over, a
    failing resume) and why the loop ends, against any kernel: none of these
    theorems needs the laws of [Ptrace.TracerLaws]. *)

From S2P Require Import Prelude StdIo TraceFormat TraceLog Payload Ptrace Capture Sched ToyKernel SchedLog.

Section Turns.
Context {W S : Type} {KW : Kernel W} {TS : TraceSink S}.
#[local] Abbreviation Sch := (Scheduler W S).

(** ** Lemmas: what leaves the queue alone *)

Record same_turns (s s' : Sch) : Prop := {
  same_ready : ready s' = ready s;
  same_running : running s' = running s;
  same_vfork : vfork_pending s' = vfork_pending s;
  same_dom : ∀ q, is_Some (threads s' !! q) ↔ is_Some (threads s !! q);
}.

#[local] Instance same_turns_preorder : PreOrder same_turns.
Proof.
  split; [by constructor|]. intros s1 s2 s3 [R1 U1 V1 D1] [R2 U2 V2 D2].
  constructor; [congruence..|]. intros q. by rewrite D2.
Qed.

Lemma turns_world {A} (m : stm W CaptureError A) (s s' : Sch) a :
  on_world m s = (Ok a, s') → same_turns s s'.
Proof. intros (w & _ & ->)%on_world_ok. by constructor. Qed.

Lemma turns_now (s s' : Sch) t : now s = (Ok t, s') → same_turns s s'.
Proof. unfold now. destruct (clock_elapsed_ns (s_world s)) as [x w]. intros [= _ <-]. by constructor. Qed.

Lemma turns_append e (s s' : Sch) u : sched_append e s = (Ok u, s') → same_turns s s'.
Proof. intros (w & q & _ & ->)%sched_append_ok. by constructor. Qed.

Lemma turns_update p f (s : Sch) : same_turns s (update_thread p f s).
Proof.
  unfold update_thread. destruct (threads s !! p) as [th|] eqn:Hp; [|done].
  constructor; cbn; try done. intros q. rewrite put_thread_some; [done|by eexists].
Qed.

Lemma turns_on_syscall p (s s' : Sch) u : on_syscall p s = (Ok u, s') → same_turns s s'.
Proof.
  unfold on_syscall. intros Hx. st_inv.
  apply turns_world in Hm. apply turns_now in Hm0.
  unfold take_pending_enter in Hm1. injection Hm1 as <- <-.
  pose proof (turns_update p (λ t, mkThread None (resume_signal t)) s1) as H1.
  set (s2 := update_thread p _ s1) in *. clearbody s2.
  assert (H2 : same_turns s s2) by (by etransitivity; [|etransitivity]).
  destruct (t ← threads s1 !! p; pending_enter t) as [enter|]; st_inv.
  - apply turns_world in Hm1. apply turns_append in Hx. by etransitivity; [|etransitivity].
  - match goal with Ha : sched_append _ _ = _ |- _ => apply turns_append in Ha end.
    etransitivity; [exact H2|]. etransitivity; [done|]. apply turns_update.
Qed.

Lemma turns_on_spawn p (s s' : Sch) c : on_spawn p s = (Ok c, s') → same_turns s s'.
Proof.
  unfold on_spawn. intros Hx. st_inv. apply turns_world in Hm. apply turns_now in Hm0.
  apply turns_append in Hm1. by etransitivity; [|etransitivity].
Qed.

(** A thread waiting for neither the CPU nor a queue place. *)
Definition held (p : Z) (s : Sch) : Prop := p ∉ ready s ∧ running s ≠ Some p.

Lemma held_turns p (s s' : Sch) : same_turns s s' → held p s → held p s'.
Proof. intros [Hr Hu _ _] [? ?]. by split; [rewrite Hr|rewrite Hu]. Qed.

Lemma held_requeue p q (s : Sch) : p ≠ q → held p s → held p (requeue q s).
Proof.
  intros Hne [Hr Hu]. unfold requeue. destruct (_ && _); [|done]. split; [|done]. cbn.
  rewrite elem_of_app, list_elem_of_singleton. naive_solver.
Qed.

Lemma held_clear p q (s : Sch) : held p s → held p (clear_running q s).
Proof. intros [Hr Hu]. unfold clear_running. by destruct (bool_decide (running s = Some q)). Qed.

Lemma clear_vfork q (s : Sch) : vfork_pending (clear_running q s) = vfork_pending s.
Proof. unfold clear_running. by destruct (bool_decide (running s = Some q)). Qed.

Lemma clear_threads q (s : Sch) : threads (clear_running q s) = threads s.
Proof. unfold clear_running. by destruct (bool_decide (running s = Some q)). Qed.

Lemma requeue_in q (s : Sch) : is_Some (threads s !! q) → q ∈ ready (requeue q s).
Proof.
  intros Hq. unfold requeue. rewrite (bool_decide_eq_true_2 (is_Some _)) by done.
  case_bool_decide; cbn; [done|]. apply elem_of_app. right. by left.
Qed.

Lemma held_register p q (s s' : Sch) u : register_child q s = (Ok u, s') → held p s → held p s'.
Proof.
  unfold register_child. intros Hx Hh. st_inv. apply turns_world in Hm. apply turns_world in Hm0.
  apply (held_turns p) in Hm; [|done]. by apply (held_turns p) in Hm0.
Qed.

Lemma held_on_stopped p q sig (s s' : Sch) u :
  q ≠ p → on_stopped q sig s = (Ok u, s') → held p s → held p s'.
Proof.
  intros Hne Hx Hh. unfold on_stopped in Hx. st_inv. destruct (negb (bool_decide _)); st_inv.
  - apply held_requeue; [done|]. by eapply held_register.
  - apply held_requeue; [done|].
    match goal with Hw : st_when _ _ _ = _ |- _ => apply st_when_ok in Hw; rename Hw into Hx end.
    apply (held_clear p q) in Hh. destruct (negb (sig =? SIGSTOP)); [|by subst]. st_inv.
    apply turns_now in Hm. match goal with Ha : sched_append _ _ = _ |- _ => apply turns_append in Ha end.
    eapply held_turns; [apply turns_update|]. eapply held_turns; [done|]. by eapply held_turns.
Qed.

(** The state in which a death is handed to [release_vfork_parent]. *)
Lemma on_exit_before_release p c code (s s' : Sch) u :
  c ≠ p → on_exit c code s = (Ok u, s') → held p s → is_Some (threads s !! p) →
  ∃ s1, s' = release_vfork_parent c s1 ∧ held p s1 ∧ is_Some (threads s1 !! p) ∧
    vfork_pending s1 = vfork_pending s.
Proof.
  intros Hne Hx Hh Hp. unfold on_exit in Hx. st_inv. eexists. split; [done|].
  match goal with Hr : st_when (_ && _) _ _ = _ |- _ => apply st_when_ok in Hr; rename Hr into Hrec end.
  match goal with Hr : st_when (_ =? _) _ _ = _ |- _ => apply st_when_ok in Hr; rename Hr into Hlead end.
  rewrite clear_threads in Hrec. set (s1 := set_threads _ _) in Hrec.
  assert (H1 : held p s1) by (by apply held_clear).
  assert (H2 : is_Some (threads s1 !! p)) by (by apply lookup_delete_is_Some).
  assert (H3 : vfork_pending s1 = vfork_pending s) by apply clear_vfork.
  match type of Hlead with (if _ then _ (set_ready _ ?x) = _ else _) => set (s3 := x) in * end.
  assert (H4 : same_turns s1 s3).
  { destruct (_ && _) in Hrec; [|by rewrite Hrec]. st_inv. apply turns_now in Hm.
    apply turns_append in Hrec. by etransitivity. }
  clearbody s1 s3. destruct H4 as [Er Eu Ev Ed]. clear Hrec.
  assert (H5 : held p (set_ready (filter (λ q, q ≠ c) (ready s3)) s3)).
  { destruct H1 as [Hr Hu]. split; [|by rewrite <- Eu in Hu]. cbn.
    rewrite list_elem_of_filter, Er. naive_solver. }
  destruct (c =? _); st_inv; [|subst]; (split; [done|]); cbn; (split; [by apply Ed|congruence]).
Qed.

(** Which tracee a status is about, and whether it died. *)
Definition status_pid (st : wait_status) : option Z :=
  match st with
  | PtraceSyscall p | PtraceEvent p _ | Stopped p _ | Exited p _ | Signaled p _ => Some p
  | OtherStatus => None
  end.
Definition died (st : wait_status) : option Z :=
  match st with Exited p _ | Signaled p _ => Some p | _ => None end.

(** A [vfork] parent gets its next turn exactly when its child dies: once
    the parent waits for a child, no report about any other tracee, the child's
    own [execve] included, queues it; the child's death does.  (The comment on
    [vfork_pending] says the parent is released when the child execs or exits,
    as the kernel does; the scheduler only does the latter.) *)
Theorem vfork_parent_turn (status : wait_status) (s s' : Sch) (parent child : Z) :
  held parent s → is_Some (threads s !! parent) → vfork_pending s !! child = Some parent →
  status_pid status ≠ Some parent → handle status s = (Ok tt, s') →
  (died status = Some child → parent ∈ ready s') ∧
  ((∀ c, died status = Some c → vfork_pending s !! c ≠ Some parent) → held parent s').
Proof.
  intros Hh Hp Hv Hne Hx.
  assert (Hexit : ∀ c code, c ≠ parent → on_exit c code s = (Ok tt, s') →
    (Some c = Some child → parent ∈ ready s') ∧
    ((∀ c', Some c = Some c' → vfork_pending s !! c' ≠ Some parent) → held parent s')).
  { intros c code Hc He.
    destruct (on_exit_before_release parent c code s s' tt Hc He Hh Hp) as (s1 & -> & H1 & H2 & H3).
    unfold release_vfork_parent. rewrite H3. split.
    - intros [= ->]. rewrite Hv. by apply requeue_in.
    - intros Hno. specialize (Hno c eq_refl). destruct (vfork_pending s !! c) as [q|]; [|done].
      apply held_requeue; [congruence|done]. }
  destruct status as [p|p ev|p sig|p code|p sig|]; cbn in Hne, Hx |- *.
  - split; [done|]. intros _. st_inv. apply held_requeue; [congruence|].
    eapply held_turns; [by eapply turns_on_syscall|]. by apply held_clear.
  - split; [done|]. intros _. st_inv. apply (held_clear parent p) in Hh.
    destruct (is_spawn_event ev); st_inv; [|apply held_requeue; [congruence|done]].
    eapply held_turns in Hh; [|by eapply turns_on_spawn].
    destruct (ev =? PTRACE_EVENT_VFORK); st_inv; [done|]. apply held_requeue; [congruence|done].
  - split; [done|]. intros _. eapply held_on_stopped; [|done|done]. congruence.
  - apply Hexit with (Some code); [congruence|done].
  - apply Hexit with None; [congruence|done].
  - st_inv. done.
Qed.

(** A queued thread that can no longer be resumed ends the recording: when
    the tracee at the head of the queue has died there (another thread's
    [exit_group]), [ptrace] answers [ESRCH], and the whole run returns that
    error, although the death is about to be reported and [preempt] tolerates
    the same answer. *)
Theorem dead_head_aborts (fuel : nat) (s s1 : Sch) (p : Z) (rest : list Z) (e : Z) (w : W) :
  threads s ≠ ∅ → running s = None → ready s = p :: rest →
  record_sched_switch p (set_ready rest s) = (Ok tt, s1) →
  (∀ sig, pt_syscall p sig (s_world s1) = (inr e, w)) →
  ∃ s', run_loop (Datatypes.S fuel) s = (Err (CapPtrace e), s').
Proof.
  intros Hne Hrun Hrd Hsw Hsys. cbn. rewrite bool_decide_eq_false_2 by done.
  assert (Hres : ∃ s2, resume_next s = (Err (CapPtrace e), s2)).
  { unfold resume_next, st_gets, st_modify, mbind, stm_bind. rewrite Hrd, Hsw.
    unfold take_resume_signal, on_world, call.
    set (s2 := update_thread p (λ t, mkThread (pending_enter t) None) s1).
    assert (Hw : s_world s2 = s_world s1) by (unfold s2, update_thread; by destruct (threads s1 !! p)).
    rewrite Hw, Hsys. by eexists. }
  destruct Hres as [s2 Hres]. exists s2. unfold iterate, st_gets, mbind, stm_bind.
  rewrite Hrun, bool_decide_eq_true_2 by done. cbn [st_when]. by rewrite Hres.
Qed.

End Turns.

(** ** Termination *)

(** A kernel with finitely many reports left: [waitpid] uses one up whenever it
    returns a status or is interrupted, and no call adds any. *)
Class ReportBudget (W : Type) `{Kernel W} := {
  budget : W → nat;
  spends (w w' : W) : Prop := (budget w' ≤ budget w)%nat;
  budget_wait w : match sys_waitpid_any w with
    | (inl _, w') => (budget w' < budget w)%nat
    | (inr e, w') => if e =? EINTR then (budget w' < budget w)%nat else spends w w' end;
  budget_waitpid p w : spends w (sys_waitpid p w).2;
  budget_syscall p sig w : spends w (pt_syscall p sig w).2;
  budget_getregs p w : spends w (pt_getregs p w).2;
  budget_readv p a n w : spends w (vm_readv p a n w).2;
  budget_kill p sig w : spends w (sys_kill p sig w).2;
  budget_setaffinity p c w : spends w (sys_setaffinity p c w).2;
  budget_getevent p w : spends w (pt_getevent p w).2;
  budget_setoptions p o w : spends w (pt_setoptions p o w).2;
  budget_arm w : spends w (timer_arm w).2;
  budget_disarm w : spends w (timer_disarm w).2;
  budget_clock w : spends w (clock_elapsed_ns w).2;
}.

Section Termination.
Context {W S : Type} {KW : Kernel W} {B : ReportBudget W} {TS : TraceSink S}.
#[local] Abbreviation Sch := (Scheduler W S).

Definition less (s s' : Sch) : Prop := (budget (s_world s') ≤ budget (s_world s))%nat.

#[local] Instance less_preorder : PreOrder less.
Proof. split; unfold less; [intros s; lia|intros s1 s2 s3; lia]. Qed.

Lemma less_call {A} f (k : kop W A) (s s' : Sch) a :
  (∀ w, spends w (k w).2) → on_world (call f k) s = (Ok a, s') → less s s'.
Proof.
  intros Hk (w & Hc%call_ok & ->)%on_world_ok. pose proof (Hk (s_world s)) as H.
  by rewrite Hc in H.
Qed.

Lemma less_now (s s' : Sch) t : now s = (Ok t, s') → less s s'.
Proof.
  unfold now. pose proof (budget_clock (s_world s)) as H.
  destruct (clock_elapsed_ns (s_world s)) as [x w]. by intros [= _ <-].
Qed.

Lemma less_append e (s s' : Sch) u : sched_append e s = (Ok u, s') → less s s'.
Proof. intros (w & q & _ & ->)%sched_append_ok. unfold less. cbn. lia. Qed.

Lemma less_update p f (s : Sch) : less s (update_thread p f s).
Proof. unfold update_thread, less. destruct (threads s !! p); cbn; lia. Qed.

Lemma less_requeue p (s : Sch) : less s (requeue p s).
Proof. unfold requeue, less. destruct (_ && _); cbn; lia. Qed.

Lemma less_clear p (s : Sch) : less s (clear_running p s).
Proof. unfold clear_running, less. destruct (bool_decide _); cbn; lia. Qed.

Lemma less_world {A} (m : stm W CaptureError A) (s s' : Sch) a :
  (∀ w a w', m w = (Ok a, w') → spends w w') → on_world m s = (Ok a, s') → less s s'.
Proof. intros Hm (w & Hc & ->)%on_world_ok. by eapply Hm. Qed.

Lemma spends_regs pid w r w' : read_syscall_regs pid w = (Ok r, w') → spends w w'.
Proof.
  unfold read_syscall_regs. intros Hx. st_inv. apply call_ok in Hm.
  pose proof (budget_getregs pid w) as H. by rewrite Hm in H.
Qed.

Lemma spends_exit_event ts t pid enter ret w e w' :
  exit_event ts t pid enter ret w = (Ok e, w') → spends w w'.
Proof.
  unfold exit_event. intros Hx. st_inv. destruct (kernel_written_region _ _ _) as [[addr len]|].
  - apply read_tracee_memory_ok in Hm as (bs & Hv & _).
    pose proof (budget_readv pid addr len w) as H. by rewrite Hv in H.
  - st_inv. unfold spends. lia.
Qed.

Lemma spends_pin pid w u w' : pin_to_serialization_cpu pid w = (Ok u, w') → spends w w'.
Proof.
  intros Hx%call_ok. pose proof (budget_setaffinity pid SERIALIZATION_CPU w) as H. by rewrite Hx in H.
Qed.

(** Chain the steps of a computation. *)
Create HintDb budget.
#[local] Hint Resolve budget_getevent budget_setoptions budget_syscall budget_arm budget_disarm
  budget_waitpid spends_regs spends_exit_event spends_pin : budget.
Ltac step_less :=
  match goal with
  | Hm : on_world (call _ _) ?x = (Ok _, _) |- less ?x _ =>
      etransitivity; [eapply less_call; [|exact Hm]; auto with budget|]; clear Hm
  | Hm : on_world _ ?x = (Ok _, _) |- less ?x _ =>
      etransitivity; [eapply less_world; [|exact Hm]; eauto with budget|]; clear Hm
  | Hm : now ?x = (Ok _, _) |- less ?x _ => etransitivity; [exact (less_now _ _ _ Hm)|]; clear Hm
  | Hm : sched_append _ ?x = (Ok _, _) |- less ?x _ =>
      etransitivity; [exact (less_append _ _ _ _ Hm)|]; clear Hm
  | |- less ?x ?x => reflexivity
  | |- less _ (update_thread _ _ _) => etransitivity; [|apply less_update]
  | |- less _ (requeue _ _) => etransitivity; [|apply less_requeue]
  end.
Ltac chain_less := repeat step_less.

Lemma less_on_syscall p (s s' : Sch) u : on_syscall p s = (Ok u, s') → less s s'.
Proof.
  unfold on_syscall. intros Hx. st_inv. unfold take_pending_enter in Hm1. injection Hm1 as <- <-.
  do 2 step_less.
  match type of Hx with context [update_thread p ?f ?x] =>
    etransitivity; [apply (less_update p f x)|]; set (s2 := update_thread p f x) in * end.
  clearbody s2. destruct (t ← threads s1 !! p; pending_enter t); st_inv; by chain_less.
Qed.

Lemma less_on_spawn p (s s' : Sch) c : on_spawn p s = (Ok c, s') → less s s'.
Proof. unfold on_spawn. intros Hx. st_inv. by chain_less. Qed.

Lemma less_set (s s' : Sch) : s_world s' = s_world s → less s s'.
Proof. unfold less. by intros ->. Qed.

Lemma less_register p (s s' : Sch) u : register_child p s = (Ok u, s') → less s s'.
Proof. unfold register_child. intros Hx. st_inv. do 2 step_less. by apply less_set. Qed.

Lemma less_on_stopped p sig (s s' : Sch) u : on_stopped p sig s = (Ok u, s') → less s s'.
Proof.
  unfold on_stopped. intros Hx. st_inv. destruct (negb (bool_decide _)); st_inv.
  { step_less. by eapply less_register. }
  match goal with Hw : st_when _ _ _ = _ |- _ => apply st_when_ok in Hw; rename Hw into Hx end.
  step_less. etransitivity; [apply (less_clear p)|].
  destruct (negb (sig =? SIGSTOP)); [|by subst]. st_inv. by chain_less.
Qed.

Lemma less_on_exit p code (s s' : Sch) u : on_exit p code s = (Ok u, s') → less s s'.
Proof.
  unfold on_exit. intros Hx. st_inv.
  match goal with Hr : st_when (_ && _) _ _ = _ |- _ => apply st_when_ok in Hr; rename Hr into Hrec end.
  match goal with Hr : st_when (_ =? _) _ _ = _ |- _ => apply st_when_ok in Hr; rename Hr into Hlead end.
  etransitivity; [apply (less_clear p)|].
  match type of Hrec with (if _ then _ ?x = _ else _) =>
    etransitivity; [apply (less_set _ x); reflexivity|]; set (s2 := x) in * end.
  match type of Hlead with (if _ then _ (set_ready _ ?x) = _ else _) =>
    transitivity x; [set (s3 := x) in *|] end.
  { destruct (_ && _) in Hrec; [|by rewrite Hrec]. st_inv. by chain_less. }
  match type of Hlead with (if _ then _ ?x = (_, ?y) else _) => transitivity y end.
  { destruct (p =? _); st_inv; [|subst]; by apply less_set. }
  unfold release_vfork_parent. destruct (vfork_pending _ !! p); [|done].
  step_less. by apply less_set.
Qed.

Lemma less_handle status (s s' : Sch) u : handle status s = (Ok u, s') → less s s'.
Proof.
  destruct status as [p|p ev|p sig|p code|p sig|]; cbn; intros Hx; st_inv.
  - step_less. etransitivity; [apply (less_clear p)|]. by eapply less_on_syscall.
  - etransitivity; [apply (less_clear p)|]. destruct (is_spawn_event ev); st_inv; [|by chain_less].
    etransitivity; [by eapply less_on_spawn|].
    destruct (ev =? PTRACE_EVENT_VFORK); st_inv; [by apply less_set|by chain_less].
  - by eapply less_on_stopped.
  - by eapply less_on_exit.
  - by eapply less_on_exit.
  - done.
Qed.

Lemma less_resume_next (s s' : Sch) u : resume_next s = (Ok u, s') → less s s'.
Proof.
  unfold resume_next. intros Hx. st_inv. destruct (ready s) as [|next rest]; st_inv; [done|].
  etransitivity; [apply (less_set _ (set_ready rest s)); reflexivity|].
  unfold record_sched_switch in *. st_inv.
  match goal with Hr : take_resume_signal next _ = _ |- _ =>
    unfold take_resume_signal in Hr; injection Hr as <- <- end.
  match goal with Hm : on_world _ (update_thread _ ?f ?x) = (Ok _, ?y) |- _ =>
    transitivity x; [|etransitivity; [apply (less_update next f)|];
      transitivity y; [by chain_less|by apply less_set]] end.
  destruct (bool_decide _) in Hm0; st_inv; [done|].
  etransitivity; [apply (less_set _ (set_last_scheduled (Some next) (set_ready rest s))); reflexivity|].
  by chain_less.
Qed.

Lemma less_preempt p (s s' : Sch) u : preempt p s = (Ok u, s') → less s s'.
Proof.
  unfold preempt. intros Hx. st_inv. unfold try_call in Hm.
  pose proof (budget_kill p SIGSTOP (s_world s)) as Hk.
  destruct (sys_kill p SIGSTOP (s_world s)) as [r w1]. injection Hm as <- <-. cbn in Hk.
  transitivity (set_world w1 s); [exact Hk|].
  assert (Hs0 : s1 = set_world w1 s) by (destruct r as [[]|e]; [by st_inv|destruct (e =? ESRCH); by st_inv]).
  subst. step_less. by eapply less_handle.
Qed.

(** An iteration that does not end the loop uses up a report. *)
Lemma iterate_spends (s s' : Sch) :
  iterate s = (Ok false, s') → (budget (s_world s') < budget (s_world s))%nat.
Proof.
  unfold iterate. intros Hx. st_inv.
  assert (H1 : less s s1).
  { apply st_when_ok in Hm0. destruct (bool_decide _); [by eapply less_resume_next|by subst]. }
  apply (less_call _ _ _ _ _ budget_arm) in Hm1. unfold try_call in Hm2.
  pose proof (budget_wait (s_world s2)) as Hw.
  destruct (sys_waitpid_any (s_world s2)) as [r w]. injection Hm2 as <- <-.
  assert (H2 : less (set_world w s2) s' → (budget w < budget (s_world s2))%nat →
    (budget (s_world s') < budget (s_world s))%nat) by (unfold less in *; cbn; lia).
  destruct r as [status|e]; [|destruct (e =? EINTR); [|destruct (e =? ECHILD)]]; st_inv; try done.
  - apply H2; [|done]. step_less. by eapply less_handle.
  - apply H2; [|done]. step_less. st_inv.
    match goal with Hp : match ?o with Some _ => _ | None => _ end _ = _ |- _ =>
      destruct o; st_inv; [by eapply less_preempt|done] end.
Qed.

(** C15. The recording loop ends: on a kernel with finitely many reports left,
    running it with one more unit of fuel than reports never runs out. *)
Theorem recording_terminates (fuel : nat) (s : Sch) :
  (budget (s_world s) < fuel)%nat → (run_loop fuel s).1 ≠ Ok None.
Proof.
  revert s. induction fuel as [|fuel IH]; intros s Hf; [lia|]. cbn. case_bool_decide; [done|].
  destruct (iterate s) as [[[]| |] s'] eqn:Hit; try done.
  apply IH. apply iterate_spends in Hit. lia.
Qed.

End Termination.

(** ** Witnesses *)

#[export] Program Instance toy_budget : ReportBudget toy := {| budget w := length (t_script w) |}.
Next Obligation.
  intros w. cbn. unfold toy_wait. destruct (t_script w) as [|[s|e] sc] eqn:Hs; cbn; rewrite ?Hs; [done| |].
  - destruct (after s (t_attached w) (t_resumed w)) as [[a r]|]; cbn; rewrite ?Hs; cbn; lia.
  - destruct (e =? EINTR); lia.
Qed.
Next Obligation.
  intros p w. cbn. unfold toy_wait. destruct (t_script w) as [|[s|e] sc] eqn:Hs; cbn; rewrite ?Hs; [done| |].
  - destruct (after s (t_attached w) (t_resumed w)) as [[a r]|]; cbn; rewrite ?Hs; cbn; lia.
  - lia.
Qed.
Next Obligation. intros p sig w. cbn. by case_decide. Qed.
Next Obligation. intros p w. cbn. unfold toy_getregs. by destruct (t_regs w). Qed.
Next Obligation. intros. cbn. lia. Qed.
Next Obligation. intros. cbn. lia. Qed.
Next Obligation. intros. cbn. lia. Qed.
Next Obligation. intros p w. cbn. unfold toy_getevent. by destruct (t_events w). Qed.
Next Obligation. intros p o w. cbn. lia. Qed.
Next Obligation. intros. cbn. lia. Qed.
Next Obligation. intros. cbn. lia. Qed.
Next Obligation. intros. cbn. lia. Qed.

(** 100 has called [vfork]; its child 101 is running. *)
Definition vfork_state : Scheduler toy (list Event) :=
  mkSched (sample_world {[100; 101]} []) [] {[100 := Thread_default; 101 := Thread_default]} []
    (Some 101) (Some 101) 100 None 0 2 {[101 := 100]}.

Lemma vfork_parent_turn_witness :
  (∃ s', handle (PtraceEvent 101 PTRACE_EVENT_EXEC) vfork_state = (Ok tt, s') ∧ held 100 s') ∧
  (∃ s', handle (Exited 101 0) vfork_state = (Ok tt, s') ∧ 100 ∈ ready s').
Proof.
  assert (Hh : held 100 vfork_state) by (split; [apply not_elem_of_nil|discriminate]).
  assert (Hp : is_Some (threads vfork_state !! 100)) by (eexists; reflexivity).
  assert (Hv : vfork_pending vfork_state !! 101 = Some 100) by reflexivity.
  split; eexists; (split; [reflexivity|]).
  - eapply (vfork_parent_turn (PtraceEvent 101 PTRACE_EVENT_EXEC) vfork_state _ 100 101 Hh Hp Hv);
      [discriminate|reflexivity|discriminate].
  - eapply (vfork_parent_turn (Exited 101 0) vfork_state _ 100 101 Hh Hp Hv);
      [discriminate|reflexivity|reflexivity].
Defined.

(** 101 is queued when 100's [exit_group] kills it; its death is not reaped. *)
Definition killed_state : Scheduler toy (list Event) :=
  mkSched (sample_world {[100]} [inl (Exited 101 0); inl (Exited 100 7)]) []
    {[100 := Thread_default; 101 := Thread_default]} [101] None (Some 100) 100 None 0 2 ∅.

Lemma dead_head_aborts_witness : ∃ s', run_loop 20 killed_state = (Err (CapPtrace ESRCH), s').
Proof.
  apply (dead_head_aborts 19 killed_state
    (record_sched_switch 101 (set_ready [] killed_state)).2 101 [] ESRCH
    (s_world (record_sched_switch 101 (set_ready [] killed_state)).2));
    [discriminate|reflexivity|reflexivity|vm_compute; reflexivity|intros sig; vm_compute; reflexivity].
Defined.

Lemma recording_terminates_witness :
  (12 < 13)%nat ∧ (run_loop 13 sample_init).1 ≠ Ok None.
Proof.
  split; [lia|]. apply (recording_terminates 13 sample_init). cbn. lia.
Defined.
