(* ===== verification/Watchpoint.v ===== *)
(** * Retroactive watchpoints: [replay/watchpoint.rs] and the x86-64 arming of
    [replay/watchpoint_hw.rs]

    Request validation, the debug-register encodings of both architectures, and
    the [PTRACE_POKEUSER] calls that arm and disarm a thread. *)

From S2P Require Import Prelude Ptrace.

(** ** Data *)

Inductive WatchKind := WatchWrite | WatchReadWrite.

Inductive WatchpointError :=
| InvalidLen (len : Z)
| Misaligned (addr len : Z).

#[export] Instance WatchKind_eq_dec : EqDecision WatchKind.
Proof. solve_decision. Defined.
#[export] Instance WatchpointError_eq_dec : EqDecision WatchpointError.
Proof. solve_decision. Defined.

(** ** Validation *)

Definition is_valid_len (len : Z) : bool := (len =? 1) || (len =? 2) || (len =? 4) || (len =? 8).

Definition fits_in_granule (addr len : Z) : bool := Z.land addr 7 + len <=? 8.

Definition validate (addr len : Z) : result WatchpointError unit :=
  if negb (is_valid_len len) then Err (InvalidLen len)
  else if negb (addr mod len =? 0) || negb (fits_in_granule addr len)
  then Err (Misaligned addr len)
  else Ok tt.

(** ** x86-64 *)

Definition x86_len_bits (len : Z) : result WatchpointError Z :=
  if len =? 1 then Ok 0
  else if len =? 2 then Ok 1
  else if len =? 8 then Ok 2
  else if len =? 4 then Ok 3
  else Err (InvalidLen len).

Definition x86_rw_bits (kind : WatchKind) : Z :=
  match kind with WatchWrite => 1 | WatchReadWrite => 3 end.

Definition x86_dr7 (kind : WatchKind) (len : Z) : result WatchpointError Z :=
  len_bits ← x86_len_bits len;
  let rw := x86_rw_bits kind in
  Ok (Z.lor (Z.lor 1 (Z.shiftl rw 16)) (Z.shiftl len_bits 18)).

(** ** aarch64 *)

Definition aarch64_lsc (kind : WatchKind) : Z :=
  match kind with WatchWrite => 2 | WatchReadWrite => 3 end.

(** [(((1u32 << len) - 1) & 0xff) << offset] in [u32]. *)
Definition aarch64_bas (addr len : Z) : Z :=
  let offset := as_u 32 (Z.land addr 7) in
  as_u 32 (Z.shiftl (Z.land (Z.shiftl 1 len - 1) 0xff) offset).

Definition aarch64_control (addr len : Z) (kind : WatchKind) : result WatchpointError (Z * Z) :=
  if negb (is_valid_len len) then Err (InvalidLen len) else
  let aligned := Z.land addr (2 ^ 64 - 1 - 7) in
  let e := 1 in
  let pac := Z.shiftl 2 1 in
  let lsc := Z.shiftl (aarch64_lsc kind) 3 in
  let bas := Z.shiftl (aarch64_bas addr len) 5 in
  Ok (aligned, Z.lor (Z.lor (Z.lor e pac) lsc) bas).

(** ** Arming a thread (x86-64) *)

Definition TRAP_HWBKPT : Z := 4.
Definition USER_DEBUGREG_OFFSET : Z := 848.
Definition DR0_OFFSET : Z := USER_DEBUGREG_OFFSET.
Definition DR6_OFFSET : Z := USER_DEBUGREG_OFFSET + 6 * 8.
Definition DR7_OFFSET : Z := USER_DEBUGREG_OFFSET + 7 * 8.

(** The two ways arming fails: an invalid request, a failing [POKEUSER]. *)
Inductive arm_error :=
| ArmRequest (e : WatchpointError)
| ArmFailed.

Section Arm.
Context {W : Type} `{Kernel W}.

Definition poke_user (pid offset data : Z) : stm W arm_error unit := λ w,
  let '(r, w) := pt_pokeuser pid offset data w in
  (match r with inl _ => Ok tt | inr _ => Err ArmFailed end, w).

Definition arm (pid addr len : Z) (kind : WatchKind) : stm W arm_error unit :=
  dr7 ← st_lift (map_err ArmRequest (x86_dr7 kind len));
  poke_user pid DR0_OFFSET addr;;
  poke_user pid DR7_OFFSET dr7.

Definition disarm (pid : Z) : stm W arm_error unit := poke_user pid DR7_OFFSET 0.

Definition clear_status (pid : Z) : stm W arm_error unit := poke_user pid DR6_OFFSET 0.

End Arm.

(** ** What the hardware watches

    The reading of the registers by the processor's manuals, apart from the
    code's encoding. *)

Inductive access := Load | Store.

#[export] Instance access_eq_dec : EqDecision access.
Proof. solve_decision. Defined.

Definition bits (x lo n : Z) : Z := Z.shiftr x lo mod 2 ^ n.

(** Intel SDM vol. 3, 17.2: breakpoint [i] of [DR0]..[DR3] traps when enabled
    in [DR7], locally or globally, on the accesses its R/W field names (01: data
    writes, 11: data reads or writes, 00: instruction fetches, 10: I/O), to the
    bytes its LEN field (00: one, 01: two, 10: eight, 11: four) covers from the
    address, which is aligned down to that length. *)
Definition x86_len_field (f : Z) : Z := if f =? 0 then 1 else if f =? 1 then 2 else if f =? 2 then 8 else 4.
Definition x86_rw_field (f : Z) (acc : access) : Prop := f = 3 ∨ f = 1 ∧ acc = Store.
Definition x86_watches (dr : Z → Z) (acc : access) (a : Z) : Prop :=
  ∃ i, 0 ≤ i < 4 ∧ bits (dr 7) (2 * i) 2 ≠ 0 ∧ x86_rw_field (bits (dr 7) (16 + 4 * i) 2) acc ∧
    let n := x86_len_field (bits (dr 7) (18 + 4 * i) 2) in
    dr i - dr i mod n ≤ a < dr i - dr i mod n + n.

(** Arm ARM, D2.10 and the description of [DBGWCR<n>_EL1]: a watchpoint that is
    enabled (E, bit 0), matches EL0 (PAC, bits 2:1, 10 or 11, with HMC and SSC
    clear), is not linked (WT, bit 20) and has no mask (bits 28:24) traps on loads
    (LSC, bit 3) or stores (bit 4) of the bytes its BAS field (bits 12:5) selects
    in the doubleword at [DBGWVR], bits 2:0 clear. *)
Definition aarch64_watches (wvr wcr : Z) (acc : access) (a : Z) : Prop :=
  bits wcr 0 1 = 1 ∧ 2 ≤ bits wcr 1 2 ∧ bits wcr 13 19 = 0 ∧
  bits wcr (match acc with Load => 3 | Store => 4 end) 1 = 1 ∧
  wvr mod 8 = 0 ∧ wvr ≤ a < wvr + 8 ∧ bits wcr (5 + (a - wvr)) 1 = 1.

(** The accesses a request asks for. *)
Definition wanted (kind : WatchKind) (acc : access) : Prop :=
  match kind with WatchWrite => acc = Store | WatchReadWrite => True end.

(** ** Lemmas *)

Lemma valid_len_cases len : is_valid_len len = true → len = 1 ∨ len = 2 ∨ len = 4 ∨ len = 8.
Proof. unfold is_valid_len. rewrite !orb_true_iff, !Z.eqb_eq. tauto. Qed.

Lemma land_7 a : Z.land a 7 = a mod 8.
Proof. change 7 with (Z.ones 3). by rewrite Z.land_ones by lia. Qed.

Lemma align_down a : in_u 64 a → Z.land a (2 ^ 64 - 1 - 7) = a - a mod 8.
Proof.
  intros [H0 Ha]. replace (a - a mod 8) with (Z.shiftl (Z.shiftr a 3) 3)
    by (rewrite Z.shiftl_mul_pow2, Z.shiftr_div_pow2 by lia; change (2 ^ 3) with 8; Z.to_euclidean_division_equations; lia).
  change (2 ^ 64 - 1 - 7) with (Z.shiftl (Z.ones 61) 3).
  rewrite <- (Z.mod_small a (2 ^ 64)) at 1 by lia. rewrite <- Z.land_ones by lia.
  apply Z.bits_inj'. intros n Hn. rewrite !Z.land_spec, !Z.shiftl_spec by lia.
  destruct (Z.ltb_spec n 3) as [H3|H3].
  { rewrite !(Z.testbit_neg_r _ (n - 3)) by lia. by rewrite andb_false_r. }
  rewrite Z.shiftr_spec by lia. replace (n - 3 + 3) with n by lia.
  destruct (Z.ltb_spec n 64) as [H64|H64].
  - rewrite !Z.ones_spec_low by lia. by rewrite !andb_true_r.
  - rewrite !Z.ones_spec_high by lia. rewrite andb_false_r. symmetry.
    destruct (Z.eq_dec a 0) as [->|Hz]; [apply Z.bits_0|].
    apply Z.bits_above_log2; [lia|]. apply Z.lt_le_trans with 64; [|done].
    apply Z.log2_lt_pow2; lia.
Qed.

(** [validate] is natural alignment to a supported length: the granule test
    never rejects anything else. *)
Lemma validate_aligned addr len :
  is_valid_len len = true → addr mod len = 0 → fits_in_granule addr len = true.
Proof.
  intros Hl Hm. unfold fits_in_granule. rewrite land_7. apply Z.leb_le.
  destruct (valid_len_cases len Hl) as [-> | [-> | [-> | ->]]]; Z.to_euclidean_division_equations; lia.
Qed.

Lemma validate_iff addr len :
  validate addr len = Ok tt ↔ is_valid_len len = true ∧ addr mod len = 0.
Proof.
  unfold validate. destruct (is_valid_len len) eqn:Hl; cbn [negb]; [|by split; [|intros []]].
  destruct (Z.eqb_spec (addr mod len) 0) as [Hm|Hm]; cbn [negb orb];
    [rewrite (validate_aligned addr len Hl Hm)|]; split; try done; by intros [].
Qed.

(** The word the x86-64 encoder gives, read back. *)
Lemma x86_dr7_reads kind len dr :
  is_valid_len len = true → x86_dr7 kind len = Ok (dr 7) → dr 0 mod len = 0 →
  ∀ acc a, x86_watches dr acc a ↔ dr 0 ≤ a < dr 0 + len ∧ wanted kind acc.
Proof.
  intros Hl Hd Hm acc a. unfold x86_watches.
  assert (Hf : bits (dr 7) 0 2 ≠ 0 ∧ bits (dr 7) 2 2 = 0 ∧ bits (dr 7) 4 2 = 0 ∧ bits (dr 7) 6 2 = 0 ∧
    x86_len_field (bits (dr 7) 18 2) = len ∧ (x86_rw_field (bits (dr 7) 16 2) acc ↔ wanted kind acc)).
  { destruct (valid_len_cases len Hl) as [-> | [-> | [-> | ->]]], kind; injection Hd as <-;
      (repeat split; try done; unfold x86_rw_field, wanted; vm_compute; naive_solver). }
  destruct Hf as (H0 & H1 & H2 & H3 & Hlen & Hrw). split.
  - intros (i & Hi & Hen & Hacc & Hr). assert (i = 0) as ->.
    { assert (Hc : i = 0 ∨ i = 1 ∨ i = 2 ∨ i = 3) by lia. by destruct_or! Hc; subst. }
    change (16 + 4 * 0) with 16 in Hacc. change (18 + 4 * 0) with 18 in Hr. cbv zeta in Hr. rewrite Hlen, Hm in Hr.
    apply Hrw in Hacc. split; [lia|done].
  - intros [Hr Hacc%Hrw]. exists 0. split; [lia|]. split; [exact H0|]. split; [exact Hacc|]. cbv zeta.
    change (18 + 4 * 0) with 18. rewrite Hlen, Hm. lia.
Qed.

Lemma bits_testbit x lo : 0 ≤ lo → bits x lo 1 = Z.b2z (Z.testbit x lo).
Proof. intros Hlo. unfold bits. change (2 ^ 1) with 2. rewrite <- Z.bit0_mod, Z.shiftr_spec by lia. by rewrite Z.add_0_l. Qed.

(** The control word of an offset in the granule. *)
Lemma aarch64_ctl_bits kind len o j :
  is_valid_len len = true → 0 ≤ o < 8 → o mod len = 0 → 0 ≤ j < 8 →
  Z.testbit (Z.lor (Z.lor (Z.lor 1 (Z.shiftl 2 1)) (Z.shiftl (aarch64_lsc kind) 3))
    (Z.shiftl (as_u 32 (Z.shiftl (Z.land (Z.shiftl 1 len - 1) 0xff) (as_u 32 o))) 5)) (5 + j) =
  (o <=? j) && (j <? o + len).
Proof.
  intros Hl Ho Hm Hj.
  assert (Co : o = 0 ∨ o = 1 ∨ o = 2 ∨ o = 3 ∨ o = 4 ∨ o = 5 ∨ o = 6 ∨ o = 7) by lia.
  assert (Cj : j = 0 ∨ j = 1 ∨ j = 2 ∨ j = 3 ∨ j = 4 ∨ j = 5 ∨ j = 6 ∨ j = 7) by lia.
  destruct (valid_len_cases len Hl) as [-> | [-> | [-> | ->]]]; destruct_or! Co; subst o;
    try (cbn in Hm; discriminate Hm); destruct_or! Cj; subst j; destruct kind; reflexivity.
Qed.

(** Its other fields. *)
Lemma aarch64_ctl_fields kind len o acc :
  is_valid_len len = true → 0 ≤ o < 8 → o mod len = 0 →
  let ctl := Z.lor (Z.lor (Z.lor 1 (Z.shiftl 2 1)) (Z.shiftl (aarch64_lsc kind) 3))
    (Z.shiftl (as_u 32 (Z.shiftl (Z.land (Z.shiftl 1 len - 1) 0xff) (as_u 32 o))) 5) in
  bits ctl 0 1 = 1 ∧ 2 ≤ bits ctl 1 2 ∧ bits ctl 13 19 = 0 ∧
  (bits ctl (match acc with Load => 3 | Store => 4 end) 1 = 1 ↔ wanted kind acc).
Proof.
  intros Hl Ho Hm. assert (Co : o = 0 ∨ o = 1 ∨ o = 2 ∨ o = 3 ∨ o = 4 ∨ o = 5 ∨ o = 6 ∨ o = 7) by lia.
  destruct (valid_len_cases len Hl) as [-> | [-> | [-> | ->]]]; destruct_or! Co; subst o;
    try (cbn in Hm; discriminate Hm); destruct kind, acc; (repeat split; try done; vm_compute; naive_solver).
Qed.

Lemma aarch64_reads addr kind len base ctl :
  in_u 64 addr → validate addr len = Ok tt → aarch64_control addr len kind = Ok (base, ctl) →
  ∀ acc a, aarch64_watches base ctl acc a ↔ addr ≤ a < addr + len ∧ wanted kind acc.
Proof.
  intros Ha [Hl Hm]%validate_iff Hc acc a. unfold aarch64_control in Hc. rewrite Hl in Hc. cbn [negb] in Hc.
  injection Hc as <- <-. unfold aarch64_watches, aarch64_bas. rewrite (align_down addr Ha), land_7. set (o := addr mod 8).
  assert (Ho : 0 ≤ o < 8) by (apply Z.mod_pos_bound; lia).
  assert (Hom : o mod len = 0).
  { unfold o. destruct (valid_len_cases len Hl) as [-> | [-> | [-> | ->]]]; Z.to_euclidean_division_equations; lia. }
  assert (Hb8 : (addr - o) mod 8 = 0) by (unfold o; Z.to_euclidean_division_equations; lia).
  assert (Hfit : o + len ≤ 8).
  { unfold o. destruct (valid_len_cases len Hl) as [-> | [-> | [-> | ->]]]; Z.to_euclidean_division_equations; lia. }
  assert (Ea : addr = addr - o + o) by lia. revert Ea Hb8. generalize (addr - o). intros b Ea Hb8.
  destruct (aarch64_ctl_fields kind len o acc Hl Ho Hom) as (F1 & F2 & F3 & F4). split.
  - intros (_ & _ & _ & Hacc & _ & Hr & Hbit). apply F4 in Hacc. split; [|done].
    rewrite bits_testbit, (aarch64_ctl_bits kind len o (a - b) Hl Ho Hom) in Hbit by lia.
    destruct (o <=? a - b) eqn:H1, (a - b <? o + len) eqn:H2; try done. zbool. lia.
  - intros [Hr Hacc%F4]. do 5 (split; [done|]). split; [lia|].
    rewrite bits_testbit, (aarch64_ctl_bits kind len o (a - b) Hl Ho Hom) by lia.
    assert (H1 : (o <=? a - b) = true) by (apply Z.leb_le; lia). assert (H2 : (a - b <? o + len) = true) by (apply Z.ltb_lt; lia).
    by rewrite H1, H2.
Qed.
