(* ===== verification/Schedule.v ===== *)
(** * Portable replay state: [replay/schedule.rs] and
    [replay/checkpoint_select.rs]

    The recorded-tid to live-pid table, the scan that decides whether a trace
    needs schedule enforcement, and the checkpoint arithmetic. *)

From S2P Require Import Prelude TraceFormat.

(** ** Which traces carry a schedule *)

Definition is_schedule_kind (k : EventKind) : bool :=
  match k with EvSchedSwitch | EvThreadSpawn | EvThreadExit => true | _ => false end.

Definition trace_is_multithreaded (records : list LogRecord) : bool :=
  existsb (λ r, is_schedule_kind (kind (event r))) records.

(** ** The thread table *)

Inductive TidMapError :=
| RecordedRebound (recorded existing attempted : Z)
| LiveRebound (live existing attempted : Z).

Record TidMap := mkTidMap { to_live : gmap Z Z; to_recorded : gmap Z Z }.

Definition TidMap_new : TidMap := mkTidMap ∅ ∅.

(** [None], or the same partner, is no conflict. *)
Definition no_conflict (existing : option Z) (mine : Z) (e : Z → TidMapError)
    : stm TidMap TidMapError unit :=
  match existing with
  | Some existing => if negb (existing =? mine) then st_throw (e existing) else mret tt
  | None => mret tt
  end.

Definition bind (recorded live : Z) : stm TidMap TidMapError unit :=
  m ← st_get;
  no_conflict (to_live m !! recorded) live (λ existing, RecordedRebound recorded existing live);;
  no_conflict (to_recorded m !! live) recorded (λ existing, LiveRebound live existing recorded);;
  st_modify (λ m, mkTidMap (<[recorded := live]> (to_live m)) (<[live := recorded]> (to_recorded m))).

Definition live_of (recorded : Z) (m : TidMap) : option Z := to_live m !! recorded.

Definition unbind_recorded (recorded : Z) (m : TidMap) : option Z * TidMap :=
  match to_live m !! recorded with
  | None => (None, m)
  | Some live => (Some live, mkTidMap (delete recorded (to_live m)) (delete live (to_recorded m)))
  end.

Definition tidmap_is_empty (m : TidMap) : bool := bool_decide (to_live m = ∅).

(** ** Checkpoint selection *)

Definition is_checkpoint_due (last : option Z) (current interval : Z) : bool :=
  if interval =? 0 then false
  else match last with
  | None => interval <=? current
  | Some last => saturating_add 64 last interval <=? current
  end.

(** [.iter().enumerate()]. *)
Fixpoint enumerate {A} (i : nat) (l : list A) : list (nat * A) :=
  match l with
  | [] => []
  | x :: l => (i, x) :: enumerate (S i) l
  end.

(** [.rev().find(|(_, seq)| seq <= target).map(|(index, _)| index)]. *)
Definition nearest_at_or_before (seqs : list Z) (target : Z) : option nat :=
  fst <$> List.find (λ p, p.2 <=? target) (rev (enumerate 0 seqs)).

Definition should_restart (current : option Z) (start_seq target : Z) : bool :=
  match current with
  | None => 0 <? start_seq
  | Some current => (target <? current) || (current <? start_seq)
  end.

(** ** Lemmas *)

(** The two tables are inverses. *)
Definition tidmap_ok (m : TidMap) : Prop :=
  ∀ r l, to_live m !! r = Some l ↔ to_recorded m !! l = Some r.

Lemma no_conflict_run ex mine e (m : TidMap) :
  no_conflict ex mine e m =
    (match ex with Some x => if decide (x = mine) then Ok tt else Err (e x) | None => Ok tt end, m).
Proof.
  unfold no_conflict. destruct ex as [x|]; [|done].
  destruct (Z.eqb_spec x mine) as [->|Hn]; cbn [negb]; by case_decide.
Qed.

Lemma tidmap_bind_run r l m :
  bind r l m =
    (match to_live m !! r, to_recorded m !! l with
     | Some x, y => if decide (x = l) then
         match y with Some y => if decide (y = r) then Ok tt else Err (LiveRebound l y r) | None => Ok tt end
         else Err (RecordedRebound r x l)
     | None, Some y => if decide (y = r) then Ok tt else Err (LiveRebound l y r)
     | None, None => Ok tt
     end,
     if decide ((to_live m !! r = None ∨ to_live m !! r = Some l) ∧
                (to_recorded m !! l = None ∨ to_recorded m !! l = Some r))
     then mkTidMap (<[r := l]> (to_live m)) (<[l := r]> (to_recorded m)) else m).
Proof.
  unfold bind, st_get, mbind, stm_bind. rewrite !no_conflict_run.
  destruct (to_live m !! r) as [x|], (to_recorded m !! l) as [y|];
    repeat case_decide; try done; naive_solver.
Qed.

Lemma insert_ok m r l :
  tidmap_ok m → (to_live m !! r = None ∨ to_live m !! r = Some l) →
  (to_recorded m !! l = None ∨ to_recorded m !! l = Some r) →
  tidmap_ok (mkTidMap (<[r := l]> (to_live m)) (<[l := r]> (to_recorded m))).
Proof.
  intros Hm Hr Hl r' l'. cbn.
  destruct (decide (r = r')) as [<-|Hnr], (decide (l = l')) as [<-|Hnl].
  - by rewrite !lookup_insert_eq.
  - rewrite lookup_insert_eq, lookup_insert_ne by done. split; [congruence|].
    intros H%Hm. destruct Hr; congruence.
  - rewrite lookup_insert_ne, lookup_insert_eq by done. split; [|congruence].
    intros H%Hm. destruct Hl; congruence.
  - rewrite !lookup_insert_ne by done. apply Hm.
Qed.

Lemma delete_ok m r l :
  tidmap_ok m → to_live m !! r = Some l →
  tidmap_ok (mkTidMap (delete r (to_live m)) (delete l (to_recorded m))).
Proof.
  intros Hm Hr r' l'. cbn. rewrite !lookup_delete_Some, (Hm r' l').
  split; intros [Hne H]; (split; [|done]); intros <-.
  - apply Hm in Hr. congruence.
  - apply Hm in H. congruence.
Qed.

Lemma enumerate_app {A} i (a b : list A) :
  enumerate i (a ++ b) = enumerate i a ++ enumerate (i + length a) b.
Proof.
  revert i. induction a as [|x a IH]; intros i; cbn; [by rewrite Nat.add_0_r|].
  rewrite IH. do 3 f_equal. lia.
Qed.

Lemma nearest_snoc seqs x target :
  nearest_at_or_before (seqs ++ [x]) target =
    if x <=? target then Some (length seqs) else nearest_at_or_before seqs target.
Proof.
  unfold nearest_at_or_before. rewrite enumerate_app, rev_app_distr. cbn.
  by destruct (x <=? target).
Qed.

Definition ascending (l : list Z) : Prop :=
  ∀ i j x y, (i < j)%nat → l !! i = Some x → l !! j = Some y → x < y.

Lemma nearest_last seqs target :
  match nearest_at_or_before seqs target with
  | Some i => ∃ x, seqs !! i = Some x ∧ x ≤ target ∧
      ∀ j y, (i < j)%nat → seqs !! j = Some y → target < y
  | None => Forall (λ x, target < x) seqs
  end.
Proof.
  induction seqs as [|x seqs IH] using rev_ind; [apply Forall_nil_2|].
  rewrite nearest_snoc. destruct (Z.leb_spec x target) as [Hx|Hx].
  - exists x. split; [by rewrite lookup_app_r, Nat.sub_diag|]. split; [done|].
    intros j y Hj Hy. apply lookup_lt_Some in Hy. rewrite length_app in Hy. cbn in Hy. lia.
  - destruct (nearest_at_or_before seqs target) as [i|].
    + destruct IH as (y & Hy & Hyt & Hlast). exists y. split; [by apply lookup_app_l_Some|].
      split; [done|]. intros j z Hj Hz. apply lookup_app_Some in Hz as [Hz|[_ Hz]]; [eauto|].
      by apply list_lookup_singleton_Some in Hz as [_ <-].
    + apply Forall_app. split; [done|]. by apply Forall_singleton.
Qed.

(** ** Properties *)

(** C17. The thread table stays a bijection: [bind] succeeds exactly when
    neither side is bound to another partner, and then binds the pair; a
    conflict is reported with the existing partner and changes nothing;
    [unbind_recorded] removes exactly the pair of that tid. *)
Theorem tidmap_bijection (m : TidMap) (r l : Z) :
  tidmap_ok m →
  tidmap_ok TidMap_new ∧
  match bind r l m with
  | (Ok _, m') => (live_of r m = None ∨ live_of r m = Some l) ∧ (∀ r', live_of r' m = Some l → r' = r) ∧
      tidmap_ok m' ∧ live_of r m' = Some l ∧
      (∀ r', r' ≠ r → live_of r' m' = live_of r' m) ∧
      ∀ r', live_of r' m = Some l → r' = r
  | (Err (RecordedRebound r' x l'), m') => m' = m ∧ r' = r ∧ l' = l ∧ live_of r m = Some x ∧ x ≠ l
  | (Err (LiveRebound l' x r'), m') => m' = m ∧ r' = r ∧ l' = l ∧ live_of x m = Some l ∧ x ≠ r
  | (Panic, _) => False
  end ∧
  (let '(o, m') := unbind_recorded r m in
   o = live_of r m ∧ tidmap_ok m' ∧ live_of r m' = None ∧
   ∀ r', r' ≠ r → live_of r' m' = live_of r' m).
Proof.
  intros Hm. split; [by intros r' l'; cbn; rewrite !lookup_empty|]. split.
  - rewrite tidmap_bind_run. unfold live_of.
    destruct (to_live m !! r) as [x|] eqn:Hr, (to_recorded m !! l) as [y|] eqn:Hl;
      repeat case_decide; subst; try naive_solver;
      try (match goal with |- _ ∧ _ ∧ tidmap_ok _ ∧ _ =>
        split; [by auto|]; split; [intros r' Hr'%Hm; congruence|];
        split; [apply insert_ok; auto|]; cbn; rewrite lookup_insert_eq;
        split; [done|]; split; [by intros r' Hr'; rewrite lookup_insert_ne|];
        intros r' Hr'; apply Hm in Hr'; congruence end).
    all: apply Hm in Hl; naive_solver.
  - unfold unbind_recorded, live_of. destruct (to_live m !! r) as [x|] eqn:Hr; [|done].
    split; [done|]. split; [by apply delete_ok|]. cbn. split; [by rewrite lookup_delete_eq|].
    intros r' Hr'. by rewrite lookup_delete_ne.
Qed.

(** Checkpoint selection: the index chosen is in range, at or before the
    target, and no later checkpoint qualifies, so over ascending sequence
    numbers it is the nearest; none is chosen exactly when every checkpoint
    lies after the target. *)
Theorem nearest_checkpoint (seqs : list Z) (target : Z) :
  match nearest_at_or_before seqs target with
  | Some i => ∃ x, seqs !! i = Some x ∧ x ≤ target ∧
      (∀ j y, (i < j)%nat → seqs !! j = Some y → target < y) ∧
      (ascending seqs → ∀ y, y ∈ seqs → y ≤ target → y ≤ x)
  | None => Forall (λ x, target < x) seqs
  end.
Proof.
  pose proof (nearest_last seqs target) as Hl.
  destruct (nearest_at_or_before seqs target) as [i|]; [|done].
  destruct Hl as (x & Hx & Hxt & Hlast). exists x. split; [done|]. split; [done|]. split; [done|].
  intros Hs y [j Hj]%list_elem_of_lookup Hy. destruct (Nat.lt_trichotomy j i) as [Hji|[->|Hji]].
  - pose proof (Hs j i y x Hji Hj Hx). lia.
  - rewrite Hx in Hj. injection Hj as ->. lia.
  - specialize (Hlast j y Hji Hj). lia.
Qed.

(** ** Witness *)

Definition sample_tidmap : TidMap := (bind 100 5001 TidMap_new).2.

Lemma tidmap_bijection_witness :
  tidmap_ok sample_tidmap ∧
  bind 101 5001 sample_tidmap = (Err (LiveRebound 5001 100 101), sample_tidmap) ∧
  live_of 100 sample_tidmap = Some 5001.
Proof.
  assert (H0 : tidmap_ok TidMap_new) by (intros r l; cbn; rewrite !lookup_empty; done).
  assert (H1 : tidmap_ok sample_tidmap).
  { intros r l. change (({[100 := 5001]} : gmap Z Z) !! r = Some l ↔ ({[5001 := 100]} : gmap Z Z) !! l = Some r).
    rewrite !lookup_singleton_Some. naive_solver. }
  split; [exact H1|]. split; [reflexivity|].
  exact (proj1 (proj2 (proj2 (proj2 (proj1 (proj2 (tidmap_bijection sample_tidmap 101 5001 H1))))))).
Defined.
