(* ===== verification/Replay.v ===== *)
(** * The replay session's parts: [replay/error.rs], [regs.rs], [inject.rs],
    [checkpoint.rs], and the data of [session.rs] and [mt.rs]

    Errors, register rewriting, memory injection and fork snapshots as
    computations on the kernel, and the state of a session.  Strings of error
    messages are the constructors that carry what the message prints. *)

From S2P Require Import Prelude StdIo TraceFormat TraceLog Payload Ptrace Capture Watchpoint Schedule.

(** ** Data *)

Inductive ExitOutcome :=
| OutExited (code : Z)
| OutSignaled (sig : Z)
| OutRunning.
#[export] Instance ExitOutcome_eq_dec : EqDecision ExitOutcome.
Proof. solve_decision. Defined.

(** The [detail] of a schedule divergence. *)
Inductive Detail :=
| SignalMismatch (expected got : Z)
| MissingTid
| WrongTid (expected tid : Z)
| UnboundTid (tid : Z)
| WrongStop (tid : Z) (got : wait_status)
| ChildStop (child : Z) (got : wait_status)
| NoEntry (tid : Z)
| TidConflict (e : TidMapError).

Inductive ReplayError :=
| RTrace (e : TraceError)
| RPayload (e : PayloadError)
| RNoCmdline
| RSpawn (errno : Z)
| RPtrace (errno : Z)
| RMemory (addr len errno : Z)
| RDiverged (sq expected_nr found_nr : Z)
| RScheduleDiverged (sq : Z) (detail : Detail)
| RUnexpectedRecord (sq : Z) (expected : list EventKind) (found : EventKind)
| RTraceExhausted
| RCheckpoint (sq : option Z)
| ROutput
| RWatchpointRequest (e : WatchpointError)
| RWatchpoint
| RUnwind (errno : Z).

Record Registers := mkRegisters { g_nr : Z; g_ret : Z; g_args : list Z }.

(** A symbolized stack frame ([unwind::SymbolizedFrame]). *)
Record SymbolizedFrame := mkFrame {
  f_function : option (list byte);
  f_file : option (list byte);
  f_line : option Z;
  f_address : Z;
}.

Record WatchHit := mkHit {
  hit_seq : option Z;
  hit_pc : Z;
  hit_old : option (list byte);
  hit_new : list byte;
  hit_backtrace : list SymbolizedFrame;
}.

Record Pending := mkPending { inject_addr : option Z }.

Record Watchpoint := mkWatch { wp_addr : Z; wp_len : Z; wp_kind : WatchKind }.

Record CheckpointInfo := mkCheckpoint {
  cp_seq : Z;
  cp_cursor : nat;
  cp_current_seq : option Z;
  cp_last_regs : option Registers;
  cp_snapshot : Z;
}.

Record StartPoint := mkStart { start_index : option nat; start_seq : Z }.

(** [mt.rs]. *)
Record PendingSys := mkPendingSys { suppressed : bool; ps_inject_addr : option Z }.

Record ThreadRt := mkThreadRt { rt_pending : option PendingSys; rt_resume : option Z }.

Definition ThreadRt_default : ThreadRt := mkThreadRt None None.

Record MtState := mkMt {
  mt_leader : Z;
  mt_threads : gmap Z ThreadRt;
  mt_tidmap : TidMap;
  mt_vfork : gmap Z Z;
  mt_expected : option Z;
}.

Definition MtState_new (ldr : Z) : MtState := mkMt ldr ∅ TidMap_new ∅ None.

(** The unwinder of [crates/unwind] on a tracee, by the pid it was built for. *)
Class Unwind (W : Type) := {
  unwinder_for_pid : Z → kop W unit;
  unwinder_registers : Z → kop W Z;
  unwinder_backtrace : Z → Z → kop W (list SymbolizedFrame);
}.

Section Calls.
Context {W : Type} `{Kernel W}.
#[local] Abbreviation M := (stm W ReplayError).

(** ** Registers ([regs.rs], x86-64) *)

Definition regs_read (pid : Z) : M Registers :=
  regs ← call RPtrace (pt_getregs pid);
  mret (mkRegisters (orig_rax regs) (as_i 64 (rax regs))
          [rdi regs; rsi regs; rdx regs; r10 regs; r8 regs; r9 regs]).

Definition with_orig_rax (x : Z) (r : user_regs) : user_regs :=
  mkRegs x (rax r) (rdi r) (rsi r) (rdx r) (r10 r) (r8 r) (r9 r) (rip r) (other_regs r).
Definition with_rax (x : Z) (r : user_regs) : user_regs :=
  mkRegs (orig_rax r) x (rdi r) (rsi r) (rdx r) (r10 r) (r8 r) (r9 r) (rip r) (other_regs r).

Definition suppress_syscall (pid : Z) : M unit :=
  regs ← call RPtrace (pt_getregs pid);
  call RPtrace (pt_setregs pid (with_orig_rax U64_MAX regs)).

Definition set_return (pid ret : Z) : M unit :=
  regs ← call RPtrace (pt_getregs pid);
  call RPtrace (pt_setregs pid (with_rax (as_u 64 ret) regs)).

Definition save_full (pid : Z) : M user_regs := call RPtrace (pt_getregs pid).
Definition restore_full (pid : Z) (regs : user_regs) : M unit := call RPtrace (pt_setregs pid regs).

Definition prepare_fork (r : user_regs) : user_regs :=
  mkRegs SYS_clone SYS_clone SIGCHLD 0 0 0 0 0 (as_u 64 (rip r - 2)) (other_regs r).

(** ** Memory ([inject.rs]) *)

Definition injection_addr (nr : Z) (argv : list Z) : option Z :=
  let n := as_i 64 nr in
  if (n =? SYS_read) || (n =? SYS_pread64) || (n =? SYS_recvfrom) then Some (arg argv 1)
  else if n =? SYS_getrandom then Some (arg argv 0)
  else if n =? SYS_clock_gettime then Some (arg argv 1)
  else None.

Definition write_memory (pid addr : Z) (data : list byte) : M unit :=
  if bool_decide (data = []) then mret tt else
  written ← call (RMemory addr (blen data)) (vm_writev pid addr data);
  if negb (written =? blen data) then st_throw (RMemory addr (blen data) EFAULT) else mret tt.

(** As in the recorder, the transferred count is dropped. *)
Definition read_memory (pid addr len : Z) : M (list byte) :=
  bs ← call (RMemory addr len) (vm_readv pid addr len);
  mret (bs ++ replicate (Z.to_nat len - length bs) x00).

(** ** Fork snapshots ([checkpoint.rs]) *)

Definition setup_options (pid : Z) : M unit :=
  call RPtrace (pt_setoptions pid
    (Z.lor O_TRACESYSGOOD (Z.lor O_EXITKILL (Z.lor O_TRACEFORK (Z.lor O_TRACEVFORK O_TRACECLONE))))).

Definition is_fork_event (ev : Z) : bool :=
  (ev =? PTRACE_EVENT_FORK) || (ev =? PTRACE_EVENT_VFORK) || (ev =? PTRACE_EVENT_CLONE).

Definition wait_for_fork_child (pid : Z) : M Z :=
  status ← call RPtrace (sys_waitpid pid);
  match status with
  | PtraceEvent _ ev =>
      if is_fork_event ev then
        raw ← call RPtrace (pt_getevent pid);
        mret (as_i 32 raw)
      else st_throw (RCheckpoint None)
  | _ => st_throw (RCheckpoint None)
  end.

Definition fork_snapshot (pid : Z) : M Z :=
  saved ← save_full pid;
  restore_full pid (prepare_fork saved);;
  call RPtrace (pt_step pid);;
  child ← wait_for_fork_child pid;
  status ← call RPtrace (sys_waitpid child);
  match status with
  | Stopped _ _ | PtraceEvent _ _ => mret tt
  | _ => st_throw (RCheckpoint None)
  end;;
  setup_options child;;
  call RPtrace (pt_syscall pid None);;
  status ← call RPtrace (sys_waitpid pid);
  match status with
  | PtraceSyscall _ => mret tt
  | _ => st_throw (RCheckpoint None)
  end;;
  restore_full pid saved;;
  restore_full child saved;;
  mret child.

(** ** Watchpoint calls with the session's errors *)

Definition arm_replay (e : arm_error) : ReplayError :=
  match e with ArmRequest e => RWatchpointRequest e | ArmFailed => RWatchpoint end.

Definition with_err {E A} (f : E → ReplayError) (m : stm W E A) : M A := λ w,
  let '(r, w) := m w in (map_err f r, w).

Definition hw_is_watch_hit (pid : Z) : M bool :=
  code ← call RPtrace (pt_getsiginfo_code pid);
  mret (code =? TRAP_HWBKPT).

End Calls.

(** ** The session *)

Section Session.
Context {W : Type}.

(** The [ReplaySession], with the world its calls act on; the output pipes and
    the [Child] handle are not modelled. *)
Record ReplaySession := mkSession {
  ss_world : W;
  ss_pid : Z;
  ss_cmdline : Cmdline;
  ss_records : list LogRecord;
  ss_cursor : nat;
  ss_current_seq : option Z;
  ss_pending : option Pending;
  ss_resume_sig : option Z;
  ss_last_regs : option Registers;
  ss_finished : option ExitOutcome;
  ss_checkpoint_interval : Z;
  ss_checkpoints : list CheckpointInfo;
  ss_watchpoint : option Watchpoint;
  ss_watch_hits : list WatchHit;
  ss_last_value : option (list byte);
  ss_unwinder : option Z;
  ss_multithreaded : bool;
  ss_mt : option MtState;
}.

(** Assignments to one field. *)
Definition set_world (x : W) (s : ReplaySession) : ReplaySession :=
  mkSession x (ss_pid s) (ss_cmdline s) (ss_records s) (ss_cursor s) (ss_current_seq s)
    (ss_pending s) (ss_resume_sig s) (ss_last_regs s) (ss_finished s) (ss_checkpoint_interval s)
    (ss_checkpoints s) (ss_watchpoint s) (ss_watch_hits s) (ss_last_value s) (ss_unwinder s)
    (ss_multithreaded s) (ss_mt s).
Definition set_pid (x : Z) (s : ReplaySession) : ReplaySession :=
  mkSession (ss_world s) x (ss_cmdline s) (ss_records s) (ss_cursor s) (ss_current_seq s)
    (ss_pending s) (ss_resume_sig s) (ss_last_regs s) (ss_finished s) (ss_checkpoint_interval s)
    (ss_checkpoints s) (ss_watchpoint s) (ss_watch_hits s) (ss_last_value s) (ss_unwinder s)
    (ss_multithreaded s) (ss_mt s).
Definition set_cursor (x : nat) (s : ReplaySession) : ReplaySession :=
  mkSession (ss_world s) (ss_pid s) (ss_cmdline s) (ss_records s) x (ss_current_seq s)
    (ss_pending s) (ss_resume_sig s) (ss_last_regs s) (ss_finished s) (ss_checkpoint_interval s)
    (ss_checkpoints s) (ss_watchpoint s) (ss_watch_hits s) (ss_last_value s) (ss_unwinder s)
    (ss_multithreaded s) (ss_mt s).
Definition set_current_seq (x : option Z) (s : ReplaySession) : ReplaySession :=
  mkSession (ss_world s) (ss_pid s) (ss_cmdline s) (ss_records s) (ss_cursor s) x (ss_pending s)
    (ss_resume_sig s) (ss_last_regs s) (ss_finished s) (ss_checkpoint_interval s)
    (ss_checkpoints s) (ss_watchpoint s) (ss_watch_hits s) (ss_last_value s) (ss_unwinder s)
    (ss_multithreaded s) (ss_mt s).
Definition set_pending (x : option Pending) (s : ReplaySession) : ReplaySession :=
  mkSession (ss_world s) (ss_pid s) (ss_cmdline s) (ss_records s) (ss_cursor s) (ss_current_seq s)
    x (ss_resume_sig s) (ss_last_regs s) (ss_finished s) (ss_checkpoint_interval s)
    (ss_checkpoints s) (ss_watchpoint s) (ss_watch_hits s) (ss_last_value s) (ss_unwinder s)
    (ss_multithreaded s) (ss_mt s).
Definition set_resume_sig (x : option Z) (s : ReplaySession) : ReplaySession :=
  mkSession (ss_world s) (ss_pid s) (ss_cmdline s) (ss_records s) (ss_cursor s) (ss_current_seq s)
    (ss_pending s) x (ss_last_regs s) (ss_finished s) (ss_checkpoint_interval s)
    (ss_checkpoints s) (ss_watchpoint s) (ss_watch_hits s) (ss_last_value s) (ss_unwinder s)
    (ss_multithreaded s) (ss_mt s).
Definition set_last_regs (x : option Registers) (s : ReplaySession) : ReplaySession :=
  mkSession (ss_world s) (ss_pid s) (ss_cmdline s) (ss_records s) (ss_cursor s) (ss_current_seq s)
    (ss_pending s) (ss_resume_sig s) x (ss_finished s) (ss_checkpoint_interval s)
    (ss_checkpoints s) (ss_watchpoint s) (ss_watch_hits s) (ss_last_value s) (ss_unwinder s)
    (ss_multithreaded s) (ss_mt s).
Definition set_finished (x : option ExitOutcome) (s : ReplaySession) : ReplaySession :=
  mkSession (ss_world s) (ss_pid s) (ss_cmdline s) (ss_records s) (ss_cursor s) (ss_current_seq s)
    (ss_pending s) (ss_resume_sig s) (ss_last_regs s) x (ss_checkpoint_interval s)
    (ss_checkpoints s) (ss_watchpoint s) (ss_watch_hits s) (ss_last_value s) (ss_unwinder s)
    (ss_multithreaded s) (ss_mt s).
Definition set_checkpoints (x : list CheckpointInfo) (s : ReplaySession) : ReplaySession :=
  mkSession (ss_world s) (ss_pid s) (ss_cmdline s) (ss_records s) (ss_cursor s) (ss_current_seq s)
    (ss_pending s) (ss_resume_sig s) (ss_last_regs s) (ss_finished s) (ss_checkpoint_interval s) x
    (ss_watchpoint s) (ss_watch_hits s) (ss_last_value s) (ss_unwinder s) (ss_multithreaded s)
    (ss_mt s).
Definition set_watchpoint (x : option Watchpoint) (s : ReplaySession) : ReplaySession :=
  mkSession (ss_world s) (ss_pid s) (ss_cmdline s) (ss_records s) (ss_cursor s) (ss_current_seq s)
    (ss_pending s) (ss_resume_sig s) (ss_last_regs s) (ss_finished s) (ss_checkpoint_interval s)
    (ss_checkpoints s) x (ss_watch_hits s) (ss_last_value s) (ss_unwinder s) (ss_multithreaded s)
    (ss_mt s).
Definition set_watch_hits (x : list WatchHit) (s : ReplaySession) : ReplaySession :=
  mkSession (ss_world s) (ss_pid s) (ss_cmdline s) (ss_records s) (ss_cursor s) (ss_current_seq s)
    (ss_pending s) (ss_resume_sig s) (ss_last_regs s) (ss_finished s) (ss_checkpoint_interval s)
    (ss_checkpoints s) (ss_watchpoint s) x (ss_last_value s) (ss_unwinder s) (ss_multithreaded s)
    (ss_mt s).
Definition set_last_value (x : option (list byte)) (s : ReplaySession) : ReplaySession :=
  mkSession (ss_world s) (ss_pid s) (ss_cmdline s) (ss_records s) (ss_cursor s) (ss_current_seq s)
    (ss_pending s) (ss_resume_sig s) (ss_last_regs s) (ss_finished s) (ss_checkpoint_interval s)
    (ss_checkpoints s) (ss_watchpoint s) (ss_watch_hits s) x (ss_unwinder s) (ss_multithreaded s)
    (ss_mt s).
Definition set_unwinder (x : option Z) (s : ReplaySession) : ReplaySession :=
  mkSession (ss_world s) (ss_pid s) (ss_cmdline s) (ss_records s) (ss_cursor s) (ss_current_seq s)
    (ss_pending s) (ss_resume_sig s) (ss_last_regs s) (ss_finished s) (ss_checkpoint_interval s)
    (ss_checkpoints s) (ss_watchpoint s) (ss_watch_hits s) (ss_last_value s) x
    (ss_multithreaded s) (ss_mt s).
Definition set_mt (x : option MtState) (s : ReplaySession) : ReplaySession :=
  mkSession (ss_world s) (ss_pid s) (ss_cmdline s) (ss_records s) (ss_cursor s) (ss_current_seq s)
    (ss_pending s) (ss_resume_sig s) (ss_last_regs s) (ss_finished s) (ss_checkpoint_interval s)
    (ss_checkpoints s) (ss_watchpoint s) (ss_watch_hits s) (ss_last_value s) (ss_unwinder s)
    (ss_multithreaded s) x.

Context `{Kernel W} `{Unwind W}.
#[local] Abbreviation M := (stm ReplaySession ReplayError).

(** A computation on the world alone. *)
Definition on_kernel {A} (m : stm W ReplayError A) : M A := λ s,
  let '(r, w) := m (ss_world s) in (r, set_world w s).

(** A call whose result is dropped ([let _ = ..]). *)
Definition ignoring {A} (k : kop W A) : M unit := λ s, (Ok tt, set_world (k (ss_world s)).2 s).

(** Every live tracee pid the session drives. *)
Definition live_threads : M (list Z) :=
  m ← st_gets ss_mt;
  p ← st_gets ss_pid;
  mret (match m with Some m => sorted_keys (mt_threads m) | None => [p] end).

(** [for live in self.live_threads() { f(live)?; }]. *)
Fixpoint for_each (l : list Z) (f : Z → M unit) : M unit :=
  match l with
  | [] => mret tt
  | x :: l => f x;; for_each l f
  end.

(** ** Watchpoints ([session.rs]) *)

Definition watch (addr len : Z) (kind : WatchKind) : M unit :=
  st_lift (map_err RWatchpointRequest (validate addr len));;
  live ← live_threads;
  for_each live (λ p, on_kernel (with_err arm_replay (arm p addr len kind)));;
  p ← st_gets ss_pid;
  v ← on_kernel (read_memory p addr len);
  st_modify (set_last_value (Some v));;
  st_modify (set_watchpoint (Some (mkWatch addr len kind))).

Definition clear_watch : M unit :=
  wp ← st_gets ss_watchpoint;
  fin ← st_gets ss_finished;
  st_modify (set_watchpoint None);;
  st_when (bool_decide (is_Some wp) && bool_decide (fin = None))
    (live ← live_threads;
     for_each live (λ p, on_kernel (with_err arm_replay (disarm p))));;
  st_modify (set_last_value None).

Definition take_watch_hits : M (list WatchHit) :=
  hits ← st_gets ss_watch_hits;
  st_modify (set_watch_hits []);;
  mret hits.

Definition is_watch_hit (pid : Z) : M bool :=
  wp ← st_gets ss_watchpoint;
  if bool_decide (wp = None) then mret false else on_kernel (hw_is_watch_hit pid).

(** The cached unwinder stays taken when an unwind fails. *)
Definition capture_backtrace (pid : Z) : M (Z * list SymbolizedFrame) :=
  cached ← st_gets ss_unwinder;
  st_modify (set_unwinder None);;
  u ← match cached with
      | Some u => mret u
      | None => on_kernel (call RUnwind (unwinder_for_pid pid));; mret pid
      end;
  pc ← on_kernel (call RUnwind (unwinder_registers u));
  frames ← on_kernel (call RUnwind (unwinder_backtrace u pc));
  st_modify (set_unwinder (Some u));;
  mret (pc, frames).

(** x86-64: the trap comes after the access. *)
Definition step_over_watch (pid : Z) : M unit := on_kernel (with_err arm_replay (clear_status pid)).

Definition on_watch_hit (pid : Z) : M unit :=
  wp ← st_gets ss_watchpoint;
  match wp with
  | None => mret tt
  | Some wp =>
      bt ← capture_backtrace pid;
      step_over_watch pid;;
      new_value ← on_kernel (read_memory pid (wp_addr wp) (wp_len wp));
      old_value ← st_gets ss_last_value;
      st_modify (set_last_value (Some new_value));;
      sq ← st_gets ss_current_seq;
      st_modify (λ s, set_watch_hits (ss_watch_hits s ++
        [mkHit sq bt.1 old_value new_value bt.2]) s)
  end.

Definition finish (outcome : ExitOutcome) : M ExitOutcome :=
  st_modify (set_finished (Some outcome));;
  mret outcome.

End Session.
Arguments ReplaySession W : clear implicits.
