(* ===== verification/Session.v ===== *)
(** * The single-threaded replay driver: [replay/session.rs]

    Syscall stops checked against the trace and fed from it, signals,
    checkpoints, restores and respawns.  [drive_loop] and [skip_checkpoints]
    follow the source's loops; the fuel of the former counts stops. *)

From S2P Require Import Prelude StdIo TraceFormat TraceLog Payload Ptrace Capture Watchpoint Schedule Replay.

Section Session.
Context {W : Type} `{Kernel W} `{Unwind W}.
#[local] Abbreviation Ses := (ReplaySession W).
#[local] Abbreviation M := (stm Ses ReplayError).

(** The number of [Checkpoint] records at the front of the rest of the trace. *)
Fixpoint leading_checkpoints (l : list LogRecord) : nat :=
  match l with
  | r :: l => if bool_decide (kind (event r) = EvCheckpoint) then S (leading_checkpoints l) else O
  | [] => O
  end.

(** [while matches!(self.records.get(self.cursor)..) { self.cursor += 1 }]. *)
Definition skip_checkpoints : M unit :=
  st_modify (λ s, set_cursor (ss_cursor s + leading_checkpoints (drop (ss_cursor s) (ss_records s))) s).

Definition next_record : M LogRecord :=
  skip_checkpoints;;
  records ← st_gets ss_records;
  cursor ← st_gets ss_cursor;
  record ← st_lift (ok_or RTraceExhausted (records !! cursor));
  st_modify (set_cursor (S cursor));;
  mret record.

Definition on_entry (regs : Registers) : M unit :=
  record ← next_record;
  enter ← match kind (event record) with
          | EvSyscallEnter => st_lift (map_err RPayload (SyscallEnter_decode (payload (event record))))
          | found => st_throw (RUnexpectedRecord (seq record) [EvSyscallEnter] found)
          end;
  if negb (enter_nr enter =? g_nr regs)
  then st_throw (RDiverged (seq record) (enter_nr enter) (g_nr regs))
  else
    st_modify (set_current_seq (Some (seq record)));;
    let addr := injection_addr (g_nr regs) (g_args regs) in
    pid ← st_gets ss_pid;
    st_when (bool_decide (is_Some addr)) (on_kernel (suppress_syscall pid));;
    st_modify (set_pending (Some (mkPending addr))).

Definition on_exit (p : Pending) : M unit :=
  record ← next_record;
  exit ← match kind (event record) with
         | EvSyscallExit => st_lift (map_err RPayload (SyscallExit_decode (payload (event record))))
         | found => st_throw (RUnexpectedRecord (seq record) [EvSyscallExit] found)
         end;
  st_modify (set_current_seq (Some (seq record)));;
  match inject_addr p with
  | Some addr =>
      pid ← st_gets ss_pid;
      on_kernel (write_memory pid addr (exit_data exit));;
      on_kernel (set_return pid (exit_ret exit))
  | None => mret tt
  end.

Definition on_syscall_stop : M unit :=
  pid ← st_gets ss_pid;
  regs ← on_kernel (regs_read pid);
  st_modify (set_last_regs (Some regs));;
  p ← st_gets ss_pending;
  st_modify (set_pending None);;
  match p with
  | None => on_entry regs
  | Some p => on_exit p
  end.

Definition on_signal_stop (sig : Z) : M unit :=
  skip_checkpoints;;
  records ← st_gets ss_records;
  cursor ← st_gets ss_cursor;
  match records !! cursor with
  | Some record =>
      if bool_decide (kind (event record) = EvSignal) then
        recorded ← st_lift (map_err RPayload (SignalDelivery_decode (payload (event record))));
        if negb (signum recorded =? sig)
        then st_throw (RScheduleDiverged (seq record) (SignalMismatch (signum recorded) sig))
        else
          st_modify (set_current_seq (Some (seq record)));;
          st_modify (set_cursor (S cursor))
      else mret tt
  | None => mret tt
  end;;
  st_modify (set_resume_sig (Some sig)).

Definition maybe_checkpoint : M unit :=
  multi ← st_gets ss_multithreaded;
  if (multi : bool) then mret tt else
  p ← st_gets ss_pending;
  if bool_decide (is_Some p) then mret tt else
  current ← st_gets ss_current_seq;
  match current with
  | None => mret tt
  | Some sq =>
      cps ← st_gets ss_checkpoints;
      interval ← st_gets ss_checkpoint_interval;
      if negb (is_checkpoint_due (cp_seq <$> last cps) sq interval) then mret tt else
      pid ← st_gets ss_pid;
      snapshot ← on_kernel (fork_snapshot pid);
      st_modify (λ s, set_checkpoints (ss_checkpoints s ++
        [mkCheckpoint sq (ss_cursor s) (ss_current_seq s) (ss_last_regs s) snapshot]) s)
  end.

(** What one turn of the loop decides. *)
Inductive turn := Continue | Return (o : ExitOutcome).

(** The stop test at the head of both drivers' loops. *)
Definition reached (stop_at : option Z) (s : Ses) : bool :=
  match stop_at, ss_current_seq s with
  | Some target, Some current => target <=? current
  | _, _ => false
  end.

(** The loop body of [drive]. *)
Definition drive_turn (stop_at : option Z) : M turn :=
  done ← st_gets (reached stop_at);
  if (done : bool) then mret (Return OutRunning) else
  pid ← st_gets ss_pid;
  sig ← st_gets ss_resume_sig;
  st_modify (set_resume_sig None);;
  on_kernel (call RPtrace (pt_syscall pid sig));;
  status ← on_kernel (call RPtrace (sys_waitpid pid));
  match status with
  | PtraceSyscall _ => on_syscall_stop;; maybe_checkpoint;; mret Continue
  | Stopped _ sig =>
      hit ← (if sig =? SIGTRAP then is_watch_hit pid else mret false);
      (if (hit : bool) then on_watch_hit pid else on_signal_stop sig);;
      mret Continue
  | Exited _ code => o ← finish (OutExited code); mret (Return o)
  | Signaled _ sig => o ← finish (OutSignaled sig); mret (Return o)
  | _ => mret Continue
  end.

(** [None] when the fuel ran out first. *)
Fixpoint drive_loop (fuel : nat) (stop_at : option Z) : M (option ExitOutcome) :=
  match fuel with
  | O => mret None
  | S fuel =>
      t ← drive_turn stop_at;
      match t with
      | Continue => drive_loop fuel stop_at
      | Return o => mret (Some o)
      end
  end.

(** ** Going back *)

Definition kill_active : M unit :=
  fin ← st_gets ss_finished;
  pid ← st_gets ss_pid;
  st_when (bool_decide (fin = None))
    (ignoring (pt_kill pid);; ignoring (sys_waitpid pid)).

Definition rearm_watchpoint : M unit :=
  st_modify (set_unwinder None);;
  wp ← st_gets ss_watchpoint;
  pid ← st_gets ss_pid;
  match wp with
  | Some wp => on_kernel (with_err arm_replay (arm pid (wp_addr wp) (wp_len wp) (wp_kind wp)))
  | None => mret tt
  end.

Definition restore_to_checkpoint (index : nat) : M unit :=
  cps ← st_gets ss_checkpoints;
  checkpoint ← st_lift (expect (cps !! index));
  fresh ← on_kernel (fork_snapshot (cp_snapshot checkpoint));
  kill_active;;
  st_modify (set_pid fresh);;
  st_modify (set_cursor (cp_cursor checkpoint));;
  st_modify (set_current_seq (cp_current_seq checkpoint));;
  st_modify (set_last_regs (cp_last_regs checkpoint));;
  st_modify (set_pending None);;
  st_modify (set_resume_sig None);;
  st_modify (set_finished None);;
  st_modify (set_mt None);;
  rearm_watchpoint.

Definition respawn : M unit :=
  kill_active;;
  cmd ← st_gets ss_cmdline;
  pid ← on_kernel (call RSpawn (sys_spawn_traced (program cmd) (args cmd)));
  on_kernel (call RPtrace (sys_waitpid pid));;
  on_kernel (setup_options pid);;
  st_modify (set_pid pid);;
  st_modify (set_cursor 0);;
  st_modify (set_current_seq None);;
  st_modify (set_pending None);;
  st_modify (set_resume_sig None);;
  st_modify (set_last_regs None);;
  st_modify (set_finished None);;
  st_modify (set_mt None);;
  rearm_watchpoint.

Definition plan_start (target : Z) : M StartPoint :=
  cps ← st_gets ss_checkpoints;
  match nearest_at_or_before (cp_seq <$> cps) target with
  | Some index =>
      cp ← st_lift (expect (cps !! index));
      mret (mkStart (Some index) (cp_seq cp))
  | None => mret (mkStart None 0)
  end.

Definition restore_to (target : Z) : M unit :=
  start ← plan_start target;
  match start_index start with
  | Some index => restore_to_checkpoint index
  | None => respawn
  end.

(** ** Small moves *)

Definition set_interval (interval : Z) : M unit := st_modify (λ s,
  mkSession (ss_world s) (ss_pid s) (ss_cmdline s) (ss_records s) (ss_cursor s) (ss_current_seq s)
    (ss_pending s) (ss_resume_sig s) (ss_last_regs s) (ss_finished s) interval (ss_checkpoints s)
    (ss_watchpoint s) (ss_watch_hits s) (ss_last_value s) (ss_unwinder s) (ss_multithreaded s)
    (ss_mt s)).

Definition session_read_memory (addr len : Z) : M (list byte) :=
  pid ← st_gets ss_pid;
  on_kernel (read_memory pid addr len).

(** [impl Drop]: the tracees, siblings before the leader, then the snapshots;
    all killed, then all reaped. *)
Definition drop_tracees (s : Ses) : list Z :=
  let tracees := match ss_mt s with Some m => sorted_keys (mt_threads m) | None => [] end in
  let tracees := if bool_decide (ss_finished s = None) && negb (bool_decide (ss_pid s ∈ tracees))
                 then tracees ++ [ss_pid s] else tracees in
  filter (λ p, p ≠ ss_pid s) tracees ++ filter (λ p, p = ss_pid s) tracees.

Definition session_drop : M unit :=
  tracees ← st_gets drop_tracees;
  cps ← st_gets ss_checkpoints;
  for_each tracees (λ p, ignoring (pt_kill p));;
  for_each (cp_snapshot <$> cps) (λ p, ignoring (pt_kill p));;
  for_each tracees (λ p, ignoring (sys_waitpid p));;
  for_each (cp_snapshot <$> cps) (λ p, ignoring (sys_waitpid p)).

(** ** Launching *)

(** [launch], on what [TraceReader::open] and [collect] gave: the trace file
    itself is the reader's. *)
Definition launch (opened : result TraceError (option Cmdline * result TraceError (list LogRecord)))
    : stm W ReplayError Ses := λ w,
  match opened with
  | Err e => (Err (RTrace e), w)
  | Panic => (Panic, w)
  | Ok (cmdline, collected) =>
      (cmd ← st_lift (ok_or RNoCmdline cmdline);
       records ← st_lift (map_err RTrace collected);
       let multi := trace_is_multithreaded records in
       pid ← call RSpawn (sys_spawn_traced (program cmd) (args cmd));
       call RPtrace (sys_waitpid pid);;
       setup_options pid;;
       st_gets (λ w, mkSession w pid cmd records 0 None None None None None 0 [] None [] None None
                      multi None)) w
  end.

(** ** Lemmas *)

Lemma leading_checkpoints_none (l : list LogRecord) r k :
  l !! k = Some r → kind (event r) ≠ EvCheckpoint → leading_checkpoints (drop k l) = 0%nat.
Proof.
  intros Hk Hr. rewrite (drop_S _ _ _ Hk). cbn. by rewrite bool_decide_eq_false_2.
Qed.

Lemma next_record_here (s : Ses) r :
  ss_records s !! ss_cursor s = Some r → kind (event r) ≠ EvCheckpoint →
  next_record s = (Ok r, set_cursor (S (ss_cursor s)) s).
Proof.
  intros Hk Hr. unfold next_record, skip_checkpoints, mbind, stm_bind, st_modify, st_gets, st_lift.
  rewrite (leading_checkpoints_none _ _ _ Hk Hr), Nat.add_0_r. cbn. by rewrite Hk.
Qed.

End Session.
