(* ===== verification/Mt.v ===== *)
(** * Schedule-enforcing replay: [replay/mt.rs], and the public moves of a
    session

    The multi-threaded driver, which walks the records and forces the live
    tracees to reproduce them, and [drive], [run_to], [step_to], [run_to_end],
    which choose a driver.  [step_thread] and [mt_drive_loop] take fuel: one
    unit per stop swallowed, one per record. *)

From S2P Require Import Prelude StdIo TraceFormat TraceLog Payload Ptrace Capture Watchpoint Schedule Replay.
From S2P Require Import Sched Session.

Section Mt.
Context {W : Type} `{Kernel W} `{Unwind W}.
#[local] Abbreviation Ses := (ReplaySession W).
#[local] Abbreviation M := (stm Ses ReplayError).

(** [classify]: (suppress, injection address). *)
Definition classify (nr : Z) (argv : list Z) : bool * option Z :=
  match injection_addr nr argv with
  | Some addr => (true, Some addr)
  | None => (false, None)
  end.

Definition mt_trace_options : Z :=
  Z.lor O_TRACESYSGOOD (Z.lor O_EXITKILL (Z.lor O_TRACECLONE (Z.lor O_TRACEFORK
    (Z.lor O_TRACEVFORK O_TRACEEXEC)))).

(** [state(session)] and updates of it. *)
Definition state : M MtState :=
  m ← st_gets ss_mt;
  st_lift (expect m).
Definition put_state (m : MtState) : M unit := st_modify (set_mt (Some m)).

Definition with_threads (x : gmap Z ThreadRt) (m : MtState) : MtState :=
  mkMt (mt_leader m) x (mt_tidmap m) (mt_vfork m) (mt_expected m).
Definition with_tidmap (x : TidMap) (m : MtState) : MtState :=
  mkMt (mt_leader m) (mt_threads m) x (mt_vfork m) (mt_expected m).
Definition with_vfork (x : gmap Z Z) (m : MtState) : MtState :=
  mkMt (mt_leader m) (mt_threads m) (mt_tidmap m) x (mt_expected m).
Definition with_expected (x : option Z) (m : MtState) : MtState :=
  mkMt (mt_leader m) (mt_threads m) (mt_tidmap m) (mt_vfork m) x.

(** [state(session).threads.get_mut(&live)] and an update of the thread. *)
Definition update_rt (live : Z) (f : ThreadRt → ThreadRt) : M unit :=
  m ← state;
  match mt_threads m !! live with
  | Some t => put_state (with_threads (<[live := f t]> (mt_threads m)) m)
  | None => mret tt
  end.

Definition mt_take_resume_signal (live : Z) : M (option Z) :=
  m ← state;
  update_rt live (λ t, mkThreadRt (rt_pending t) None);;
  mret (t ← mt_threads m !! live; rt_resume t).

Definition set_rt_pending (live : Z) (p : option PendingSys) : M unit :=
  update_rt live (λ t, mkThreadRt p (rt_resume t)).

Definition take_pending (live : Z) : M (option PendingSys) :=
  m ← state;
  update_rt live (λ t, mkThreadRt None (rt_resume t));;
  mret (t ← mt_threads m !! live; rt_pending t).

Definition advance (sq : Z) : M unit :=
  st_modify (set_current_seq (Some sq));;
  st_modify (λ s, set_cursor (S (ss_cursor s)) s).

(** [tidmap_diverged(seq, e)] around a [bind] on the state's table. *)
Definition bind_tid (sq recorded live : Z) : M unit :=
  m ← state;
  let '(r, tm) := bind recorded live (mt_tidmap m) in
  put_state (with_tidmap tm m);;
  st_lift (map_err (λ e, RScheduleDiverged sq (TidConflict e)) r).

Definition enforce_tid (record : LogRecord) : M Z :=
  t ← st_lift (ok_or (RScheduleDiverged (seq record) MissingTid) (tid (event record)));
  m ← state;
  match mt_expected m with
  | None => put_state (with_expected (Some t) m);; mret t
  | Some expected =>
      if expected =? t then mret t
      else st_throw (RScheduleDiverged (seq record) (WrongTid expected t))
  end.

Definition live_for (t sq : Z) : M Z :=
  m ← state;
  match live_of t (mt_tidmap m) with
  | Some live => mret live
  | None =>
      if tidmap_is_empty (mt_tidmap m) then
        bind_tid sq t (mt_leader m);;
        mret (mt_leader m)
      else st_throw (RScheduleDiverged sq (UnboundTid t))
  end.

Definition remove_thread (t live : Z) : M unit :=
  m ← state;
  put_state (mkMt (mt_leader m) (delete live (mt_threads m)) (unbind_recorded t (mt_tidmap m)).2
               (delete live (mt_vfork m)) (mt_expected m)).

(** The loop of [step_thread]; [None] when the fuel ran out first. *)
Fixpoint step_thread (fuel : nat) (live : Z) (sig : option Z) : M (option wait_status) :=
  match fuel with
  | O => mret None
  | S fuel =>
      on_kernel (call RPtrace (pt_syscall live sig));;
      status ← on_kernel (call RPtrace (sys_waitpid live));
      match status with
      | PtraceEvent _ ev =>
          if ev =? PTRACE_EVENT_EXEC then step_thread fuel live None else mret (Some status)
      | Stopped _ sg =>
          if sg =? SIGTRAP then
            hit ← is_watch_hit live;
            if (hit : bool) then on_watch_hit live;; step_thread fuel live None
            else mret (Some status)
          else mret (Some status)
      | _ => mret (Some status)
      end
  end.

(** A step whose status feeds the rest of a handler; [None] is out of fuel. *)
Definition stepping {A} (m : M (option wait_status)) (f : wait_status → M A) : M (option A) :=
  st ← m;
  match st with
  | None => mret None
  | Some st => a ← f st; mret (Some a)
  end.

Definition wrong_stop {A} (record : LogRecord) (t : Z) (got : wait_status) : M A :=
  st_throw (RScheduleDiverged (seq record) (WrongStop t got)).

Definition on_sched_switch (record : LogRecord) : M unit :=
  switch ← st_lift (map_err RPayload (SchedSwitch_decode (payload (event record))));
  m ← state;
  put_state (with_expected (Some (switch_tid switch)) m);;
  advance (seq record).

Definition on_syscall_enter (fuel : nat) (record : LogRecord) : M (option unit) :=
  t ← enforce_tid record;
  live ← live_for t (seq record);
  sig ← mt_take_resume_signal live;
  stepping (step_thread fuel live sig) (λ status,
    match status with
    | PtraceSyscall _ =>
        regs ← on_kernel (regs_read live);
        st_modify (set_last_regs (Some regs));;
        enter ← st_lift (map_err RPayload (SyscallEnter_decode (payload (event record))));
        if negb (enter_nr enter =? g_nr regs)
        then st_throw (RDiverged (seq record) (enter_nr enter) (g_nr regs))
        else
          let '(suppress, addr) := classify (g_nr regs) (g_args regs) in
          st_when suppress (on_kernel (suppress_syscall live));;
          set_rt_pending live (Some (mkPendingSys suppress addr));;
          advance (seq record)
    | got => wrong_stop record t got
    end).

Definition on_syscall_exit (fuel : nat) (record : LogRecord) : M (option unit) :=
  t ← enforce_tid record;
  live ← live_for t (seq record);
  stepping (step_thread fuel live None) (λ status,
    match status with
    | PtraceSyscall _ =>
        regs ← on_kernel (regs_read live);
        st_modify (set_last_regs (Some regs));;
        exit ← st_lift (map_err RPayload (SyscallExit_decode (payload (event record))));
        p ← take_pending live;
        match p with
        | None => st_throw (RScheduleDiverged (seq record) (NoEntry t))
        | Some p =>
            st_when (suppressed p)
              (match ps_inject_addr p with
               | Some addr => on_kernel (write_memory live addr (exit_data exit))
               | None => mret tt
               end;;
               on_kernel (set_return live (exit_ret exit)));;
            advance (seq record)
        end
    | got => wrong_stop record t got
    end).

Definition mt_register_child (child sq : Z) : M unit :=
  status ← on_kernel (call RPtrace (sys_waitpid child));
  match status with
  | Stopped _ _ | PtraceEvent _ _ => mret tt
  | got => st_throw (RScheduleDiverged sq (ChildStop child got))
  end;;
  on_kernel (call RPtrace (pt_setoptions child mt_trace_options)).

Definition bind_child (sq t child parent : Z) (vforked : bool) : M unit :=
  bind_tid sq t child;;
  m ← state;
  put_state (with_threads (<[child := ThreadRt_default]> (mt_threads m)) m);;
  st_when vforked
    (m ← state;
     put_state (with_vfork (<[child := parent]> (mt_vfork m)) m)).

Definition on_thread_spawn (fuel : nat) (record : LogRecord) : M (option unit) :=
  t ← enforce_tid record;
  parent ← live_for t (seq record);
  spawn ← st_lift (map_err RPayload (ThreadSpawn_decode (payload (event record))));
  sig ← mt_take_resume_signal parent;
  stepping (step_thread fuel parent sig) (λ status,
    ev ← match status with
         | PtraceEvent _ ev => if is_spawn_event ev then mret ev else wrong_stop record t status
         | got => wrong_stop record t got
         end;
    raw ← on_kernel (call RPtrace (pt_getevent parent));
    let child := as_i 32 raw in
    mt_register_child child (seq record);;
    bind_child (seq record) (child_tid spawn) child parent (ev =? PTRACE_EVENT_VFORK);;
    wp ← st_gets ss_watchpoint;
    match wp with
    | Some wp => on_kernel (with_err arm_replay (arm child (wp_addr wp) (wp_len wp) (wp_kind wp)))
    | None => mret tt
    end;;
    advance (seq record)).

(** [Some outcome] iff the leader exited. *)
Definition on_thread_exit (fuel : nat) (record : LogRecord) : M (option (option ExitOutcome)) :=
  t ← enforce_tid record;
  live ← live_for t (seq record);
  sig ← mt_take_resume_signal live;
  stepping (step_thread fuel live sig) (λ status,
    outcome ← match status with
              | Exited _ code => mret (OutExited code)
              | Signaled _ sg => mret (OutSignaled sg)
              | got => wrong_stop record t got
              end;
    m ← state;
    let is_leader := live =? mt_leader m in
    remove_thread t live;;
    advance (seq record);;
    if is_leader then
      st_modify (set_finished (Some outcome));;
      mret (Some outcome)
    else mret None).

Definition on_signal (fuel : nat) (record : LogRecord) : M (option unit) :=
  t ← enforce_tid record;
  live ← live_for t (seq record);
  sig ← mt_take_resume_signal live;
  stepping (step_thread fuel live sig) (λ status,
    match status with
    | Stopped _ delivered =>
        recorded ← st_lift (map_err RPayload (SignalDelivery_decode (payload (event record))));
        if negb (signum recorded =? delivered)
        then st_throw (RScheduleDiverged (seq record) (SignalMismatch (signum recorded) delivered))
        else
          update_rt live (λ th, mkThreadRt (rt_pending th) (Some delivered));;
          advance (seq record)
    | got => wrong_stop record t got
    end).

(** The dispatch of [drive] on one record: [Some (Some o)] returns [o]. *)
Definition mt_dispatch (fuel : nat) (record : LogRecord) : M (option (option ExitOutcome)) :=
  let unit_handler (m : M (option unit)) : M (option (option ExitOutcome)) :=
    r ← m; mret ((λ _, None) <$> r) in
  match kind (event record) with
  | EvCheckpoint => st_modify (λ s, set_cursor (S (ss_cursor s)) s);; mret (Some None)
  | EvSchedSwitch => on_sched_switch record;; mret (Some None)
  | EvSyscallEnter => unit_handler (on_syscall_enter fuel record)
  | EvSyscallExit => unit_handler (on_syscall_exit fuel record)
  | EvThreadSpawn => unit_handler (on_thread_spawn fuel record)
  | EvThreadExit => on_thread_exit fuel record
  | EvSignal => unit_handler (on_signal fuel record)
  | other => st_throw (RUnexpectedRecord (seq record)
      [EvSyscallEnter; EvSyscallExit; EvThreadSpawn; EvThreadExit; EvSignal] other)
  end.

Definition mt_turn (fuel : nat) (stop_at : option Z) : M (option turn) :=
  done ← st_gets (reached stop_at);
  if (done : bool) then mret (Some (Return OutRunning)) else
  records ← st_gets ss_records;
  cursor ← st_gets ss_cursor;
  match records !! cursor with
  | None => st_throw RTraceExhausted
  | Some record =>
      r ← mt_dispatch fuel record;
      mret (match r with
            | None => None
            | Some None => Some Continue
            | Some (Some o) => Some (Return o)
            end)
  end.

Fixpoint mt_drive_loop (fuel steps : nat) (stop_at : option Z) : M (option ExitOutcome) :=
  match fuel with
  | O => mret None
  | S fuel =>
      t ← mt_turn steps stop_at;
      match t with
      | None => mret None
      | Some Continue => mt_drive_loop fuel steps stop_at
      | Some (Return o) => mret (Some o)
      end
  end.

Definition ensure_state : M unit :=
  m ← st_gets ss_mt;
  if bool_decide (is_Some m) then mret tt else
  pid ← st_gets ss_pid;
  on_kernel (call RPtrace (pt_setoptions pid mt_trace_options));;
  let m := MtState_new pid in
  put_state (with_threads (<[pid := ThreadRt_default]> (mt_threads m)) m).

Definition mt_drive (fuel steps : nat) (stop_at : option Z) : M (option ExitOutcome) :=
  ensure_state;;
  mt_drive_loop fuel steps stop_at.

(** ** The public moves *)

Definition drive (fuel steps : nat) (stop_at : option Z) : M (option ExitOutcome) :=
  fin ← st_gets ss_finished;
  match fin with
  | Some outcome => mret (Some outcome)
  | None =>
      multi ← st_gets ss_multithreaded;
      if (multi : bool) then mt_drive fuel steps stop_at else drive_loop fuel stop_at
  end.

Definition run_to (fuel steps : nat) (target : Z) : M (option ExitOutcome) :=
  start ← plan_start target;
  current ← st_gets ss_current_seq;
  st_when (should_restart current (start_seq start) target)
    (match start_index start with
     | Some index => restore_to_checkpoint index
     | None => respawn
     end);;
  drive fuel steps (Some target).

Definition step_to (fuel steps : nat) (target : Z) : M (option ExitOutcome) :=
  drive fuel steps (Some target).
Definition run_to_end (fuel steps : nat) : M (option ExitOutcome) := drive fuel steps None.

(** ** [scan.rs] *)

(** The query; the trace's path is what it opens to, given to [scan_run]. *)
Record WatchpointScan := mkScan { scan_addr : Z; scan_len : Z; scan_kind : WatchKind }.

Definition scan_new (addr len : Z) : WatchpointScan := mkScan addr len WatchWrite.
Definition watch_reads (sc : WatchpointScan) : WatchpointScan :=
  mkScan (scan_addr sc) (scan_len sc) WatchReadWrite.

Definition scan_session (fuel steps : nat) (sc : WatchpointScan) : M (option (list WatchHit)) :=
  watch (scan_addr sc) (scan_len sc) (scan_kind sc);;
  o ← run_to_end fuel steps;
  match o with
  | None => mret None
  | Some _ => hits ← take_watch_hits; mret (Some hits)
  end.

(** The session is dropped on every path out. *)
Definition scan_run (fuel steps : nat)
    (opened : result TraceError (option Cmdline * result TraceError (list LogRecord)))
    (sc : WatchpointScan) : stm W ReplayError (option (list WatchHit)) := λ w,
  match launch opened w with
  | (Ok session, w) =>
      let '(r, s) := scan_session fuel steps sc (Replay.set_world w session) in
      (r, ss_world (session_drop s).2)
  | (Err e, w) => (Err e, w)
  | (Panic, w) => (Panic, w)
  end.

End Mt.
