(* ===== verification/Follow.v ===== *)
(** * What a successful replay consumed

    Both drivers walk the records in order: after any sequence of successful
    moves the session has consumed a prefix of the records, its current
    sequence number is that of the last one, and its checkpoints are positions
    of that kind; [run_to] stops at the first record at or past its target. *)

From S2P Require Import Prelude StdIo TraceFormat TraceLog Payload Ptrace Capture Watchpoint Schedule Replay.
From S2P Require Import Sched Session Mt.

Section Follow.
Context {W : Type} {KW : Kernel W} {UW : Unwind W}.
#[local] Abbreviation Ses := (ReplaySession W).
#[local] Abbreviation M := (stm Ses ReplayError).

(** ** What leaves the replay's position alone *)

(** Everything but the world, the watchpoint's fields and the unwinder. *)
Definition core (s : Ses) :=
  (ss_pid s, ss_records s, ss_cursor s, ss_current_seq s, ss_pending s, ss_multithreaded s,
   ss_checkpoint_interval s, ss_checkpoints s, ss_finished s, ss_mt s).

Lemma core_fields s s' : core s' = core s →
  ss_pid s' = ss_pid s ∧ ss_records s' = ss_records s ∧ ss_cursor s' = ss_cursor s ∧
  ss_current_seq s' = ss_current_seq s ∧ ss_pending s' = ss_pending s ∧
  ss_multithreaded s' = ss_multithreaded s ∧ ss_checkpoint_interval s' = ss_checkpoint_interval s ∧
  ss_checkpoints s' = ss_checkpoints s ∧ ss_finished s' = ss_finished s ∧ ss_mt s' = ss_mt s.
Proof. unfold core. intros [= ? ? ? ? ? ? ? ? ? ?]. done. Qed.

Lemma core_on_kernel {A} (m : stm W ReplayError A) : keeps core (on_kernel m).
Proof. intros s. unfold on_kernel. by destruct (m (ss_world s)). Qed.

Lemma core_ignoring {A} (k : kop W A) : keeps core (ignoring k).
Proof. done. Qed.
#[local] Hint Resolve core_on_kernel core_ignoring : keeps.

Lemma core_for_each l (f : Z → M unit) : (∀ x, keeps core (f x)) → keeps core (for_each l f).
Proof. intros Hf. induction l as [|x l IH]; cbn; auto with keeps. Qed.
#[local] Hint Resolve core_for_each : keeps.

Lemma core_live_threads : keeps core live_threads.
Proof. unfold live_threads. auto with keeps. Qed.
#[local] Hint Resolve core_live_threads : keeps.

Lemma core_watch addr len k : keeps core (watch addr len k).
Proof. unfold watch. auto 20 with keeps. Qed.

Lemma core_clear_watch : keeps core clear_watch.
Proof. unfold clear_watch. auto 20 with keeps. Qed.

Lemma core_take_hits : keeps core take_watch_hits.
Proof. unfold take_watch_hits. auto 20 with keeps. Qed.

Lemma core_is_watch_hit pid : keeps core (is_watch_hit pid).
Proof. unfold is_watch_hit. auto 20 with keeps. Qed.

Lemma core_backtrace pid : keeps core (capture_backtrace pid).
Proof. unfold capture_backtrace. auto 20 with keeps. Qed.
#[local] Hint Resolve core_backtrace core_is_watch_hit : keeps.

Lemma core_watch_hit pid : keeps core (on_watch_hit pid).
Proof. unfold on_watch_hit, step_over_watch. auto 20 with keeps. Qed.
#[local] Hint Resolve core_watch_hit : keeps.

Lemma core_kill : keeps core kill_active.
Proof. unfold kill_active. auto 20 with keeps. Qed.

Lemma core_rearm : keeps core rearm_watchpoint.
Proof. unfold rearm_watchpoint. auto 20 with keeps. Qed.

Lemma core_step_thread fuel : ∀ live sig, keeps core (step_thread fuel live sig).
Proof. induction fuel as [|fuel IH]; intros live sig; cbn; auto 20 with keeps. Qed.

(** ** The position *)

(** [Checkpoint] records carry no event. *)
Definition real_records (l : list LogRecord) : list LogRecord :=
  filter (λ r, kind (event r) ≠ EvCheckpoint) l.
Definition consumed (s : Ses) : list LogRecord := real_records (take (ss_cursor s) (ss_records s)).

(** [moved add s s']: the replay went forward over exactly the records [add]. *)
Record moved (add : list LogRecord) (s s' : Ses) : Prop := mkMoved {
  moved_records : ss_records s' = ss_records s;
  moved_consumed : consumed s' = consumed s ++ add;
  moved_seq : ss_current_seq s' = match last add with Some r => Some (seq r) | None => ss_current_seq s end;
}.

Lemma moved_refl s : moved [] s s.
Proof. split; [done|by rewrite app_nil_r|done]. Qed.

Lemma moved_trans a b s s' s'' : moved a s s' → moved b s' s'' → moved (a ++ b) s s''.
Proof.
  intros [R1 C1 S1] [R2 C2 S2]. split; [congruence|by rewrite C2, C1, app_assoc|].
  rewrite S2, S1, last_app. by destruct (last b).
Qed.

Lemma moved_same a s s' s'' :
  moved a s s' → ss_records s'' = ss_records s' → ss_cursor s'' = ss_cursor s' →
  ss_current_seq s'' = ss_current_seq s' → moved a s s''.
Proof.
  intros [R1 C1 Q1] R C Q. split; [congruence| |congruence].
  unfold consumed in *. by rewrite R, C.
Qed.

Lemma moved_core s s' : core s' = core s → moved [] s s'.
Proof. unfold core. intros [= ? ? ? ? ? ? ? ? ? ?]. eapply moved_same; [apply moved_refl|done..]. Qed.

Lemma real_snoc l k r :
  l !! k = Some r → kind (event r) ≠ EvCheckpoint →
  real_records (take (S k) l) = real_records (take k l) ++ [r].
Proof.
  intros Hk Hr. rewrite (take_S_r _ _ _ Hk). unfold real_records. rewrite filter_app. f_equal.
  by rewrite filter_cons_True.
Qed.

Lemma real_checkpoint l k r :
  l !! k = Some r → kind (event r) = EvCheckpoint →
  real_records (take (S k) l) = real_records (take k l).
Proof.
  intros Hk Hr. rewrite (take_S_r _ _ _ Hk). unfold real_records. rewrite filter_app.
  rewrite filter_cons_False by (intros Hn; by apply Hn). by rewrite app_nil_r.
Qed.

Lemma real_skip l k : real_records (take (k + leading_checkpoints (drop k l)) l) = real_records (take k l).
Proof.
  remember (drop k l) as d eqn:Hd. revert k Hd. induction d as [|r d IH]; intros k Hd; cbn.
  { by rewrite Nat.add_0_r. }
  case_bool_decide as Hr; [|by rewrite Nat.add_0_r].
  assert (Hk : l !! k = Some r) by (by rewrite <- (Nat.add_0_r k), <- lookup_drop, <- Hd).
  replace (k + S (leading_checkpoints d))%nat with (S k + leading_checkpoints d)%nat by lia.
  rewrite IH; [by eapply real_checkpoint|]. rewrite (drop_S _ _ _ Hk) in Hd. congruence.
Qed.

Lemma leading_not_checkpoint l k r :
  l !! (k + leading_checkpoints (drop k l))%nat = Some r → kind (event r) ≠ EvCheckpoint.
Proof.
  rewrite <- lookup_drop. generalize (drop k l). clear k l. induction l as [|x l IH]; cbn; [done|].
  case_bool_decide as Hx; cbn; [apply IH|]. by intros [= <-].
Qed.

Lemma skip_moved s u s' : skip_checkpoints s = (Ok u, s') → moved [] s s' ∧ core s' = core (set_cursor (ss_cursor s') s).
Proof.
  intros [= _ <-]. split; [|done]. split; [done| |done]. cbn. rewrite app_nil_r. apply real_skip.
Qed.

Lemma next_record_moved s r s' :
  next_record s = (Ok r, s') →
  consumed s' = consumed s ++ [r] ∧ kind (event r) ≠ EvCheckpoint ∧ s' = set_cursor (ss_cursor s') s.
Proof.
  unfold next_record, skip_checkpoints. intros Hx. st_inv. cbn [ss_records ss_cursor set_cursor] in *.
  match goal with Ho : ok_or _ (ss_records s !! ?k) = _ |- _ => destruct (ss_records s !! k) as [x|] eqn:Hk;
    [|done]; cbn in Ho; injection Ho as -> end.
  pose proof (leading_not_checkpoint _ _ _ Hk) as Hr. split; [|split; [done|by destruct s]].
  unfold consumed. cbn [ss_cursor ss_records set_cursor]. by rewrite (real_snoc _ _ _ Hk Hr), real_skip.
Qed.

(** ** The single-threaded driver *)

Lemma moved_on_kernel {A} (m : stm W ReplayError A) s r s' : on_kernel m s = (r, s') → moved [] s s'.
Proof. intros Hm. apply moved_core. by apply (keeps_run core _ _ _ _ (core_on_kernel m) Hm). Qed.

(** The records a single-threaded turn may consume, given whether a call is in
    flight: an entry if not, its exit if so, and signals at any time. *)
Inductive solo_step : bool → list LogRecord → bool → Prop :=
| solo_none b : solo_step b [] b
| solo_enter r : kind (event r) = EvSyscallEnter → solo_step false [r] true
| solo_leave r : kind (event r) = EvSyscallExit → solo_step true [r] false
| solo_signal b r : kind (event r) = EvSignal → solo_step b [r] b.

Definition in_call (s : Ses) : bool := bool_decide (is_Some (ss_pending s)).

(** A turn's effect on everything the invariants speak of but checkpoints. *)
Record stepped (add : list LogRecord) (s s' : Ses) : Prop := mkStepped {
  stepped_moved : moved add s s';
  stepped_call : solo_step (in_call s) add (in_call s');
  stepped_rest : (ss_multithreaded s', ss_checkpoint_interval s', ss_checkpoints s', ss_finished s', ss_mt s')
    = (ss_multithreaded s, ss_checkpoint_interval s, ss_checkpoints s, ss_finished s, ss_mt s);
}.

Lemma stepped_one r s s0 s' :
  next_record s = (Ok r, s0) → core s' = core (set_pending (ss_pending s') (set_current_seq (Some (seq r)) s0)) →
  solo_step (in_call s) [r] (in_call s') → stepped [r] s s'.
Proof.
  intros (Hc & Hr & Hs)%next_record_moved Hcore Hstep. unfold core in Hcore. rewrite Hs in Hcore.
  cbn in Hcore. injection Hcore as H1 H2 H3 H4 H5 H6 H7 H8 H9. split; [|done|congruence].
  split; [done| |by rewrite H4].
  rewrite <- Hc. rewrite Hs. unfold consumed. cbn. by rewrite H2, H3.
Qed.

Lemma stepped_none s s' : core s' = core s → stepped [] s s'.
Proof.
  intros Hc. split; [by apply moved_core| |].
  - unfold in_call. unfold core in Hc. injection Hc as H1 H2 H3 H4 H5 H6 H7 H8 H9 H10. rewrite H5. constructor.
  - unfold core in Hc. congruence.
Qed.

Lemma on_entry_stepped regs s u s' :
  on_entry regs s = (Ok u, s') → ss_pending s = None → ∃ r, stepped [r] s s'.
Proof.
  unfold on_entry. intros Hx Hp. st_inv. rename Hm into Hn. destruct (kind (event a)) eqn:Hk; st_inv.
  destruct (negb _); st_inv. exists a.
  match goal with Hw : st_when _ _ _ = (Ok _, ?x) |- _ => apply (keeps_run core) in Hw; [|auto with keeps];
    rename x into s3; rename Hw into Hcore end.
  eapply stepped_one; [exact Hn| |].
  - unfold core in *. cbn in *. congruence.
  - unfold in_call. rewrite Hp. cbn. by constructor.
Qed.

Lemma on_exit_stepped p s u s' :
  on_exit p s = (Ok u, s') → ss_pending s = None → ∃ r, kind (event r) = EvSyscallExit ∧ moved [r] s s' ∧
    core s' = core (set_cursor (ss_cursor s') (set_current_seq (Some (seq r)) s)).
Proof.
  unfold on_exit. intros Hx Hp. st_inv. rename Hm into Hn. destruct (kind (event a)) eqn:Hk; st_inv.
  assert (Hcore : core s' = core (set_current_seq (Some (seq a)) s0)).
  { destruct (inject_addr p); st_inv; [|done].
    repeat match goal with Hw : on_kernel _ _ = _ |- _ =>
      apply (keeps_run core) in Hw; [|auto with keeps] end. congruence. }
  apply next_record_moved in Hn as (Hc & Hr & Hs). exists a. split; [done|].
  rewrite Hs in Hcore. unfold core in Hcore. cbn in Hcore.
  injection Hcore as H1 H2 H3 H4 H5 H6 H7 H8 H9 H10. split.
  - split; [done| |done]. rewrite <- Hc, Hs. unfold consumed. cbn. by rewrite H2, H3.
  - unfold core. cbn. congruence.
Qed.

Lemma moved_pre s0 s add s' :
  ss_records s0 = ss_records s → ss_cursor s0 = ss_cursor s → ss_current_seq s0 = ss_current_seq s →
  moved add s0 s' → moved add s s'.
Proof.
  intros R C Q [R1 C1 Q1]. split; [congruence| |by rewrite Q1, Q].
  rewrite C1. unfold consumed. by rewrite R, C.
Qed.

Lemma stepped_pre s0 s add s' : core s0 = core s → stepped add s0 s' → stepped add s s'.
Proof.
  unfold core. intros [= H1 H2 H3 H4 H5 H6 H7 H8 H9 H10] [Hm Hs Hr]. split; [by eapply moved_pre| |congruence].
  unfold in_call in *. by rewrite <- H5.
Qed.

Lemma on_syscall_stop_stepped s u s' : on_syscall_stop s = (Ok u, s') → ∃ r, stepped [r] s s'.
Proof.
  unfold on_syscall_stop. intros Hx. st_inv.
  match goal with Hk : on_kernel _ _ = (Ok _, ?x) |- _ => apply (keeps_run core) in Hk; [|auto with keeps];
    rename x into s0, Hk into Hm end.
  cbn [ss_pending set_last_regs] in Hx. assert (Hp : ss_pending s0 = ss_pending s) by (unfold core in Hm; congruence).
  match type of Hx with _ ?x = _ => set (s2 := x) in * end.
  assert (Hs2 : core s2 = core (set_pending None s)) by (unfold core in *; cbn; congruence).
  rewrite Hp in Hx. destruct (ss_pending s) as [p|] eqn:Hps.
  - apply on_exit_stepped in Hx as (r & Hk & Hmv & Hc); [|done]. exists r.
    unfold core in Hs2, Hc. cbn in Hs2, Hc. injection Hs2 as H1 H2 H3 H4 H5 H6 H7 H8 H9.
    injection Hc as K1 K2 K4 K5 K6 K7 K8 K9 K10. split; [by apply (moved_pre s2)| |congruence].
    unfold in_call. rewrite Hps, K5. by constructor.
  - apply on_entry_stepped in Hx as [r Hx]; [|done]. exists r. eapply stepped_pre; [|exact Hx].
    rewrite Hs2. unfold core. cbn. by rewrite Hps.
Qed.

Lemma on_signal_stop_stepped sig s u s' : on_signal_stop sig s = (Ok u, s') → ∃ add, (length add ≤ 1)%nat ∧ stepped add s s'.
Proof.
  unfold on_signal_stop. intros Hx. st_inv. apply skip_moved in Hm as [Hmv Hcore].
  match goal with Hc : match _ with _ => _ end _ = (Ok _, ?x) |- _ => rename Hc into Hx, x into s3 end.
  apply core_fields in Hcore as (C1 & C2 & _ & C4 & C5 & C6 & C7 & C8 & C9 & C10).
  cbn [ss_pid ss_records ss_current_seq ss_pending ss_multithreaded ss_checkpoint_interval ss_checkpoints
    ss_finished ss_mt set_cursor] in *.
  assert (Hin : in_call s0 = in_call s) by (unfold in_call; by rewrite C5).
  assert (Hrest : (ss_multithreaded s0, ss_checkpoint_interval s0, ss_checkpoints s0, ss_finished s0, ss_mt s0)
    = (ss_multithreaded s, ss_checkpoint_interval s, ss_checkpoints s, ss_finished s, ss_mt s)) by congruence.
  destruct (ss_records s0 !! ss_cursor s0) as [r|] eqn:Hr; [case_bool_decide as Hk|]; st_inv.
  - destruct (negb _); st_inv. exists [r]. split; [done|]. split.
    + eapply (moved_trans [] [r]); [exact Hmv|]. split; [done| |done]. unfold consumed. cbn [ss_cursor ss_records
        set_cursor set_resume_sig set_current_seq]. apply real_snoc; [done|by rewrite Hk].
    + rewrite <- Hin. by apply solo_signal.
    + exact Hrest.
  - exists []. split; [cbn; lia|]. split; [by eapply moved_same| |exact Hrest].
    change (in_call (set_resume_sig (Some sig) s0)) with (in_call s0). rewrite Hin. constructor.
  - exists []. split; [cbn; lia|]. split; [by eapply moved_same| |exact Hrest].
    change (in_call (set_resume_sig (Some sig) s0)) with (in_call s0). rewrite Hin. constructor.
Qed.

(** ** The invariant of a session *)

(** Entries and exits alternate, with signals between. *)
Inductive solo_log : bool → list LogRecord → bool → Prop :=
| solo_log_nil b : solo_log b [] b
| solo_log_snoc b l b1 add b2 : solo_log b l b1 → solo_step b1 add b2 → solo_log b (l ++ add) b2.

(** The schedule enforced on a record: the tid expected before it, and after. *)
Definition schedule_step (e : option Z) (r : LogRecord) : option (option Z) :=
  match kind (event r) with
  | EvSchedSwitch =>
      match SchedSwitch_decode (payload (event r)) with Ok x => Some (Some (switch_tid x)) | _ => None end
  | EvSyscallEnter | EvSyscallExit | EvThreadSpawn | EvThreadExit | EvSignal =>
      t ← tid (event r);
      match e with
      | None => Some (Some t)
      | Some e => if e =? t then Some (Some e) else None
      end
  | _ => None
  end.
Definition schedule_run (l : list LogRecord) : option (option Z) :=
  foldl (λ acc r, e ← acc; schedule_step e r) (Some None) l.

Definition nondecreasing (l : list Z) : Prop :=
  ∀ i j x y, (i < j)%nat → l !! i = Some x → l !! j = Some y → x ≤ y.

Lemma nondecreasing_snoc l x :
  nondecreasing l → (∀ y, last l = Some y → y ≤ x) → nondecreasing (l ++ [x]).
Proof.
  intros Hl Hx i j a b Hij Ha Hb. apply lookup_snoc_Some in Hb as [[Hj Hb]|[-> <-]].
  - apply lookup_snoc_Some in Ha as [[_ Ha]|[-> _]]; [eapply (Hl i j); eauto|lia].
  - apply lookup_snoc_Some in Ha as [[_ Ha]|[-> _]]; [|lia].
    destruct (last l) as [y|] eqn:Hy; [|apply last_None in Hy; by subst].
    specialize (Hx y eq_refl). rewrite last_lookup in Hy.
    destruct (decide (i = pred (length l))) as [->|Hne]; [congruence|].
    apply lookup_lt_Some in Ha as Hi. assert (a ≤ y) by (eapply (Hl i (pred (length l))); [lia|done..]). lia.
Qed.

(** What a reader gives: sequence numbers are [u64]s in ascending order. *)
Definition records_wf (l : list LogRecord) : Prop :=
  Forall (λ r, in_u 64 (seq r)) l ∧ ascending (seq <$> l).

(** A checkpoint is a position between two calls. *)
Definition checkpoint_ok (l : list LogRecord) (cp : CheckpointInfo) : Prop :=
  let before := real_records (take (cp_cursor cp) l) in
  cp_current_seq cp = Some (cp_seq cp) ∧ seq <$> last before = Some (cp_seq cp) ∧
  solo_log false before false.

Record session_ok (s : Ses) : Prop := mkOk {
  ok_records : records_wf (ss_records s);
  ok_seq : ss_current_seq s = seq <$> last (consumed s);
  ok_finished : ss_finished s ≠ Some OutRunning;
  ok_interval : in_u 64 (ss_checkpoint_interval s);
  ok_checkpoints : Forall (checkpoint_ok (ss_records s)) (ss_checkpoints s);
  ok_order : nondecreasing (cp_seq <$> ss_checkpoints s);
  ok_solo : ss_multithreaded s = false → solo_log false (consumed s) (in_call s);
  ok_multi : ss_multithreaded s = true → ss_checkpoints s = [] ∧
    match ss_mt s with
    | Some m => schedule_run (consumed s) = Some (mt_expected m)
    | None => consumed s = []
    end;
}.

Lemma moved_ok_seq add s s' :
  moved add s s' → ss_current_seq s = seq <$> last (consumed s) →
  ss_current_seq s' = seq <$> last (consumed s').
Proof.
  intros [_ C Q] Hs. rewrite Q, C, last_app. by destruct (last add).
Qed.

Lemma ok_stepped add s s' :
  session_ok s → ss_multithreaded s = false → stepped add s s' → session_ok s'.
Proof.
  intros [O1 O2 O3 O4 O5 O6 O7 O8] Hm [Hmv Hst Hr]. pose proof Hmv as [R C _].
  injection Hr as E1 E2 E3 E4 E5. split; rewrite ?R, ?E1, ?E2, ?E3, ?E4, ?E5; try done.
  - by eapply moved_ok_seq.
  - intros _. rewrite C. econstructor; [by apply O7|done].
  - by rewrite Hm.
Qed.

Lemma ok_core s s' : core s' = core s → session_ok s → session_ok s'.
Proof.
  intros (C1 & C2 & C3 & C4 & C5 & C6 & C7 & C8 & C9 & C10)%core_fields [O1 O2 O3 O4 O5 O6 O7 O8].
  assert (Hc : consumed s' = consumed s) by (unfold consumed; by rewrite C2, C3).
  split; rewrite ?Hc, ?C2, ?C4, ?C6, ?C7, ?C8, ?C9, ?C10; try done.
  unfold in_call. by rewrite C5.
Qed.

Lemma checkpoint_seq_u64 l cp : records_wf l → checkpoint_ok l cp → in_u 64 (cp_seq cp).
Proof.
  intros [Hl _] (_ & Hs & _). destruct (last _) as [r|] eqn:Hr; [|done]. injection Hs as <-.
  apply last_Some_elem_of in Hr. unfold real_records in Hr. apply list_elem_of_filter in Hr as [_ Hr].
  apply elem_of_take in Hr as (i & Hr & _). by eapply Forall_lookup_1 in Hl.
Qed.

Lemma due_after last cur interval y :
  is_checkpoint_due last cur interval = true → in_u 64 interval → last = Some y → in_u 64 y → y ≤ cur.
Proof.
  unfold is_checkpoint_due, saturating_add, in_u. intros Hd Hi -> Hy.
  destruct (interval =? 0); [done|]. apply Z.leb_le in Hd. lia.
Qed.

Lemma ok_new_checkpoint s sq regs snapshot :
  session_ok s → ss_multithreaded s = false → ss_pending s = None → ss_current_seq s = Some sq →
  is_checkpoint_due (cp_seq <$> last (ss_checkpoints s)) sq (ss_checkpoint_interval s) = true →
  session_ok (set_checkpoints (ss_checkpoints s ++
    [mkCheckpoint sq (ss_cursor s) (ss_current_seq s) regs snapshot]) s).
Proof.
  intros [O1 O2 O3 O4 O5 O6 O7 O8] Hm Hp Hq Hdue. split; try done; cbn [ss_records ss_checkpoints
    ss_multithreaded set_checkpoints].
  - apply Forall_app. split; [done|]. apply Forall_singleton. split; [done|].
    cbn [cp_cursor cp_seq]. rewrite O2 in Hq. split; [done|].
    specialize (O7 Hm). unfold in_call in O7. by rewrite Hp in O7.
  - rewrite fmap_app. apply nondecreasing_snoc; [done|]. intros y Hy. rewrite fmap_last in Hy. cbn.
    eapply due_after; [exact Hdue|done|exact Hy|].
    destruct (last (ss_checkpoints s)) as [cp|] eqn:Hcp; [|done]. injection Hy as <-.
    eapply checkpoint_seq_u64; [exact O1|]. apply last_Some_elem_of in Hcp.
    rewrite Forall_forall in O5. by apply O5.
  - by rewrite Hm.
Qed.

Lemma maybe_checkpoint_ok s u s' :
  session_ok s → ss_multithreaded s = false → maybe_checkpoint s = (Ok u, s') →
  session_ok s' ∧ moved [] s s' ∧ ss_multithreaded s' = false ∧ ss_finished s' = ss_finished s.
Proof.
  intros Hok Hm Hx. unfold maybe_checkpoint in Hx. st_inv. rewrite Hm in Hx.
  pose proof (conj Hok (conj (moved_refl s) (conj Hm (eq_refl (ss_finished s))))) as Hnop.
  cbv iota in Hx. st_inv. case_bool_decide as Hp; st_inv; [exact Hnop|].
  destruct (ss_current_seq s) as [sq|] eqn:Hsq; st_inv; [|exact Hnop].
  destruct (negb _) eqn:Hdue; st_inv; [exact Hnop|]. apply negb_false_iff in Hdue.
  match goal with Hk : on_kernel _ _ = (Ok _, _) |- _ => apply (keeps_run core) in Hk; [|auto with keeps];
    rename Hk into Hc end.
  pose proof (ok_core _ _ Hc Hok) as Hok1. pose proof (moved_core _ _ Hc) as Hmv.
  apply core_fields in Hc as (_ & _ & _ & C4 & C5 & C6 & C7 & C8 & C9 & _).
  split; [|split; [by eapply moved_same|split; [by rewrite <- Hm, <- C6|done]]].
  apply ok_new_checkpoint; [done|congruence| |congruence|by rewrite C7, C8].
  rewrite C5. by apply eq_None_not_Some.
Qed.

(** ** Order *)

Lemma ascending_cons x l : ascending (x :: l) ↔ Forall (λ y, x < y) l ∧ ascending l.
Proof.
  split.
  - intros Ha. split.
    + apply Forall_lookup_2. intros i y Hy. apply (Ha 0%nat (S i)); [lia|done..].
    + intros i j a b Hij Hi Hj. apply (Ha (S i) (S j)); [lia|done..].
  - intros [Hx Ha] [|i] [|j] a b Hij Hi Hj; cbn in *; try lia.
    + injection Hi as <-. by eapply Forall_lookup_1 in Hx.
    + apply (Ha i j); [lia|done..].
Qed.

Lemma ascending_take n l : ascending l → ascending (take n l).
Proof.
  intros Ha i j a b Hij Hi Hj. apply lookup_take_Some in Hi as [Hi _], Hj as [Hj _]. by apply (Ha i j).
Qed.

Lemma ascending_real l : ascending (seq <$> l) → ascending (seq <$> real_records l).
Proof.
  induction l as [|r l IH]; [done|]. rewrite fmap_cons, ascending_cons. intros [Hr Hl].
  unfold real_records in *. rewrite filter_cons. case_decide; [|by apply IH].
  rewrite fmap_cons, ascending_cons. split; [|by apply IH].
  apply Forall_fmap, Forall_forall. intros x [_ Hx]%list_elem_of_filter.
  rewrite Forall_forall in Hr. apply Hr. by apply list_elem_of_fmap_2.
Qed.

Lemma consumed_ascending s : session_ok s → ascending (seq <$> consumed s).
Proof.
  intros [[_ Ha] _ _ _ _ _ _ _]. unfold consumed. apply ascending_real. rewrite fmap_take.
  by apply ascending_take.
Qed.

Lemma ascending_last c r : ascending (seq <$> (c ++ [r])) → Forall (λ x, seq x < seq r) c.
Proof.
  intros Ha. apply Forall_lookup_2. intros i x Hx. assert (Hi := lookup_lt_Some _ _ _ Hx).
  apply (Ha i (length c)); [done|..].
  - rewrite list_lookup_fmap, lookup_app_l by done. by rewrite Hx.
  - rewrite list_lookup_fmap, lookup_app_r, Nat.sub_diag by done. done.
Qed.

Lemma not_reached_below target s :
  session_ok s → reached (Some target) s = false → Forall (λ r, seq r < target) (consumed s).
Proof.
  intros Hok Hr. pose proof (consumed_ascending s Hok) as Ha. unfold reached in Hr.
  rewrite (ok_seq s Hok) in Hr. destruct (consumed s) as [|r c _] using rev_ind; [constructor|].
  rewrite last_snoc in Hr. cbn in Hr. apply Z.leb_gt in Hr. apply ascending_last in Ha.
  apply Forall_app. split; [|by apply Forall_singleton]. eapply Forall_impl; [exact Ha|]. cbn. lia.
Qed.

(** ** Turns and loops *)

(** The session at the end of a run: nothing consumed, or all but the last
    record below the target. *)
Definition lands (stop_at : option Z) (s s' : Ses) : Prop :=
  consumed s' = consumed s ∨
  ∃ c r, consumed s' = c ++ [r] ∧ ∀ target, stop_at = Some target → Forall (λ x, seq x < target) c.

Definition ended (stop_at : option Z) (o : ExitOutcome) (s s' : Ses) : Prop :=
  session_ok s' ∧ ss_records s' = ss_records s ∧ ss_multithreaded s' = ss_multithreaded s ∧
  match o with
  | OutRunning => reached stop_at s' = true ∧ lands stop_at s s' ∧ ss_finished s' = ss_finished s
  | _ => ss_finished s' = Some o
  end.

(** One turn of either driver. *)
Definition turned (stop_at : option Z) (t : turn) (s s' : Ses) : Prop :=
  match t with
  | Return OutRunning => reached stop_at s = true ∧ s' = s
  | Return o => session_ok s' ∧ ss_records s' = ss_records s ∧ ss_multithreaded s' = ss_multithreaded s ∧
      ss_finished s' = Some o
  | Continue => reached stop_at s = false ∧ session_ok s' ∧ ss_multithreaded s' = ss_multithreaded s ∧
      ss_finished s' = ss_finished s ∧ ∃ add, (length add ≤ 1)%nat ∧ moved add s s'
  end.

Lemma turned_stepped stop_at add s s' :
  session_ok s → ss_multithreaded s = false → reached stop_at s = false → (length add ≤ 1)%nat →
  stepped add s s' → turned stop_at Continue s s'.
Proof.
  intros Hok Hm Hr Hl Hs. split; [done|]. split; [by eapply ok_stepped|].
  destruct Hs as [Hmv _ Hrest]. injection Hrest as E _ _ F _. split; [done|]. split; [done|eauto].
Qed.

Lemma turned_finish stop_at o s s0 s' t :
  session_ok s → core s0 = core s → o ≠ OutRunning →
  (o ← finish o; mret (Return o)) s0 = (Ok t, s') → turned stop_at t s s'.
Proof.
  intros Hok Hc Ho [= <- <-]. pose proof (ok_core _ _ Hc Hok) as [O1 O2 O3 O4 O5 O6 O7 O8].
  apply core_fields in Hc as (_ & C2 & _ & _ & _ & C6 & _).
  assert (Hok' : session_ok (set_finished (Some o) s0)) by (split; try done; cbn; congruence).
  destruct o; done.
Qed.

Lemma drive_turn_ok stop_at s t s' :
  session_ok s → ss_multithreaded s = false → drive_turn stop_at s = (Ok t, s') → turned stop_at t s s'.
Proof.
  intros Hok Hm Hx. unfold drive_turn in Hx. st_inv. destruct (reached stop_at s) eqn:Hr; st_inv; [done|].
  repeat match goal with Hk : on_kernel _ _ = (Ok _, _) |- _ => apply (keeps_run core) in Hk; [|auto with keeps] end.
  match type of Hx with match ?x with _ => _ end ?y = _ => rename x into st, y into s4 end.
  assert (Hc : core s4 = core s) by (etransitivity; [eassumption|]; done).
  destruct st as [p|p ev|p sg|p code|p sg|]; try (eapply turned_finish; [exact Hok|exact Hc| |exact Hx]; done);
    st_inv; try (by eapply (turned_stepped _ []); [..|cbn; lia|apply stepped_none]).
  - match goal with Hk : on_syscall_stop _ = _ |- _ => apply on_syscall_stop_stepped in Hk as [r Hs] end.
    apply (stepped_pre _ _ _ _ Hc) in Hs.
    pose proof (turned_stepped _ [r] _ _ Hok Hm Hr (le_n 1) Hs) as (_ & Hok1 & Hm1' & Hf1' & _).
    match goal with Hk : maybe_checkpoint _ = _ |- _ => apply maybe_checkpoint_ok in Hk as (Hok2 & Hmv2 & Hm2' & Hf2') end;
      [|done|congruence].
    split; [done|]. split; [done|]. split; [congruence|]. split; [congruence|]. exists [r]. split; [done|].
    eapply (moved_trans [r] []); [apply Hs|done].
  - match goal with Hk : (if sg =? SIGTRAP then _ else _) _ = (Ok ?b, ?x) |- _ =>
      apply (keeps_run core) in Hk; [|auto with keeps]; rename b into hit, x into s5 end.
    assert (Hc5 : core s5 = core s) by congruence. destruct hit.
    + match goal with Hk : on_watch_hit _ _ = _ |- _ => apply (keeps_run core) in Hk; [|auto with keeps] end.
      eapply (turned_stepped _ []); [done..|cbn; lia|]. apply stepped_none. congruence.
    + match goal with Hk : on_signal_stop _ _ = _ |- _ => apply on_signal_stop_stepped in Hk as (add & Hl & Hs) end.
      eapply turned_stepped; [done..|exact Hl|]. by eapply stepped_pre.
Qed.

(** ** The schedule-enforcing driver *)

(** Everything the drivers' position depends on, the expected tid included. *)
Definition mcore (s : Ses) :=
  (ss_records s, ss_cursor s, ss_current_seq s, ss_multithreaded s, ss_checkpoint_interval s,
   ss_checkpoints s, ss_finished s, mt_expected <$> ss_mt s).

Lemma mcore_core s s' : core s' = core s → mcore s' = mcore s.
Proof.
  intros (C1 & C2 & C3 & C4 & C5 & C6 & C7 & C8 & C9 & C10)%core_fields. unfold mcore. congruence.
Qed.

Lemma keeps_mcore {A} (m : M A) : keeps core m → keeps mcore m.
Proof. intros Hm s. apply mcore_core, Hm. Qed.

Lemma mcore_on_kernel {A} (m : stm W ReplayError A) : keeps mcore (on_kernel m).
Proof. apply keeps_mcore, core_on_kernel. Qed.
Lemma mcore_step_thread fuel live sig : keeps mcore (step_thread fuel live sig).
Proof. apply keeps_mcore, core_step_thread. Qed.
#[local] Hint Resolve mcore_on_kernel mcore_step_thread : keeps.

(** The helpers that change the [MtState] but not the expected tid. *)
Ltac mt_state := intros s; unfold bind_tid, update_rt, state, put_state, mbind, stm_bind, st_gets, st_lift, st_modify;
  destruct (ss_mt s) as [m|] eqn:Hmt; cbn; rewrite ?Hmt; cbn; [|done].

Lemma mcore_state : keeps mcore state.
Proof. by mt_state. Qed.

Lemma mcore_update live f : keeps mcore (update_rt live f).
Proof. mt_state. destruct (mt_threads m !! live); [|done]. unfold mcore. cbn. by rewrite Hmt. Qed.

Lemma mcore_bind sq t live : keeps mcore (bind_tid sq t live).
Proof.
  mt_state. destruct (bind t live (mt_tidmap m)) as [r tm]. cbn. unfold mcore. cbn. by rewrite Hmt.
Qed.
#[local] Hint Resolve mcore_state mcore_update mcore_bind : keeps.

Lemma mcore_take_signal live : keeps mcore (mt_take_resume_signal live).
Proof. unfold mt_take_resume_signal. auto with keeps. Qed.

Lemma mcore_set_pending live p : keeps mcore (set_rt_pending live p).
Proof. unfold set_rt_pending. auto with keeps. Qed.

Lemma mcore_take_pending live : keeps mcore (take_pending live).
Proof. unfold take_pending. auto with keeps. Qed.

Lemma mcore_live_for t sq : keeps mcore (live_for t sq).
Proof.
  unfold live_for. apply keeps_bind; [auto with keeps|]. intros m. destruct (live_of _ _); auto with keeps.
Qed.

Lemma mcore_remove t live : keeps mcore (remove_thread t live).
Proof. unfold remove_thread. mt_state. unfold mcore. cbn. by rewrite Hmt. Qed.

Lemma mcore_bind_child sq t child parent v : keeps mcore (bind_child sq t child parent v).
Proof.
  unfold bind_child. apply keeps_bind; [auto with keeps|]. intros _.
  intros s. unfold state, put_state, st_when, mret, stm_ret, mbind, stm_bind, st_gets, st_lift, st_modify.
  destruct (ss_mt s) as [m|] eqn:Hmt; cbn; [|done]. destruct v; cbn; unfold mcore; cbn; by rewrite Hmt.
Qed.

Lemma mcore_register child sq : keeps mcore (mt_register_child child sq).
Proof. unfold mt_register_child. auto 20 with keeps. Qed.
#[local] Hint Resolve mcore_take_signal mcore_set_pending mcore_take_pending mcore_live_for mcore_remove
  mcore_bind_child mcore_register : keeps.

(** The records a thread makes. *)
Definition is_thread_kind (k : EventKind) : bool :=
  match k with EvSyscallEnter | EvSyscallExit | EvThreadSpawn | EvThreadExit | EvSignal => true | _ => false end.

Lemma enforce_tid_ok record (s : Ses) t s' :
  enforce_tid record s = (Ok t, s') → is_thread_kind (kind (event record)) = true →
  ∃ e, mt_expected <$> ss_mt s = Some e ∧ schedule_step e record = Some (Some t) ∧
    mcore s' = mcore (set_mt (ss_mt s') s) ∧ mt_expected <$> ss_mt s' = Some (Some t).
Proof.
  unfold enforce_tid, state, put_state. intros Hx Hk. st_inv.
  repeat match goal with
  | Ho : ok_or _ ?o = Ok _ |- _ => destruct o eqn:?; [injection Ho as ->|done]
  | Ho : expect ?o = Ok _ |- _ => destruct o eqn:?; [injection Ho as ->|done]
  end.
  assert (Hst : ∀ e, schedule_step e record = match e with None => Some (Some a)
    | Some e => if e =? a then Some (Some e) else None end).
  { intros e. unfold schedule_step. destruct (kind (event record)); try done;
      match goal with Ht : tid _ = Some _ |- _ => by rewrite Ht end. }
  match goal with Hm : ss_mt _ = Some ?m |- _ => rename m into mm, Hm into Hmt end.
  destruct (mt_expected mm) as [e|] eqn:He.
  - destruct (Z.eqb_spec e a) as [->|]; st_inv. exists (Some a). cbn.
    rewrite He, Hst, Z.eqb_refl. split; [done|]. split; [done|].
    split; [unfold mcore; cbn; by rewrite Hmt|by rewrite Hmt; cbn; rewrite He].
  - st_inv. exists None. cbn. by rewrite He, Hst.
Qed.

(** What consuming one record does to the position. *)
Definition mt_stepped (r : LogRecord) (s s' : Ses) : Prop :=
  ∃ e e', mt_expected <$> ss_mt s = Some e ∧ schedule_step e r = Some e' ∧
    mcore s' = (ss_records s, S (ss_cursor s), Some (seq r), ss_multithreaded s,
      ss_checkpoint_interval s, ss_checkpoints s, ss_finished s, Some e').

Lemma enforced_advance record s t s1 s2 u s' :
  enforce_tid record s = (Ok t, s1) → is_thread_kind (kind (event record)) = true →
  mcore s2 = mcore s1 → advance (seq record) s2 = (Ok u, s') → mt_stepped record s s'.
Proof.
  intros He Hk Hc Ha. destruct (enforce_tid_ok _ _ _ _ He Hk) as (e & H1 & H2 & H3 & H4).
  unfold advance in Ha. st_inv. exists e, (Some t). split; [done|]. split; [done|].
  rewrite H3 in Hc. unfold mcore in *. cbn in *. rewrite H4 in Hc.
  injection Hc as E1 E2 E3 E4 E5 E6 E7 E8. congruence.
Qed.

Lemma on_sched_switch_stepped record s u s' :
  on_sched_switch record s = (Ok u, s') → kind (event record) = EvSchedSwitch → mt_stepped record s s'.
Proof.
  unfold on_sched_switch, state, put_state, advance. intros Hx Hk. st_inv.
  repeat match goal with
  | Ho : expect ?o = Ok _ |- _ => destruct o eqn:?; [injection Ho as ->|done]
  | Ho : map_err _ ?o = Ok _ |- _ => destruct o eqn:?; cbn in Ho; [injection Ho as ->|done..]
  end.
  match goal with Hm : ss_mt s = Some ?m |- _ => exists (mt_expected m), (Some (switch_tid a)); rewrite Hm end.
  split; [done|]. split; [|done]. unfold schedule_step. rewrite Hk.
  match goal with Hd : SchedSwitch_decode _ = _ |- _ => by rewrite Hd end.
Qed.

Lemma stepping_ok {A} (m : M (option wait_status)) (f : wait_status → M A) s a s' :
  stepping m f s = (Ok (Some a), s') → ∃ st s1, m s = (Ok (Some st), s1) ∧ f st s1 = (Ok a, s').
Proof.
  unfold stepping. intros Hx. apply st_bind_ok in Hx as ([st|] & s1 & Hm & Hx); [|done].
  apply st_bind_ok in Hx as (a' & s2 & Hf & [= <- <-]). eauto.
Qed.

(** Run through the steps before [advance], all of which keep the position. *)
Ltac mt_prefix :=
  repeat match goal with
  | Hk : enforce_tid _ _ = (Ok _, _) |- _ => revert Hk
  | Hk : advance _ _ = (Ok _, _) |- _ => revert Hk
  | Hk : ?m ?x = (Ok _, ?y) |- _ => apply (keeps_run mcore) in Hk; [|solve [auto 20 with keeps]]
  end; intros.

(** ... and conclude from the advance. *)
Ltac mt_finish :=
  mt_prefix;
  repeat match goal with
  | Hk : context [mcore (set_last_regs ?x ?y)] |- _ => change (mcore (set_last_regs x y)) with (mcore y) in Hk
  end;
  match goal with He : enforce_tid _ _ = _, Ha : advance _ _ = _ |- _ =>
    eapply (enforced_advance _ _ _ _ _ _ _ He); [| |exact Ha] end;
  [match goal with Hk : kind _ = _ |- _ => by rewrite Hk end|repeat (etransitivity; [eassumption|]); done].

Lemma on_syscall_enter_stepped fuel record s u s' :
  on_syscall_enter fuel record s = (Ok (Some u), s') → kind (event record) = EvSyscallEnter →
  mt_stepped record s s'.
Proof.
  unfold on_syscall_enter. intros Hx Hk. st_inv. apply stepping_ok in Hx as (st & s5 & Hst & Hx).
  destruct st; try (unfold wrong_stop in Hx; by st_inv). st_inv. destruct (negb _); st_inv.
  destruct (classify _ _) as [sup addr]. st_inv. mt_finish.
Qed.

Lemma on_syscall_exit_stepped fuel record s u s' :
  on_syscall_exit fuel record s = (Ok (Some u), s') → kind (event record) = EvSyscallExit →
  mt_stepped record s s'.
Proof.
  unfold on_syscall_exit. intros Hx Hk. st_inv. apply stepping_ok in Hx as (st & s5 & Hst & Hx).
  destruct st; try (unfold wrong_stop in Hx; by st_inv). st_inv.
  match type of Hx with (match ?p with _ => _ end) _ = _ => destruct p as [p|] end; st_inv. mt_finish.
Qed.

Lemma on_signal_stepped fuel record s u s' :
  on_signal fuel record s = (Ok (Some u), s') → kind (event record) = EvSignal →
  mt_stepped record s s'.
Proof.
  unfold on_signal. intros Hx Hk. st_inv. apply stepping_ok in Hx as (st & s5 & Hst & Hx).
  destruct st; try (unfold wrong_stop in Hx; by st_inv). st_inv. destruct (negb _); st_inv. mt_finish.
Qed.

Lemma on_thread_spawn_stepped fuel record s u s' :
  on_thread_spawn fuel record s = (Ok (Some u), s') → kind (event record) = EvThreadSpawn →
  mt_stepped record s s'.
Proof.
  unfold on_thread_spawn. intros Hx Hk. st_inv. apply stepping_ok in Hx as (st & s5 & Hst & Hx).
  unfold wrong_stop in Hx. st_inv. mt_finish.
Qed.

(** A thread's exit moves the position; the leader's ends the replay. *)
Lemma on_thread_exit_stepped fuel record s r s' :
  on_thread_exit fuel record s = (Ok (Some r), s') → kind (event record) = EvThreadExit →
  ∃ s1, mt_stepped record s s1 ∧
    match r with Some o => o ≠ OutRunning ∧ mcore s' = mcore (set_finished (Some o) s1) | None => mcore s' = mcore s1 end.
Proof.
  unfold on_thread_exit. intros Hx Hk. st_inv. apply stepping_ok in Hx as (st & s5 & Hst & Hx).
  unfold wrong_stop in Hx. st_inv.
  match goal with Ha : advance _ _ = (Ok _, ?x) |- _ => exists x; rename x into s9 end.
  match goal with Ho : match st with _ => _ end _ = (Ok ?o, _) |- _ =>
    assert (Hrun : o ≠ OutRunning) by (clear -Ho; destruct st; st_inv; by subst) end.
  split.
  - clear Hx Hrun. mt_finish.
  - destruct (_ =? _); st_inv; by subst.
Qed.

(** ** Turns of the schedule-enforcing driver *)

Lemma mt_stepped_moved r s s' :
  mt_stepped r s s' → ss_records s !! ss_cursor s = Some r → kind (event r) ≠ EvCheckpoint →
  moved [r] s s'.
Proof.
  intros (e & e' & _ & _ & Hc) Hr Hk. unfold mcore in Hc. injection Hc as C1 C2 C3 _ _ _ _ _.
  split; [done| |done]. unfold consumed. by rewrite C1, C2, (real_snoc _ _ _ Hr Hk).
Qed.

Lemma schedule_run_snoc l r e e' :
  schedule_run l = Some e → schedule_step e r = Some e' → schedule_run (l ++ [r]) = Some e'.
Proof. unfold schedule_run. intros Hl Hr. rewrite foldl_app, Hl. done. Qed.

Lemma ok_mt_stepped r s s' :
  session_ok s → ss_multithreaded s = true → ss_records s !! ss_cursor s = Some r →
  kind (event r) ≠ EvCheckpoint → mt_stepped r s s' → session_ok s'.
Proof.
  intros [O1 O2 O3 O4 O5 O6 O7 O8] Hm Hr Hk Hs. pose proof (mt_stepped_moved _ _ _ Hs Hr Hk) as Hmv.
  destruct Hs as (e & e' & He & He' & Hc). unfold mcore in Hc. injection Hc as C1 C2 C3 C4 C5 C6 C7 C8.
  split; rewrite ?C1, ?C4, ?C5, ?C6, ?C7; try done.
  - by eapply moved_ok_seq.
  - congruence.
  - intros _. destruct (O8 Hm) as [Hcp Hmt]. split; [done|].
    destruct (ss_mt s) as [m|]; [|done]. destruct (ss_mt s') as [m'|]; [|done]. cbn in *.
    injection He as <-. injection C8 as <-. rewrite (moved_consumed _ _ _ Hmv).
    by eapply schedule_run_snoc.
Qed.

(** Where the consumed part ends when the driver returns an outcome. *)
Definition leader_gone (s : Ses) : Prop :=
  ∃ r, last (consumed s) = Some r ∧ kind (event r) = EvThreadExit.

Definition dispatched (r : option ExitOutcome) (s s' : Ses) : Prop :=
  session_ok s' ∧ ss_multithreaded s' = true ∧ ss_records s' = ss_records s ∧
  (∃ add, (length add ≤ 1)%nat ∧ moved add s s') ∧
  match r with
  | Some o => o ≠ OutRunning ∧ ss_finished s' = Some o ∧ leader_gone s'
  | None => ss_finished s' = ss_finished s
  end.

Lemma ok_mcore s s' : mcore s' = mcore s → ss_multithreaded s = true → session_ok s → session_ok s'.
Proof.
  unfold mcore. intros [= C1 C2 C3 C4 C5 C6 C7 C8] Hm [O1 O2 O3 O4 O5 O6 O7 O8].
  assert (Hc : consumed s' = consumed s) by (unfold consumed; by rewrite C1, C2).
  split; rewrite ?Hc, ?C1, ?C3, ?C4, ?C5, ?C6, ?C7; try done; [congruence|].
  intros _. destruct (O8 Hm) as [Hcp Hmt]. split; [done|].
  destruct (ss_mt s), (ss_mt s'); try done. injection C8 as ->. done.
Qed.

Lemma dispatched_record record s s' :
  session_ok s → ss_multithreaded s = true → ss_records s !! ss_cursor s = Some record →
  kind (event record) ≠ EvCheckpoint → mt_stepped record s s' → dispatched None s s'.
Proof.
  intros Hok Hm Hr Hk Hs. pose proof (mt_stepped_moved _ _ _ Hs Hr Hk) as Hmv.
  pose proof (ok_mt_stepped _ _ _ Hok Hm Hr Hk Hs) as Hok'.
  destruct Hs as (e & e' & _ & _ & Hc). unfold mcore in Hc. injection Hc as C1 C2 C3 C4 C5 C6 C7 C8.
  split; [done|]. split; [congruence|]. split; [done|]. split; [by exists [record]|congruence].
Qed.

Lemma dispatched_exit record s s1 s' r :
  session_ok s → ss_multithreaded s = true → ss_records s !! ss_cursor s = Some record →
  kind (event record) = EvThreadExit → mt_stepped record s s1 →
  match r with Some o => o ≠ OutRunning ∧ mcore s' = mcore (set_finished (Some o) s1) | None => mcore s' = mcore s1 end →
  dispatched r s s'.
Proof.
  intros Hok Hm Hr Hk Hs Hc. assert (Hk' : kind (event record) ≠ EvCheckpoint) by (by rewrite Hk).
  pose proof (mt_stepped_moved _ _ _ Hs Hr Hk') as Hmv.
  destruct (dispatched_record _ _ _ Hok Hm Hr Hk' Hs) as (Hok1 & Hm1 & Hr1 & _ & Hf1).
  set (s2 := match r with Some o => set_finished (Some o) s1 | None => s1 end).
  assert (Hc2 : mcore s' = mcore s2) by (unfold s2; destruct r; [apply Hc|done]).
  assert (Hok2 : session_ok s2).
  { unfold s2. destruct r as [o|]; [|done]. destruct Hc as [Ho _]. destruct Hok1. split; try done. cbn. congruence. }
  assert (Hm2 : ss_multithreaded s2 = true) by (unfold s2; by destruct r).
  assert (Hmv2 : moved [record] s s2) by (eapply moved_same; [exact Hmv|unfold s2; by destruct r..]).
  split; [by eapply ok_mcore|]. unfold mcore in Hc2. injection Hc2 as C1 C2 C3 C4 C5 C6 C7 C8.
  split; [congruence|]. split; [rewrite C1; apply Hmv2|].
  assert (Hmv' : moved [record] s s') by by eapply moved_same.
  split; [by exists [record]|]. unfold s2 in C7. destruct r as [o|]; [|congruence].
  split; [apply Hc|]. split; [done|]. exists record. split; [|done].
  by rewrite (moved_consumed _ _ _ Hmv'), last_snoc.
Qed.

Lemma mt_dispatch_ok fuel record s r s' :
  session_ok s → ss_multithreaded s = true → ss_records s !! ss_cursor s = Some record →
  mt_dispatch fuel record s = (Ok (Some r), s') → dispatched r s s'.
Proof.
  intros Hok Hm Hr Hx. unfold mt_dispatch in Hx.
  destruct (kind (event record)) eqn:Hk; st_inv;
    try (match goal with Hh : ?f ?s0 = (Ok ?o, ?x) |- dispatched ?r ?s0 ?x => is_var o; destruct o as [?|]; [|done] end);
    try match goal with Hs : Some _ = _ |- _ => injection Hs as -> end.
  all: try (eapply dispatched_record; [done..|by rewrite Hk|];
    first [by eapply on_syscall_enter_stepped|by eapply on_syscall_exit_stepped|by eapply on_signal_stepped
          |by eapply on_thread_spawn_stepped|by eapply on_sched_switch_stepped]).
  - split; [|split; [done|split; [done|split; [|done]]]].
    + pose proof Hok as [O1 O2 O3 O4 O5 O6 O7 O8].
      assert (Hc : consumed (set_cursor (S (ss_cursor s)) s) = consumed s) by by eapply real_checkpoint.
      by split; rewrite ?Hc.
    + exists []. split; [cbn; lia|]. split; [done| |done].
      rewrite app_nil_r. by eapply real_checkpoint.
  - destruct (on_thread_exit_stepped _ _ _ _ _ Hx Hk) as (s1 & Hs & Hc). by eapply dispatched_exit.
Qed.

Lemma mt_turn_ok steps stop_at s t s' :
  session_ok s → ss_multithreaded s = true → mt_turn steps stop_at s = (Ok (Some t), s') →
  turned stop_at t s s' ∧ match t with Return OutRunning | Continue => True | Return _ => leader_gone s' end.
Proof.
  intros Hok Hm Hx. unfold mt_turn in Hx. st_inv. destruct (reached stop_at s) eqn:Hr; st_inv.
  { by simplify_eq. }
  destruct (ss_records s !! ss_cursor s) as [record|] eqn:Hrec; st_inv.
  destruct a as [r|]; [|done].
  match goal with Hd : mt_dispatch _ _ _ = _ |- _ =>
    apply mt_dispatch_ok in Hd as (H1 & H2 & H3 & H4 & H5); [|done..] end.
  destruct r as [o|]; simplify_eq.
  - destruct H5 as (Ho & Hf & Hg). split; [|by destruct o]. destruct o; try done; (split; [done|]);
      (split; [done|]); (split; [congruence|done]).
  - split; [|done]. split; [done|]. split; [done|]. split; [congruence|]. split; [congruence|done].
Qed.

(** ** The loops *)

Lemma lands_refl stop_at s : lands stop_at s s.
Proof. by left. Qed.

Lemma ended_continue stop_at o s s1 s' :
  session_ok s → turned stop_at Continue s s1 → ended stop_at o s1 s' → ended stop_at o s s'.
Proof.
  intros Hok (Hr & _ & Hm & Hf & add & Hl & Hmv) (Hok' & Hrec & Hm' & Ho).
  split; [done|]. split; [rewrite Hrec; apply Hmv|]. split; [congruence|]. destruct o; try done.
  destruct Ho as [Hre [Hlands Hfin]]. split; [done|]. split; [|congruence].
  destruct Hlands as [Hc|(c & r & Hc & Hlow)].
  - rewrite (moved_consumed _ _ _ Hmv) in Hc. destruct add as [|r [|? ?]]; [|right|cbn in Hl; lia].
    + left. by rewrite Hc, app_nil_r.
    + exists (consumed s), r. split; [done|]. intros target ->. by apply not_reached_below.
  - right. eauto.
Qed.

Lemma ended_return stop_at o s s' : session_ok s → turned stop_at (Return o) s s' → ended stop_at o s s'.
Proof.
  intros Hok. destruct o; cbn; [intros (? & ? & ? & ?)|intros (? & ? & ? & ?)|intros [? ->]];
    (split; [done|split; [done|split; [done|]]]); try done. split; [done|]. split; [apply lands_refl|done].
Qed.

Lemma turned_continue_ok stop_at s s' :
  turned stop_at Continue s s' → session_ok s' ∧ ss_multithreaded s' = ss_multithreaded s.
Proof. by intros (_ & Hok & Hm & _). Qed.

Lemma drive_loop_ended fuel stop_at : ∀ s o s',
  session_ok s → ss_multithreaded s = false → drive_loop fuel stop_at s = (Ok (Some o), s') →
  ended stop_at o s s'.
Proof.
  induction fuel as [|fuel IH]; intros s o s' Hok Hm Hx; [done|]. cbn in Hx. st_inv.
  match goal with Ht : drive_turn _ _ = _ |- _ => apply drive_turn_ok in Ht as Ht' end; [|done..].
  destruct a as [|o']; st_inv; [|simplify_eq; by apply ended_return].
  destruct (turned_continue_ok _ _ _ Ht') as [Hok1 Hm1]. eapply ended_continue; [done..|].
  eapply IH; [done|congruence|done].
Qed.

Lemma mt_drive_loop_ended fuel steps stop_at : ∀ s o s',
  session_ok s → ss_multithreaded s = true → mt_drive_loop fuel steps stop_at s = (Ok (Some o), s') →
  ended stop_at o s s' ∧ (o ≠ OutRunning → leader_gone s').
Proof.
  induction fuel as [|fuel IH]; intros s o s' Hok Hm Hx; [done|]. cbn in Hx. st_inv.
  destruct a as [t|]; [|done].
  match goal with Ht : mt_turn _ _ _ = _ |- _ => apply mt_turn_ok in Ht as [Ht' Hg] end; [|done..].
  destruct t as [|o']; st_inv.
  - destruct (turned_continue_ok _ _ _ Ht') as [Hok1 Hm1].
    destruct (IH _ _ _ Hok1 ltac:(congruence) Hx) as [He Hl]. split; [by eapply ended_continue|done].
  - simplify_eq. split; [by apply ended_return|]. by destruct o'.
Qed.

(** [ensure_state] changes the position only by making the state it needs. *)
Lemma ensure_state_ok s u s' :
  session_ok s → ss_multithreaded s = true → ensure_state s = (Ok u, s') →
  session_ok s' ∧ ss_multithreaded s' = true ∧ moved [] s s' ∧ ss_finished s' = ss_finished s.
Proof.
  intros Hok Hm Hx. unfold ensure_state, put_state in Hx. st_inv. case_bool_decide as Hmt; st_inv.
  { split; [done|]. split; [done|]. split; [apply moved_refl|done]. }
  match goal with Hk : on_kernel _ _ = (Ok _, ?x) |- _ => apply (keeps_run core) in Hk; [|auto with keeps];
    rename Hk into Hc, x into s1 end.
  pose proof (ok_core _ _ Hc Hok) as Hok1. pose proof (moved_core _ _ Hc) as Hmv.
  apply core_fields in Hc as (C1 & C2 & C3 & C4 & C5 & C6 & C7 & C8 & C9 & C10).
  split; [|split; [cbn; congruence|split; [by eapply moved_same|done]]].
  destruct Hok1 as [O1 O2 O3 O4 O5 O6 O7 O8]. split; try done.
  intros Hm1. destruct (O8 Hm1) as [Hcp Hn]. split; [done|].
  rewrite C10 in Hn. destruct (ss_mt s); [by destruct Hmt; eauto|]. cbn [ss_mt set_mt].
  match goal with |- schedule_run ?c = _ => change c with (consumed s1) end. by rewrite Hn.
Qed.

(** ** Going back *)

#[local] Hint Resolve core_kill core_rearm : keeps.

(** The steps that keep the core, one after the other. *)
Ltac core_prefix :=
  repeat match goal with
  | Hk : ?m ?x = (Ok _, ?y) |- _ => apply (keeps_run core) in Hk; [|solve [auto 20 with keeps]]
  end.

Lemma respawn_ok s u s' :
  session_ok s → respawn s = (Ok u, s') →
  session_ok s' ∧ ss_records s' = ss_records s ∧ ss_multithreaded s' = ss_multithreaded s ∧
  consumed s' = [] ∧ ss_current_seq s' = None ∧ ss_finished s' = None.
Proof.
  intros Hok Hx. unfold respawn in Hx. st_inv. core_prefix.
  match type of Hx with _ = core (set_mt _ (set_finished _ (set_last_regs _ (set_resume_sig _ (set_pending _
    (set_current_seq _ (set_cursor _ (set_pid _ ?x)))))))) => assert (Hc : core x = core s) by congruence;
    set (s5 := set_mt _ _) in * end.
  pose proof (ok_core _ _ Hc Hok) as [O1 O2 O3 O4 O5 O6 O7 O8].
  assert (Hok5 : session_ok s5).
  { split; try done. - intros _. apply solo_log_nil. - intros Hmu. by destruct (O8 Hmu). }
  apply core_fields in Hc as (C1 & C2 & C3 & C4 & C5 & C6 & C7 & C8 & C9 & C10).
  pose proof (ok_core _ _ Hx Hok5) as Hok'.
  apply core_fields in Hx as (D1 & D2 & D3 & D4 & D5 & D6 & D7 & D8 & D9 & D10).
  split; [done|]. split; [by rewrite D2|]. split; [by rewrite D6|].
  split; [unfold consumed; by rewrite D3|done].
Qed.

Lemma restore_checkpoint_ok i cp s u s' :
  session_ok s → ss_multithreaded s = false → ss_checkpoints s !! i = Some cp →
  restore_to_checkpoint i s = (Ok u, s') →
  session_ok s' ∧ ss_records s' = ss_records s ∧ ss_multithreaded s' = false ∧
  ss_current_seq s' = Some (cp_seq cp) ∧ ss_finished s' = None.
Proof.
  intros Hok Hm Hcp Hx. unfold restore_to_checkpoint in Hx. st_inv. rewrite Hcp in *.
  match goal with He : expect (Some cp) = Ok _ |- _ => injection He as <- end. core_prefix.
  match type of Hx with _ = core (set_mt _ (set_finished _ (set_resume_sig _ (set_pending _ (set_last_regs _
    (set_current_seq _ (set_cursor _ (set_pid _ ?x)))))))) => assert (Hc : core x = core s) by congruence;
    set (s5 := set_mt _ _) in * end.
  pose proof (ok_core _ _ Hc Hok) as [O1 O2 O3 O4 O5 O6 O7 O8].
  apply core_fields in Hc as (C1 & C2 & C3 & C4 & C5 & C6 & C7 & C8 & C9 & C10).
  assert (Hcp' : checkpoint_ok (ss_records s) cp).
  { pose proof (ok_checkpoints s Hok) as Hf. by eapply Forall_lookup_1 in Hf. }
  destruct Hcp' as (H1 & H2 & H3).
  assert (Hok5 : session_ok s5).
  { split; try done.
    - unfold consumed. cbn [ss_current_seq ss_cursor ss_records s5 set_mt set_finished set_resume_sig set_pending
        set_last_regs set_current_seq set_cursor set_pid]. rewrite C2, H2. done.
    - intros _. unfold consumed. cbn [ss_cursor ss_records s5 set_mt set_finished set_resume_sig set_pending
        set_last_regs set_current_seq set_cursor set_pid]. rewrite C2. done.
    - cbn. by rewrite C6, Hm. }
  pose proof (ok_core _ _ Hx Hok5) as Hok'.
  apply core_fields in Hx as (D1 & D2 & D3 & D4 & D5 & D6 & D7 & D8 & D9 & D10).
  split; [done|]. split; [by rewrite D2|]. split; [rewrite D6; cbn; congruence|].
  split; [by rewrite D4|done].
Qed.

End Follow.
