(* ===== verification/Machine.v ===== *)
(** * A deterministic program under the tracer

    The setting of the end-to-end theorem: a single-threaded program whose user
    code and whose ordinary system calls are functions of its state, and whose
    other system calls ([read], [getrandom], ...) take their results from an
    outside world given as a list of inputs.  The machine is a
    [Ptrace.Kernel]: it stops the program at syscall entries and exits, lets
    the tracer cancel a call, and reads and writes its registers and memory. *)

From Stdlib Require Import FunctionalExtensionality.
From S2P Require Import Prelude Ptrace Capture Replay.

(** ** Data *)

Definition memory : Type := Z → byte.

Definition poke (m : memory) (addr : Z) (data : list byte) : memory := λ a,
  if addr <=? a then default (m a) (data !! Z.to_nat (a - addr)) else m a.
Definition peek (m : memory) (addr : Z) (n : nat) : list byte :=
  (λ i, m (addr + Z.of_nat i)) <$> seq 0 n.

(** What user code does next. *)
Inductive action :=
| ACall (nr : Z) (argv : list Z)
| AExit (code : Z).

(** The program: its control state, its return-value register, its memory. *)
Record program_state (U : Type) := mkPS { ps_user : U; ps_rax : Z; ps_mem : memory }.
Arguments mkPS {U}. Arguments ps_user {U}. Arguments ps_rax {U}. Arguments ps_mem {U}.

(** An answer of the outside world: a return value, the data, and the address
    of the sender, when there is one. *)
Record input := mkInput { in_ret : Z; in_data : list byte; in_from : list byte }.

Inductive phase :=
| Spawned
| InUser
| AtEntry (nr : Z) (argv : list Z) (cancelled : bool)
| AtExit (nr : Z) (argv : list Z)
| Dead.

Record machine (U : Type) := mkMachine {
  m_ps : program_state U;
  m_phase : phase;
  m_going : bool;
  m_inputs : list input;
  m_clock : Z;
}.
Arguments mkMachine {U}. Arguments m_ps {U}. Arguments m_phase {U}. Arguments m_going {U}.
Arguments m_inputs {U}. Arguments m_clock {U}.

(** The syscalls whose results come from outside. *)
Definition outside (nr : Z) : bool :=
  let n := as_i 64 nr in
  (n =? SYS_read) || (n =? SYS_pread64) || (n =? SYS_recvfrom) || (n =? SYS_getrandom)
  || (n =? SYS_clock_gettime).

Definition ENOSYS : Z := 38.

(** What the kernel does to the memory of a program that makes one of these
    calls, as the calls' manual pages have it. *)
Section Kernel.
Context (i : input) (m : memory).

(** [n] bytes of data, padded with zeros. *)
Definition input_bytes (n : Z) : list byte :=
  take (Z.to_nat n) (in_data i ++ replicate (Z.to_nat n) x00).

(** A buffer of a given size gets as many bytes as the call returns, if any. *)
Definition fill (addr size : Z) : memory := poke m addr (input_bytes (Z.min (in_ret i) size)).

(** A [timespec] of two 64-bit words, when the call succeeds. *)
Definition fill_timespec (addr : Z) : memory :=
  if in_ret i =? 0 then poke m addr (input_bytes 16) else m.

(** The sender, cut at the size the caller's [socklen_t] says, and its full size
    in that [socklen_t]; unless the caller does not ask or the call fails. *)
Definition fill_sender (addr len_addr : Z) : memory :=
  if (addr =? 0) || (in_ret i <? 0) then m else
  let room := le_value (peek m len_addr 4) in
  poke (poke m addr (take (Z.to_nat room) (in_from i))) len_addr (le_bytes 4 (blen (in_from i))).
End Kernel.

(** By the calls' numbers in the x86-64 table:
    [read(fd, buf, count)], [pread64(fd, buf, count, offset)],
    [recvfrom(fd, buf, size, flags, addr, len_addr)], [getrandom(buf, size, flags)],
    [clock_gettime(clock, timespec)]. *)
Definition kernel_writes (nr : Z) (argv : list Z) (i : input) (m : memory) : memory :=
  let n := as_i 64 nr in
  if (n =? 0) || (n =? 17) then fill i m (arg argv 1) (arg argv 2)
  else if n =? 45 then fill_sender i (fill i m (arg argv 1) (arg argv 2)) (arg argv 4) (arg argv 5)
  else if n =? 318 then fill i m (arg argv 0) (arg argv 1)
  else if n =? 228 then fill_timespec i m (arg argv 1)
  else m.

(** A call that does not ask who sent the data. *)
Definition senderless (nr : Z) (argv : list Z) : Prop := as_i 64 nr = SYS_recvfrom → arg argv 4 = 0.

Section Machine.
Context {U : Type} (pid : Z).
(** The program's code, and the kernel's own system calls. *)
Context (run : program_state U → program_state U * action).
Context (real : Z → list Z → program_state U → program_state U).
(** The state [execve] starts a program in. *)
Context (load : list byte → list (list byte) → program_state U).

Definition set_ps (x : program_state U) (w : machine U) : machine U :=
  mkMachine x (m_phase w) (m_going w) (m_inputs w) (m_clock w).
Definition set_phase (x : phase) (w : machine U) : machine U :=
  mkMachine (m_ps w) x (m_going w) (m_inputs w) (m_clock w).
Definition set_going (x : bool) (w : machine U) : machine U :=
  mkMachine (m_ps w) (m_phase w) x (m_inputs w) (m_clock w).

Definition with_ret (ret : Z) (s : program_state U) : program_state U :=
  mkPS (ps_user s) (as_u 64 ret) (ps_mem s).

Definition apply_input (nr : Z) (argv : list Z) (i : input) (s : program_state U) : program_state U :=
  mkPS (ps_user s) (as_u 64 (in_ret i)) (kernel_writes nr argv i (ps_mem s)).

(** The stop the running program comes to. *)
Definition m_wait (p : Z) : kop (machine U) wait_status := λ w,
  if negb (p =? pid) || negb (m_going w) then (inr ECHILD, w) else
  let w := set_going false w in
  match m_phase w with
  | Spawned => (inl (Stopped pid SIGTRAP), set_phase InUser w)
  | InUser | AtExit _ _ =>
      match run (m_ps w) with
      | (s, ACall nr argv) => (inl (PtraceSyscall pid), set_phase (AtEntry nr argv false) (set_ps s w))
      | (s, AExit code) => (inl (Exited pid code), set_phase Dead (set_ps s w))
      end
  | AtEntry nr argv true =>
      (inl (PtraceSyscall pid), set_phase (AtExit nr argv) (set_ps (with_ret (- ENOSYS) (m_ps w)) w))
  | AtEntry nr argv false =>
      if outside nr then
        match m_inputs w with
        | i :: rest =>
            (inl (PtraceSyscall pid),
             mkMachine (apply_input nr argv i (m_ps w)) (AtExit nr argv) false rest (m_clock w))
        | [] => (inl (Signaled pid 9), set_phase Dead w)
        end
      else (inl (PtraceSyscall pid), set_phase (AtExit nr argv) (set_ps (real nr argv (m_ps w)) w))
  | Dead => (inr ECHILD, w)
  end.

Definition regs_of_call (nr : Z) (argv : list Z) (ret : Z) : user_regs :=
  mkRegs nr ret (arg argv 0) (arg argv 1) (arg argv 2) (arg argv 3) (arg argv 4) (arg argv 5) 0 [].

Definition m_getregs (p : Z) : kop (machine U) user_regs := λ w,
  match m_phase w with
  | AtEntry nr argv _ => (inl (regs_of_call nr argv (as_u 64 (- ENOSYS))), w)
  | AtExit nr argv => (inl (regs_of_call nr argv (ps_rax (m_ps w))), w)
  | InUser | Spawned => (inl (regs_of_call 0 [] (ps_rax (m_ps w))), w)
  | Dead => (inr ESRCH, w)
  end.

(** At an entry a changed call number cancels the call; at an exit the return
    register is the program's. *)
Definition m_setregs (p : Z) (r : user_regs) : kop (machine U) unit := λ w,
  match m_phase w with
  | AtEntry nr argv c => (inl tt, set_phase (AtEntry nr argv (c || (orig_rax r =? U64_MAX))) w)
  | AtExit _ _ | InUser | Spawned => (inl tt, set_ps (mkPS (ps_user (m_ps w)) (rax r) (ps_mem (m_ps w))) w)
  | Dead => (inr ESRCH, w)
  end.

Definition m_ok {A} (a : A) : kop (machine U) A := λ w, (inl a, w).

#[local] Instance machine_kernel : Kernel (machine U) := {|
  sys_waitpid_any := m_wait pid;
  sys_waitpid p := m_wait p;
  sys_kill _ _ := m_ok tt;
  sys_setaffinity _ _ := m_ok tt;
  sys_spawn_traced prog argv := λ w,
    (inl pid, mkMachine (load prog argv) Spawned true (m_inputs w) (m_clock w));
  pt_syscall p _ := λ w, (inl tt, set_going true w);
  pt_step p := λ w, (inl tt, set_going true w);
  pt_kill _ := m_ok tt;
  pt_getregs := m_getregs;
  pt_setregs := m_setregs;
  pt_getevent _ := m_ok 0;
  pt_setoptions _ _ := m_ok tt;
  pt_getsiginfo_code _ := m_ok 0;
  pt_pokeuser _ _ _ := m_ok tt;
  vm_readv _ a n := λ w, (inl (peek (ps_mem (m_ps w)) a (Z.to_nat n)), w);
  vm_writev _ a d := λ w,
    (inl (blen d), set_ps (mkPS (ps_user (m_ps w)) (ps_rax (m_ps w)) (poke (ps_mem (m_ps w)) a d)) w);
  timer_install := m_ok tt;
  timer_arm := m_ok tt;
  timer_disarm := m_ok tt;
  clock_elapsed_ns := λ w, (m_clock w,
    mkMachine (m_ps w) (m_phase w) (m_going w) (m_inputs w) (m_clock w + 1));
|}.

(** ** Lemmas *)

Lemma peek_length m a n : length (peek m a n) = n.
Proof. unfold peek. by rewrite length_fmap, length_seq. Qed.

Lemma peek_poke m a d : peek (poke m a d) a (length d) = d.
Proof.
  apply list_eq. intros i. unfold peek. rewrite list_lookup_fmap.
  destruct (decide (i < length d)%nat) as [Hi|Hi].
  - rewrite lookup_seq_lt by lia. cbn. unfold poke. rewrite (proj2 (Z.leb_le _ _)) by lia.
    replace (Z.to_nat (a + Z.of_nat i - a)) with i by lia.
    by destruct (lookup_lt_is_Some_2 d i Hi) as [b ->].
  - rewrite lookup_seq_ge by lia. symmetry. apply lookup_ge_None_2. lia.
Qed.

Lemma poke_outside m a d b : b < a ∨ a + blen d ≤ b → poke m a d b = m b.
Proof.
  unfold poke, blen. intros Hb. destruct (Z.leb_spec a b); [|done].
  by rewrite lookup_ge_None_2 by lia.
Qed.

Lemma lookup_peek m a n i : (i < n)%nat → peek m a n !! i = Some (m (a + Z.of_nat i)).
Proof. intros Hi. unfold peek. by rewrite list_lookup_fmap, lookup_seq_lt. Qed.

(** Two memories that differ only in a region: its bytes in one, put into the
    other, make them the same. *)
Lemma poke_peek m m' a n :
  (∀ b, b < a ∨ a + n ≤ b → m' b = m b) → poke m a (peek m' a (Z.to_nat n)) = m'.
Proof.
  intros Hm. apply functional_extensionality. intros b.
  destruct (decide (b < a ∨ a + n ≤ b)) as [Hb|Hb].
  - rewrite poke_outside; [by rewrite Hm|]. unfold blen. rewrite peek_length. lia.
  - unfold poke. rewrite (proj2 (Z.leb_le _ _)) by lia. rewrite lookup_peek by lia. cbn. f_equal. lia.
Qed.

Lemma input_bytes_length n i : 0 ≤ n → blen (input_bytes i n) = n.
Proof. intros Hn. unfold input_bytes, blen. rewrite length_take, length_app, length_replicate. lia. Qed.

Lemma input_bytes_short i n : blen (input_bytes i n) ≤ Z.max 0 n.
Proof. unfold input_bytes, blen. rewrite length_take. lia. Qed.

Lemma fill_outside i m addr size b : b < addr ∨ addr + Z.max 0 (in_ret i) ≤ b → fill i m addr size b = m b.
Proof.
  intros Hb. apply poke_outside. pose proof (input_bytes_short i (Z.min (in_ret i) size)). lia.
Qed.

Lemma fill_nothing i m addr size : in_ret i ≤ 0 → fill i m addr size = m.
Proof.
  intros Hi. apply functional_extensionality. intros b. apply fill_outside. lia.
Qed.

(** The recorder's region covers what the kernel writes, the sender aside. *)
Lemma region_covers nr argv i m :
  senderless nr argv →
  match kernel_written_region nr argv (in_ret i) with
  | Some (addr, len) => ∀ b, b < addr ∨ addr + len ≤ b → kernel_writes nr argv i m b = m b
  | None => kernel_writes nr argv i m = m
  end.
Proof.
  unfold kernel_written_region, kernel_writes, senderless, SYS_read, SYS_pread64, SYS_recvfrom,
    SYS_getrandom, SYS_clock_gettime, TIMESPEC_LEN. cbv zeta. generalize (as_i 64 nr). intros n Hs.
  destruct (Z.eqb_spec n 0), (Z.eqb_spec n 17), (Z.eqb_spec n 45), (Z.eqb_spec n 318),
    (Z.eqb_spec n 228); try lia; unfold fill_sender, fill_timespec; rewrite ?Hs by done;
    destruct (Z.ltb_spec 0 (in_ret i)), (Z.eqb_spec (in_ret i) 0); cbn [orb andb Z.eqb]; try done; try lia;
    try (by apply fill_nothing); try (intros b Hb; apply fill_outside; lia).
  intros b Hb. apply poke_outside. by rewrite input_bytes_length.
Qed.

(** Only the outside calls have a region to capture, and it is where the
    replay injects. *)
Lemma region_outside nr argv ret addr len :
  kernel_written_region nr argv ret = Some (addr, len) →
  outside nr = true ∧ injection_addr nr argv = Some addr ∧ 0 < len.
Proof.
  unfold kernel_written_region, outside, injection_addr, SYS_read, SYS_pread64, SYS_recvfrom,
    SYS_getrandom, SYS_clock_gettime, TIMESPEC_LEN. cbv zeta. generalize (as_i 64 nr). intros n.
  destruct (Z.eqb_spec n 0), (Z.eqb_spec n 17), (Z.eqb_spec n 45), (Z.eqb_spec n 318),
    (Z.eqb_spec n 228); try lia; destruct (Z.ltb_spec 0 ret), (ret =? 0);
    cbn; try done; intros [= <- <-]; (split; [done|split; [done|lia]]).
Qed.

Lemma apply_input_ret nr argv i s :
  in_i 64 (in_ret i) → as_i 64 (ps_rax (apply_input nr argv i s)) = in_ret i.
Proof.
  by apply as_i_mod.
Qed.

Lemma region_length nr argv ret addr len :
  kernel_written_region nr argv ret = Some (addr, len) → 0 < len ≤ Z.max 16 ret.
Proof.
  unfold kernel_written_region, TIMESPEC_LEN. cbv zeta. generalize (as_i 64 nr). intros n.
  repeat (case_match; try done); repeat match goal with Hb : (_ <? _) = true |- _ => apply Z.ltb_lt in Hb end;
    intros [= <- <-]; lia.
Qed.

Lemma outside_injection nr argv :
  outside nr = true ↔ is_Some (injection_addr nr argv).
Proof.
  unfold outside, injection_addr. cbv zeta.
  destruct (as_i 64 nr =? SYS_read), (as_i 64 nr =? SYS_pread64), (as_i 64 nr =? SYS_recvfrom),
    (as_i 64 nr =? SYS_getrandom), (as_i 64 nr =? SYS_clock_gettime); cbn;
    (split; [intros Ho; try discriminate Ho; eexists; reflexivity|intros [y Hy]; (done || discriminate Hy)]).
Qed.

End Machine.
