(* ===== verification/Solo.v ===== *)
(** * Recording a single-threaded program

    On the machine of [Machine], a recording that completes has written the log
    of an execution of the program: an enter and an exit event per call, the
    exit with the call's result and the bytes the outside world wrote. *)

From S2P Require Import Prelude StdIo BufOut TraceFormat TraceLog Payload Ptrace Capture Replay Sched Recording.
From S2P Require Import Machine.

Section Solo.
Context {U : Type} (pid : Z).
Context (run : program_state U → program_state U * action).
Context (real : Z → list Z → program_state U → program_state U).
Context (load : list byte → list (list byte) → program_state U).
#[local] Existing Instance machine_kernel.
#[local] Instance the_kernel : Kernel (machine U) := machine_kernel pid run real load.

(** The types of the machine's words; and the program does not ask [recvfrom]
    for the sender, which the recorder does not keep ([EndToEnd.sender_lost]). *)
Record machine_wf : Prop := {
  wf_pid : pid_ok pid;
  wf_run : ∀ s s' nr argv, run s = (s', ACall nr argv) →
    in_u 64 nr ∧ length argv = 6%nat ∧ Forall (in_u 64) argv ∧ senderless nr argv;
  wf_real : ∀ nr argv s, in_u 64 (ps_rax (real nr argv s));
}.

(** ** The program's execution *)

(** One system call as the log sees it. *)
Record call_result := mkCall { c_nr : Z; c_args : list Z; c_ret : Z; c_data : list byte }.

Definition captured (nr : Z) (argv : list Z) (ret : Z) (m : memory) : list byte :=
  match kernel_written_region nr argv ret with
  | Some (addr, len) => peek m addr (Z.to_nat len)
  | None => []
  end.

Definition result_of (nr : Z) (argv : list Z) (s : program_state U) : call_result :=
  mkCall nr argv (as_i 64 (ps_rax s)) (captured nr argv (as_i 64 (ps_rax s)) (ps_mem s)).

(** From a state about to run user code, with the inputs still to come: the
    calls made, the final state and the exit code. *)
Inductive exec : program_state U → list input → list call_result → program_state U → Z → Prop :=
| exec_exit s s' ins code : run s = (s', AExit code) → exec s ins [] s' code
| exec_outside s s1 i ins nr argv l sf code :
    run s = (s1, ACall nr argv) → outside nr = true →
    exec (apply_input nr argv i s1) ins l sf code →
    exec s (i :: ins) (result_of nr argv (apply_input nr argv i s1) :: l) sf code
| exec_real s s1 ins nr argv l sf code :
    run s = (s1, ACall nr argv) → outside nr = false →
    exec (real nr argv s1) ins l sf code →
    exec s ins (result_of nr argv (real nr argv s1) :: l) sf code.

(** The two events of a call. *)
Definition call_events (ts1 ts2 ret0 : Z) (c : call_result) : list Event :=
  [enter_event ts1 pid (mkSyscallRegs (c_nr c) ret0 (c_args c));
   Event_new_with_tid EvSyscallExit ts2 pid
     (SyscallExit_encode (mkSyscallExit (c_nr c) (c_ret c) (c_data c)))].

(** A log of a list of calls, with any timestamps. *)
Inductive log_of : list call_result → list Event → Prop :=
| log_nil : log_of [] []
| log_cons c l es ts1 ts2 ret0 :
    in_u 64 ts1 → in_u 64 ts2 → log_of l es → log_of (c :: l) (call_events ts1 ts2 ret0 c ++ es).

(** ** Recording *)

Context {S : Type} `{TL : TraceSinkLaws S}.

(** The scheduler with its one thread, having recorded [n] events. *)
Definition solo (w : machine U) (wr : S) (n : Z) (pe : option SyscallRegs) (rdy : list Z)
    (cur : option Z) : Scheduler (machine U) S :=
  mkSched w wr {[pid := mkThread pe None]} rdy cur (Some pid) pid None n 1 ∅.

Lemma solo_resume w wr n pe :
  resume_next (solo w wr n pe [pid] None) = (Ok tt, solo (set_going true w) wr n pe [] (Some pid)).
Proof.
  unfold resume_next, record_sched_switch, take_resume_signal, update_thread, solo, on_world, call,
    mbind, stm_bind, st_gets, st_modify.
  cbn -[bool_decide lookup singletonM insert]. rewrite bool_decide_eq_true_2 by done.
  cbn -[lookup singletonM insert]. rewrite lookup_singleton_eq. cbn -[singletonM insert].
  by rewrite insert_singleton_eq.
Qed.

Lemma solo_append_ok w wr n pe rdy cur e u s' :
  sched_append e (solo w wr n pe rdy cur) = (Ok u, s') →
  ∃ q wr', sink_append e wr = (Ok q, wr') ∧ n + 1 < 2 ^ 64 ∧ s' = solo w wr' (n + 1) pe rdy cur.
Proof.
  unfold sched_append, writer_append, solo, checked_add, mbind, stm_bind, st_gets, st_modify, st_lift. cbn.
  destruct (sink_append e wr) as [[q|x|] wr']; cbn; try done.
  destruct (Z.ltb_spec (n + 1) (2 ^ 64)) as [Hlt|]; cbn; [|done]. intros [= _ <-]. eauto.
Qed.

Lemma solo_iterate w wr n pe status w' :
  m_wait pid run real pid (set_going true w) = (inl status, w') →
  iterate (solo w wr n pe [pid] None) = (handle status;; mret false) (solo w' wr n pe [] (Some pid)).
Proof.
  intros Hw. unfold iterate, mbind at 1, stm_bind at 1, st_gets at 1. cbn [running solo].
  rewrite bool_decide_eq_true_2 by done. cbn [st_when].
  unfold mbind at 1, stm_bind at 1. rewrite solo_resume.
  unfold mbind at 1, stm_bind at 1. cbn [on_world call timer_arm the_kernel machine_kernel m_ok].
  unfold mbind at 1, stm_bind at 1.
  match goal with |- context [try_call sys_waitpid_any ?x] =>
    assert (Ht : try_call sys_waitpid_any x =
      (Ok (inl status) : result CaptureError _, solo w' wr n pe [] (Some pid))) end.
  { unfold try_call. change (sys_waitpid_any _) with (m_wait pid run real pid (set_going true w)).
    by rewrite Hw. }
  rewrite Ht. done.
Qed.

Definition tick (w : machine U) : machine U :=
  mkMachine (m_ps w) (m_phase w) (m_going w) (m_inputs w) (m_clock w + 1).

Lemma argv_six argv : length argv = 6%nat →
  [arg argv 0; arg argv 1; arg argv 2; arg argv 3; arg argv 4; arg argv 5] = argv.
Proof. do 7 (destruct argv as [|? argv]; try done). Qed.

Lemma as_u32_pid : pid_ok pid → as_u 32 pid = pid.
Proof. intros [? ?]. unfold as_u. apply Z.mod_small. lia. Qed.

Lemma solo_requeue w wr n pe : requeue pid (solo w wr n pe [] None) = solo w wr n pe [pid] None.
Proof.
  unfold requeue, solo. cbn -[bool_decide lookup singletonM].
  rewrite lookup_singleton_eq, bool_decide_eq_true_2 by (by eexists).
  rewrite bool_decide_eq_false_2 by apply not_elem_of_nil. done.
Qed.

Lemma solo_update w wr n pe pe' :
  update_thread pid (λ th, mkThread pe' (resume_signal th)) (solo w wr n pe [] None) =
    solo w wr n pe' [] None.
Proof.
  unfold update_thread, solo. cbn -[lookup singletonM insert].
  by rewrite lookup_singleton_eq, insert_singleton_eq.
Qed.

(** The head of [on_syscall]: the registers, the time, the pending entry. *)
Lemma solo_stop w wr n pe nr argv ret (k : SyscallRegs → Z → option SyscallRegs →
    stm (Scheduler (machine U) S) CaptureError unit) :
  pid_ok pid → length argv = 6%nat →
  m_getregs pid w = (inl (regs_of_call nr argv ret), w) →
  (regs ← on_world (read_syscall_regs pid);
   ts ← now;
   pending ← take_pending_enter pid;
   k regs ts pending) (solo w wr n pe [] None) =
  k (mkSyscallRegs nr (as_i 64 ret) argv) (as_u 64 (m_clock w)) pe (solo (tick w) wr n None [] None).
Proof.
  intros Hp Hl Hr. unfold mbind at 1, stm_bind at 1.
  unfold on_world at 1, read_syscall_regs, mbind at 1, stm_bind at 1, call.
  change (pt_getregs pid (s_world (solo w wr n pe [] None))) with (m_getregs pid w). rewrite Hr.
  cbn [mret stm_ret orig_rax rax rdi rsi rdx r10 r8 r9 regs_of_call].
  rewrite argv_six by done. unfold mbind at 1, stm_bind at 1, now at 1. cbn [clock_elapsed_ns
    the_kernel machine_kernel s_world set_world solo].
  unfold mbind at 1, stm_bind at 1, take_pending_enter at 1.
  match goal with |- context [update_thread pid ?f ?x] =>
    change x with (solo (tick w) wr n pe [] None) end.
  rewrite solo_update. cbn [threads solo]. rewrite lookup_singleton_eq. done.
Qed.

Lemma solo_clear w wr n pe : clear_running pid (solo w wr n pe [] (Some pid)) = solo w wr n pe [] None.
Proof. unfold clear_running. by rewrite bool_decide_eq_true_2. Qed.

(** An append, then a change of the scheduler. *)
Definition appending (e : Event) (f : Scheduler (machine U) S → Scheduler (machine U) S)
    : stm (Scheduler (machine U) S) CaptureError unit := sched_append e;; st_modify f.

(** The entry stop of a call. *)
Lemma solo_entry w wr n nr argv c :
  pid_ok pid → length argv = 6%nat → m_phase w = AtEntry nr argv c →
  let regs := mkSyscallRegs nr (as_i 64 (as_u 64 (- ENOSYS))) argv in
  handle (PtraceSyscall pid) (solo w wr n None [] (Some pid)) =
    appending (enter_event (as_u 64 (m_clock w)) pid regs)
      (λ s, requeue pid (update_thread pid (λ th, mkThread (Some regs) (resume_signal th)) s))
      (solo (tick w) wr n None [] None).
Proof.
  intros Hp Hl Hph regs. cbn [handle]. unfold mbind at 1, stm_bind at 1, st_modify at 1.
  rewrite solo_clear. unfold mbind at 1, stm_bind at 1, on_syscall. rewrite as_u32_pid by done.
  rewrite (solo_stop w wr n None nr argv (as_u 64 (- ENOSYS))) by (done || (unfold m_getregs; by rewrite Hph)).
  fold regs. unfold appending, mbind, stm_bind, st_modify.
  by destruct (sched_append _ _) as [[[]|?|] s'].
Qed.

(** The exit stop of a call. *)
Lemma solo_exit w wr n nr argv ret0 :
  pid_ok pid → length argv = 6%nat → m_phase w = AtExit nr argv →
  let ret := as_i 64 (ps_rax (m_ps w)) in
  handle (PtraceSyscall pid) (solo w wr n (Some (mkSyscallRegs nr ret0 argv)) [] (Some pid)) =
    appending (Event_new_with_tid EvSyscallExit (as_u 64 (m_clock w)) pid
       (SyscallExit_encode (mkSyscallExit nr ret (captured nr argv ret (ps_mem (m_ps w))))))
      (requeue pid) (solo (tick w) wr n None [] None).
Proof.
  intros Hp Hl Hph ret. cbn [handle]. unfold mbind at 1, stm_bind at 1, st_modify at 1.
  rewrite solo_clear. unfold mbind at 1, stm_bind at 1, on_syscall. rewrite as_u32_pid by done.
  rewrite (solo_stop w wr n _ nr argv (ps_rax (m_ps w))) by (done || (unfold m_getregs; by rewrite Hph)).
  unfold mbind at 1, stm_bind at 1. fold ret.
  assert (He : on_world (exit_event (as_u 64 (m_clock w)) pid pid (mkSyscallRegs nr ret0 argv) ret)
      (solo (tick w) wr n None [] None) =
    (Ok (Event_new_with_tid EvSyscallExit (as_u 64 (m_clock w)) pid
       (SyscallExit_encode (mkSyscallExit nr ret (captured nr argv ret (ps_mem (m_ps w)))))),
     solo (tick w) wr n None [] None)).
  { unfold on_world, exit_event, captured. cbn [regs_nr regs_args].
    destruct (kernel_written_region nr argv ret) as [[addr len]|]; [|done].
    unfold read_tracee_memory, mbind, stm_bind, call. cbn.
    by rewrite peek_length, Nat.sub_diag, app_nil_r. }
  cbn [regs_ret]. rewrite He. unfold appending, mbind, stm_bind, st_modify.
  by destruct (sched_append _ _) as [[[]|?|] s'].
Qed.

Definition user_phase (w : machine U) : Prop :=
  match m_phase w with InUser | AtExit _ _ => True | _ => False end.

Lemma m_wait_user w s1 a :
  user_phase w → run (m_ps w) = (s1, a) →
  m_wait pid run real pid (set_going true w) =
    match a with
    | ACall nr argv =>
        (inl (PtraceSyscall pid), mkMachine s1 (AtEntry nr argv false) false (m_inputs w) (m_clock w))
    | AExit code => (inl (Exited pid code), mkMachine s1 Dead false (m_inputs w) (m_clock w))
    end.
Proof.
  intros Hu Hr. unfold m_wait. rewrite Z.eqb_refl. cbn [negb orb m_going set_going].
  unfold user_phase in Hu. cbn [m_phase set_going m_ps]. destruct (m_phase w); try done; rewrite Hr;
    by destruct a.
Qed.

Lemma m_wait_entry w nr argv :
  m_phase w = AtEntry nr argv false →
  m_wait pid run real pid (set_going true w) =
    if outside nr then
      match m_inputs w with
      | i :: rest => (inl (PtraceSyscall pid),
          mkMachine (apply_input nr argv i (m_ps w)) (AtExit nr argv) false rest (m_clock w))
      | [] => (inl (Signaled pid 9), mkMachine (m_ps w) Dead false [] (m_clock w))
      end
    else (inl (PtraceSyscall pid),
      mkMachine (real nr argv (m_ps w)) (AtExit nr argv) false (m_inputs w) (m_clock w)).
Proof.
  intros Hp. unfold m_wait. rewrite Z.eqb_refl. cbn [negb orb m_going set_going].
  cbn [m_phase set_going m_ps m_inputs]. rewrite Hp. destruct (outside nr); [|done].
  destruct (m_inputs w) eqn:Hi; [|done]. cbv [set_phase]. cbn. by rewrite Hi.
Qed.

(** The death of the only thread ends the loop. *)
Lemma solo_death fuel w wr n pe w' status code :
  m_wait pid run real pid (set_going true w) = (inl status, w') →
  (status = Exited pid (default 0 code) ∧ is_Some code ∨ status = Signaled pid 9 ∧ code = None) →
  ∃ s', run_loop (Datatypes.S fuel) (solo w wr n pe [pid] None) =
    (Ok (Some (mkOutcome code n 1)), s') ∧ writer s' = wr ∧ m_ps (s_world s') = m_ps w'.
Proof.
  intros Hw Hst. cbn [run_loop]. rewrite bool_decide_eq_false_2.
  2:{ cbn. intros He. apply (f_equal (lookup pid)) in He. by rewrite lookup_singleton_eq in He. }
  rewrite (solo_iterate _ _ _ _ _ _ Hw).
  assert (Hh : handle status (solo w' wr n pe [] (Some pid)) = Sched.on_exit pid code (solo w' wr n pe [] (Some pid))).
  { destruct Hst as [[-> [c ->]]|[-> ->]]; done. }
  unfold mbind at 1, stm_bind at 1. rewrite Hh. unfold Sched.on_exit.
  unfold mbind at 1, stm_bind at 1, st_modify at 1. rewrite solo_clear.
  unfold mbind at 1, stm_bind at 1, st_gets at 1, mbind at 1, stm_bind at 1, st_modify at 1,
    mbind at 1, stm_bind at 1, st_gets at 1. cbn [s_threads_followed solo set_threads].
  rewrite andb_false_r. cbn [st_when]. unfold mret, stm_ret, mbind, stm_bind, st_modify, st_gets.
  cbn [ready set_ready set_threads leader solo filter list_filter]. rewrite Z.eqb_refl. cbn [st_when].
  set (s4 := release_vfork_parent pid _).
  assert (E : s4 = mkSched w' wr ∅ [] None (Some pid) pid code n 1 ∅).
  { unfold s4, release_vfork_parent. cbn [vfork_pending set_leader_exit set_ready set_threads solo].
    rewrite lookup_empty. unfold set_leader_exit, set_ready, set_threads, solo. cbn -[delete singletonM].
    by rewrite delete_singleton_eq. }
  rewrite E. exists (mkSched w' wr ∅ [] None (Some pid) pid code n 1 ∅).
  split; [|done]. destruct fuel; cbn; by rewrite bool_decide_eq_true_2.
Qed.

Lemma solo_live w wr n pe rdy cur : threads (solo w wr n pe rdy cur) ≠ ∅.
Proof. intros He. apply (f_equal (lookup pid)) in He. cbn in He. by rewrite lookup_singleton_eq in He. Qed.

Lemma run_loop_zero w wr n pe rdy cur r s' :
  run_loop 0 (solo w wr n pe rdy cur) = (Ok (Some r), s') → False.
Proof. cbn [run_loop]. by rewrite bool_decide_eq_false_2 by apply solo_live. Qed.

(** A stop that is recorded and lets the loop go on. *)
Lemma solo_turn fuel w wr n pe w' e f s1 r s' :
  m_wait pid run real pid (set_going true w) = (inl (PtraceSyscall pid), w') →
  handle (PtraceSyscall pid) (solo w' wr n pe [] (Some pid)) = appending e f (solo s1 wr n None [] None) →
  run_loop fuel (solo w wr n pe [pid] None) = (Ok (Some r), s') →
  ∃ fuel' q wr', fuel = Datatypes.S fuel' ∧ sink_append e wr = (Ok q, wr') ∧ n + 1 < 2 ^ 64 ∧
    run_loop fuel' (f (solo s1 wr' (n + 1) None [] None)) = (Ok (Some r), s').
Proof.
  intros Hw Hh Hrun. destruct fuel as [|fuel]; [destruct (run_loop_zero _ _ _ _ _ _ _ _ Hrun)|].
  cbn [run_loop] in Hrun. rewrite bool_decide_eq_false_2 in Hrun by apply solo_live.
  rewrite (solo_iterate _ _ _ _ _ _ Hw) in Hrun. unfold mbind, stm_bind at 1 in Hrun. rewrite Hh in Hrun.
  unfold appending, mbind, stm_bind in Hrun.
  destruct (sched_append e _) as [[u|x|] s2] eqn:Ha; try done.
  apply solo_append_ok in Ha as (q & wr' & Hq & Hn & ->). exists fuel, q, wr'. done.
Qed.

(** A program that waits for an input that does not come is killed. *)
Lemma recording_starved fuel w wr n o s' s1 nr argv :
  machine_wf → m_inputs w = [] → user_phase w → run (m_ps w) = (s1, ACall nr argv) →
  outside nr = true →
  run_loop fuel (solo w wr n None [pid] None) = (Ok (Some o), s') → exit_code o = None.
Proof.
  intros Hwf Hi Hu Hr Hout Hrun. pose proof (m_wait_user w s1 _ Hu Hr) as Hw. cbv beta iota in Hw.
  destruct (wf_run Hwf _ _ _ _ Hr) as (_ & Hl & _). pose proof (wf_pid Hwf) as Hpid.
  set (w0 := mkMachine s1 (AtEntry nr argv false) false (m_inputs w) (m_clock w)) in *.
  destruct (solo_turn _ _ _ _ _ _ _ _ _ _ _ Hw (solo_entry w0 wr n nr argv false Hpid Hl eq_refl) Hrun)
    as (f1 & q1 & wr1 & Hf1 & Hq1 & Hn1 & Hrun1).
  rewrite solo_update, solo_requeue in Hrun1.
  pose proof (m_wait_entry (tick w0) nr argv eq_refl) as Hw1. cbn [m_inputs m_ps w0 tick] in Hw1.
  rewrite Hout, Hi in Hw1. destruct f1 as [|f1]; [destruct (run_loop_zero _ _ _ _ _ _ _ _ Hrun1)|].
  destruct (solo_death f1 (tick w0) wr1 (n + 1)
    (Some (mkSyscallRegs nr (as_i 64 (as_u 64 (- ENOSYS))) argv)) _ _ None Hw1 ltac:(by right)) as (s2 & H2 & _).
  rewrite H2 in Hrun1. by injection Hrun1 as <- <-.
Qed.

(** One call, from the user code before it to the user code after it. *)
Lemma recording_call fuel w ins wr es r s' s1 nr argv w2 :
  machine_wf → m_inputs w = ins → user_phase w → run (m_ps w) = (s1, ACall nr argv) → logged wr es →
  m_wait pid run real pid (set_going true
    (mkMachine s1 (AtEntry nr argv false) false ins (m_clock w + 1))) =
    (inl (PtraceSyscall pid), w2) →
  m_phase w2 = AtExit nr argv →
  run_loop fuel (solo w wr (blen es) None [pid] None) = (Ok (Some r), s') →
  ∃ fuel' wr' evs, fuel = Datatypes.S (Datatypes.S fuel') ∧
    (∀ l es', log_of l es' → log_of (result_of nr argv (m_ps w2) :: l) (evs ++ es')) ∧
    logged wr' (es ++ evs) ∧ blen (es ++ evs) < 2 ^ 64 ∧
    run_loop fuel' (solo (tick w2) wr' (blen (es ++ evs)) None [pid] None) = (Ok (Some r), s').
Proof.
  intros Hwf <- Hu Hr Hlg Hw2 Hph2 Hrun. pose proof (m_wait_user w s1 _ Hu Hr) as Hw. cbv beta iota in Hw.
  destruct (wf_run Hwf _ _ _ _ Hr) as (Hnr & Hl & Hargs & _). pose proof (wf_pid Hwf) as Hpid.
  set (w0 := mkMachine s1 (AtEntry nr argv false) false (m_inputs w) (m_clock w)) in *.
  destruct (solo_turn _ _ _ _ _ _ _ _ _ _ _ Hw (solo_entry w0 wr (blen es) nr argv false Hpid Hl eq_refl) Hrun)
    as (f1 & q1 & wr1 & Hf1 & Hq1 & Hn1 & Hrun1).
  rewrite solo_update, solo_requeue in Hrun1. cbn [resume_signal] in Hrun1.
  apply (logged_append _ _ _ _ _ Hlg) in Hq1.
  destruct (solo_turn _ _ _ _ _ _ _ _ _ _ _ Hw2 (solo_exit w2 wr1 (blen es + 1) nr argv _ Hpid Hl Hph2) Hrun1)
    as (f2 & q2 & wr2 & Hf2 & Hq2 & Hn2 & Hrun2).
  rewrite solo_requeue in Hrun2. apply (logged_append _ _ _ _ _ Hq1) in Hq2.
  rewrite <- app_assoc in Hq2. exists f2, wr2. eexists. split; [by rewrite Hf1, Hf2|]. split; [|split; [exact Hq2|split]].
  - intros l es' Hes'. apply (log_cons (result_of nr argv (m_ps w2)) l es');
      [by apply Z.mod_pos_bound..|done].
  - rewrite blen_app. cbn [app] in *. rewrite !blen_cons, blen_nil. lia.
  - rewrite blen_app. cbn [app] in *. rewrite !blen_cons, blen_nil. by rewrite <- Hrun2, <- Z.add_assoc.
Qed.

Lemma recording_log fuel : ∀ w wr es o s' c,
  machine_wf → user_phase w → logged wr es → blen es < 2 ^ 64 →
  run_loop fuel (solo w wr (blen es) None [pid] None) = (Ok (Some o), s') → exit_code o = Some c →
  ∃ l es', logged (writer s') (es ++ es') ∧ log_of l es' ∧
    exec (m_ps w) (m_inputs w) l (m_ps (s_world s')) c ∧ events_recorded o = blen (es ++ es') ∧ blen (es ++ es') < 2 ^ 64.
Proof.
  induction fuel as [fuel IH] using lt_wf_ind. intros w wr es o s' c Hwf Hu Hlg Hlt Hrun Hc.
  destruct (run (m_ps w)) as [s1 a] eqn:Hr. destruct a as [nr argv|code].
  - set (w1 := mkMachine s1 (AtEntry nr argv false) false (m_inputs w) (m_clock w + 1)).
    pose proof (m_wait_entry w1 nr argv eq_refl) as Hw1. cbn [m_inputs m_ps w1 m_clock] in Hw1.
    destruct (outside nr) eqn:Hout; [destruct (m_inputs w) as [|i rest] eqn:Hi|].
    + by rewrite (recording_starved _ _ _ _ _ _ _ _ _ Hwf Hi Hu Hr Hout Hrun) in Hc.
    + destruct (recording_call _ _ _ _ _ _ _ _ _ _ _ Hwf Hi Hu Hr Hlg Hw1 eq_refl Hrun)
        as (f & wr' & evs & -> & Hevs & Hlg' & Hlt' & Hrun').
      edestruct IH as (l & es' & He & Hlog & Hex & Hcnt & Hbd); [|exact Hwf| |exact Hlg'|exact Hlt'|exact Hrun'|exact Hc|];
        [lia|done|].
      rewrite <- app_assoc in He, Hcnt, Hbd. exists (result_of nr argv (apply_input nr argv i s1) :: l).
      eexists. split; [exact He|]. split; [by apply Hevs|]. split; [by eapply exec_outside|done].
    + destruct (recording_call _ _ _ _ _ _ _ _ _ _ _ Hwf eq_refl Hu Hr Hlg Hw1 eq_refl Hrun)
        as (f & wr' & evs & -> & Hevs & Hlg' & Hlt' & Hrun').
      edestruct IH as (l & es' & He & Hlog & Hex & Hcnt & Hbd); [|exact Hwf| |exact Hlg'|exact Hlt'|exact Hrun'|exact Hc|];
        [lia|done|].
      rewrite <- app_assoc in He, Hcnt, Hbd. exists (result_of nr argv (real nr argv s1) :: l).
      eexists. split; [exact He|]. split; [by apply Hevs|]. split; [by eapply exec_real|done].
  - pose proof (m_wait_user w s1 _ Hu Hr) as Hw. destruct fuel as [|fuel]; [destruct (run_loop_zero _ _ _ _ _ _ _ _ Hrun)|].
    destruct (solo_death fuel w wr (blen es) None _ _ (Some code) Hw ltac:(left; by eauto)) as (s2 & H2 & Hw2 & Hp2).
    rewrite H2 in Hrun. injection Hrun as <- <-. cbn in Hc. injection Hc as ->.
    exists [], []. rewrite app_nil_r, Hw2, Hp2. split; [done|]. split; [constructor|].
    split; [by econstructor|done].
Qed.

End Solo.

(** ** The whole recording, on a file *)

(** The machine is ready to be recorded: it spawns, stops, and is seized. *)
Lemma start_recording_solo {U} pid run real (load : _ → _ → program_state U) prog argv (wr : TraceWriter bufwriter) w :
  start_recording (H := machine_kernel pid run real load) prog argv wr w =
    (Ok (solo pid (mkMachine (load prog argv) InUser false (m_inputs w) (m_clock w)) wr 0 None [pid] None),
     mkMachine (load prog argv) InUser false (m_inputs w) (m_clock w)).
Proof.
  unfold start_recording, Scheduler_new, pin_to_serialization_cpu, call, mbind, stm_bind. cbn.
  unfold m_wait. by rewrite Z.eqb_refl.
Qed.

Lemma record_command_solo {U} pid run real (load : _ → _ → program_state U) crc32 c fuel w w' file0 file o code :
  machine_wf pid run real → cmdline_fits c →
  BASE_HEADER_LEN + blen (encode_cmdline (program c) (args c)) < 2 ^ 16 →
  record_command (H := machine_kernel pid run real load) crc32 (program c) (args c) fuel (w, file0)
    = (Ok (Some o), (w', file)) →
  accepts_all file0 → exit_code o = Some code →
  ∃ l es, snk_data file = log_bytes crc32 c es ∧ log_of pid l es ∧
    exec run real (load (program c) (args c)) (m_inputs w) l (m_ps w') code ∧
    events_recorded o = blen es ∧ blen es < 2 ^ 64.
Proof.
  intros Hwf Hc Hlen Hx Hh Hcode. unfold record_command in Hx.
  destruct (File_create file0) as [[u|e|] file1] eqn:Hcf; try done. apply File_create_ok in Hcf as [Hemp Hall].
  destruct (create_with_cmdline _ _ _) as [[wr|e|] f1] eqn:Hcr; try done.
  rewrite start_recording_solo in Hx. destruct (run_loop _ _) as [r s'] eqn:Hrun.
  injection Hx as -> <- <-. set (w1 := mkMachine _ _ _ _ _) in *.
  apply (create_buffered crc32) in Hcr; [|done].
  apply (recording_log pid run real load (TL := buffered_sink_laws _ crc32 _) fuel w1 wr [] o s' code Hwf I Hcr)
    in Hrun as (l & es & [Hl Ha] & Hlog & Hex & Hcnt & Hb); [|done..].
  exists l, es. split; [|done]. rewrite bw_drop_whole by (by apply Ha, Hall). apply (Hl Hb).
Qed.
