(* ===== verification/EndToEnd.v ===== *)
(** * Record, then replay: the end-to-end theorem

    On the machine of [Machine], the file a recording leaves is read back,
    launched and replayed to its end, reaching the same final program state
    whatever the outside world answers during the replay.  What the outside
    world writes is [Machine.kernel_writes], written down from the calls' manual
    pages, and that the recorder keeps all of it and the replay puts it back
    is proved here ([Machine.region_covers], [injected_input]). *)

From S2P Require Import Prelude StdIo TraceFormat Crc32 TraceLog Payload Ptrace Capture Schedule Replay Sched.
From S2P Require Import Recording Session Mt Machine Solo.

Section EndToEnd.
Context {U : Type} (rp : Z).
Context (run : program_state U → program_state U * action).
Context (real : Z → list Z → program_state U → program_state U).
Context (load : list byte → list (list byte) → program_state U).
#[local] Instance replay_kernel : Kernel (machine U) := machine_kernel rp run real load.
Context {UW : Unwind (machine U)}.

(** An input is a 64-bit result, and its bytes fit in one record of the trace. *)
Definition MAX_TRANSFER : Z := MAX_BODY_LEN - BODY_PREFIX_LEN_V3 - EXIT_PREFIX_LEN.
Definition input_wf (i : input) : Prop := in_i 64 (in_ret i) ∧ in_ret i ≤ MAX_TRANSFER.

(** The session between two stops. *)
Definition ses (w : machine U) (cmd : Cmdline) (recs : list LogRecord) (k : nat) (cs : option Z)
    (p : option Pending) (lr : option Registers) : ReplaySession (machine U) :=
  mkSession w rp cmd recs k cs p None lr None 0 [] None [] None None false None.

Definition entry_regs (nr : Z) (argv : list Z) : Registers :=
  mkRegisters nr (as_i 64 (as_u 64 (- ENOSYS))) argv.

Lemma regs_read_call w nr argv ret :
  length argv = 6%nat → m_getregs rp w = (inl (regs_of_call nr argv ret), w) →
  regs_read rp w = (Ok (mkRegisters nr (as_i 64 ret) argv), w).
Proof.
  intros Hl Hg. unfold regs_read, call, mbind, stm_bind.
  change (pt_getregs rp w) with (m_getregs rp w). rewrite Hg. cbn [mret stm_ret orig_rax rax rdi rsi rdx
    r10 r8 r9 regs_of_call]. by rewrite (argv_six argv Hl).
Qed.

Lemma ses_regs w cmd recs k cs p lr nr argv ret :
  length argv = 6%nat → m_getregs rp w = (inl (regs_of_call nr argv ret), w) →
  on_kernel (regs_read rp) (ses w cmd recs k cs p lr) =
    (Ok (mkRegisters nr (as_i 64 ret) argv), ses w cmd recs k cs p lr).
Proof.
  intros Hl Hg. unfold on_kernel. cbn [ss_world ses]. by rewrite (regs_read_call w nr argv ret Hl Hg).
Qed.

(** A replayed call is cancelled exactly when its result comes from outside. *)
Lemma ses_entry w cmd recs k cs lr r nr argv :
  recs !! k = Some r → kind (event r) = EvSyscallEnter →
  SyscallEnter_decode (payload (event r)) = Ok (mkSyscallEnter nr argv) →
  length argv = 6%nat → m_phase w = AtEntry nr argv false →
  on_syscall_stop (ses w cmd recs k cs None lr) =
    (Ok tt, ses (set_phase (AtEntry nr argv (outside nr)) w) cmd recs (S k) (Some (seq r))
       (Some (mkPending (injection_addr nr argv))) (Some (entry_regs nr argv))).
Proof.
  intros Hk Hkind Hdec Hl Hph. unfold on_syscall_stop. autorewrite with stm.
  rewrite (bind_run _ _ _ _ _ (ses_regs w cmd recs k cs None lr nr argv (as_u 64 (- ENOSYS)) Hl
    ltac:(unfold m_getregs; by rewrite Hph))).
  autorewrite with stm. cbn [ss_pending set_last_regs ses]. unfold on_entry.
  erewrite bind_run by (apply next_record_here; [exact Hk|by rewrite Hkind]).
  rewrite Hkind, Hdec. cbn [map_err g_nr g_args]. autorewrite with stm. cbn [enter_nr].
  rewrite Z.eqb_refl. cbn [negb]. autorewrite with stm. unfold ses, entry_regs.
  destruct (outside nr) eqn:Hout.
  - destruct (proj1 (outside_injection nr argv) Hout) as [a ->].
    rewrite bool_decide_eq_true_2 by eauto. cbn [st_when].
    unfold suppress_syscall, on_kernel, call, mbind, stm_bind. cbn. unfold m_getregs. rewrite Hph. cbn.
    unfold m_setregs. rewrite Hph. done.
  - rewrite bool_decide_eq_false_2.
    2:{ intros Hi%outside_injection. congruence. }
    cbn. unfold set_phase, set_cursor, set_current_seq, set_pending, set_last_regs, set_world.
    cbn. rewrite <- Hph. by destruct w.
Qed.

(** The end of a replayed call: nothing for a call that really happened, the
    recorded bytes and result for one that was cancelled. *)
Definition injected (addr : option Z) (ret : Z) (data : list byte) (s : program_state U) : program_state U :=
  match addr with
  | Some a => mkPS (ps_user s) (as_u 64 ret) (if bool_decide (data = []) then ps_mem s else poke (ps_mem s) a data)
  | None => s
  end.

Lemma ses_exit w cmd recs k cs lr r nr0 nr argv ret data addr :
  recs !! k = Some r → kind (event r) = EvSyscallExit →
  SyscallExit_decode (payload (event r)) = Ok (mkSyscallExit nr0 ret data) →
  length argv = 6%nat → m_phase w = AtExit nr argv →
  on_syscall_stop (ses w cmd recs k cs (Some (mkPending addr)) lr) =
    (Ok tt, ses (set_ps (injected addr ret data (m_ps w)) w) cmd recs (S k) (Some (seq r)) None
       (Some (mkRegisters nr (as_i 64 (ps_rax (m_ps w))) argv))).
Proof.
  intros Hk Hkind Hdec Hl Hph. unfold on_syscall_stop. autorewrite with stm.
  rewrite (bind_run _ _ _ _ _ (ses_regs w cmd recs k cs _ lr nr argv (ps_rax (m_ps w)) Hl
    ltac:(unfold m_getregs; by rewrite Hph))).
  autorewrite with stm. cbn [ss_pending set_last_regs ses]. unfold on_exit.
  erewrite bind_run by (apply next_record_here; [exact Hk|by rewrite Hkind]).
  rewrite Hkind, Hdec. cbn [map_err]. autorewrite with stm. cbn [inject_addr].
  destruct addr as [a|]; cbn [injected].
  - autorewrite with stm. unfold write_memory, set_return, on_kernel, call, mbind, stm_bind. cbn.
    destruct (bool_decide (data = [])); cbn; [|rewrite Z.eqb_refl; cbn];
      unfold m_getregs; cbn; rewrite Hph; cbn; unfold m_setregs; cbn; rewrite Hph; done.
  - destruct w. done.
Qed.

(** One stop of the single-threaded driver. *)
Lemma ses_turn w w' cmd recs k cs p lr s' fuel :
  m_wait rp run real rp (set_going true w) = (inl (PtraceSyscall rp), w') →
  on_syscall_stop (ses w' cmd recs k cs p lr) = (Ok tt, s') → maybe_checkpoint s' = (Ok tt, s') →
  drive_loop (S fuel) None (ses w cmd recs k cs p lr) = drive_loop fuel None s'.
Proof.
  intros Hw Hs Hm. cbn [drive_loop]. unfold drive_turn. autorewrite with stm. cbn [reached].
  autorewrite with stm.
  rewrite (bind_run _ _ _ tt (ses (set_going true w) cmd recs k cs p lr)) by done.
  autorewrite with stm. rewrite (bind_run _ _ _ (PtraceSyscall rp) (ses w' cmd recs k cs p lr)).
  2:{ unfold on_kernel, call. change (sys_waitpid _) with (m_wait rp run real rp). cbn [ss_world ses].
      by rewrite Hw. }
  autorewrite with stm. rewrite (bind_run _ _ _ _ _ Hs). autorewrite with stm.
  by rewrite (bind_run _ _ _ _ _ Hm).
Qed.

Lemma ses_finish w w' cmd recs k cs p lr fuel code :
  m_wait rp run real rp (set_going true w) = (inl (Exited rp code), w') →
  ∃ s', drive_loop (S fuel) None (ses w cmd recs k cs p lr) = (Ok (Some (OutExited code)), s') ∧
    ss_world s' = w' ∧ ss_cursor s' = k ∧ ss_finished s' = Some (OutExited code).
Proof.
  intros Hw. cbn [drive_loop]. unfold drive_turn. autorewrite with stm. cbn [reached].
  autorewrite with stm.
  rewrite (bind_run _ _ _ tt (ses (set_going true w) cmd recs k cs p lr)) by done.
  autorewrite with stm. rewrite (bind_run _ _ _ (Exited rp code) (ses w' cmd recs k cs p lr)).
  2:{ unfold on_kernel, call. change (sys_waitpid _) with (m_wait rp run real rp). cbn [ss_world ses].
      by rewrite Hw. }
  unfold finish. autorewrite with stm. eexists. split; [reflexivity|]. done.
Qed.

(** What an outside call leaves is what its replay injects. *)
Lemma injected_input nr argv i s s0 :
  outside nr = true → input_wf i → senderless nr argv → ps_user s0 = ps_user s → ps_mem s0 = ps_mem s →
  let c := result_of nr argv (apply_input nr argv i s) in
  injected (injection_addr nr argv) (c_ret c) (c_data c) s0 = apply_input nr argv i s.
Proof.
  intros Hout [Hret _] Hs Hu Hm. cbn. destruct (proj1 (outside_injection nr argv) Hout) as [a Ha].
  rewrite Ha. unfold injected, captured, apply_input. cbn [ps_rax ps_mem ps_user]. rewrite Hu, Hm.
  assert (E : as_i 64 (as_u 64 (in_ret i)) = in_ret i) by (by apply as_i_mod). rewrite E.
  pose proof (region_covers nr argv i (ps_mem s) Hs) as Hc.
  destruct (kernel_written_region nr argv (in_ret i)) as [[b len]|] eqn:Hk.
  - apply region_outside in Hk as (_ & Hb & Hlen). rewrite Ha in Hb. injection Hb as <-.
    rewrite bool_decide_eq_false_2, poke_peek; [done|exact Hc|].
    intros Hnil%(f_equal length). rewrite peek_length in Hnil. cbn in Hnil. lia.
  - cbn. by rewrite Hc.
Qed.

(** The recorded result of a call is one the payload can carry. *)
Lemma result_wf nr argv (s : program_state U) :
  in_u 64 nr → (outside nr = true → as_i 64 (ps_rax s) < 2 ^ 31) →
  let c := result_of nr argv s in exit_wf (mkSyscallExit nr (c_ret c) (c_data c)).
Proof.
  intros Hnr Hret. split; [done|]. split; [by apply as_i_range|]. cbn. unfold captured.
  destruct (kernel_written_region _ _ _) as [[b len]|] eqn:Hk; [|by split].
  destruct (region_outside _ _ _ _ _ Hk) as [Ho%Hret _].
  unfold blen. rewrite peek_length. assert (Hl := region_length _ _ _ _ _ Hk). unfold in_u. lia.
Qed.

Lemma number_cons sq e es k (recs : list LogRecord) :
  drop k recs = number sq (e :: es) →
  recs !! k = Some (mkRecord sq (as_written e)) ∧ drop (S k) recs = number (sq + 1) es.
Proof.
  cbn [number]. intros Hd. split.
  - by rewrite <- (Nat.add_0_r k), <- lookup_drop, Hd.
  - replace (S k) with (k + 1)%nat by lia. by rewrite <- drop_drop, Hd.
Qed.

(** One replayed call: both its stops, and the state the recording had. *)
Lemma replay_call pid w cmd recs k cs lr fuel s1 s2 nr argv sq ts1 ts2 ret0 es :
  machine_wf rp run real → user_phase w → run (m_ps w) = (s1, ACall nr argv) →
  (outside nr = true ∧ (∃ i, input_wf i ∧ s2 = apply_input nr argv i s1) ∨
   outside nr = false ∧ s2 = real nr argv s1) →
  drop k recs = number sq (call_events pid ts1 ts2 ret0 (result_of nr argv s2) ++ es) →
  ∃ w' cs' lr', drive_loop (S (S fuel)) None (ses w cmd recs k cs None lr) =
      drive_loop fuel None (ses w' cmd recs (S (S k)) cs' None lr') ∧
    user_phase w' ∧ m_ps w' = s2 ∧ drop (S (S k)) recs = number (sq + 2) es.
Proof.
  intros Hwf Hu Hr Hs2 Hd. destruct (wf_run _ _ _ Hwf _ _ _ _ Hr) as (Hnr & Hl & Hargs & Hs).
  cbn [call_events app] in Hd. apply number_cons in Hd as [Hk1 Hd]. apply number_cons in Hd as [Hk2 Hd].
  pose proof (m_wait_user rp run real w s1 _ Hu Hr) as Hw. cbv beta iota in Hw.
  set (w1 := mkMachine s1 (AtEntry nr argv false) false (m_inputs w) (m_clock w)) in *.
  pose proof (ses_entry w1 cmd recs k cs lr _ nr argv Hk1 eq_refl
    (enter_decode_encode (mkSyscallEnter nr argv) (conj Hnr (conj Hl Hargs))) Hl eq_refl) as He.
  rewrite (ses_turn _ _ _ _ _ _ _ _ _ _ Hw He eq_refl). cbn [seq].
  assert (Hx : exit_wf (mkSyscallExit nr (c_ret (result_of nr argv s2)) (c_data (result_of nr argv s2)))).
  { apply result_wf; [done|]. intros Ho. destruct Hs2 as [[_ (i & Hi & ->)]|[Hn _]]; [|congruence].
    rewrite apply_input_ret by apply Hi. eapply Z.le_lt_trans; [apply Hi|done]. }
  assert (Hw2 : ∃ w2, m_wait rp run real rp (set_going true (set_phase (AtEntry nr argv (outside nr)) w1)) =
      (inl (PtraceSyscall rp), w2) ∧ m_phase w2 = AtExit nr argv ∧
      injected (injection_addr nr argv) (c_ret (result_of nr argv s2)) (c_data (result_of nr argv s2)) (m_ps w2) = s2).
  { unfold m_wait. rewrite Z.eqb_refl. cbn [negb orb m_going set_going set_phase m_phase].
    destruct Hs2 as [[Ho (i & Hi & ->)]|[Ho ->]]; rewrite Ho.
    - eexists. split; [done|]. split; [done|]. by apply injected_input.
    - eexists. split; [done|]. split; [done|]. destruct (injection_addr nr argv) eqn:Hi; [|done].
      rewrite (proj2 (outside_injection nr argv)) in Ho by eauto. done. }
  destruct Hw2 as (w2 & Hw2 & Hph2 & Hinj).
  pose proof (ses_exit w2 cmd recs (S k) (Some sq) (Some (entry_regs nr argv)) _ nr nr argv _ _
    (injection_addr nr argv) Hk2 eq_refl (exit_decode_encode _ Hx) Hl Hph2) as Hex.
  rewrite Hinj in Hex. rewrite (ses_turn _ _ _ _ _ _ _ _ _ _ Hw2 Hex eq_refl).
  do 3 eexists. split; [reflexivity|]. split; [unfold user_phase; cbn; by rewrite Hph2|]. split; [done|].
  by replace (sq + 2) with (sq + 1 + 1) by lia.
Qed.

(** The replay of an execution's log. *)
Lemma replay_exec pid s ins l sf code : exec run real s ins l sf code →
  machine_wf rp run real → Forall input_wf ins →
  ∀ es, log_of pid l es → ∀ w cmd recs k cs lr sq fuel,
  user_phase w → m_ps w = s → drop k recs = number sq es → (2 * length l < fuel)%nat →
  ∃ s', drive_loop fuel None (ses w cmd recs k cs None lr) = (Ok (Some (OutExited code)), s') ∧
    m_ps (ss_world s') = sf ∧ drop (ss_cursor s') recs = [] ∧ ss_finished s' = Some (OutExited code).
Proof.
  induction 1 as [s s1 ins code Hr|s s1 i ins nr argv l sf code Hr Ho Hex IH|s s1 ins nr argv l sf code Hr Ho Hex IH];
    intros Hwf Hin es Hlog w cmd recs k cs lr sq fuel Hu <- Hd Hf; inversion Hlog as [|c l' es' ts1 ts2 ret0 H1 H2 Hlog' Hc]; subst.
  - destruct fuel as [|fuel]; [lia|].
    destruct (ses_finish w _ cmd recs k cs None lr fuel code (m_wait_user rp run real w s1 _ Hu Hr))
      as (s' & Hs & Hw & Hk & Hfin).
    exists s'. rewrite Hs, Hw, Hk. done.
  - apply Forall_cons_iff in Hin as [Hi Hin]. destruct fuel as [|[|fuel]]; [cbn in Hf; lia..|].
    edestruct replay_call as (w' & cs' & lr' & Hrun & Hu' & Hps & Hd');
      [exact Hwf|exact Hu|exact Hr|left; split; [exact Ho|exists i; split; [exact Hi|reflexivity]]|exact Hd|].
    rewrite Hrun. eapply IH; [done..|exact Hd'|cbn in Hf; lia].
  - destruct fuel as [|[|fuel]]; [cbn in Hf; lia..|].
    edestruct replay_call as (w' & cs' & lr' & Hrun & Hu' & Hps & Hd');
      [exact Hwf|exact Hu|exact Hr|right; split; [exact Ho|reflexivity]|exact Hd|].
    rewrite Hrun. eapply IH; [done..|exact Hd'|cbn in Hf; lia].
Qed.

(** ** The log of an execution is one the reader takes back *)

Definition call_fits (c : call_result) : Prop :=
  length (c_args c) = 6%nat ∧ blen (c_data c) ≤ MAX_TRANSFER.

Lemma result_fits nr argv (s : program_state U) :
  length argv = 6%nat → (outside nr = true → as_i 64 (ps_rax s) ≤ MAX_TRANSFER) →
  call_fits (result_of nr argv s).
Proof.
  intros Hl Hret. split; [done|]. cbn. unfold captured.
  destruct (kernel_written_region _ _ _) as [[b len]|] eqn:Hk; [|done].
  destruct (region_outside _ _ _ _ _ Hk) as [Ho%Hret _].
  unfold blen. rewrite peek_length. assert (Hl' := region_length _ _ _ _ _ Hk).
  assert (16 ≤ MAX_TRANSFER) by done. lia.
Qed.

Lemma exec_fits s ins l sf code :
  exec run real s ins l sf code → machine_wf rp run real → Forall input_wf ins → Forall call_fits l.
Proof.
  intros Hex Hwf. induction Hex as [s s1 ins code Hr|s s1 i ins nr argv l sf code Hr Ho Hex IH|
    s s1 ins nr argv l sf code Hr Ho Hex IH]; intros Hin; [constructor| |];
    destruct (wf_run _ _ _ Hwf _ _ _ _ Hr) as (_ & Hl & _ & _).
  - apply Forall_cons_iff in Hin as [Hi Hin]. constructor; [|by apply IH].
    apply result_fits; [done|]. intros _. rewrite apply_input_ret by apply Hi. apply Hi.
  - constructor; [|by apply IH]. apply result_fits; [done|]. congruence.
Qed.

Lemma log_fits pid l es : pid_ok pid → log_of pid l es → Forall call_fits l → Forall event_fits es.
Proof.
  intros Hp. assert (Hp' : in_u 32 pid) by (unfold pid_ok, in_u in *; lia).
  induction 1 as [|c l es ts1 ts2 ret0 H1 H2 _ IH]; intros Hf; [constructor|].
  apply Forall_cons_iff in Hf as [[Hl Hd] Hf]. unfold call_events. cbn [app].
  constructor; [|constructor; [|by apply IH]]; split; cbn [kind timestamp_ns tid payload enter_event
    Event_new_with_tid regs_nr regs_args]; try (split; [done|split; done]).
  - by rewrite enter_encode_length.
  - rewrite exit_encode_length. cbn [exit_data]. unfold MAX_TRANSFER in Hd. lia.
Qed.

Lemma log_single pid l es : log_of pid l es → ∀ sq, trace_is_multithreaded (number sq es) = false.
Proof. by induction 1 as [|c l es ts1 ts2 ret0 H1 H2 _ IH]; intros sq; [|apply IH]. Qed.

Lemma log_length pid l es : log_of pid l es → length es = (2 * length l)%nat.
Proof. induction 1 as [|c l es ts1 ts2 ret0 H1 H2 _ IH]; [done|]. cbn. rewrite IH. lia. Qed.

(** Launching the command stops it at its first instruction. *)
Lemma launch_ses cmd recs v :
  trace_is_multithreaded recs = false →
  let w0 := mkMachine (load (program cmd) (args cmd)) InUser false (m_inputs v) (m_clock v) in
  launch (Ok (Some cmd, Ok recs)) v = (Ok (ses w0 cmd recs 0 None None None), w0).
Proof.
  intros Hm w0. unfold launch. cbn [ok_or map_err]. autorewrite with stm. rewrite Hm.
  unfold setup_options, call, mbind, stm_bind. cbn. unfold m_wait. by rewrite Z.eqb_refl.
Qed.

End EndToEnd.

(** The sender [recvfrom] gives a program that asks for it is not in the
    recorded bytes, so the replay does not put it back. *)
Lemma sender_lost :
  let argv := [3; 0x1000; 4; 0; 0x2000; 0x3000] in
  let s := mkPS tt 0 (poke (λ _, x00) 0x3000 [x10]) in
  let s' := apply_input SYS_recvfrom argv (mkInput 2 [x68; x69] [x02; x00; x1f]) s in
  let c := result_of SYS_recvfrom argv s' in
  let s'' := injected (injection_addr SYS_recvfrom argv) (c_ret c) (c_data c) s in
  peek (ps_mem s') 0x1000 2 = peek (ps_mem s'') 0x1000 2 ∧
  peek (ps_mem s') 0x2000 3 = [x02; x00; x1f] ∧ peek (ps_mem s'') 0x2000 3 = [x00; x00; x00].
Proof. vm_compute. done. Qed.

(** ** Properties *)

(** C1. Record, then replay.  Take any single-threaded program whose user code
    and whose other system calls are deterministic, and which asks no [recvfrom]
    for the sender; run it under the recorder against any outside world, which
    answers [read], [pread64], [recvfrom], [getrandom] and [clock_gettime] with
    results and writes to memory as the kernel documents them, each small enough
    for a record; and let the recording complete into a file that takes every
    write.  That file reads back; launching the replay from it (in another process, with
    any outside world) and running to the end reports the same exit code, has
    consumed every record, and leaves the program in exactly the state
    (control, return register, memory) it ended in while being recorded. *)
Theorem record_then_replay {U} (pid rp : Z) run real (load : _ → _ → program_state U)
    `{Unwind (machine U)} (crc32 : list byte → Z) (c : Cmdline) (fuel : nat) (w w' : machine U)
    (file0 file : sink) (o : RecordOutcome) (code : Z) :
  (∀ bs, in_u 32 (crc32 bs)) → cmdline_fits c →
  BASE_HEADER_LEN + blen (encode_cmdline (program c) (args c)) < 2 ^ 16 →
  machine_wf pid run real → pid_ok rp → Forall input_wf (m_inputs w) →
  record_command (H := machine_kernel pid run real load) crc32 (program c) (args c) fuel (w, file0)
    = (Ok (Some o), (w', file)) →
  accepts_all file0 → exit_code o = Some code →
  ∀ src v fuel' steps, only_chunks src = true → src_data src = snk_data file →
    events_recorded o < Z.of_nat fuel' →
  ∃ r s0 v' s1, open src = Ok r ∧
    launch (H := machine_kernel rp run real load) (Ok (r_cmdline r, collect crc32 (collect_fuel r) r)) v
      = (Ok s0, v') ∧
    run_to_end (H := machine_kernel rp run real load) fuel' steps s0 = (Ok (Some (OutExited code)), s1) ∧
    drop (ss_cursor s1) (ss_records s0) = [] ∧ m_ps (ss_world s1) = m_ps w'.
Proof.
  intros Hcrc Hc Hlen Hwf Hrp Hin Hx Hh Hcode src v fuel' steps Hsrc Hdata Hf.
  apply record_command_solo with (code := code) in Hx as (l & es & Hd & Hlog & Hex & Hn & Hb); try done.
  assert (Hwf' : machine_wf rp run real) by (split; [done|apply Hwf..]).
  assert (Hfits : Forall event_fits es)
    by (eapply log_fits; [apply Hwf|done|]; by eapply (exec_fits rp)).
  rewrite Hd in Hdata. destruct (read_back crc32 c es src Hcrc Hc Hlen Hfits Hb Hsrc Hdata)
    as (r & Ho & _ & Hrc & Hcol).
  pose proof (log_length _ _ _ Hlog) as Hlen'. rewrite Hn in Hf. unfold blen in Hf.
  pose proof (launch_ses rp run real load c (number 0 es) v (log_single _ _ _ Hlog 0)) as Hl. cbv zeta in Hl.
  destruct (replay_exec rp run real load pid _ _ _ _ _ Hex Hwf' Hin es Hlog
    (mkMachine (load (program c) (args c)) InUser false (m_inputs v) (m_clock v))
    c (number 0 es) 0 None None 0 fuel' I eq_refl eq_refl) as (s1 & Hrun & Hps & Hcur & Hfin); [lia|].
  exists r. do 2 eexists. exists s1. split; [done|]. rewrite Hrc, Hcol. split; [exact Hl|].
  split; [exact Hrun|]. done.
Qed.

(** ** Witnesses *)

(** A program that draws four random bytes, reads the clock, writes the bytes
    out and exits with the first of them. *)
Definition dice_run (s : program_state nat) : program_state nat * action :=
  let next := mkPS (S (ps_user s)) (ps_rax s) (ps_mem s) in
  match ps_user s with
  | 0%nat => (next, ACall SYS_getrandom [0x1000; 4; 0; 0; 0; 0])
  | 1%nat => (next, ACall SYS_clock_gettime [0; 0x2000; 0; 0; 0; 0])
  | 2%nat => (next, ACall 1 [1; 0x1000; 4; 0; 0; 0])
  | _ => (next, AExit (Z_of_byte (ps_mem s 0x1000)))
  end.
Definition dice_real (nr : Z) (argv : list Z) (s : program_state nat) : program_state nat :=
  with_ret (arg argv 2) s.
Definition dice_load (_ : list byte) (_ : list (list byte)) : program_state nat := mkPS 0%nat 0 (λ _, x00).
Definition dice_world (ins : list input) : machine nat := mkMachine (dice_load [] []) Dead false ins 0.
Definition dice_inputs : list input :=
  [mkInput 4 [x2a; x17; x99; x03] []; mkInput 0 [x01; x02] []].

#[local] Instance no_unwind : Unwind (machine nat) := {|
  unwinder_for_pid _ := m_ok tt; unwinder_registers _ := m_ok 0; unwinder_backtrace _ _ := m_ok [] |}.

Lemma dice_wf pid : pid_ok pid → machine_wf pid dice_run dice_real.
Proof.
  intros Hp. split; [done| |intros nr argv s; apply Z.mod_pos_bound; done].
  intros s s' nr argv. unfold dice_run.
  destruct (ps_user s) as [|[|[|n]]]; intros [= <- <- <-]; 
    (split; [by split|split; [done|]]); apply (bool_decide_unpack _); vm_compute; exact I.
Qed.

Lemma dice_inputs_wf : Forall input_wf dice_inputs.
Proof. repeat constructor; done. Qed.

(** The replay draws no randomness of its own: its world has none to give. *)
Lemma record_then_replay_witness :
  ∃ w' file r s0 v' s1,
    record_command (H := machine_kernel 100 dice_run dice_real dice_load) crc32_ieee
      (program sample_cmdline) (args sample_cmdline) 20 (dice_world dice_inputs, Sink [] [])
      = (Ok (Some (mkOutcome (Some 42) 6 1)), (w', file)) ∧
    open (Source (snk_data file) []) = Ok r ∧
    launch (H := machine_kernel 200 dice_run dice_real dice_load)
      (Ok (r_cmdline r, collect crc32_ieee (collect_fuel r) r)) (dice_world []) = (Ok s0, v') ∧
    run_to_end (H := machine_kernel 200 dice_run dice_real dice_load) 8 1 s0
      = (Ok (Some (OutExited 42)), s1) ∧
    m_ps (ss_world s1) = m_ps w'.
Proof.
  set (rc := record_command (H := machine_kernel 100 dice_run dice_real dice_load) crc32_ieee
    (program sample_cmdline) (args sample_cmdline) 20 (dice_world dice_inputs, Sink [] [])).
  assert (Hok : rc.1 = Ok (Some (mkOutcome (Some 42) 6 1))) by (vm_compute; reflexivity).
  destruct rc as [res [w' file]] eqn:Hr. cbn [fst] in Hok. subst res rc.
  destruct (record_then_replay 100 200 dice_run dice_real dice_load crc32_ieee sample_cmdline 20
    (dice_world dice_inputs) w' (Sink [] []) file (mkOutcome (Some 42) 6 1) 42 crc32_ieee_range sample_cmdline_fits
    ltac:(reflexivity) (dice_wf 100 ltac:(by split)) ltac:(by split) dice_inputs_wf Hr (Forall_nil_2 _) eq_refl
    (Source (snk_data file) []) (dice_world []) 8 1 eq_refl eq_refl ltac:(reflexivity))
    as (r & s0 & v' & s1 & H1 & H2 & H3 & _ & H5).
  exists w', file, r, s0, v', s1. split; [reflexivity|]. split; [exact H1|]. split; [exact H2|].
  split; [exact H3|exact H5].
Defined.
