(* ===== verification/Threads.v ===== *)
(** * A program of several threads under the tracer

    The setting of the theorem on recording and replaying threads.  Threads
    share a memory and what the kernel keeps for the process; what a thread does
    between two calls is a function of its own state and of the memory, and it
    writes the memory only in the last part of it, the one that makes the call;
    system calls are functions of the same, but for the [outside] ones, whose
    results are inputs.  The machine is a [Ptrace.Kernel]: a list of choices
    decides when the timer's alarm comes, what the running thread has done by
    then, and which of several stops is reported first. *)

From S2P Require Import Prelude Ptrace Capture Replay Machine.

(** ** Data *)

Record local (U : Type) := MkLocal { lc_user : U; lc_rax : Z }.
Arguments MkLocal {U}. Arguments lc_user {U}. Arguments lc_rax {U}.

(** The memory, and the process's kernel-side state. *)
Record shared (E : Type) := MkShared { sh_mem : memory; sh_env : E }.
Arguments MkShared {E}. Arguments sh_mem {E}. Arguments sh_env {E}.

(** The program's code up to its next call; a part of that which writes no
    memory, where an alarm may find the thread; its ordinary calls; what [clone] gives the child and writes for both; what the death of a thread
    writes; what [execve] starts from.  Threads are named by their number in
    order of creation, the only identity the program sees. *)
Class Code (U E : Type) := {
  code_run : local U → memory → local U * memory * (Z * list Z);
  code_step : local U → memory → local U;
  code_call : nat → Z → list Z → local U → shared E → local U * shared E;
  code_clone : nat → list Z → local U → memory → local U * memory;
  code_bury : nat → shared E → shared E;
  code_load : list byte → list (list byte) → local U * shared E;
}.

Inductive tphase :=
| TBorn                                  (** its first stop not yet reported *)
| TUser
| TEntry (nr : Z) (argv : list Z) (cancelled : bool)
| TCloning (nr : Z) (argv : list Z) (child : nat)   (** the event not yet reported *)
| TCloned (nr : Z) (argv : list Z) (child : nat)
| TExit (nr : Z) (argv : list Z).

(** [t_going]: resumed and not stopped since; [t_stop]: a [SIGSTOP] is pending. *)
Record thread (U : Type) := MkThread { t_lc : local U; t_phase : tphase; t_going : bool; t_stop : bool }.
Arguments MkThread {U}. Arguments t_lc {U}. Arguments t_phase {U}. Arguments t_going {U}. Arguments t_stop {U}.

(** What a wait finds: the next stop; the alarm, when the running thread has
    made [n] steps towards its next call; the running thread's own stop
    before the [SIGSTOP] sent to it; the first stop of a given thread; that of
    the thread now being created, ahead of its creator's. *)
Inductive choice := Next | Alarm (n : nat) | Late | First (i : nat) | ChildEarly.

Record procs (U E : Type) := MkProcs {
  w_shared : shared E;
  w_threads : gmap nat (thread U);
  w_next : nat;
  w_inputs : list input;
  w_choices : list choice;
  w_clock : Z;
}.
Arguments MkProcs {U E}. Arguments w_shared {U E}. Arguments w_threads {U E}. Arguments w_next {U E}.
Arguments w_inputs {U E}. Arguments w_choices {U E}. Arguments w_clock {U E}.

Definition SYS_exit : Z := 60.
Definition SYS_exit_group : Z := 231.
Definition SYS_clone3 : Z := 435.

Definition dies (nr : Z) : bool := (nr =? SYS_exit) || (nr =? SYS_exit_group).
Definition clones (nr : Z) : bool := (nr =? SYS_clone) || (nr =? SYS_clone3).
Definition exit_status (argv : list Z) : Z := arg argv 0 mod 256.

(** What the program sees of thread [i]: its number in its own namespace. *)
Definition visible (i : nat) : Z := Z.of_nat i + 1.

Definition is_born {U} (t : thread U) : bool := match t_phase t with TBorn => true | _ => false end.

Section Threads.
Context {U E : Type} {C : Code U E}.
(** The pids the kernel hands out, in order. *)
Context (pids : list Z).
#[local] Abbreviation P := (procs U E).

Definition name (i : nat) : Z := default 0 (pids !! i).
Definition index (p : Z) : option nat := fst <$> list_find (λ q, q = p) pids.

Definition thread_of (p : Z) (w : P) : option (nat * thread U) :=
  i ← index p; t ← w_threads w !! i; Some (i, t).

Definition set_threads (x : gmap nat (thread U)) (w : P) : P :=
  MkProcs (w_shared w) x (w_next w) (w_inputs w) (w_choices w) (w_clock w).
Definition put (i : nat) (t : thread U) (w : P) : P := set_threads (<[i := t]> (w_threads w)) w.
Definition set_shared (x : shared E) (w : P) : P :=
  MkProcs x (w_threads w) (w_next w) (w_inputs w) (w_choices w) (w_clock w).

Definition returns (ret : Z) (lc : local U) : local U := MkLocal (lc_user lc) (as_u 64 ret).

(** The thread stopped in a phase. *)
Definition parked (lc : local U) (ph : tphase) (t : thread U) : thread U := MkThread lc ph false (t_stop t).

(** The result of an outside call. *)
Definition feed (nr : Z) (argv : list Z) (x : input) (lc : local U) (sh : shared E) : local U * shared E :=
  (returns (in_ret x) lc, MkShared (kernel_writes nr argv x (sh_mem sh)) (sh_env sh)).

(** The new thread, and its creator about to report it. *)
Definition start_clone (i : nat) (t : thread U) (nr : Z) (argv : list Z) (w : P) : option (nat * P) :=
  let child := w_next w in
  _ ← pids !! child;
  let '(lc, mem) := code_clone child argv (t_lc t) (sh_mem (w_shared w)) in
  Some (child,
    MkProcs (MkShared mem (sh_env (w_shared w)))
      (<[i := MkThread (t_lc t) (TCloning nr argv child) true (t_stop t)]>
        (<[child := MkThread lc TBorn false false]> (w_threads w)))
      (S child) (w_inputs w) (w_choices w) (w_clock w)).

Definition clone_event (i : nat) (t : thread U) (nr : Z) (argv : list Z) (child : nat) (w : P)
    : (wait_status + Z) * P :=
  (inl (PtraceEvent (name i) PTRACE_EVENT_CLONE), put i (parked (t_lc t) (TCloned nr argv child) t) w).

(** A thread dies alone, and the leader last; what else a call for an exit
    does, and a call that never returns, is not followed further. *)
Definition may_die (i : nat) (nr : Z) (w : P) : bool :=
  if decide (i = 0%nat) then (size (w_threads w) =? 1)%nat else nr =? SYS_exit.

(** The rest of a call. *)
Definition complete (i : nat) (t : thread U) (nr : Z) (argv : list Z) (w : P) : (wait_status + Z) * P :=
  if dies nr then
    if may_die i nr w then
      (inl (Exited (name i) (exit_status argv)),
       MkProcs (code_bury i (w_shared w)) (delete i (w_threads w)) (w_next w) (w_inputs w) (w_choices w) (w_clock w))
    else (inr ECHILD, w)
  else if clones nr then
    match start_clone i t nr argv w with
    | Some (child, w) => clone_event i t nr argv child w
    | None => (inr ECHILD, w)
    end
  else if outside nr then
    match w_inputs w with
    | x :: rest =>
        let '(lc, sh) := feed nr argv x (t_lc t) (w_shared w) in
        (inl (PtraceSyscall (name i)),
         MkProcs sh (<[i := parked lc (TExit nr argv) t]> (w_threads w)) (w_next w) rest (w_choices w) (w_clock w))
    | [] => (inr ECHILD, w)
    end
  else
    let '(lc, sh) := code_call i nr argv (t_lc t) (w_shared w) in
    (inl (PtraceSyscall (name i)), put i (parked lc (TExit nr argv) t) (set_shared sh w)).

(** The next stop of a running thread; [late] as [Late]. *)
Definition next_stop (late : bool) (i : nat) (t : thread U) (w : P) : (wait_status + Z) * P :=
  match t_phase t with
  | TBorn => (inr ECHILD, w)
  | TUser | TExit _ _ =>
      if t_stop t && negb late
      then (inl (Stopped (name i) SIGSTOP), put i (MkThread (t_lc t) (t_phase t) false false) w)
      else
        let '(lc, mem, (nr, argv)) := code_run (t_lc t) (sh_mem (w_shared w)) in
        (inl (PtraceSyscall (name i)),
         put i (parked lc (TEntry nr argv false) t) (set_shared (MkShared mem (sh_env (w_shared w))) w))
  | TEntry nr argv true =>
      (inl (PtraceSyscall (name i)), put i (parked (returns (- ENOSYS) (t_lc t)) (TExit nr argv) t) w)
  | TEntry nr argv false => complete i t nr argv w
  | TCloning nr argv child => clone_event i t nr argv child w
  | TCloned nr argv child =>
      (inl (PtraceSyscall (name i)), put i (parked (returns (visible child) (t_lc t)) (TExit nr argv) t) w)
  end.

(** The leader's is that of [execve]. *)
Definition first_stop (i : nat) (t : thread U) (w : P) : (wait_status + Z) * P :=
  (inl (Stopped (name i) (if decide (i = 0%nat) then SIGTRAP else SIGSTOP)), put i (parked (t_lc t) TUser t) w).

Definition pop (w : P) : choice * P :=
  match w_choices w with
  | c :: rest => (c, MkProcs (w_shared w) (w_threads w) (w_next w) (w_inputs w) rest (w_clock w))
  | [] => (Next, w)
  end.

Definition find_thread (f : thread U → bool) (w : P) : option (nat * thread U) :=
  List.find (λ x, f x.2) (map_to_list (w_threads w)).

Definition next_wait (late : bool) (w : P) : (wait_status + Z) * P :=
  match find_thread t_going w with
  | Some (i, t) => next_stop late i t w
  | None =>
      match find_thread is_born w with
      | Some (i, t) => first_stop i t w
      | None => (inr ECHILD, w)
      end
  end.

(** The running thread, when it is creating another. *)
Definition creating (w : P) : option (nat * P) :=
  x ← find_thread t_going w;
  match t_phase x.2 with
  | TEntry nr argv false => if clones nr then start_clone x.1 x.2 nr argv w else None
  | _ => None
  end.

(** Part of the way to the next call. *)
Definition steps (n : nat) (m : memory) (lc : local U) : local U := Nat.iter n (λ lc, code_step lc m) lc.
Definition in_user (t : thread U) : bool := match t_phase t with TUser | TExit _ _ => true | _ => false end.

(** The running thread, if it is in its code, gets some way. *)
Definition part_way (n : nat) (w : P) : P :=
  match find_thread t_going w with
  | Some (i, t) =>
      if in_user t
      then put i (MkThread (steps n (sh_mem (w_shared w)) (t_lc t)) TUser (t_going t) (t_stop t)) w
      else w
  | None => w
  end.

Definition wait_any : kop P wait_status := λ w,
  let '(c, w) := pop w in
  match c with
  | Next => next_wait false w
  | Alarm n => (inr EINTR, part_way n w)
  | Late => next_wait true w
  | First i =>
      match w_threads w !! i with
      | Some t => if is_born t then first_stop i t w else next_wait false w
      | None => next_wait false w
      end
  | ChildEarly =>
      match creating w with
      | Some (child, w') =>
          match w_threads w' !! child with
          | Some t => if is_born t then first_stop child t w' else next_wait false w
          | None => next_wait false w
          end
      | None => next_wait false w
      end
  end.

Definition wait_for (p : Z) : kop P wait_status := λ w,
  let '(c, w) := pop w in
  match thread_of p w with
  | Some (i, t) =>
      if is_born t then first_stop i t w
      else if t_going t then next_stop (match c with Late => true | _ => false end) i t w
      else (inr ECHILD, w)
  | None => (inr ECHILD, w)
  end.

Definition resume (p : Z) : kop P unit := λ w,
  match thread_of p w with
  | Some (i, t) =>
      if is_born t || t_going t then (inr ESRCH, w)
      else (inl tt, put i (MkThread (t_lc t) (t_phase t) true (t_stop t)) w)
  | None => (inr ESRCH, w)
  end.

Definition send_stop (p : Z) : kop P unit := λ w,
  match thread_of p w with
  | Some (i, t) => (inl tt, put i (MkThread (t_lc t) (t_phase t) (t_going t) true) w)
  | None => (inr ESRCH, w)
  end.

Definition thread_regs (t : thread U) : user_regs :=
  match t_phase t with
  | TEntry nr argv _ | TCloning nr argv _ | TCloned nr argv _ => regs_of_call nr argv (as_u 64 (- ENOSYS))
  | TExit nr argv => regs_of_call nr argv (lc_rax (t_lc t))
  | TBorn | TUser => regs_of_call 0 [] (lc_rax (t_lc t))
  end.

Definition get_regs (p : Z) : kop P user_regs := λ w,
  match thread_of p w with
  | Some (_, t) => (inl (thread_regs t), w)
  | None => (inr ESRCH, w)
  end.

(** As in [Machine]. *)
Definition set_regs (p : Z) (r : user_regs) : kop P unit := λ w,
  match thread_of p w with
  | Some (i, t) =>
      (inl tt, put i
        (match t_phase t with
         | TEntry nr argv c => MkThread (t_lc t) (TEntry nr argv (c || (orig_rax r =? U64_MAX))) (t_going t) (t_stop t)
         | ph => MkThread (MkLocal (lc_user (t_lc t)) (rax r)) ph (t_going t) (t_stop t)
         end) w)
  | None => (inr ESRCH, w)
  end.

Definition event_message (p : Z) : kop P Z := λ w,
  match thread_of p w with
  | Some (_, t) => (inl (match t_phase t with TCloned _ _ child => name child | _ => 0 end), w)
  | None => (inr ESRCH, w)
  end.

Definition spawn (prog : list byte) (argv : list (list byte)) : kop P Z := λ w,
  match pids with
  | leader :: _ =>
      let '(lc, sh) := code_load prog argv in
      (inl leader, MkProcs sh {[0%nat := MkThread lc TBorn false false]} 1 (w_inputs w) (w_choices w) (w_clock w))
  | [] => (inr 11, w)
  end.

Definition p_ok {A} (a : A) : kop P A := λ w, (inl a, w).

#[local] Instance threads_kernel : Kernel P := {|
  sys_waitpid_any := wait_any;
  sys_waitpid := wait_for;
  sys_kill p _ := send_stop p;
  sys_setaffinity _ _ := p_ok tt;
  sys_spawn_traced := spawn;
  pt_syscall p _ := resume p;
  pt_step p := resume p;
  pt_kill _ := p_ok tt;
  pt_getregs := get_regs;
  pt_setregs := set_regs;
  pt_getevent := event_message;
  pt_setoptions _ _ := p_ok tt;
  pt_getsiginfo_code _ := p_ok 0;
  pt_pokeuser _ _ _ := p_ok tt;
  vm_readv _ a n := λ w, (inl (peek (sh_mem (w_shared w)) a (Z.to_nat n)), w);
  vm_writev _ a d := λ w,
    (inl (blen d), set_shared (MkShared (poke (sh_mem (w_shared w)) a d) (sh_env (w_shared w))) w);
  timer_install := p_ok tt;
  timer_arm := p_ok tt;
  timer_disarm := p_ok tt;
  clock_elapsed_ns := λ w, (w_clock w,
    MkProcs (w_shared w) (w_threads w) (w_next w) (w_inputs w) (w_choices w) (w_clock w + 1));
|}.

End Threads.
