(* ===== verification/ThreadSteps.v ===== *)
(** * The steps of a program of several threads

    The program alone, without a tracer: which thread made each record of the
    log, and what it did to its own state, the memory and the process ([obs]);
    runs of these, with the parts of a thread's code no record tells of
    ([obs_run]); a whole execution ([executes]).  Then what a wait of the machine
    of [Threads] can report. *)

From S2P Require Import Prelude TraceFormat TraceLog Payload Ptrace Capture Replay Sched SchedLog.
From S2P Require Import Machine Solo EndToEnd Threads.

(** ** The program's steps *)

Inductive lphase := LUser | LEntry (nr : Z) (argv : list Z) | LCloned (nr : Z) (argv : list Z) (child : nat).

(** The program alone: no tracer, no stops. *)
Record lstate (U E : Type) := MkL {
  l_shared : shared E;
  l_threads : gmap nat (local U * lphase);
  l_next : nat;
}.
Arguments MkL {U E}. Arguments l_shared {U E}. Arguments l_threads {U E}. Arguments l_next {U E}.

Definition lview {U} (t : thread U) : local U * lphase :=
  (t_lc t,
   match t_phase t with
   | TBorn | TUser | TExit _ _ => LUser
   | TEntry nr argv _ => LEntry nr argv
   | TCloning nr argv c | TCloned nr argv c => LCloned nr argv c
   end).

Definition view {U E} (w : procs U E) : lstate U E := MkL (w_shared w) (lview <$> w_threads w) (w_next w).

Section Obs.
Context {U E : Type} {C : Code U E} (pids : list Z).
#[local] Abbreviation L := (lstate U E).

Definition l_put (i : nat) (x : local U * lphase) (sh : shared E) (st : L) : L :=
  MkL sh (<[i := x]> (l_threads st)) (l_next st).

Definition switch_event (ts : Z) (i : nat) : Event :=
  Event_new_with_tid EvSchedSwitch ts (name pids i) (SchedSwitch_encode (mkSchedSwitch (name pids i))).
Definition spawn_event (ts : Z) (i child : nat) : Event :=
  Event_new_with_tid EvThreadSpawn ts (name pids i)
    (ThreadSpawn_encode (mkThreadSpawn (name pids i) (name pids child))).
Definition death_event (ts : Z) (i : nat) : Event :=
  Event_new_with_tid EvThreadExit ts (name pids i) (ThreadExit_encode (mkThreadExit (name pids i))).
Definition result_event (ts : Z) (i : nat) (nr : Z) (argv : list Z) (lc : local U) (sh : shared E) : Event :=
  let ret := as_i 64 (lc_rax lc) in
  Event_new_with_tid EvSyscallExit ts (name pids i)
    (SyscallExit_encode (mkSyscallExit nr ret (captured nr argv ret (sh_mem sh)))).

(** The rest of a call that is neither a thread's beginning nor its end. *)
Inductive completes (i : nat) (nr : Z) (argv : list Z) (lc : local U) (sh : shared E) : local U * shared E → Prop :=
| completes_outside x : outside nr = true → input_wf x → completes i nr argv lc sh (feed nr argv x lc sh)
| completes_real : outside nr = false → completes i nr argv lc sh (code_call i nr argv lc sh).

(** One record, made by the scheduled thread. *)
Inductive obs : L → nat → Event → L → nat → Prop :=
| obs_switch st cur i ts : in_u 64 ts → (i < length pids)%nat → obs st cur (switch_event ts i) st i
| obs_enter st cur lc lc' mem nr argv ts ret0 :
    in_u 64 ts → l_threads st !! cur = Some (lc, LUser) →
    code_run lc (sh_mem (l_shared st)) = (lc', mem, (nr, argv)) →
    obs st cur (enter_event ts (name pids cur) (mkSyscallRegs nr ret0 argv))
      (l_put cur (lc', LEntry nr argv) (MkShared mem (sh_env (l_shared st))) st) cur
| obs_exit st cur lc nr argv lc' sh' ts :
    in_u 64 ts → l_threads st !! cur = Some (lc, LEntry nr argv) → dies nr = false → clones nr = false →
    completes cur nr argv lc (l_shared st) (lc', sh') →
    obs st cur (result_event ts cur nr argv lc' sh') (l_put cur (lc', LUser) sh' st) cur
| obs_spawn st cur lc nr argv lc' mem ts :
    in_u 64 ts → l_threads st !! cur = Some (lc, LEntry nr argv) → clones nr = true →
    is_Some (pids !! l_next st) →
    code_clone (l_next st) argv lc (sh_mem (l_shared st)) = (lc', mem) →
    obs st cur (spawn_event ts cur (l_next st))
      (MkL (MkShared mem (sh_env (l_shared st)))
         (<[cur := (lc, LCloned nr argv (l_next st))]> (<[l_next st := (lc', LUser)]> (l_threads st)))
         (S (l_next st))) cur
| obs_cloned st cur lc nr argv child ts :
    in_u 64 ts → l_threads st !! cur = Some (lc, LCloned nr argv child) → clones nr = true →
    let lc' := returns (visible child) lc in
    obs st cur (result_event ts cur nr argv lc' (l_shared st)) (l_put cur (lc', LUser) (l_shared st) st) cur
| obs_death st cur lc argv ts :
    in_u 64 ts → cur ≠ 0%nat → l_threads st !! cur = Some (lc, LEntry SYS_exit argv) →
    obs st cur (death_event ts cur) (MkL (code_bury cur (l_shared st)) (delete cur (l_threads st)) (l_next st)) cur.

(** A run: what is recorded, and the steps between that are not. *)
Inductive obs_run (st0 : L) : list Event → L → nat → Prop :=
| run_nil : obs_run st0 [] st0 0
| run_part es st cur lc : obs_run st0 es st cur → l_threads st !! cur = Some (lc, LUser) →
    obs_run st0 es (l_put cur (code_step lc (sh_mem (l_shared st)), LUser) (l_shared st) st) cur
| run_snoc es st cur e st' cur' : obs_run st0 es st cur → obs st cur e st' cur' → obs_run st0 (es ++ [e]) st' cur'.

(** Threads are numbered in order of creation, and scheduled ones have a pid. *)
Definition numbered (st : L) (cur : nat) : Prop :=
  (∀ i, is_Some (l_threads st !! i) → (i < l_next st)%nat) ∧ (l_next st ≤ length pids)%nat ∧ (cur < length pids)%nat.

Lemma obs_numbered st cur e st' cur' : obs st cur e st' cur' → numbered st cur → numbered st' cur'.
Proof.
  intros Ho (Hn & Hl & Hc). destruct Ho as [| ? ? ? ? ? ? ? ? ? _ Hi _|? ? ? ? ? ? ? ? _ Hi _ _ _|? ? ? ? ? ? ? ? _ Hi _ Hp _|? ? ? ? ? ? ? _ Hi _|? ? ? ? ? _ _ Hi];
    unfold numbered, l_put in *; cbn in *; [done|..].
  - split; [|done]. intros j. rewrite put_thread_some by eauto. apply Hn.
  - split; [|done]. intros j. rewrite put_thread_some by eauto. apply Hn.
  - apply lookup_lt_is_Some in Hp. split; [|lia]. intros j [x Hj].
    rewrite !lookup_insert_Some in Hj. destruct Hj as [[<- _]|[_ [[<- _]|[_ Hj]]]]; [|lia|].
    + specialize (Hn cur (ex_intro _ _ Hi)). lia.
    + specialize (Hn j (ex_intro _ _ Hj)). lia.
  - split; [|done]. intros j. rewrite put_thread_some by eauto. apply Hn.
  - split; [|done]. intros j [x Hj]. apply lookup_delete_Some in Hj as [_ Hj]. eauto.
Qed.

Lemma part_numbered st cur i x : numbered st cur → is_Some (l_threads st !! i) → numbered (l_put i x (l_shared st) st) cur.
Proof.
  intros (Hn & Hl & Hc) Hi. split; [|done]. intros j. cbn. rewrite put_thread_some by done. apply Hn.
Qed.

(** Several steps. *)
Lemma run_steps st0 es st cur lc n :
  obs_run st0 es st cur → l_threads st !! cur = Some (lc, LUser) →
  obs_run st0 es (l_put cur (steps n (sh_mem (l_shared st)) lc, LUser) (l_shared st) st) cur.
Proof.
  intros Hr Hl. induction n as [|n IH].
  - unfold l_put. cbn. rewrite insert_id by done. by destruct st.
  - pose proof (run_part _ _ _ _ _ IH ltac:(cbn; apply lookup_insert_eq)) as Hp.
    unfold l_put in *. cbn in Hp. by rewrite insert_insert_eq in Hp.
Qed.

(** The program as [execve] leaves it. *)
Definition loaded (prog : list byte) (argv : list (list byte)) : lstate U E :=
  let '(lc, sh) := code_load prog argv in MkL sh {[0%nat := (lc, LUser)]} 1.

(** A whole execution: the steps of a log, the leader's death the last. *)
Definition executes (prog : list byte) (argv : list (list byte)) (es : list Event) (code : Z) (sh : shared E) : Prop :=
  (0 < length pids)%nat ∧
  ∃ es0 st lc nr av ts, es = es0 ++ [death_event ts 0] ∧ in_u 64 ts ∧ obs_run (loaded prog argv) es0 st 0 ∧
    l_threads st = {[0%nat := (lc, LEntry nr av)]} ∧ dies nr = true ∧ code = exit_status av ∧ sh = code_bury 0 (l_shared st).
End Obs.

(** ** Pids *)

Definition pids_ok (pids : list Z) : Prop := NoDup pids ∧ Forall pid_ok pids.

Lemma as_i_pid p : pid_ok p → as_i 32 p = p.
Proof.
  intros [H0 H1]. unfold as_i. cbv zeta. rewrite Z.mod_small by lia. change (32 - 1) with 31.
  by rewrite (proj2 (Z.ltb_lt _ _)).
Qed.

Section Pids.
Context {U E : Type} (pids : list Z) (Hpids : pids_ok pids).
#[local] Abbreviation P := (procs U E).

Lemma name_lookup i : (i < length pids)%nat → pids !! i = Some (name pids i).
Proof. intros [p Hp]%lookup_lt_is_Some. unfold name. by rewrite Hp. Qed.

Lemma name_inj i j : (i < length pids)%nat → (j < length pids)%nat → name pids i = name pids j → i = j.
Proof.
  intros Hi%name_lookup Hj%name_lookup He. rewrite He in Hi. by eapply NoDup_lookup; [apply Hpids|..].
Qed.

Lemma name_ok i : (i < length pids)%nat → pid_ok (name pids i).
Proof. intros Hi%name_lookup. eapply Forall_lookup_1; [apply Hpids|exact Hi]. Qed.

Lemma index_name i : (i < length pids)%nat → index pids (name pids i) = Some i.
Proof.
  intros Hi. pose proof (name_lookup _ Hi) as Hp. unfold index.
  destruct (list_find (λ q, q = name pids i) pids) as [[j q]|] eqn:Hf.
  - apply list_find_Some in Hf as (Hj & -> & _). cbn. f_equal. by eapply NoDup_lookup; [apply Hpids|..].
  - eapply list_find_None, Forall_lookup_1 in Hf; [|exact Hp]. done.
Qed.

Lemma index_ok p i : index pids p = Some i → p = name pids i ∧ (i < length pids)%nat.
Proof.
  unfold index. destruct (list_find _ pids) as [[j q]|] eqn:Hf; [|done]. intros [= ->].
  apply list_find_Some in Hf as (Hj & -> & _). split; [unfold name; by rewrite Hj|by eapply lookup_lt_Some].
Qed.

Lemma thread_of_name i (w : P) t :
  (i < length pids)%nat → w_threads w !! i = Some t → thread_of pids (name pids i) w = Some (i, t).
Proof. intros Hi Ht. unfold thread_of. rewrite index_name by done. cbn. by rewrite Ht. Qed.

Lemma thread_of_ok p i (w : P) t :
  thread_of pids p w = Some (i, t) → p = name pids i ∧ (i < length pids)%nat ∧ w_threads w !! i = Some t.
Proof.
  unfold thread_of. destruct (index pids p) as [j|] eqn:Hj; [|done]. cbn.
  destruct (w_threads w !! j) eqn:Ht; [|done]. cbn. intros [= <- <-]. apply index_ok in Hj as [-> Hj]. done.
Qed.
End Pids.

(** ** What a wait can report *)

(** Equal but for the choices left and the time. *)
Definition same_procs {U E} (w w' : procs U E) : Prop :=
  w_shared w' = w_shared w ∧ w_threads w' = w_threads w ∧ w_next w' = w_next w ∧ w_inputs w' = w_inputs w.

Section Stops.
Context {U E : Type} {C : Code U E} (pids : list Z).
#[local] Abbreviation P := (procs U E).

Inductive stops_as (w : P) : wait_status → P → Prop :=
| stops_first i t sig : w_threads w !! i = Some t → is_born t = true →
    stops_as w (Stopped (name pids i) sig) (put i (parked (t_lc t) TUser t) w)
| stops_early child w1 t sig : creating pids w = Some (child, w1) → w_threads w1 !! child = Some t → is_born t = true →
    stops_as w (Stopped (name pids child) sig) (put child (parked (t_lc t) TUser t) w1)
| stops_next late i t status w' : w_threads w !! i = Some t → t_going t = true →
    next_stop pids late i t w = (inl status, w') → stops_as w status w'.

Lemma find_thread_ok f (w : P) i t :
  find_thread f w = Some (i, t) → w_threads w !! i = Some t ∧ f t = true.
Proof.
  unfold find_thread. intros [Hin Hf]%List.find_some. apply list_elem_of_In, elem_of_map_to_list in Hin. done.
Qed.

Lemma complete_err i t nr argv (w : P) e w' : complete pids i t nr argv w = (inr e, w') → w' = w ∧ e = ECHILD.
Proof.
  unfold complete, clone_event. intros Hx.
  destruct (dies nr); [destruct (may_die _ _ _); [done|by injection Hx as <- <-]|].
  destruct (clones nr); [destruct (start_clone _ _ _ _ _ _) as [[]|]; [done|by injection Hx as <- <-]|].
  destruct (outside nr); [destruct (w_inputs w); [by injection Hx as <- <-|by destruct (feed _ _ _ _ _)]|].
  by destruct (code_call _ _ _ _ _).
Qed.

Lemma next_stop_err late i t (w : P) e w' : next_stop pids late i t w = (inr e, w') → w' = w ∧ e = ECHILD.
Proof.
  unfold next_stop, clone_event. intros Hx. destruct (t_phase t) as [| |nr argv []| | |]; try done.
  - by injection Hx as <- <-.
  - destruct (_ && _); [done|]. by destruct (code_run _ _) as [[] []].
  - by eapply complete_err.
  - destruct (_ && _); [done|]. by destruct (code_run _ _) as [[] []].
Qed.

Lemma pop_same (w : P) c w0 : pop w = (c, w0) → same_procs w w0.
Proof. unfold pop. destruct (w_choices w); by intros [= <- <-]. Qed.

Definition waits (w : P) (r : wait_status + Z) (w' : P) : Prop :=
  ∃ w0, same_procs w w0 ∧
    match r with
    | inl status => stops_as w0 status w'
    | inr e => e = ECHILD ∧ w' = w0 ∨ e = EINTR ∧ ∃ n, w' = part_way n w0
    end.

Lemma next_stop_waits late i t (w w0 : P) r w' :
  same_procs w w0 → w_threads w0 !! i = Some t → t_going t = true → next_stop pids late i t w0 = (r, w') → waits w r w'.
Proof.
  intros Hs Hi Hg Hx. exists w0. split; [done|]. destruct r as [status|e]; [by eapply stops_next|].
  apply next_stop_err in Hx as [-> ->]. auto.
Qed.

Lemma first_stop_waits i t (w w0 : P) r w' :
  same_procs w w0 → w_threads w0 !! i = Some t → is_born t = true → first_stop pids i t w0 = (r, w') → waits w r w'.
Proof. intros Hs Hi Hb [= <- <-]. exists w0. split; [done|]. by eapply stops_first. Qed.

Lemma next_wait_waits late (w w0 : P) r w' : same_procs w w0 → next_wait pids late w0 = (r, w') → waits w r w'.
Proof.
  intros Hs Hx. unfold next_wait in Hx. destruct (find_thread t_going w0) as [[i t]|] eqn:Hg.
  { apply find_thread_ok in Hg as [Hi Hg]. by eapply next_stop_waits. }
  destruct (find_thread is_born w0) as [[i t]|] eqn:Hb.
  { apply find_thread_ok in Hb as [Hi Hb]. by eapply first_stop_waits. }
  injection Hx as <- <-. exists w0. auto.
Qed.

Lemma wait_any_waits (w : P) r w' : wait_any pids w = (r, w') → waits w r w'.
Proof.
  unfold wait_any. destruct (pop w) as [c w0] eqn:Hp. apply pop_same in Hp. intros Hx.
  destruct c as [| | |i|].
  - by eapply next_wait_waits.
  - injection Hx as <- <-. exists w0. eauto.
  - by eapply next_wait_waits.
  - destruct (w_threads w0 !! i) as [t|] eqn:Hi; [|by eapply next_wait_waits].
    destruct (is_born t) eqn:Hb; [by eapply first_stop_waits|by eapply next_wait_waits].
  - destruct (creating pids w0) as [[child w1]|] eqn:Hc; [|by eapply next_wait_waits].
    destruct (w_threads w1 !! child) as [t|] eqn:Hi; [|by eapply next_wait_waits].
    destruct (is_born t) eqn:Hb; [|by eapply next_wait_waits].
    injection Hx as <- <-. exists w0. split; [done|]. by eapply stops_early.
Qed.

Lemma wait_for_waits p (w : P) r w' : wait_for pids p w = (r, w') → waits w r w'.
Proof.
  unfold wait_for. destruct (pop w) as [c w0] eqn:Hp. apply pop_same in Hp. intros Hx.
  destruct (thread_of pids p w0) as [[i t]|] eqn:Hi; [|by injection Hx as <- <-; exists w0; auto].
  apply thread_of_ok in Hi as (-> & _ & Hi).
  destruct (is_born t) eqn:Hb; [by eapply first_stop_waits|].
  destruct (t_going t) eqn:Hg; [by eapply next_stop_waits|]. injection Hx as <- <-. exists w0. auto.
Qed.
End Stops.

