(* ===== verification/ThreadLog.v ===== *)
(** * Recording a program of several threads

    On the machine of [Threads], a recording that completes has written the log
    of an execution ([ThreadSteps.executes]): the invariant of the recorder's
    loop, turn by turn, then the whole of [record_command]. *)

From S2P Require Import Prelude StdIo BufOut TraceFormat TraceLog Payload Ptrace Capture Replay Sched SchedLog.
From S2P Require Import Recording Machine Solo EndToEnd Threads ThreadSteps.

(** ** The scheduler on the machine *)

Section Recording.
Context {U E : Type} {C : Code U E} (pids : list Z) (Hpids : pids_ok pids).
Context {S : Type} `{TL : TraceSinkLaws S}.
#[local] Instance recording_kernel : Kernel (procs U E) := threads_kernel pids.
#[local] Abbreviation P := (procs U E).
#[local] Abbreviation Sch := (Scheduler P S).
#[local] Abbreviation name := (name pids).

(** The entry the scheduler keeps for a thread in a call. *)
Definition entry_of (nr : Z) (argv : list Z) : SyscallRegs := mkSyscallRegs nr (as_i 64 (as_u 64 (- ENOSYS))) argv.
Definition pending_of (t : thread U) : option SyscallRegs :=
  match t_phase t with
  | TEntry nr argv _ | TCloning nr argv _ | TCloned nr argv _ => Some (entry_of nr argv)
  | _ => None
  end.

Definition is_cloning (t : thread U) : bool := match t_phase t with TCloning _ _ _ => true | _ => false end.

(** A creation the log does not have yet: the running thread's. *)
Definition announced (w : P) (st : lstate U E) (cur : nat) : Prop :=
  ∃ t nr argv child, w_threads w !! cur = Some t ∧ t_phase t = TCloning nr argv child ∧ t_going t = true ∧
    (∀ i t', w_threads w !! i = Some t' → is_cloning t' = true → i = cur) ∧
    ∀ ts, in_u 64 ts → obs pids st cur (spawn_event pids ts cur child) (view w) cur.

Definition settled (w : P) (st : lstate U E) : Prop :=
  view w = st ∧ ∀ i t, w_threads w !! i = Some t → is_cloning t = false.

Record machine_inv (w : P) (st : lstate U E) (cur : nat) : Prop := {
  mi_leader : ∃ t, w_threads w !! 0%nat = Some t ∧ is_born t = false;
  mi_going : ∀ i t, w_threads w !! i = Some t → t_going t = true → i = cur ∧ is_born t = false;
  mi_called : ∀ i t nr argv c, w_threads w !! i = Some t → t_phase t = TEntry nr argv c → c = false;
  mi_cloned : ∀ i t nr argv c, w_threads w !! i = Some t →
    t_phase t = TCloning nr argv c ∨ t_phase t = TCloned nr argv c → clones nr = true ∧ (c < length pids)%nat;
  mi_numbered : numbered pids (view w) cur;
  mi_inputs : Forall input_wf (w_inputs w);
  mi_view : settled w st ∨ announced w st cur;
}.

(** The scheduler's table is the machine's. *)
Definition registered (s : Sch) (w : P) : Prop :=
  ∀ p th, threads s !! p = Some th ↔
    ∃ i t, p = name i ∧ w_threads w !! i = Some t ∧ is_born t = false ∧ th = mkThread (pending_of t) None.

Record log_inv (s : Sch) (es : list Event) (cur : nat) : Prop := {
  li_logged : logged (writer s) es;
  li_count : s_events_recorded s = blen es;
  li_bound : blen es < 2 ^ 64;
  li_last : last_scheduled s = Some (name cur);
  li_leader : leader s = name 0;
  li_exit : leader_exit s = None;
  li_followed : 1 ≤ s_threads_followed s;
  li_several : ∀ p, is_Some (threads s !! p) → p ≠ name 0 → 1 < s_threads_followed s;
}.

(** Between two turns of the loop. *)
Record turn_inv (s : Sch) (es : list Event) (st : lstate U E) (cur : nat) : Prop := {
  ti_machine : machine_inv (s_world s) st cur;
  ti_log : log_inv s es cur;
  ti_registered : registered s (s_world s);
  ti_running : ∀ p, running s = Some p → p = name cur;
  ti_going : ∀ i t, w_threads (s_world s) !! i = Some t → t_going t = true → running s = Some (name cur);
}.

(** The queue and the vfork table do not matter. *)
Definition rcore (s : Sch) :=
  (s_world s, writer s, threads s, running s, last_scheduled s, leader s, leader_exit s,
   s_events_recorded s, s_threads_followed s).

Lemma turn_core (s s' : Sch) es st cur : rcore s' = rcore s → turn_inv s es st cur → turn_inv s' es st cur.
Proof.
  destruct s, s'. unfold rcore. cbn. intros [= -> -> -> -> -> -> -> -> ->] [H1 [] H3 H4 H5].
  by constructor; [|constructor| | |].
Qed.

Lemma requeue_core p (s : Sch) : rcore (requeue p s) = rcore s.
Proof. unfold requeue. by destruct (_ && _). Qed.

Lemma machine_same (w w' : P) st cur : same_procs w w' → machine_inv w st cur → machine_inv w' st cur.
Proof.
  destruct w, w'. unfold same_procs. cbn. intros (-> & -> & -> & ->) [H1 H2 H3 H4 H5 H6 H7].
  constructor; [exact H1|exact H2|exact H3|exact H4|exact H5|exact H6|exact H7].
Qed.

Lemma turn_same (s : Sch) w es st cur :
  same_procs (s_world s) w → turn_inv s es st cur → turn_inv (set_world w s) es st cur.
Proof.
  intros Hw [H1 H2 H3 H4 H5]. pose proof Hw as (_ & Ht & _). constructor; cbn.
  - by eapply machine_same.
  - by destruct H2.
  - unfold registered. cbn. rewrite Ht. exact H3.
  - done.
  - intros i t. rewrite Ht. apply H5.
Qed.

(** ** Machine moves *)

Lemma view_put (w : P) i t : view (put i t w) = l_put i (lview t) (w_shared w) (view w).
Proof. unfold view, put, l_put. cbn. by rewrite fmap_insert. Qed.

Lemma view_put_same (w : P) i t t' :
  w_threads w !! i = Some t → lview t' = lview t → view (put i t' w) = view w.
Proof.
  intros Hi Hl. rewrite view_put, Hl. unfold l_put, view. cbn. f_equal. rewrite insert_id; [done|].
  by rewrite lookup_fmap, Hi.
Qed.

Lemma alive_lt (w : P) st cur i t :
  machine_inv w st cur → w_threads w !! i = Some t → (i < length pids)%nat.
Proof.
  intros Hm Hi. destruct (mi_numbered _ _ _ Hm) as (Hn & Hl & _). eapply Nat.lt_le_trans; [|exact Hl].
  apply Hn. cbn. rewrite lookup_fmap, Hi. by eexists.
Qed.

Lemma cur_lt (w : P) st cur : machine_inv w st cur → (cur < length pids)%nat.
Proof. intros Hm. by destruct (mi_numbered _ _ _ Hm) as (_ & _ & ?). Qed.

(** A thread that keeps its view, its place in the table and its silence. *)
Lemma machine_put (w : P) st cur i t t' :
  w_threads w !! i = Some t → lview t' = lview t →
  (is_cloning t' = is_cloning t ∧ (t_going t = true → is_cloning t = true → t_going t' = true)) →
  (t_going t' = true → i = cur ∧ is_born t' = false) →
  (is_born t = false → is_born t' = false) →
  (∀ nr argv c, t_phase t' = TEntry nr argv c → c = false) →
  machine_inv w st cur → machine_inv (put i t' w) st cur.
Proof.
  intros Hi Hl [Hcl Hgo] Hg Hb Hc Hm. pose proof Hm as [H1 H2 H3 H4 H5 H6 H7].
  assert (Hv : view (put i t' w) = view w) by (by eapply view_put_same).
  constructor; cbn.
  - destruct H1 as (t0 & H0 & Hb0). destruct (decide (i = 0%nat)) as [->|Hne].
    + exists t'. rewrite lookup_insert_eq. split; [done|]. apply Hb. congruence.
    + exists t0. by rewrite lookup_insert_ne.
  - intros j u. rewrite lookup_insert_Some. intros [[<- <-]|[_ Hj]]; [done|by eapply H2].
  - intros j u nr argv c. rewrite lookup_insert_Some. intros [[<- <-]|[_ Hj]]; [by eauto|by eapply H3].
  - intros j u nr argv c. rewrite lookup_insert_Some. intros [[<- <-]|[_ Hj]] Hph; [|by eapply H4].
    assert (Hold : t_phase t = TCloning nr argv c ∨ t_phase t = TCloned nr argv c).
    { injection Hl as _ Hl. destruct Hph as [Hph|Hph]; rewrite Hph in Hl; destruct (t_phase t); try done;
        injection Hl as -> -> ->; auto. }
    by eapply H4.
  - by rewrite Hv.
  - done.
  - destruct H7 as [[Hs Hn]|(t0 & nr & argv & c & H0 & Hp0 & Hg0 & Ho & Hobs)].
    + left. split; [by rewrite Hv|]. intros j u. cbn. rewrite lookup_insert_Some. intros [[<- <-]|[_ Hj]]; [|by eapply Hn].
      rewrite Hcl. by eapply Hn.
    + right. destruct (decide (i = cur)) as [->|Hne].
      * rewrite Hi in H0. injection H0 as ->. assert (Hc0 : is_cloning t0 = true) by (unfold is_cloning; by rewrite Hp0).
        injection Hl as _ Hl. rewrite Hp0 in Hl. unfold is_cloning in Hcl at 1. rewrite Hc0 in Hcl.
        destruct (t_phase t') as [| | |nr' argv' c'| |] eqn:Hp'; try done. injection Hl as -> -> ->.
        exists t', nr, argv, c. cbn. rewrite lookup_insert_eq. split; [done|]. split; [done|]. split; [auto|].
        split; [|intros ts Hts; rewrite Hv; by apply Hobs].
        intros j u. rewrite lookup_insert_Some. intros [[<- <-]|[_ Hj]]; [done|by eapply Ho].
      * exists t0, nr, argv, c. cbn. rewrite lookup_insert_ne by done. split; [done|]. split; [done|]. split; [done|].
        split; [|intros ts Hts; rewrite Hv; by apply Hobs].
        intros j u. rewrite lookup_insert_Some. intros [[<- <-]|[_ Hj]]; [|by eapply Ho].
        rewrite Hcl. by eapply Ho.
Qed.

(** ** Stops without a record *)

Lemma registered_fresh (s : Sch) w st cur i t :
  machine_inv w st cur → registered s w → w_threads w !! i = Some t → is_born t = true → threads s !! name i = None.
Proof.
  intros Hm Hr Hi Hb. apply eq_None_not_Some. intros [th Hth]. apply Hr in Hth as (j & u & Hn & Hj & Hu & _).
  apply (name_inj _ Hpids) in Hn as <-; [congruence|by eapply alive_lt..].
Qed.

Lemma registered_some (s : Sch) w i t :
  registered s w → w_threads w !! i = Some t → is_born t = false → threads s !! name i = Some (mkThread (pending_of t) None).
Proof. intros Hr Hi Hb. apply Hr. eauto 10. Qed.

(** A new value of one thread, in the table and in the machine. *)
Lemma registered_put (s s' : Sch) w w' st cur i t' :
  machine_inv w st cur → registered s w → (i < length pids)%nat → is_born t' = false →
  threads s' = <[name i := mkThread (pending_of t') None]> (threads s) →
  w_threads w' = <[i := t']> (w_threads w) → registered s' w'.
Proof.
  intros Hm Hr Hi Hb Hs Hw p th. rewrite Hs, Hw. rewrite lookup_insert_Some. split.
  - intros [[<- <-]|[Hne Hp]].
    + exists i, t'. by rewrite lookup_insert_eq.
    + apply Hr in Hp as (j & u & -> & Hj & Hu & ->). exists j, u. rewrite lookup_insert_ne; [done|congruence].
  - intros (j & u & -> & Hj & Hu & ->). apply lookup_insert_Some in Hj as [[<- <-]|[Hne Hj]]; [by left|].
    right. split; [|apply Hr; eauto 10]. intros He. apply (name_inj _ Hpids) in He; [done..|by eapply alive_lt].
Qed.

(** The first stop of a thread. *)
Lemma first_turn (s s' : Sch) es st cur i t sig u :
  turn_inv s es st cur → w_threads (s_world s) !! i = Some t → is_born t = true →
  handle (Stopped (name i) sig) (set_world (put i (parked (t_lc t) TUser t) (s_world s)) s) = (Ok u, s') →
  turn_inv s' es st cur.
Proof.
  intros [Hm Hlg Hr Hru Hgo] Hi Hb Hx. pose proof (alive_lt _ _ _ _ _ Hm Hi) as Hlt.
  pose proof (registered_fresh _ _ _ _ _ _ Hm Hr Hi Hb) as Hf.
  cbn [handle] in Hx. unfold on_stopped, register_child, pin_to_serialization_cpu in Hx. st_inv.
  change (threads (set_world _ s)) with (threads s) in Hx. rewrite Hf in Hx.
  rewrite bool_decide_eq_false_2 in Hx by (by intros []). cbn [negb] in Hx. st_inv.
  repeat match goal with Ho : on_world _ _ = (Ok _, _) |- _ =>
    apply on_world_ok in Ho as (? & Ho%call_ok & ->); injection Ho as _ <- end.
  match goal with Hn : expect _ = Ok _ |- _ => apply count_up_ok in Hn as [-> Hn] end. cbn in *.
  eapply turn_core; [apply requeue_core|]. destruct Hlg. constructor; cbn.
  - eapply machine_put; [exact Hi|..|exact Hm]; unfold is_born, lview, is_cloning in *; cbn; destruct (t_phase t); done.
  - constructor; cbn; try done; lia.
  - by eapply (registered_put _ _ _ _ _ _ _ (parked (t_lc t) TUser t) Hm Hr Hlt).
  - done.
  - intros j v. rewrite lookup_insert_Some. intros [[_ <-]|[_ Hj]]; [done|by eapply Hgo].
Qed.

(** A thread stopped by [SIGSTOP]. *)
Lemma stop_turn (s s' : Sch) es st cur i t ph u :
  turn_inv s es st cur → w_threads (s_world s) !! i = Some t → t_going t = true → t_phase t = ph →
  is_cloning t = false → (∀ nr argv c, ph ≠ TEntry nr argv c) →
  handle (Stopped (name i) SIGSTOP) (set_world (put i (MkThread (t_lc t) ph false false) (s_world s)) s) = (Ok u, s') →
  turn_inv s' es st cur.
Proof.
  intros [Hm Hlg Hr Hru Hgo] Hi Hg <- Hc Hne Hx. pose proof (alive_lt _ _ _ _ _ Hm Hi) as Hlt.
  destruct (mi_going _ _ _ Hm _ _ Hi Hg) as [-> Hb].
  pose proof (registered_some _ _ _ _ Hr Hi Hb) as Hs.
  cbn [handle] in Hx. unfold on_stopped in Hx. st_inv.
  rewrite bool_decide_eq_true_2 in Hx by eauto. cbn [negb] in Hx. rewrite Z.eqb_refl in Hx. cbn [negb st_when] in Hx. st_inv.
  eapply turn_core; [apply requeue_core|].
  assert (Hrun : running s = Some (name cur)) by (by eapply Hgo).
  unfold clear_running. cbn. rewrite Hrun, bool_decide_eq_true_2 by done.
  destruct Hlg. constructor; cbn.
  - eapply machine_put; [exact Hi|..|exact Hm]; try done.
    + split; [done|]. by rewrite Hc.
    + intros nr argv c He. by destruct (Hne nr argv c).
  - constructor; cbn; done.
  - eapply (registered_put _ _ _ _ _ _ _ (MkThread (t_lc t) (t_phase t) false false) Hm Hr Hlt); [| |reflexivity].
    + exact Hb.
    + symmetry. by apply insert_id.
  - done.
  - intros j v. rewrite lookup_insert_Some. intros [[_ <-]|[Hjne Hj]] Hgj; [done|].
    destruct (mi_going _ _ _ Hm _ _ Hj Hgj) as [-> _]. done.
Qed.

(** ** Moves with a record *)

Lemma view_lookup (w : P) i t : w_threads w !! i = Some t → l_threads (view w) !! i = Some (lview t).
Proof. intros Hi. cbn. by rewrite lookup_fmap, Hi. Qed.

Lemma settled_now (w : P) st cur t :
  machine_inv w st cur → w_threads w !! cur = Some t → is_cloning t = false → settled w st.
Proof.
  intros Hm Hi Hc. destruct (mi_view _ _ _ Hm) as [Hs|(t0 & nr & argv & c & H0 & Hp & _)]; [done|].
  rewrite Hi in H0. injection H0 as <-. unfold is_cloning in Hc. by rewrite Hp in Hc.
Qed.

(** The scheduled thread moves to its next stop. *)
Lemma machine_step (w w' : P) st cur t t' :
  machine_inv w st cur → w_threads w !! cur = Some t → is_born t = false →
  w_threads w' = <[cur := t']> (w_threads w) → w_next w' = w_next w → Forall input_wf (w_inputs w') →
  is_born t' = false → is_cloning t' = false →
  (∀ nr argv c, t_phase t' = TEntry nr argv c → c = false) →
  (∀ nr argv c, t_phase t' = TCloned nr argv c → clones nr = true ∧ (c < length pids)%nat) →
  machine_inv w' (view w') cur.
Proof.
  intros [H1 H2 H3 H4 H5 H6 H7] Hi Hb Hw Hn Hin Hb' Hc' Ht' Hcl'.
  assert (Hoth : ∀ j u, j ≠ cur → w_threads w !! j = Some u → is_cloning u = false).
  { intros j u Hj Hu. destruct (is_cloning u) eqn:Hcu; [|done].
    destruct H7 as [[_ Hno]|(t0 & nr & argv & c & _ & _ & _ & Ho & _)]; [by rewrite (Hno _ _ Hu) in Hcu|].
    by destruct Hj; eapply Ho. }
  constructor; rewrite ?Hw.
  - destruct H1 as (t0 & H0 & Hb0). destruct (decide (cur = 0%nat)) as [->|Hne].
    + exists t'. by rewrite lookup_insert_eq.
    + exists t0. by rewrite lookup_insert_ne.
  - intros j u. rewrite lookup_insert_Some. intros [[<- <-]|[_ Hj]]; [done|by eapply H2].
  - intros j u nr argv c. rewrite lookup_insert_Some. intros [[<- <-]|[_ Hj]]; [eauto|by eapply H3].
  - intros j u nr argv c. rewrite lookup_insert_Some. intros [[<- <-]|[_ Hj]] Hph; [|by eapply H4].
    destruct Hph as [Hph|Hph]; [|eauto]. unfold is_cloning in Hc'. by rewrite Hph in Hc'.
  - destruct H5 as (Hd & Hl & Hc). unfold numbered, view in *. cbn in *. rewrite Hw, Hn. split; [|done].
    intros j. rewrite fmap_insert, put_thread_some by (rewrite lookup_fmap, Hi; by eexists). apply Hd.
  - done.
  - left. split; [done|]. rewrite Hw. intros j u. rewrite lookup_insert_Some. intros [[<- <-]|[Hne Hj]]; [done|].
    by eapply Hoth.
Qed.

(** The scheduler follows, one record later. *)
Lemma recorded_turn (s s' : Sch) es st cur e st' t t' w' wr' q :
  turn_inv s es st cur → w_threads (s_world s) !! cur = Some t → is_born t = false →
  sink_append e (writer s) = (Ok q, wr') → s_events_recorded s + 1 < 2 ^ 64 →
  machine_inv w' st' cur → w_threads w' = <[cur := t']> (w_threads (s_world s)) →
  t_going t' = false → is_born t' = false →
  rcore s' = (w', wr', <[name cur := mkThread (pending_of t') None]> (threads s), None, last_scheduled s, leader s,
              leader_exit s, s_events_recorded s + 1, s_threads_followed s) →
  turn_inv s' (es ++ [e]) st' cur.
Proof.
  intros [Hm [L1 L2 L3 L4 L5 L6 L7 L8] Hr Hru Hgo] Hi Hb Ha Hc Hm' Hw Hg' Hb' Hs.
  pose proof (registered_some _ _ _ _ Hr Hi Hb) as Hreg. pose proof (alive_lt _ _ _ _ _ Hm Hi) as Hlt.
  destruct s'. unfold rcore in Hs. cbn in Hs. injection Hs as -> -> Hth -> -> -> -> -> ->. constructor; cbn.
  - done.
  - constructor; cbn; try done.
    + by eapply logged_append.
    + by rewrite blen_app, L2.
    + rewrite blen_app. cbn. rewrite L2 in Hc. exact Hc.
    + intros p. rewrite Hth, put_thread_some by eauto. apply L8.
  - eapply (registered_put _ _ _ _ _ _ _ t' Hm Hr Hlt); done.
  - done.
  - intros j v. rewrite Hw, lookup_insert_Some. intros [[_ <-]|[Hne Hj]] Hgj; [congruence|].
    by destruct (mi_going _ _ _ Hm _ _ Hj Hgj).
Qed.

Lemma clones_not_dies nr : clones nr = true → dies nr = false.
Proof.
  unfold clones, dies, SYS_clone, SYS_clone3, SYS_exit, SYS_exit_group.
  destruct (Z.eqb_spec nr 56), (Z.eqb_spec nr 435), (Z.eqb_spec nr 60), (Z.eqb_spec nr 231); (done || lia).
Qed.

(** What [start_clone] leaves, in full. *)
Lemma start_clone_ok (w w1 : P) i t nr argv child :
  start_clone pids i t nr argv w = Some (child, w1) →
  ∃ lc mem, code_clone child argv (t_lc t) (sh_mem (w_shared w)) = (lc, mem) ∧ child = w_next w ∧ is_Some (pids !! child) ∧
    w1 = MkProcs (MkShared mem (sh_env (w_shared w)))
      (<[i := MkThread (t_lc t) (TCloning nr argv child) true (t_stop t)]>
        (<[child := MkThread lc TBorn false false]> (w_threads w)))
      (Datatypes.S child) (w_inputs w) (w_choices w) (w_clock w).
Proof.
  unfold start_clone. destruct (pids !! w_next w) as [p|] eqn:Hpid; [|done]. cbn.
  destruct (code_clone _ _ _ _) as [lc mem] eqn:Hcode. intros [= <- <-]. exists lc, mem. by rewrite Hpid.
Qed.

Lemma next_fresh (w : P) st cur : machine_inv w st cur → w_threads w !! w_next w = None.
Proof.
  intros Hm. apply eq_None_not_Some. intros Hs. destruct (mi_numbered _ _ _ Hm) as (Hn & _).
  specialize (Hn (w_next w)). cbn in Hn. rewrite lookup_fmap, fmap_is_Some in Hn. apply Hn in Hs. lia.
Qed.

(** A creation under way, its event still to come. *)
Lemma machine_cloning (w w1 : P) st cur t nr argv child :
  machine_inv w st cur → w_threads w !! cur = Some t → is_born t = false → t_phase t = TEntry nr argv false →
  clones nr = true → start_clone pids cur t nr argv w = Some (child, w1) → machine_inv w1 st cur.
Proof.
  intros Hm Hi Hb Hph Hcl Hsc. destruct (start_clone_ok _ _ _ _ _ _ _ Hsc) as (lc & mem & Hcode & -> & [p Hpid] & ->).
  assert (Hnc : is_cloning t = false) by (unfold is_cloning; by rewrite Hph).
  destruct (settled_now _ _ _ _ Hm Hi Hnc) as [Hv Hno]. set (child := w_next w) in *.
  set (tc := MkThread (t_lc t) (TCloning nr argv child) true (t_stop t)).
  pose proof (next_fresh _ _ _ Hm) as Hfresh. fold child in Hfresh.
  assert (Hne : cur ≠ child) by congruence. set (w1 := MkProcs _ _ _ _ _ _).
  assert (Hobs : ∀ ts, in_u 64 ts → obs pids st cur (spawn_event pids ts cur child) (view w1) cur).
  { intros ts Hts. rewrite <- Hv. unfold view, w1. cbn. rewrite !fmap_insert.
    eapply (obs_spawn _ (view w) cur (t_lc t) nr argv lc mem ts); cbn; [done| |done|by exists p|done].
    rewrite lookup_fmap, Hi. cbn. unfold lview. by rewrite Hph. }
  assert (Hnth : ∀ j u, w_threads w1 !! j = Some u →
      (j = cur ∧ u = tc) ∨ (j = child ∧ u = MkThread lc TBorn false false) ∨ (j ≠ cur ∧ w_threads w !! j = Some u)).
  { intros j u. cbn. rewrite !lookup_insert_Some. naive_solver. }
  pose proof Hm as [H1 H2 H3 H4 H5 H6 H7]. constructor.
  - destruct H1 as (t0 & H0 & Hb0). destruct (decide (cur = 0%nat)) as [->|Hn0].
    + exists tc. cbn. by rewrite lookup_insert_eq.
    + exists t0. cbn. rewrite lookup_insert_ne, lookup_insert_ne by (done || congruence). done.
  - intros j u [[-> ->]|[[-> ->]|[_ Hj]]]%Hnth Hgj; [done|done|by eapply H2].
  - intros j u nr' argv' c [[-> ->]|[[-> ->]|[_ Hj]]]%Hnth; [done|done|by eapply H3].
  - intros j u nr' argv' c [[-> ->]|[[-> ->]|[_ Hj]]]%Hnth Hp; [|by destruct Hp|by eapply H4].
    destruct Hp as [[= <- <- <-]|]; [|done]. split; [done|]. by eapply lookup_lt_Some.
  - eapply obs_numbered; [apply (Hobs 0); by split|]. by rewrite <- Hv.
  - done.
  - right. exists tc, nr, argv, child. split; [cbn; by rewrite lookup_insert_eq|]. split; [done|].
    split; [done|]. split; [|done].
    intros j u [[-> ->]|[[-> ->]|[_ Hj]]]%Hnth Hc; [done|done|by rewrite (Hno _ _ Hj) in Hc].
Qed.

Lemma cloning_turn (s : Sch) es st cur t nr argv child w1 :
  turn_inv s es st cur → w_threads (s_world s) !! cur = Some t → t_going t = true →
  t_phase t = TEntry nr argv false → clones nr = true →
  start_clone pids cur t nr argv (s_world s) = Some (child, w1) →
  turn_inv (set_world w1 s) es st cur ∧
  w_threads w1 !! cur = Some (MkThread (t_lc t) (TCloning nr argv child) true (t_stop t)).
Proof.
  intros [Hm Hlg Hr Hru Hgo] Hi Hg Hph Hcl Hsc. destruct (mi_going _ _ _ Hm _ _ Hi Hg) as [_ Hb].
  pose proof (machine_cloning _ _ _ _ _ _ _ _ Hm Hi Hb Hph Hcl Hsc) as Hm1.
  destruct (start_clone_ok _ _ _ _ _ _ _ Hsc) as (lc & mem & _ & Hch & _ & Hw1).
  set (tc := MkThread (t_lc t) (TCloning nr argv child) true (t_stop t)) in *.
  assert (Hth : w_threads w1 = <[cur := tc]> (<[child := MkThread lc TBorn false false]> (w_threads (s_world s)))) by (by rewrite Hw1).
  pose proof (next_fresh _ _ _ Hm) as Hfresh. rewrite <- Hch in Hfresh.
  split; [|rewrite Hth; by rewrite lookup_insert_eq]. constructor; [done|by destruct Hlg| |done|].
  - intros p' th. change (threads (set_world _ s)) with (threads s). rewrite (Hr p' th). cbn [s_world set_world]. rewrite Hth. split.
    + intros (j & u & -> & Hj & Hu & ->). destruct (decide (j = cur)) as [->|Hjc].
      * rewrite Hi in Hj. injection Hj as <-. exists cur, tc. rewrite lookup_insert_eq. unfold pending_of. by rewrite Hph.
      * exists j, u. rewrite lookup_insert_ne, lookup_insert_ne by (done || congruence). done.
    + intros (j & u & -> & Hj & Hu & ->). rewrite !lookup_insert_Some in Hj.
      destruct Hj as [[<- <-]|[_ [[<- <-]|[_ Hj]]]]; [|done|eauto 10].
      exists cur, t. unfold pending_of. by rewrite Hph.
  - intros j u. cbn [s_world set_world]. rewrite Hth, !lookup_insert_Some. intros [[<- <-]|[_ [[<- <-]|[_ Hj]]]] Hgj; [by eapply Hgo|done|by eapply Hgo].
Qed.

(** ** Stops at a call *)

Lemma same_clock (w : P) t : same_procs w (MkProcs (w_shared w) (w_threads w) (w_next w) (w_inputs w) (w_choices w) t).
Proof. done. Qed.

(** The registers of a thread at its stop, the time, and the entry kept for it. *)
Lemma syscall_stop (s s' : Sch) w cur t pend u :
  (cur < length pids)%nat → w_threads w !! cur = Some t →
  threads s !! name cur = Some (mkThread pend None) → running s = Some (name cur) →
  handle (PtraceSyscall (name cur)) (set_world w s) = (Ok u, s') →
  ∃ ts w1 s1, in_u 64 ts ∧ same_procs w w1 ∧ w_threads w1 !! cur = Some t ∧
    let r := thread_regs t in
    let regs := mkSyscallRegs (orig_rax r) (as_i 64 (rax r)) [rdi r; rsi r; rdx r; r10 r; r8 r; r9 r] in
    let s0 := Sched.set_threads (<[name cur := mkThread None None]> (threads s)) (set_running None (set_world w1 s)) in
    match pend with
    | None => sched_append (enter_event ts (name cur) regs);;
        st_modify (update_thread (name cur) (λ th, mkThread (Some regs) (resume_signal th)))
    | Some enter => e ← on_world (exit_event ts (name cur) (name cur) enter (regs_ret regs)); sched_append e
    end s0 = (Ok tt, s1) ∧ s' = requeue (name cur) s1.
Proof.
  intros Hlt Hi Hth Hrun Hx. cbn [handle] in Hx. st_inv.
  assert (Hcr : clear_running (name cur) (set_world w s) = set_running None (set_world w s)).
  { unfold clear_running. cbn. by rewrite Hrun, bool_decide_eq_true_2. }
  rewrite Hcr in Hm0. unfold on_syscall in Hm0. rewrite (as_u_pid _ (name_ok _ Hpids _ Hlt)) in Hm0. st_inv.
  apply on_world_ok in Hm as (w0 & Hg & ->). unfold read_syscall_regs in Hg. st_inv. apply call_ok in Hm.
  cbn in Hm. unfold get_regs in Hm. rewrite (thread_of_name _ Hpids _ _ _ Hlt Hi) in Hm. injection Hm as <- <-.
  unfold now in Hm1. cbn in Hm1. injection Hm1 as <- <-.
  unfold take_pending_enter in Hm2. cbn in Hm2. rewrite Hth in Hm2. cbn in Hm2.
  unfold update_thread in Hm2. cbn in Hm2. rewrite Hth in Hm2. cbn in Hm2. injection Hm2 as <- <-.
  eexists _, _, _. split; [by apply Z.mod_pos_bound|]. split; [|split; [|split; [|reflexivity]]]; cycle 2.
  - destruct pend, a0; exact Hm0.
  - done.
  - exact Hi.
Qed.

(** What the program's code gives a call, as in [Solo.machine_wf]; and that a
    thread an alarm stopped part of the way goes on, whatever others have done
    to the memory since, as it would from its last call. *)
Record code_wf : Prop := {
  cw_call : ∀ lc m lc' m' nr argv, code_run lc m = (lc', m', (nr, argv)) →
    in_u 64 nr ∧ length argv = 6%nat ∧ Forall (in_u 64) argv ∧ senderless nr argv;
  cw_step : ∀ lc m m', code_run (code_step lc m) m' = code_run lc m';
}.

Lemma at_pending (s : Sch) es st cur t :
  turn_inv s es st cur → w_threads (s_world s) !! cur = Some t → t_going t = true →
  is_born t = false ∧ (cur < length pids)%nat ∧ running s = Some (name cur) ∧
  threads s !! name cur = Some (mkThread (pending_of t) None).
Proof.
  intros [Hm Hlg Hr Hru Hgo] Hi Hg. destruct (mi_going _ _ _ Hm _ _ Hi Hg) as [_ Hb].
  split; [done|]. split; [by eapply alive_lt|]. split; [by eapply Hgo|by eapply registered_some].
Qed.

(** User code, up to its call. *)
Lemma enter_turn (s s' : Sch) es st cur t lc mem nr argv u :
  code_wf → turn_inv s es st cur → w_threads (s_world s) !! cur = Some t → t_going t = true → in_user t = true →
  code_run (t_lc t) (sh_mem (w_shared (s_world s))) = (lc, mem, (nr, argv)) →
  handle (PtraceSyscall (name cur)) (set_world (put cur (parked lc (TEntry nr argv false) t)
    (set_shared (MkShared mem (sh_env (w_shared (s_world s)))) (s_world s))) s) = (Ok u, s') →
  ∃ e st', obs pids st cur e st' cur ∧ turn_inv s' (es ++ [e]) st' cur.
Proof.
  intros Hwf Ht Hi Hg Hu Hr Hx. destruct (at_pending _ _ _ _ _ Ht Hi Hg) as (Hb & Hlt & Hrun & Hth).
  assert (Hpn : pending_of t = None) by (unfold pending_of, in_user in *; by destruct (t_phase t)).
  assert (Hnc : is_cloning t = false) by (unfold is_cloning, in_user in *; by destruct (t_phase t)).
  assert (Hlv : lview t = (t_lc t, LUser)) by (unfold lview, in_user in *; by destruct (t_phase t)).
  destruct (cw_call Hwf _ _ _ _ _ _ Hr) as (Hnr & Hl & Hargs & _).
  set (w' := put cur _ _) in *. rewrite Hpn in Hth. set (t' := parked lc (TEntry nr argv false) t) in *.
  assert (Hi' : w_threads w' !! cur = Some t') by (cbn; by rewrite lookup_insert_eq).
  destruct (syscall_stop s s' w' cur t' None u Hlt Hi' Hth Hrun Hx) as (ts & w1 & s1 & Hts & Hsame & _ & Ha & ->).
  cbn in Ha. rewrite (argv_six argv Hl) in Ha. fold (entry_of nr argv) in Ha. st_inv.
  apply sched_append_ok in Hm as (wr & q & [Hq Hlim] & ->). cbn in Hq.
  pose proof (ti_machine _ _ _ _ Ht) as Hm.
  destruct (settled_now _ _ _ _ Hm Hi Hnc) as [Hv _].
  assert (Hobs : obs pids st cur (enter_event ts (name cur) (entry_of nr argv)) (view w') cur).
  { rewrite <- Hv. unfold w'. rewrite view_put.
    eapply (obs_enter _ (view (s_world s)) cur (t_lc t)); [done|by rewrite (view_lookup _ _ _ Hi), Hlv|exact Hr]. }
  assert (Hmi : machine_inv w' (view w') cur).
  { eapply (machine_step (s_world s) w' st cur t t' Hm Hi Hb); try done; [apply Hm|]. by intros ??? [= _ _ <-]. }
  eexists _, _. split; [exact Hobs|]. destruct Hsame as (Hs1 & Hs2 & Hs3 & Hs4).
  eapply (recorded_turn s _ es st cur _ (view w') t t' w1 wr q Ht Hi Hb Hq Hlim); [|by rewrite Hs2| | |]; try done.
  - by apply (machine_same w').
  - rewrite requeue_core. unfold update_thread. cbn. rewrite lookup_insert_eq. unfold rcore. cbn.
    by rewrite insert_insert_eq.
Qed.

Lemma exit_event_run ts t nr argv ret (w : P) :
  exit_event ts t t (entry_of nr argv) ret w =
    (Ok (Event_new_with_tid EvSyscallExit ts t
       (SyscallExit_encode (mkSyscallExit nr ret (captured nr argv ret (sh_mem (w_shared w)))))), w).
Proof.
  unfold exit_event, captured. cbn [regs_nr regs_args entry_of].
  destruct (kernel_written_region nr argv ret) as [[addr len]|]; [|done].
  unfold read_tracee_memory, mbind, stm_bind, call. cbn. by rewrite peek_length, Nat.sub_diag, app_nil_r.
Qed.

(** The end of a call. *)
Lemma exit_turn (s s' : Sch) es st cur t lc nr argv w' u :
  turn_inv s es st cur → w_threads (s_world s) !! cur = Some t → t_going t = true →
  pending_of t = Some (entry_of nr argv) →
  w_threads w' = <[cur := parked lc (TExit nr argv) t]> (w_threads (s_world s)) → w_next w' = w_next (s_world s) →
  Forall input_wf (w_inputs w') →
  (∀ ts, in_u 64 ts → obs pids st cur (result_event pids ts cur nr argv lc (w_shared w')) (view w') cur) →
  handle (PtraceSyscall (name cur)) (set_world w' s) = (Ok u, s') →
  ∃ e st', obs pids st cur e st' cur ∧ turn_inv s' (es ++ [e]) st' cur.
Proof.
  intros Ht Hi Hg Hpn Hw Hn Hin Hobs Hx. destruct (at_pending _ _ _ _ _ Ht Hi Hg) as (Hb & Hlt & Hrun & Hth).
  rewrite Hpn in Hth. set (t' := parked lc (TExit nr argv) t) in *.
  assert (Hi' : w_threads w' !! cur = Some t') by (by rewrite Hw, lookup_insert_eq).
  destruct (syscall_stop s s' w' cur t' _ u Hlt Hi' Hth Hrun Hx) as (ts & w1 & s1 & Hts & Hsame & _ & Ha & ->).
  destruct Hsame as (Hs1 & Hs2 & Hs3 & Hs4). cbn [thread_regs t' parked t_phase] in Ha. cbn zeta in Ha. st_inv.
  apply on_world_ok in Hm as (w2 & He & ->). cbn in He. rewrite exit_event_run in He. injection He as <- <-.
  rewrite Hs1 in Ha. apply sched_append_ok in Ha as (wr & q & [Hq Hlim] & ->). cbn in Hq.
  pose proof (ti_machine _ _ _ _ Ht) as Hm.
  assert (Hmi : machine_inv w' (view w') cur) by (by eapply (machine_step (s_world s) w' st cur t t' Hm Hi Hb)).
  eexists _, _. split; [by apply (Hobs ts)|].
  eapply (recorded_turn s _ es st cur _ (view w') t t' w1 wr q Ht Hi Hb Hq Hlim); [|by rewrite Hs2| | |]; try done.
  - by apply (machine_same w').
  - by rewrite requeue_core.
Qed.

(** The event of a creation. *)
Lemma spawn_turn (s s' : Sch) es st cur t nr argv child u :
  turn_inv s es st cur → w_threads (s_world s) !! cur = Some t → t_going t = true → t_phase t = TCloning nr argv child →
  handle (PtraceEvent (name cur) PTRACE_EVENT_CLONE)
    (set_world (put cur (parked (t_lc t) (TCloned nr argv child) t) (s_world s)) s) = (Ok u, s') →
  ∃ e st', obs pids st cur e st' cur ∧ turn_inv s' (es ++ [e]) st' cur.
Proof.
  intros Ht Hi Hg Hph Hx. destruct (at_pending _ _ _ _ _ Ht Hi Hg) as (Hb & Hlt & Hrun & Hth).
  pose proof (ti_machine _ _ _ _ Ht) as Hm.
  destruct (mi_cloned _ _ _ Hm cur t nr argv child Hi (or_introl Hph)) as [Hcl Hc].
  destruct (mi_view _ _ _ Hm) as [[_ Hno]|(t0 & nr0 & argv0 & c0 & H0 & Hp0 & _ & _ & Hobs)].
  { specialize (Hno _ _ Hi). unfold is_cloning in Hno. by rewrite Hph in Hno. }
  rewrite Hi in H0. injection H0 as <-. rewrite Hph in Hp0. injection Hp0 as <- <- <-.
  set (t' := parked (t_lc t) (TCloned nr argv child) t) in *. set (w' := put cur t' (s_world s)) in *.
  assert (Hv : view w' = view (s_world s)).
  { eapply view_put_same; [exact Hi|]. unfold lview. cbn. by rewrite Hph. }
  assert (Hmi : machine_inv w' (view w') cur).
  { eapply (machine_step (s_world s) w' st cur t t' Hm Hi Hb); try done; [apply Hm|]. by intros ??? [= <- _ <-]. }
  cbn [handle] in Hx. st_inv.
  assert (Hcr : clear_running (name cur) (set_world w' s) = set_running None (set_world w' s)).
  { unfold clear_running. cbn. by rewrite Hrun, bool_decide_eq_true_2. }
  rewrite Hcr in Hx. cbn [is_spawn_event] in Hx. change (is_spawn_event PTRACE_EVENT_CLONE) with true in Hx. cbv iota in Hx.
  unfold on_spawn in Hx. st_inv. change (PTRACE_EVENT_CLONE =? PTRACE_EVENT_VFORK) with false in Hx. cbv iota in Hx. st_inv.
  apply on_world_ok in Hm1 as (w0 & Hgm%call_ok & ->). cbn in Hgm. unfold event_message in Hgm.
  rewrite (thread_of_name _ Hpids cur w' t' Hlt) in Hgm by (cbn; by rewrite lookup_insert_eq).
  injection Hgm as <- <-. unfold now in Hm2. cbn in Hm2. injection Hm2 as <- <-.
  assert (Hchild : as_i 32 (name child) = name child).
  { by apply as_i_pid, name_ok. }
  rewrite Hchild, (as_u_pid _ (name_ok _ Hpids _ Hlt)), (as_u_pid _ (name_ok _ Hpids _ Hc)) in Hm3.
  apply sched_append_ok in Hm3 as (wr & q & [Hq Hlim] & ->). cbn in Hq.
  eexists _, _. split; [by apply Hobs, Z.mod_pos_bound|]. rewrite <- Hv.
  eapply (recorded_turn s _ es st cur _ (view w') t t' _ wr q Ht Hi Hb Hq Hlim); cycle 4.
  - rewrite requeue_core. unfold rcore. cbn. rewrite (insert_id (threads s)); [reflexivity|].
    rewrite Hth. unfold pending_of. cbn. by rewrite Hph.
  - by eapply machine_same; [|exact Hmi].
  - done.
  - done.
  - done.
Qed.

(** ** Deaths *)

(** The leader is gone, and with it the process; a recording of several threads
    has a record of it. *)
Definition ended_from (es : list Event) (st : lstate U E) (s : Sch) : Prop :=
  threads s = ∅ ∧ ∃ lc nr argv ts, in_u 64 ts ∧
    l_threads st = {[0%nat := (lc, LEntry nr argv)]} ∧ dies nr = true ∧ leader_exit s = Some (exit_status argv) ∧
    w_shared (s_world s) = code_bury 0 (l_shared st) ∧
    (1 < s_threads_followed s → logged (writer s) (es ++ [death_event pids ts 0]) ∧
       s_events_recorded s = blen (es ++ [death_event pids ts 0]) ∧ blen (es ++ [death_event pids ts 0]) < 2 ^ 64).

Lemma release_core p (s : Sch) : rcore (release_vfork_parent p s) = rcore s.
Proof. unfold release_vfork_parent. destruct (vfork_pending s !! p); [|done]. by rewrite requeue_core. Qed.

(** What [on_exit] leaves. *)
Lemma exit_parts (s s' : Sch) w cur th code u :
  (cur < length pids)%nat → threads s !! name cur = Some th → running s = Some (name cur) →
  handle (Exited (name cur) code) (set_world w s) = (Ok u, s') →
  ∃ ts w1 wr n, in_u 64 ts ∧ same_procs w w1 ∧
    (if 1 <? s_threads_followed s
     then ∃ q, sink_append (death_event pids ts cur) (writer s) = (Ok q, wr) ∧ n = s_events_recorded s + 1 ∧ n < 2 ^ 64
     else wr = writer s ∧ n = s_events_recorded s) ∧
    rcore s' = (w1, wr, delete (name cur) (threads s), None, last_scheduled s, leader s,
                if name cur =? leader s then Some code else leader_exit s, n, s_threads_followed s).
Proof.
  intros Hlt Hth Hrun Hx. cbn [handle] in Hx. unfold Sched.on_exit in Hx. st_inv.
  assert (Hcr : clear_running (name cur) (set_world w s) = set_running None (set_world w s)).
  { unfold clear_running. cbn. by rewrite Hrun, bool_decide_eq_true_2. }
  rewrite Hcr in *. cbn in Hm3. rewrite Hth, bool_decide_eq_true_2 in Hm3 by eauto. cbn [andb] in Hm3.
  apply st_when_ok in Hm3. cbn in *.
  rewrite (as_u_pid _ (name_ok _ Hpids _ Hlt)) in Hm3.
  rewrite release_core. apply st_when_ok in Hm6.
  assert (H7 : rcore s7 = rcore (if name cur =? leader s4 then set_leader_exit (Some code) s4 else s4)).
  { destruct (name cur =? leader s4); [injection Hm6 as _ <-|rewrite Hm6]; done. }
  rewrite H7. clear Hm6 H7. destruct (1 <? s_threads_followed s).
  - st_inv. unfold now in Hm. cbn in Hm. injection Hm as <- <-.
    apply sched_append_ok in Hm3 as (wr & q & [Hq Hlim] & ->). cbn in Hq, Hlim.
    eexists _, _, wr, _. split; [by apply Z.mod_pos_bound|]. split; [apply same_clock|].
    split; [by exists q|]. cbn. by destruct (name cur =? leader s).
  - rewrite Hm3. exists 0, w, (writer s), (s_events_recorded s). split; [by split|]. split; [done|]. split; [done|].
    cbn. by destruct (name cur =? leader s).
Qed.

Lemma size_one (w : P) i t : w_threads w !! i = Some t → size (w_threads w) = 1%nat → w_threads w = {[i := t]}.
Proof.
  intros Hi Hs. assert (Hd : delete i (w_threads w) = ∅).
  { apply map_size_empty_inv. by rewrite map_size_delete, Hi, Hs. }
  by rewrite <- (insert_delete_id _ _ _ Hi), Hd, insert_empty.
Qed.

(** A thread other than the leader is gone. *)
Lemma machine_buried (w w' : P) st cur :
  machine_inv w st cur → (∀ i t, w_threads w !! i = Some t → is_cloning t = false) → cur ≠ 0%nat →
  w_threads w' = delete cur (w_threads w) → numbered pids (view w') cur → w_inputs w' = w_inputs w →
  machine_inv w' (view w') cur.
Proof.
  intros [(t0 & H0 & Hb0) H2 H3 H4 H5 H6 H7] Hno Hne Hw Hn Hin. constructor; rewrite ?Hw, ?Hin.
  - exists t0. by rewrite lookup_delete_ne.
  - intros j v [Hj Hv]%lookup_delete_Some Hgj. by eapply H2.
  - intros j v nr argv c [Hj Hv]%lookup_delete_Some. by eapply H3.
  - intros j v nr argv c [Hj Hv]%lookup_delete_Some. by eapply H4.
  - done.
  - done.
  - left. split; [done|]. rewrite Hw. intros j v [Hj Hv]%lookup_delete_Some. by eapply Hno.
Qed.

Lemma registered_delete (s s' : Sch) (w w' : P) st cur i :
  machine_inv w st cur → registered s w → (i < length pids)%nat →
  threads s' = delete (name i) (threads s) → w_threads w' = delete i (w_threads w) → registered s' w'.
Proof.
  intros Hm Hr Hi Hs Hw p th. rewrite Hs, Hw, lookup_delete_Some, (Hr p th). split.
  - intros (Hp & j & v & -> & Hj & Hbv & ->). exists j, v. rewrite lookup_delete_ne by (intros ->; done). done.
  - intros (j & v & -> & Hj & Hbv & ->). apply lookup_delete_Some in Hj as [Hjc Hj].
    split; [|eauto 10]. intros He. apply (name_inj _ Hpids) in He; [done..|by eapply alive_lt].
Qed.

Lemma death_turn (s s' : Sch) es st cur t nr argv u :
  turn_inv s es st cur → w_threads (s_world s) !! cur = Some t → t_going t = true → t_phase t = TEntry nr argv false →
  dies nr = true → may_die cur nr (s_world s) = true →
  handle (Exited (name cur) (exit_status argv))
    (set_world (MkProcs (code_bury cur (w_shared (s_world s))) (delete cur (w_threads (s_world s)))
      (w_next (s_world s)) (w_inputs (s_world s)) (w_choices (s_world s)) (w_clock (s_world s))) s) = (Ok u, s') →
  (∃ e st', obs pids st cur e st' cur ∧ turn_inv s' (es ++ [e]) st' cur) ∨ cur = 0%nat ∧ ended_from es st s'.
Proof.
  intros Ht Hi Hg Hph Hd Hmay Hx. destruct (at_pending _ _ _ _ _ Ht Hi Hg) as (Hb & Hlt & Hrun & Hth).
  assert (Hnc : is_cloning t = false) by (unfold is_cloning; by rewrite Hph).
  assert (Hlv : lview t = (t_lc t, LEntry nr argv)) by (unfold lview; by rewrite Hph).
  pose proof Ht as [Hm [L1 L2 L3 L4 L5 L6 L7 L8] Hr Hru Hgo].
  destruct (settled_now _ _ _ _ Hm Hi Hnc) as [Hv Hno].
  set (w' := MkProcs _ _ _ _ _ _) in *.
  destruct (exit_parts _ _ _ _ _ _ _ Hlt Hth Hrun Hx) as (ts & w1 & wr & n & Hts & (E1 & E2 & E3 & E4) & Hn & Hs').
  destruct s' as [? ? sth ? ? ? ? ? ? ? ?]. unfold rcore in Hs'. cbn in Hs'. injection Hs' as -> -> -> -> -> -> -> -> ->.
  unfold may_die in Hmay. destruct (decide (cur = 0%nat)) as [->|Hne].
  - right. split; [done|]. apply Nat.eqb_eq in Hmay. pose proof (size_one _ _ _ Hi Hmay) as Hone. split; cbn.
    + apply map_eq. intros p. rewrite lookup_empty. apply eq_None_not_Some. intros [th Hp].
      apply lookup_delete_Some in Hp as [Hpn Hp]. apply Hr in Hp as (j & v & -> & Hj & _).
      rewrite Hone in Hj. apply lookup_singleton_Some in Hj as [<- _]. done.
    + exists (t_lc t), nr, argv, ts. rewrite <- Hv. cbn. rewrite Hone, map_fmap_singleton, Hlv.
      rewrite L5, Z.eqb_refl. split; [done|]. split; [done|]. split; [done|]. split; [done|]. split; [by rewrite E1|].
      intros Hf. rewrite (proj2 (Z.ltb_lt _ _) Hf) in Hn. destruct Hn as (q & Hq & -> & Hlim).
      split; [by eapply logged_append|]. rewrite blen_app, <- L2. done.
  - left. apply Z.eqb_eq in Hmay as ->.
    assert (Hn0 : name cur ≠ name 0).
    { intros He. destruct (mi_leader _ _ _ Hm) as (t0 & H0 & _). apply (name_inj _ Hpids) in He; [done..|by eapply alive_lt]. }
    assert (Hf : 1 < s_threads_followed s) by (by eapply L8; eauto).
    rewrite (proj2 (Z.ltb_lt _ _) Hf) in Hn. destruct Hn as (q & Hq & -> & Hlim).
    assert (Hobs : obs pids st cur (death_event pids ts cur) (view w') cur).
    { rewrite <- Hv. unfold view, w'. cbn. rewrite fmap_delete.
      apply (obs_death pids (view (s_world s)) cur (t_lc t) argv ts Hts Hne). by rewrite (view_lookup _ _ _ Hi), Hlv. }
    eexists _, _. split; [exact Hobs|]. rewrite L5, (proj2 (Z.eqb_neq _ _) Hn0).
    assert (Hdel : ∀ j v, w_threads w1 !! j = Some v → j ≠ cur ∧ w_threads (s_world s) !! j = Some v).
    { intros j v. rewrite E2. cbn. rewrite lookup_delete_Some. intros [? ?]. done. }
    constructor; cbn.
    + apply (machine_same w'); [done|]. eapply (machine_buried _ _ _ cur Hm); try done.
      eapply obs_numbered; [exact Hobs|]. by rewrite <- Hv; apply Hm.
    + constructor; cbn; try done.
      * by eapply logged_append.
      * by rewrite blen_app, L2.
      * rewrite blen_app, <- L2. done.
    + by eapply (registered_delete s _ (s_world s) w1 st cur cur).
    + done.
    + intros j v [Hj Hv']%Hdel Hgj. by destruct (mi_going _ _ _ Hm _ _ Hv' Hgj).
Qed.

(** ** A turn of the loop *)

(** The log has grown by what the program did, or is complete. *)
Definition follows (es : list Event) (st : lstate U E) (cur : nat) (s' : Sch) : Prop :=
  turn_inv s' es st cur ∨
  (∃ e st' cur', obs pids st cur e st' cur' ∧ turn_inv s' (es ++ [e]) st' cur') ∨
  cur = 0%nat ∧ ended_from es st s'.

Lemma follows_one es st cur s' :
  (∃ e st', obs pids st cur e st' cur ∧ turn_inv s' (es ++ [e]) st' cur) → follows es st cur s'.
Proof. intros (e & st' & ? & ?). right. left. eauto. Qed.

(** The rest of a call, by its kind. *)
Lemma complete_handled (s s' : Sch) es st cur t nr argv status w' u :
  turn_inv s es st cur → w_threads (s_world s) !! cur = Some t → t_going t = true → t_phase t = TEntry nr argv false →
  complete pids cur t nr argv (s_world s) = (inl status, w') → handle status (set_world w' s) = (Ok u, s') →
  follows es st cur s'.
Proof.
  intros Ht Hi Hg Hph Hc Hx. pose proof (ti_machine _ _ _ _ Ht) as Hm.
  assert (Hnc : is_cloning t = false) by (unfold is_cloning; by rewrite Hph).
  assert (Hlv : lview t = (t_lc t, LEntry nr argv)) by (unfold lview; by rewrite Hph).
  assert (Hpn : pending_of t = Some (entry_of nr argv)) by (unfold pending_of; by rewrite Hph).
  destruct (settled_now _ _ _ _ Hm Hi Hnc) as [Hv Hno]. pose proof (view_lookup _ _ _ Hi) as Hl. rewrite Hlv in Hl.
  unfold complete in Hc. destruct (dies nr) eqn:Hd.
  { destruct (may_die cur nr (s_world s)) eqn:Hmay; [|done]. injection Hc as <- <-.
    destruct (death_turn _ _ _ _ _ _ _ _ _ Ht Hi Hg Hph Hd Hmay Hx) as [|[]]; [by apply follows_one|by right; right]. }
  destruct (clones nr) eqn:Hcl.
  { destruct (start_clone pids cur t nr argv (s_world s)) as [[child w1]|] eqn:Hsc; [|done].
    destruct (cloning_turn _ _ _ _ _ _ _ _ _ Ht Hi Hg Hph Hcl Hsc) as [Ht1 Hi1]. apply follows_one.
    unfold clone_event in Hc. injection Hc as <- <-.
    exact (spawn_turn (set_world w1 s) s' _ _ _ _ _ _ _ _ Ht1 Hi1 eq_refl eq_refl Hx). }
  assert (Hex : ∀ lc sh, completes cur nr argv (t_lc t) (w_shared (s_world s)) (lc, sh) → ∀ w1 ts,
    w_shared w1 = sh → w_threads w1 = <[cur := parked lc (TExit nr argv) t]> (w_threads (s_world s)) →
    w_next w1 = w_next (s_world s) → in_u 64 ts →
    obs pids st cur (result_event pids ts cur nr argv lc (w_shared w1)) (view w1) cur).
  { intros lc sh Hcomp w1 ts E1 E2 E3 Hts. unfold view. rewrite E1, E2, E3, fmap_insert, <- Hv.
    exact (obs_exit pids (view (s_world s)) cur (t_lc t) nr argv lc sh ts Hts Hl Hd Hcl Hcomp). }
  destruct (outside nr) eqn:Ho.
  - destruct (w_inputs (s_world s)) as [|x rest] eqn:Hin; [done|]. pose proof (mi_inputs _ _ _ Hm) as Hwf.
    rewrite Hin in Hwf. apply Forall_cons_iff in Hwf as [Hxw Hrest].
    pose proof (completes_outside cur nr argv (t_lc t) (w_shared (s_world s)) x Ho Hxw) as Hcomp.
    destruct (feed nr argv x (t_lc t) (w_shared (s_world s))) as [lc sh]. injection Hc as <- <-. apply follows_one.
    eapply (exit_turn s s' es st cur t lc nr argv); [exact Ht|exact Hi|exact Hg|exact Hpn| | | | |exact Hx]; try done.
    intros ts Hts. by apply (Hex lc sh Hcomp).
  - pose proof (completes_real cur nr argv (t_lc t) (w_shared (s_world s)) Ho) as Hcomp.
    destruct (code_call cur nr argv (t_lc t) (w_shared (s_world s))) as [lc sh]. injection Hc as <- <-. apply follows_one.
    eapply (exit_turn s s' es st cur t lc nr argv); [exact Ht|exact Hi|exact Hg|exact Hpn| | | | |exact Hx]; try done;
      [apply Hm|]. intros ts Hts. by apply (Hex lc sh Hcomp).
Qed.

Lemma user_stop_handled late (s s' : Sch) es st cur t status w' u :
  code_wf → turn_inv s es st cur → w_threads (s_world s) !! cur = Some t → t_going t = true → in_user t = true →
  next_stop pids late cur t (s_world s) = (inl status, w') → handle status (set_world w' s) = (Ok u, s') →
  follows es st cur s'.
Proof.
  intros Hwf Ht Hi Hg Hu Hn Hx.
  assert (Hn' : (if t_stop t && negb late
      then (inl (Stopped (name cur) SIGSTOP), put cur (MkThread (t_lc t) (t_phase t) false false) (s_world s))
      else
        let '(lc, mem, (nr, argv)) := code_run (t_lc t) (sh_mem (w_shared (s_world s))) in
        (inl (PtraceSyscall (name cur)),
         put cur (parked lc (TEntry nr argv false) t)
           (set_shared (MkShared mem (sh_env (w_shared (s_world s)))) (s_world s)))) = ((inl status : wait_status + Z), w')).
  { unfold next_stop, in_user in *. by destruct (t_phase t). }
  destruct (t_stop t && negb late).
  - injection Hn' as <- <-. left. eapply (stop_turn s s' es st cur cur t (t_phase t)); try done.
    + unfold is_cloning, in_user in *. by destruct (t_phase t).
    + intros nr argv c He. unfold in_user in Hu. by rewrite He in Hu.
  - destruct (code_run _ _) as [[lc mem] [nr argv]] eqn:Hr. injection Hn' as <- <-. apply follows_one.
    by eapply enter_turn.
Qed.

Lemma stop_handled (s s' : Sch) es st cur status w' u :
  code_wf → turn_inv s es st cur → stops_as pids (s_world s) status w' → handle status (set_world w' s) = (Ok u, s') →
  follows es st cur s'.
Proof.
  intros Hwf Ht Hs Hx. pose proof (ti_machine _ _ _ _ Ht) as Hm.
  destruct Hs as [i t sig Hi Hb|child w1 t sig Hc Hi Hb|late i t status w' Hi Hg Hn].
  - left. by eapply first_turn.
  - unfold creating in Hc. destruct (find_thread t_going (s_world s)) as [[i t0]|] eqn:Hf; [|done]. cbn in Hc.
    apply find_thread_ok in Hf as [Hi0 Hg0]. destruct (mi_going _ _ _ Hm _ _ Hi0 Hg0) as [-> _].
    destruct (t_phase t0) as [| |nr argv []| | |] eqn:Hph; try done. destruct (clones nr) eqn:Hcl; [|done].
    destruct (cloning_turn _ _ _ _ _ _ _ _ _ Ht Hi0 Hg0 Hph Hcl Hc) as [Ht1 _].
    left. exact (first_turn (set_world w1 s) s' es st cur child t sig u Ht1 Hi Hb Hx).
  - destruct (mi_going _ _ _ Hm _ _ Hi Hg) as [-> Hb].
    destruct (t_phase t) as [| |nr argv c|nr argv child|nr argv child|nr argv] eqn:Hph.
    + unfold is_born in Hb. by rewrite Hph in Hb.
    + eapply user_stop_handled; try done. unfold in_user. by rewrite Hph.
    + pose proof (mi_called _ _ _ Hm _ _ _ _ _ Hi Hph) as ->. unfold next_stop in Hn. rewrite Hph in Hn.
      by eapply complete_handled.
    + unfold next_stop in Hn. rewrite Hph in Hn. injection Hn as <- <-. apply follows_one. by eapply spawn_turn.
    + unfold next_stop in Hn. rewrite Hph in Hn. injection Hn as <- <-. apply follows_one.
      assert (Hnc : is_cloning t = false) by (unfold is_cloning; by rewrite Hph).
      destruct (settled_now _ _ _ _ Hm Hi Hnc) as [Hv Hno]. pose proof (view_lookup _ _ _ Hi) as Hl.
      unfold lview in Hl. rewrite Hph in Hl.
      destruct (mi_cloned _ _ _ Hm _ _ _ _ _ Hi (or_intror Hph)) as [Hcl _].
      eapply (exit_turn s s' es st cur t _ nr argv); [exact Ht|exact Hi|exact Hg| | | | | |exact Hx]; try done.
      * unfold pending_of. by rewrite Hph.
      * apply Hm.
      * intros ts Hts. rewrite view_put, <- Hv.
        exact (obs_cloned pids (view (s_world s)) cur (t_lc t) nr argv child ts Hts Hl Hcl).
    + eapply user_stop_handled; try done. unfold in_user. by rewrite Hph.
Qed.

(** With nothing running any thread may be scheduled. *)
Lemma machine_idle (w : P) st cur i :
  machine_inv w st cur → (∀ j t, w_threads w !! j = Some t → t_going t = false) → (i < length pids)%nat →
  machine_inv w st i.
Proof.
  intros [H1 H2 H3 H4 (N1 & N2 & N3) H6 H7] Hidle Hi. constructor; try done.
  - intros j t Hj Hg. by rewrite (Hidle _ _ Hj) in Hg.
  - destruct H7 as [|(t & nr & argv & c & H0 & _ & Hg & _)]; [by left|]. by rewrite (Hidle _ _ H0) in Hg.
Qed.

Lemma idle_going (s : Sch) es st cur :
  turn_inv s es st cur → running s = None → ∀ j t, w_threads (s_world s) !! j = Some t → t_going t = false.
Proof. intros Ht Hrun j t Hj. destruct (t_going t) eqn:Hg; [|done]. pose proof (ti_going _ _ _ _ Ht _ _ Hj Hg). congruence. Qed.

(** The record of a switch, if it is one. *)
Lemma switch_turn (s s' : Sch) es st cur i u :
  turn_inv s es st cur → running s = None → (i < length pids)%nat → record_sched_switch (name i) s = (Ok u, s') →
  ∃ es', turn_inv s' (es ++ es') st i ∧ running s' = None ∧ threads s' = threads s ∧
    (es' = [] ∧ i = cur ∨ ∃ e, es' = [e] ∧ obs pids st cur e st i).
Proof.
  intros Ht Hrun Hi Hx. pose proof (idle_going _ _ _ _ Ht Hrun) as Hidle. destruct Ht as [Hm [L1 L2 L3 L4 L5 L6 L7 L8] Hr Hru Hgo].
  unfold record_sched_switch in Hx. st_inv. rewrite L4 in Hx. case_bool_decide as Hl.
  - injection Hx as _ <-. injection Hl as Hl. apply (name_inj _ Hpids) in Hl as ->; [|by eapply cur_lt|done].
    exists []. rewrite app_nil_r. split; [by constructor; [|constructor| | |]|]. auto.
  - st_inv. unfold now in Hm1. cbn in Hm1. injection Hm1 as <- <-. rewrite (as_u_pid _ (name_ok _ Hpids _ Hi)) in Hx.
    apply sched_append_ok in Hx as (wr & q & [Hq Hlim] & ->). cbn in Hq, Hlim.
    assert (Hts : in_u 64 (as_u 64 (w_clock (s_world s)))) by (by apply Z.mod_pos_bound).
    eexists [switch_event pids _ i]. split; [|split; [done|split; [done|right; eexists; split; [done|by apply obs_switch]]]].
    constructor; cbn.
    + eapply machine_same; [apply same_clock|]. by eapply machine_idle.
    + constructor; cbn; try done.
      * by eapply logged_append.
      * by rewrite blen_app, L2.
      * rewrite blen_app, <- L2. done.
    + exact Hr.
    + by rewrite Hrun.
    + intros j t Hj Hg. by rewrite (Hidle _ _ Hj) in Hg.
Qed.

Lemma resume_turn (s s' : Sch) es st cur u :
  turn_inv s es st cur → running s = None → resume_next s = (Ok u, s') →
  turn_inv s' es st cur ∨ ∃ e st' cur', obs pids st cur e st' cur' ∧ turn_inv s' (es ++ [e]) st' cur'.
Proof.
  intros Ht Hrun Hx. unfold resume_next in Hx. st_inv. destruct (ready s) as [|next rest]; [injection Hx as _ <-; by left|].
  st_inv. unfold take_resume_signal in Hm1. injection Hm1 as <- <-.
  apply on_world_ok in Hm2 as (w & Hres%call_ok & ->). cbn in Hres. unfold resume in Hres.
  destruct (thread_of pids next _) as [[i t]|] eqn:Hth; [|done].
  destruct (is_born t || t_going t) eqn:Hbg; [done|]. injection Hres as <- <-. apply orb_false_iff in Hbg as [Hb Hg].
  apply thread_of_ok in Hth as (-> & Hlt & Hi).
  assert (Ht0 : turn_inv (set_ready rest s) es st cur) by (by eapply turn_core; [|exact Ht]).
  destruct (switch_turn _ _ _ _ _ _ _ Ht0 Hrun Hlt Hm0) as (es' & Ht1 & Hrun1 & Hths & Hobs).
  match goal with |- turn_inv ?x _ _ _ ∨ _ => set (s' := x) end.
  assert (Hw0 : s_world (update_thread (name i) (λ t, mkThread (pending_enter t) None) s1) = s_world s1)
    by (unfold update_thread; by destruct (threads s1 !! name i)).
  rewrite Hw0 in Hi.
  pose proof (registered_some _ _ _ _ (ti_registered _ _ _ _ Ht1) Hi Hb) as Hreg.
  assert (Hup : rcore (update_thread (name i) (λ t, mkThread (pending_enter t) None) s1) = rcore s1).
  { unfold update_thread. rewrite Hreg. unfold rcore. cbn. rewrite (insert_id (threads s1)); [done|]. by rewrite Hreg. }
  set (t' := MkThread (t_lc t) (t_phase t) true (t_stop t)).
  assert (Hs' : turn_inv s' (es ++ es') st i).
  { pose proof (idle_going _ _ _ _ Ht1 Hrun1) as Hidle. destruct Ht1 as [Hm1 Hl1 Hr1 Hru1 Hgo1].
    unfold s'. destruct (update_thread _ _ s1) as [? ? ? ? ? ? ? ? ? ? ?]. destruct s1. unfold rcore in Hup. cbn in *.
    injection Hup as -> -> -> -> -> -> -> -> ->. destruct Hl1 as [L1 L2 L3 L4 L5 L6 L7 L8]. cbn in *. constructor; cbn.
    - eapply machine_put; [exact Hi|done| | | | |exact Hm1]; try done. intros nr argv c. by apply (mi_called _ _ _ Hm1 _ _ _ _ _ Hi).
    - by constructor.
    - eapply (registered_put _ _ _ _ _ _ _ t' Hm1 Hr1 Hlt Hb); [|done]. symmetry. by apply insert_id.
    - by intros p [= <-].
    - intros j v. rewrite lookup_insert_Some. intros [[<- <-]|[_ Hj]] Hgj; [done|]. by rewrite (Hidle _ _ Hj) in Hgj. }
  destruct Hobs as [[-> ->]|(e & -> & Hobs)].
  - left. by rewrite app_nil_r in Hs'.
  - right. eauto.
Qed.

(** Several moves. *)
Definition logs (st0 : lstate U E) (s : Sch) : Prop :=
  ∃ es st cur, obs_run pids st0 es st cur ∧ turn_inv s es st cur.
Definition ended (st0 : lstate U E) (s : Sch) : Prop :=
  ∃ es st, obs_run pids st0 es st 0 ∧ ended_from es st s.

Lemma logs_follows st0 es st cur (s' : Sch) :
  obs_run pids st0 es st cur → follows es st cur s' → logs st0 s' ∨ ended st0 s'.
Proof.
  intros Hr [Ht|[(e & st' & cur' & Ho & Ht)|[-> He]]].
  - left. by exists es, st, cur.
  - left. exists (es ++ [e]), st', cur'. split; [by eapply run_snoc|done].
  - right. by exists es, st.
Qed.

Lemma wait_handled (s s' : Sch) st0 w status w' u :
  code_wf → logs st0 s → same_procs (s_world s) w → waits pids w (inl status) w' →
  handle status (set_world w' s) = (Ok u, s') → logs st0 s' ∨ ended st0 s'.
Proof.
  intros Hwf (es & st & cur & Hr & Ht) Hs (w0 & Hs0 & Hst) Hx. apply (turn_same s w) in Ht; [|done].
  apply (turn_same _ w0) in Ht; [|done]. eapply logs_follows; [exact Hr|].
  exact (stop_handled (set_world w0 (set_world w s)) s' es st cur status w' u Hwf Ht Hst Hx).
Qed.

Lemma logs_same (s : Sch) st0 w : logs st0 s → same_procs (s_world s) w → logs st0 (set_world w s).
Proof. intros (es & st & cur & Hr & Ht) Hs. exists es, st, cur. split; [done|by apply turn_same]. Qed.

(** A step no record tells of. *)
Lemma logs_part_way n (s : Sch) st0 : logs st0 s → logs st0 (set_world (part_way n (s_world s)) s).
Proof.
  intros Hl. unfold part_way. destruct (find_thread t_going (s_world s)) as [[i t]|] eqn:Hf; [|by apply logs_same].
  destruct (in_user t) eqn:Hu; [|by apply logs_same]. destruct Hl as (es & st & cur & Hr & Ht).
  apply find_thread_ok in Hf as [Hi Hg]. pose proof (ti_machine _ _ _ _ Ht) as Hm.
  destruct (mi_going _ _ _ Hm _ _ Hi Hg) as [-> Hb].
  assert (Hnc : is_cloning t = false) by (unfold is_cloning, in_user in *; by destruct (t_phase t)).
  assert (Hlv : lview t = (t_lc t, LUser)) by (unfold lview, in_user in *; by destruct (t_phase t)).
  destruct (settled_now _ _ _ _ Hm Hi Hnc) as [<- _].
  set (t' := MkThread (steps n (sh_mem (w_shared (s_world s))) (t_lc t)) TUser (t_going t) (t_stop t)).
  exists es, (view (put cur t' (s_world s))), cur. split.
  { rewrite view_put. apply (run_steps pids st0 es (view (s_world s)) cur (t_lc t) n Hr).
    by rewrite (view_lookup _ _ _ Hi), Hlv. }
  destruct Ht as [_ Hlg Hreg Hru Hgo]. constructor; cbn.
  - eapply (machine_step (s_world s) _ _ cur t t' Hm Hi Hb); done || apply Hm.
  - by destruct Hlg.
  - eapply (registered_put s _ (s_world s) _ _ cur cur t' Hm Hreg); [by eapply alive_lt|done| |done].
    symmetry. apply insert_id. change (threads s !! name cur = Some (mkThread (pending_of t') None)).
    rewrite (registered_some _ _ _ _ Hreg Hi Hb). unfold pending_of, in_user in *. by destruct (t_phase t).
  - done.
  - intros j v. rewrite lookup_insert_Some. intros [[<- <-]|[_ Hj]] Hgj; by eapply Hgo.
Qed.

(** A wait with nothing to report. *)
Lemma logs_err (s : Sch) st0 e w : logs st0 s → waits pids (s_world s) (inr e) w → logs st0 (set_world w s).
Proof.
  intros Hl (w0 & Hs0 & [[_ ->]|[_ [n ->]]]); [by apply logs_same|].
  by apply (logs_part_way n (set_world w0 s)), logs_same.
Qed.

Lemma stop_sent (s : Sch) st0 p r w :
  logs st0 s → send_stop pids p (s_world s) = (r, w) → logs st0 (set_world w s).
Proof.
  intros (es & st & cur & Hr & Ht) Hx. exists es, st, cur. split; [done|]. unfold send_stop in Hx.
  destruct (thread_of pids p (s_world s)) as [[i t]|] eqn:Hth; [|injection Hx as _ <-; by apply turn_same].
  injection Hx as _ <-. apply thread_of_ok in Hth as (-> & Hlt & Hi).
  destruct Ht as [Hm Hlg Hreg Hru Hgo]. constructor; cbn.
  - eapply machine_put; [exact Hi|done| | | | |exact Hm]; try done.
    + cbn. intros Hg. exact (mi_going _ _ _ Hm _ _ Hi Hg).
    + intros nr argv c. by apply (mi_called _ _ _ Hm _ _ _ _ _ Hi).
  - by destruct Hlg.
  - intros p th. change (threads (set_world _ s)) with (threads s). rewrite (Hreg p th). cbn. split.
    + intros (j & v & -> & Hj & Hv & ->). destruct (decide (j = i)) as [->|Hne].
      * rewrite Hi in Hj. injection Hj as <-. eexists i, _. by rewrite lookup_insert_eq.
      * exists j, v. by rewrite lookup_insert_ne.
    + intros (j & v & -> & Hj & Hv & ->). apply lookup_insert_Some in Hj as [[<- <-]|[_ Hj]]; eauto 10.
  - done.
  - intros j v. rewrite lookup_insert_Some. intros [[<- <-]|[_ Hj]] Hgj; by eapply Hgo.
Qed.

(** A wait on the scheduler's world, errors aside. *)
Lemma waited (k : kop P wait_status) (s s' : Sch) r :
  (∀ w r w', k w = (r, w') → waits pids w r w') → try_call k s = (Ok r, s') →
  ∃ w', s' = set_world w' s ∧ waits pids (s_world s) r w'.
Proof.
  intros Hk Hx. unfold try_call in Hx. destruct (k (s_world s)) as [r0 w'] eqn:Hw. injection Hx as <- <-.
  exists w'. split; [done|by eapply Hk].
Qed.

Lemma preempt_turn (s s' : Sch) st0 p u :
  code_wf → logs st0 s → preempt p s = (Ok u, s') → logs st0 s' ∨ ended st0 s'.
Proof.
  intros Hwf Hl Hx. unfold preempt in Hx. st_inv. unfold try_call in Hm. cbn in Hm.
  destruct (send_stop pids p (s_world s)) as [r w1] eqn:Hk. injection Hm as <- <-.
  pose proof (stop_sent _ _ _ _ _ Hl Hk) as Hl1.
  assert (Hs0 : s1 = set_world w1 s) by (destruct r as [[]|e]; [by st_inv|destruct (e =? ESRCH); by st_inv]).
  subst. apply on_world_ok in Hm1 as (w2 & Hwait%call_ok & ->). cbn in Hwait.
  apply wait_for_waits in Hwait. by eapply (wait_handled (set_world w1 s)).
Qed.

(** A turn ends the recording, or goes on with it. *)
Lemma iterate_turn (s s' : Sch) st0 b :
  code_wf → logs st0 s → iterate s = (Ok b, s') → logs st0 s' ∨ ended st0 s' ∧ b = false.
Proof.
  intros Hwf Hl Hx. unfold iterate in Hx. st_inv.
  assert (Hl1 : logs st0 s1).
  { apply st_when_ok in Hm0. case_bool_decide as Hrun; [|by subst].
    destruct Hl as (es & st & cur & Hr & Ht).
    destruct (resume_turn _ _ _ _ _ _ Ht Hrun Hm0) as [Ht'|(e & st' & cur' & Ho & Ht')].
    - by exists es, st, cur.
    - exists (es ++ [e]), st', cur'. split; [by eapply run_snoc|done]. }
  clear Hl Hm0. apply on_world_ok in Hm1 as (w & Harm%call_ok & ->). cbn in Harm. injection Harm as _ <-.
  set (s2 := set_world (s_world s1) s1) in *. assert (Hl2 : logs st0 s2) by (by apply logs_same).
  destruct (waited (wait_any pids) _ _ _ (wait_any_waits pids) Hm2) as (w & -> & Hw).
  destruct a2 as [status|e]; [|destruct (e =? EINTR); [|destruct (e =? ECHILD)]]; st_inv.
  - apply on_world_ok in Hm as (w2 & Hd%call_ok & ->). cbn in Hd. injection Hd as _ <-.
    destruct (wait_handled s2 s3 st0 (s_world s2) status w a2 Hwf Hl2) as [|]; auto; done.
  - apply on_world_ok in Hm as (w2 & Hd%call_ok & ->). cbn in Hd. injection Hd as _ <-.
    pose proof (logs_err _ _ _ _ Hl2 Hw) as Hl3.
    destruct (running _); [destruct (preempt_turn _ _ _ _ _ Hwf Hl3 Hm1); auto|]. st_inv. by left.
  - left. by eapply logs_err.
Qed.

Lemma logs_open st0 (s : Sch) : logs st0 s → threads s ≠ ∅ ∧ leader_exit s = None.
Proof.
  intros (es & st & cur & _ & [Hm [] Hr _ _]). split; [|done]. intros He.
  destruct (mi_leader _ _ _ Hm) as (t & Hi & Hb). pose proof (registered_some _ _ _ _ Hr Hi Hb) as Hs.
  by rewrite He, lookup_empty in Hs.
Qed.

Lemma loop_recorded fuel : ∀ (s s' : Sch) st0 o code,
  code_wf → logs st0 s ∨ ended st0 s → run_loop fuel s = (Ok (Some o), s') → exit_code o = Some code →
  ended st0 s' ∧ leader_exit s' = Some code ∧ events_recorded o = s_events_recorded s' ∧
  threads_followed o = s_threads_followed s'.
Proof.
  induction fuel as [|fuel IH]; intros s s' st0 o code Hwf Hl Hrun Hc; cbn in Hrun; case_bool_decide as He.
  - injection Hrun as <- <-. destruct Hl as [Hl|]; [by destruct (logs_open _ _ Hl)|done].
  - done.
  - injection Hrun as <- <-. destruct Hl as [Hl|]; [by destruct (logs_open _ _ Hl)|done].
  - destruct Hl as [Hl|(es & st & _ & Hth & _)]; [|done].
    destruct (iterate s) as [[[]|e|] s1] eqn:Hit; try done.
    + injection Hrun as <- <-. destruct (iterate_turn _ _ _ _ Hwf Hl Hit) as [Hl1|[_ [=]]].
      destruct (logs_open _ _ Hl1) as [_ Hn]. cbn in Hc. congruence.
    + eapply IH; [done| |exact Hrun|exact Hc]. destruct (iterate_turn _ _ _ _ Hwf Hl Hit) as [|[]]; auto.
Qed.
End Recording.

(** ** The whole recording, on a file *)

Section Recorded.
Context {U E : Type} {C : Code U E} (pids : list Z) (Hpids : pids_ok pids).
#[local] Instance recorded_kernel : Kernel (procs U E) := threads_kernel pids.

Lemma start_recording_threads {I} prog argv (wr : TraceWriter I) (w : procs U E) s w1
    `{TK : TraceSink (TraceWriter I)} (TKL : TraceSinkLaws (TraceWriter I)) :
  Forall input_wf (w_inputs w) → logged wr [] →
  start_recording prog argv wr w = (Ok s, w1) → turn_inv (TL := TKL) pids (set_world w1 s) [] (loaded prog argv) 0.
Proof.
  intros Hin Hlg Hx. unfold start_recording, Scheduler_new, pin_to_serialization_cpu in Hx. st_inv.
  repeat match goal with Hc : call _ _ _ = (Ok _, _) |- _ => apply call_ok in Hc end. cbn in *.
  unfold spawn in Hm. destruct pids as [|ldr rest] eqn:Hp; [done|].
  assert (Hldr : ldr = name pids 0) by (by rewrite Hp). rewrite <- Hp in Hpids, Hm0 |- *. subst ldr.
  assert (Hlt : (0 < length pids)%nat) by (rewrite Hp; cbn; lia). clear rest Hp.
  unfold loaded. destruct (code_load prog argv) as [lc sh]. injection Hm as <- <-.
  unfold p_ok in *. injection Hm1 as _ <-. injection Hm2 as _ <-. injection Hm3 as _ <-.
  unfold wait_for in Hm0. destruct (pop _) as [c w0] eqn:Hpop. apply pop_same in Hpop as (E1 & E2 & E3 & E4). cbn in *.
  rewrite (thread_of_name _ Hpids 0 w0 (MkThread lc TBorn false false) Hlt) in Hm0 by (by rewrite E2, lookup_singleton_eq).
  cbn [is_born t_phase] in Hm0. unfold first_stop, put, set_threads in Hm0. rewrite E1, E2, E3, E4 in Hm0.
  cbn in Hm0. rewrite insert_singleton_eq in Hm0. injection Hm0 as <- <-.
  assert (Hone : ∀ i t, ({[0%nat := parked lc TUser (MkThread lc TBorn false false)]} : gmap nat (thread U)) !! i = Some t →
    i = 0%nat ∧ t = MkThread lc TUser false false) by (intros i t [<- <-]%lookup_singleton_Some; done).
  constructor; cbn.
  - constructor; cbn.
    + eexists. by rewrite lookup_singleton_eq.
    + by intros i t [_ ->]%Hone.
    + by intros i t ? ? ? [_ ->]%Hone.
    + by intros i t ? ? ? [_ ->]%Hone [].
    + unfold numbered, view. cbn. rewrite map_fmap_singleton. split; [|done].
      intros i [x [<- _]%lookup_singleton_Some]. lia.
    + done.
    + left. split; [unfold view; cbn; by rewrite map_fmap_singleton|]. by intros i t [_ ->]%Hone.
  - constructor; cbn; try done. intros p [th [<- _]%lookup_singleton_Some]. done.
  - intros p th. cbn. rewrite lookup_singleton_Some. split.
    + intros [<- <-]. eexists 0%nat, _. rewrite lookup_singleton_eq. done.
    + intros (i & t & -> & [-> ->]%Hone & _ & ->). done.
  - done.
  - by intros i t [_ ->]%Hone.
Qed.

(** A recording that completes, of a program that had threads. *)
Lemma record_command_threads crc32 c fuel (w w' : procs U E) file0 file o code :
  code_wf (C := C) → cmdline_fits c → BASE_HEADER_LEN + blen (encode_cmdline (program c) (args c)) < 2 ^ 16 →
  Forall input_wf (w_inputs w) →
  record_command crc32 (program c) (args c) fuel (w, file0) = (Ok (Some o), (w', file)) →
  accepts_all file0 → exit_code o = Some code → 1 < threads_followed o →
  ∃ es, snk_data file = log_bytes crc32 c es ∧ executes pids (program c) (args c) es code (w_shared w') ∧
    events_recorded o = blen es ∧ blen es < 2 ^ 64.
Proof.
  intros Hwf Hc Hlen Hin Hx Hh Hcode Hthreads. unfold record_command in Hx.
  destruct (File_create file0) as [[u|e|] file1] eqn:Hcf; try done. apply File_create_ok in Hcf as [Hemp Hall].
  destruct (create_with_cmdline _ _ _) as [[wr|e|] f1] eqn:Hcr; try done.
  destruct (start_recording _ _ wr w) as [[s|e|] w1] eqn:Hs; try done.
  destruct (run_loop _ _) as [r s'] eqn:Hrun. injection Hx as -> <- <-.
  apply (create_buffered crc32) in Hcr; [|done].
  pose proof (start_recording_threads _ _ _ _ _ _ (buffered_sink_laws _ crc32 _) Hin Hcr Hs) as Ht.
  destruct (loop_recorded (TL := buffered_sink_laws _ crc32 _) pids Hpids fuel _ s' (loaded (program c) (args c)) o code Hwf
    (or_introl _ (ex_intro _ [] (ex_intro _ _ (ex_intro _ 0%nat (conj (run_nil _ _) Ht))))) Hrun Hcode)
    as ((es & st & Hobs & _ & lc & nr & av & ts & Hts & Hl & Hd & Hle & Hsh & Hmany) & Hlx & Hn & Hf).
  rewrite Hf in Hthreads. destruct (Hmany Hthreads) as ([Hbytes Hacc] & Hcount & Hlt).
  exists (es ++ [death_event pids ts 0]). split; [|split; [|by rewrite Hn, Hcount]].
  - rewrite bw_drop_whole by (by apply Hacc, Hall). by apply (Hbytes Hlt).
  - split; [exact (cur_lt _ _ _ _ (ti_machine _ _ _ _ _ Ht))|]. exists es, st, lc, nr, av, ts. rewrite Hlx in Hle. by injection Hle as ->.
Qed.
End Recorded.
