(* ===== verification/ThreadReplay.v ===== *)
(** * Replaying a program of several threads

    The multi-threaded driver on the machine of [Threads]: each record of a run
    of the program's steps ([ThreadSteps.obs]) moves the live threads, under their
    own pids, the way it moved the recorded ones. *)

From S2P Require Import Prelude StdIo TraceFormat Crc32 TraceLog Payload Ptrace Capture Schedule Replay Sched SchedLog.
From S2P Require Import Recording Session Mt Machine Solo EndToEnd Threads ThreadSteps ThreadLog.

Lemma pid_in_u32 p : pid_ok p → in_u 32 p.
Proof. unfold pid_ok, in_u. lia. Qed.

Lemma dies_not_outside nr : dies nr = true → outside nr = false.
Proof. unfold dies. intros [->%Z.eqb_eq| ->%Z.eqb_eq]%orb_true_iff; reflexivity. Qed.

Lemma clones_not_outside nr : clones nr = true → outside nr = false.
Proof. unfold clones. intros [->%Z.eqb_eq| ->%Z.eqb_eq]%orb_true_iff; reflexivity. Qed.

Lemma number_length es : ∀ sq, length (number sq es) = length es.
Proof. induction es as [|e es IH]; intros sq; [done|]. cbn. by rewrite IH. Qed.

Lemma number_lookup es : ∀ sq e rest,
  number sq (es ++ e :: rest) !! length es = Some (mkRecord (sq + Z.of_nat (length es)) (as_written e)).
Proof.
  induction es as [|e0 es IH]; intros sq e rest; [by rewrite Z.add_0_r|]. cbn [app number length lookup list_lookup].
  rewrite IH. do 2 f_equal. lia.
Qed.

(** ** Results of calls *)

Section Results.
Context {U E : Type} {C : Code U E}.

Definition as_ps (lc : local U) (sh : shared E) : program_state U := mkPS (lc_user lc) (lc_rax lc) (sh_mem sh).

(** What a result record holds. *)
Definition result_ret (lc : local U) : Z := as_i 64 (lc_rax lc).
Definition result_data (nr : Z) (argv : list Z) (lc : local U) (sh : shared E) : list byte :=
  captured nr argv (result_ret lc) (sh_mem sh).

(** What replaying it does to a thread and the memory. *)
Definition injects (nr : Z) (argv : list Z) (ret : Z) (data : list byte) (lc : local U) (sh : shared E) : local U * shared E :=
  match injection_addr nr argv with
  | Some a => (MkLocal (lc_user lc) (as_u 64 ret),
               if bool_decide (data = []) then sh else MkShared (poke (sh_mem sh) a data) (sh_env sh))
  | None => (lc, sh)
  end.

Lemma feed_ps nr argv x lc sh :
  feed nr argv x lc sh = let s := apply_input nr argv x (as_ps lc sh) in
    (MkLocal (ps_user s) (ps_rax s), MkShared (ps_mem s) (sh_env sh)).
Proof. done. Qed.

Lemma feed_ret nr argv x lc (sh : shared E) lc' sh' :
  input_wf x → feed nr argv x lc sh = (lc', sh') → result_ret lc' ≤ MAX_TRANSFER.
Proof. intros [Hr Hm] [= <- _]. unfold result_ret. cbn. unfold as_u. by rewrite as_i_mod. Qed.

(** The outside world's result, put back. *)
Lemma injected_feed nr argv x lc0 lc sh lc' sh' :
  outside nr = true → input_wf x → senderless nr argv → feed nr argv x lc sh = (lc', sh') → lc_user lc0 = lc_user lc →
  injects nr argv (result_ret lc') (result_data nr argv lc' sh') lc0 sh = (lc', sh').
Proof.
  intros Ho Hx Hs Hf Hu. rewrite feed_ps in Hf. injection Hf as <- <-.
  pose proof (injected_input nr argv x (as_ps lc sh) (as_ps lc0 sh) Ho Hx Hs Hu eq_refl) as Hi. cbv zeta in Hi.
  unfold injects, result_data, result_ret. cbn [lc_rax sh_mem].
  destruct (proj1 (outside_injection nr argv) Ho) as [a Ha]. rewrite Ha in *. 
  cbn [injected c_ret c_data result_of as_ps apply_input ps_user ps_rax ps_mem] in Hi.
  pose proof (f_equal ps_user Hi) as E1. pose proof (f_equal ps_rax Hi) as E2. pose proof (f_equal ps_mem Hi) as E3.
  cbn [ps_user ps_rax ps_mem] in E1, E2, E3. f_equal; [by f_equal|]. case_bool_decide; [destruct sh|]; by f_equal.
Qed.

Lemma result_data_real nr argv lc sh : outside nr = false → result_data nr argv lc sh = [].
Proof.
  intros Ho. unfold result_data, captured. destruct (kernel_written_region _ _ _) as [[a len]|] eqn:Hk; [|done].
  apply region_outside in Hk as [Ho' _]. congruence.
Qed.

Lemma result_wf_thread nr argv lc sh :
  in_u 64 nr → (outside nr = true → result_ret lc ≤ MAX_TRANSFER) →
  exit_wf (mkSyscallExit nr (result_ret lc) (result_data nr argv lc sh)).
Proof.
  intros Hnr Ho. apply (result_wf nr argv (as_ps lc sh) Hnr). intros Ht%Ho. eapply Z.le_lt_trans; [exact Ht|done].
Qed.

Lemma injects_none nr argv ret data lc (sh : shared E) : outside nr = false → injects nr argv ret data lc sh = (lc, sh).
Proof.
  intros Ho. unfold injects. destruct (injection_addr nr argv) eqn:Hi; [|done].
  rewrite (proj2 (outside_injection nr argv)) in Ho by eauto. done.
Qed.

Lemma completes_inv i nr argv lc (sh : shared E) r :
  completes i nr argv lc sh r →
  outside nr = true ∧ (∃ x, input_wf x ∧ feed nr argv x lc sh = r) ∨ outside nr = false ∧ code_call i nr argv lc sh = r.
Proof. destruct 1; eauto. Qed.
End Results.

Section Replaying.
Context {U E : Type} {C : Code U E} (rec rep : list Z).
Context (Hrec : pids_ok rec) (Hrep : pids_ok rep) (Hmany : (length rec ≤ length rep)%nat).
#[local] Instance replaying_kernel : Kernel (procs U E) := threads_kernel rep.
Context {UW : Unwind (procs U E)}.
Context (cmd : Cmdline) (recs : list LogRecord).
#[local] Abbreviation P := (procs U E).

(** ** The session between two records *)

Definition mts (w : P) (k : nat) (cs : option Z) (lr : option Registers) (rt : gmap Z ThreadRt) (tm : TidMap)
    (ex : option Z) : ReplaySession P :=
  mkSession w (name rep 0) cmd recs k cs None None lr None 0 [] None [] None None true
    (Some (mkMt (name rep 0) rt tm ∅ ex)).

(** The same next call, and the same way to it. *)
Definition same_code (lc lc' : local U) : Prop := ∀ m, code_run lc m = code_run lc' m.

(** A live thread where the program's is, or before a part of its code. *)
Definition parked_as (x : local U * lphase) (t : thread U) : Prop :=
  t_going t = false ∧ t_stop t = false ∧
  match x.2, t_phase t with
  | LUser, (TUser | TExit _ _) => same_code (t_lc t) x.1
  | LEntry nr argv, TEntry nr' argv' c => t_lc t = x.1 ∧ nr' = nr ∧ argv' = argv ∧ c = outside nr
  | LCloned nr argv child, TCloned nr' argv' child' => t_lc t = x.1 ∧ nr' = nr ∧ argv' = argv ∧ child' = child
  | _, _ => False
  end.

Definition alike (st : lstate U E) (w : P) : Prop :=
  w_shared w = l_shared st ∧ w_next w = l_next st ∧
  ∀ i, option_Forall2 parked_as (l_threads st !! i) (w_threads w !! i).

Definition pending_call (nr : Z) (argv : list Z) : PendingSys :=
  mkPendingSys (outside nr) (injection_addr nr argv).
Definition calling (ph : lphase) : option PendingSys :=
  match ph with
  | LUser => None
  | LEntry nr argv | LCloned nr argv _ => Some (pending_call nr argv)
  end.

Definition tracked (st : lstate U E) (rt : gmap Z ThreadRt) : Prop :=
  ∀ i x, l_threads st !! i = Some x → rt !! name rep i = Some (mkThreadRt (calling x.2) None).

Definition alive (st : lstate U E) (i : nat) : Prop := is_Some (l_threads st !! i).

(** The table pairs the two pids of each live thread. *)
Definition table (st : lstate U E) (tm : TidMap) : Prop :=
  ∀ r l, (to_live tm !! r = Some l ↔ ∃ i, alive st i ∧ r = name rec i ∧ l = name rep i) ∧
         (to_recorded tm !! l = Some r ↔ ∃ i, alive st i ∧ r = name rec i ∧ l = name rep i).

Definition call_wf (ph : lphase) : Prop :=
  match ph with
  | LUser => True
  | LEntry nr argv => in_u 64 nr ∧ length argv = 6%nat ∧ Forall (in_u 64) argv ∧ senderless nr argv
  | LCloned nr argv _ => in_u 64 nr ∧ length argv = 6%nat ∧ Forall (in_u 64) argv ∧ clones nr = true
  end.

Record replays (st : lstate U E) (cur : nat) (w : P) (rt : gmap Z ThreadRt) (tm : TidMap) (ex : option Z) : Prop := {
  rp_alike : alike st w;
  rp_tracked : tracked st rt;
  rp_table : table st tm ∨ tm = TidMap_new ∧ ∀ i, alive st i → i = 0%nat;
  rp_expected : ex = Some (name rec cur) ∨ ex = None ∧ cur = 0%nat;
  rp_calls : ∀ i x, l_threads st !! i = Some x → call_wf x.2;
  rp_numbered : numbered rec st cur;
}.

Lemma alive_rec st cur i : numbered rec st cur → alive st i → (i < length rec)%nat.
Proof. intros (Hn & Hl & _) Hi%Hn. lia. Qed.

Lemma alive_rep st cur i : numbered rec st cur → alive st i → (i < length rep)%nat.
Proof. intros Hn Hi. pose proof (alive_rec _ _ _ Hn Hi). lia. Qed.

(** ** Which thread a record is for *)

Lemma enforce_ok (r : LogRecord) w k cs lr rt tm ex cur :
  tid (event r) = Some (name rec cur) → ex = Some (name rec cur) ∨ ex = None ∧ cur = 0%nat →
  enforce_tid r (mts w k cs lr rt tm ex) = (Ok (name rec cur), mts w k cs lr rt tm (Some (name rec cur))).
Proof.
  intros Ht Hex. unfold enforce_tid. rewrite Ht. cbn [ok_or]. autorewrite with stm. unfold state. autorewrite with stm.
  cbn [ss_mt mts expect mt_expected]. autorewrite with stm. cbn [mt_expected].
  destruct Hex as [->|[-> _]].
  - by rewrite Z.eqb_refl.
  - done.
Qed.

(** Binding the leader when its first record comes. *)
Lemma live_for_ok st cur w k cs lr rt tm ex sq :
  numbered rec st cur → alive st cur → table st tm ∨ tm = TidMap_new ∧ (∀ i, alive st i → i = 0%nat) →
  ∃ tm', live_for (name rec cur) sq (mts w k cs lr rt tm ex) = (Ok (name rep cur), mts w k cs lr rt tm' ex) ∧ table st tm'.
Proof.
  intros Hn Hc Ht. unfold live_for. unfold state at 1. autorewrite with stm. cbn [ss_mt mts expect]. autorewrite with stm.
  cbn [mt_tidmap mt_leader]. destruct Ht as [Ht|[-> Hz]].
  - exists tm. unfold live_of. rewrite (proj2 (proj1 (Ht (name rec cur) (name rep cur)))) by eauto. done.
  - apply Hz in Hc as Hc0. subst cur. unfold live_of, tidmap_is_empty. cbn [to_live TidMap_new]. rewrite lookup_empty.
    rewrite bool_decide_eq_true_2 by done. eexists. split; [reflexivity|].
    intros r l. cbn. rewrite !insert_empty, !lookup_singleton_Some. split.
    + split; [intros [<- <-]; eauto|intros (i & ->%Hz & -> & ->); done].
    + split; [intros [<- <-]; eauto|intros (i & ->%Hz & -> & ->); done].
Qed.

(** ** One stop of a live thread *)

Definition go (t : thread U) : thread U := MkThread (t_lc t) (t_phase t) true (t_stop t).

Lemma next_stop_same late i t (w w2 : P) status w' :
  same_procs w w2 → next_stop rep late i t w = (inl status, w') →
  ∃ w'', next_stop rep late i t w2 = (inl status, w'') ∧ same_procs w' w''.
Proof.
  destruct w as [sh ths nx ins cs ck], w2. unfold same_procs. cbn. intros (-> & -> & -> & ->).
  unfold next_stop, complete, may_die, start_clone, clone_event, put, set_threads, set_shared, parked. cbn. intros Hx.
  destruct (rep !! nx) as [q|]; cbn in *.
  all: try destruct (code_clone nx _ _ _) as [lc0 mem0] eqn:Hcc.
  all: repeat (case_match; simplify_eq; try (eexists; split; [reflexivity|done])).
Qed.

(** A stop the driver does not swallow. *)
Definition plain (status : wait_status) : Prop :=
  match status with PtraceEvent _ ev => ev ≠ PTRACE_EVENT_EXEC | Stopped _ _ => False | _ => True end.

Lemma step_ok n sig i t (w w1 : P) status k cs lr rt tm ex :
  (i < length rep)%nat → w_threads w !! i = Some t → is_born t = false → t_going t = false → plain status →
  (∀ late, next_stop rep late i (go t) (put i (go t) w) = (inl status, w1)) →
  ∃ w', step_thread (S n) (name rep i) sig (mts w k cs lr rt tm ex) = (Ok (Some status), mts w' k cs lr rt tm ex) ∧
    same_procs w1 w'.
Proof.
  intros Hlt Hi Hb Hg Hp Hn. cbn [step_thread].
  rewrite (bind_run _ _ _ tt (mts (put i (go t) w) k cs lr rt tm ex)).
  2:{ unfold on_kernel, call. cbn. unfold resume. rewrite (thread_of_name _ Hrep _ _ _ Hlt Hi), Hb, Hg. done. }
  destruct (pop (put i (go t) w)) as [c w2] eqn:Hpop. pose proof (pop_same _ _ _ Hpop) as Hsame.
  assert (Hi2 : w_threads w2 !! i = Some (go t)).
  { destruct Hsame as (_ & -> & _). cbn. by rewrite lookup_insert_eq. }
  destruct (next_stop_same _ _ _ _ _ _ _ Hsame (Hn (match c with Late => true | _ => false end))) as (w' & Hw & Hs).
  exists w'. split; [|done].
  rewrite (bind_run _ _ _ status (mts w' k cs lr rt tm ex)).
  2:{ unfold on_kernel, call. cbn. unfold wait_for. rewrite Hpop, (thread_of_name _ Hrep _ _ _ Hlt Hi2).
      change (is_born (go t)) with (is_born t). rewrite Hb. cbn [t_going go]. by rewrite Hw. }
  destruct status; try done. cbn in Hp. by rewrite (proj2 (Z.eqb_neq _ _) Hp).
Qed.

Lemma regs_read_ok i t (w : P) k cs lr rt tm ex :
  (i < length rep)%nat → w_threads w !! i = Some t →
  on_kernel (regs_read (name rep i)) (mts w k cs lr rt tm ex) =
    (Ok (let r := thread_regs t in
         mkRegisters (orig_rax r) (as_i 64 (rax r)) [rdi r; rsi r; rdx r; r10 r; r8 r; r9 r]), mts w k cs lr rt tm ex).
Proof.
  intros Hlt Hi. unfold on_kernel, regs_read, call, mbind, stm_bind. cbn. unfold get_regs.
  by rewrite (thread_of_name _ Hrep _ _ _ Hlt Hi).
Qed.

(** ** The bookkeeping of a step *)

Lemma alike_same st (w w' : P) : same_procs w w' → alike st w → alike st w'.
Proof. intros (E1 & E2 & E3 & _) (H1 & H2 & H3). unfold alike. by rewrite E1, E2, E3. Qed.

Lemma alike_at st (w : P) i x : alike st w → l_threads st !! i = Some x → ∃ t, w_threads w !! i = Some t ∧ parked_as x t.
Proof. intros (_ & _ & H3) Hi. specialize (H3 i). rewrite Hi in H3. inversion H3. eauto. Qed.

Lemma alike_put st (w w' : P) i x t sh :
  alike st w → parked_as x t → w_shared w' = sh → w_next w' = w_next w → w_threads w' = <[i := t]> (w_threads w) →
  alike (l_put i x sh st) w'.
Proof.
  intros (H1 & H2 & H3) Hx E1 E2 E3. split; [done|]. split; [by rewrite E2|]. intros j. rewrite E3. cbn.
  destruct (decide (i = j)) as [<-|Hne]; [by rewrite !lookup_insert_eq; constructor|by rewrite !lookup_insert_ne].
Qed.

Lemma tracked_put st rt i x sh cur :
  numbered rec st cur → alive st i → tracked st rt →
  tracked (l_put i x sh st) (<[name rep i := mkThreadRt (calling x.2) None]> rt).
Proof.
  intros Hn Hi Ht j y. cbn. rewrite lookup_insert_Some. intros [[<- <-]|[Hne Hj]]; [by rewrite lookup_insert_eq|].
  rewrite lookup_insert_ne; [by apply Ht|]. intros He. apply (name_inj _ Hrep) in He; [done|..];
    eapply (alive_rep st cur); (done || by eexists).
Qed.

Lemma table_put st i x sh tm : alive st i → table st tm → table (l_put i x sh st) tm.
Proof.
  intros Hi Ht r l. assert (Ha : ∀ j, alive (l_put i x sh st) j ↔ alive st j) by (intros j; unfold alive; cbn; by apply put_thread_some).
  destruct (Ht r l) as [-> ->]. split; split; intros (j & Hj & ? & ?); exists j; by rewrite Ha in *.
Qed.

(** A step that changes only the scheduled thread and the shared state. *)
Lemma replays_put st cur w rt tm tm' ex x sh w' t :
  replays st cur w rt tm ex → alive st cur → table st tm' → parked_as x t → call_wf x.2 →
  w_shared w' = sh → w_next w' = w_next w → w_threads w' = <[cur := t]> (w_threads w) →
  replays (l_put cur x sh st) cur w' (<[name rep cur := mkThreadRt (calling x.2) None]> rt) tm' (Some (name rec cur)).
Proof.
  intros [H1 H2 H3 H4 H5 H6] Hc Ht Hx Hw E1 E2 E3. constructor.
  - by eapply alike_put.
  - by eapply tracked_put.
  - left. by apply table_put.
  - by left.
  - intros j y. cbn. rewrite lookup_insert_Some. intros [[<- <-]|[_ Hj]]; [done|by eapply H5].
  - destruct H6 as (Hn & Hl). split; [|done]. intros j. cbn. rewrite put_thread_some by done. apply Hn.
Qed.

(** ** The records *)

Definition stepped (steps k : nat) (st st' : lstate U E) (cur cur' : nat) (w : P) cs lr rt tm ex : Prop :=
  ∃ w' cs' lr' rt' tm' ex',
    mt_turn steps None (mts w k cs lr rt tm ex) = (Ok (Some Continue), mts w' (S k) cs' lr' rt' tm' ex') ∧
    replays st' cur' w' rt' tm' ex'.

(** From the handler of a record to a turn of the driver. *)
Lemma turn_run steps r w k cs lr rt tm ex s' (o : option ExitOutcome) :
  recs !! k = Some r → mt_dispatch steps r (mts w k cs lr rt tm ex) = (Ok (Some o), s') →
  mt_turn steps None (mts w k cs lr rt tm ex) =
    (Ok (Some (match o with Some o => Return o | None => Continue end)), s').
Proof.
  intros Hk Hx. unfold mt_turn. autorewrite with stm. cbn [reached]. autorewrite with stm.
  cbn [ss_records ss_cursor mts]. rewrite Hk. rewrite (bind_run _ _ _ _ _ Hx). by destruct o.
Qed.

Lemma unit_turn_run steps r m w k cs lr rt tm ex s' :
  recs !! k = Some r → mt_dispatch steps r = (x ← m; mret ((λ _ : unit, None) <$> x)) →
  m (mts w k cs lr rt tm ex) = (Ok (Some tt), s') →
  mt_turn steps None (mts w k cs lr rt tm ex) = (Ok (Some Continue), s').
Proof.
  intros Hk Hm Hx. apply (turn_run _ _ _ _ _ _ _ _ _ _ None Hk). rewrite Hm. by rewrite (bind_run _ _ _ _ _ Hx).
Qed.

Lemma switch_decodes i : (i < length rec)%nat →
  SchedSwitch_decode (SchedSwitch_encode (mkSchedSwitch (name rec i))) = Ok (mkSchedSwitch (name rec i)).
Proof. intros Hi. exact (decode_encode (mkSchedSwitch (name rec i)) (pid_in_u32 _ (name_ok _ Hrec _ Hi))). Qed.

Lemma switch_replayed steps sq st cur i ts w k cs lr rt tm ex :
  replays st cur w rt tm ex → (i < length rec)%nat → recs !! k = Some (mkRecord sq (as_written (switch_event rec ts i))) →
  stepped steps k st st cur i w cs lr rt tm ex.
Proof.
  intros [H1 H2 H3 H4 H5 H6] Hi Hk. unfold stepped. do 6 eexists. split.
  - apply (turn_run _ _ _ _ _ _ _ _ _ _ None Hk). unfold mt_dispatch. cbn [event kind as_written switch_event Event_new_with_tid].
    unfold on_sched_switch. cbn [event payload as_written switch_event Event_new_with_tid].
    rewrite switch_decodes by done.
    cbn [map_err]. unfold state, put_state, advance. autorewrite with stm. cbn. reflexivity.
  - constructor; try done; [by left|]. destruct H6 as (? & ? & ?). done.
Qed.

(** What every other record starts with. *)
Lemma scheduled {A} st cur w rt tm ex (r : LogRecord) k cs lr :
  replays st cur w rt tm ex → alive st cur → tid (event r) = Some (name rec cur) →
  ∃ tm', table st tm' ∧ ∀ f : Z → Z → stm (ReplaySession P) ReplayError A,
    (t ← enforce_tid r; live ← live_for t (seq r); f t live) (mts w k cs lr rt tm ex) =
      f (name rec cur) (name rep cur) (mts w k cs lr rt tm' (Some (name rec cur))).
Proof.
  intros [H1 H2 H3 H4 H5 H6] Hc Hr.
  destruct (live_for_ok st cur w k cs lr rt tm (Some (name rec cur)) (seq r) H6 Hc H3) as (tm' & Hl & Ht).
  exists tm'. split; [done|]. intros f. rewrite (bind_run _ _ _ _ _ (enforce_ok r w k cs lr rt tm ex cur Hr H4)).
  by rewrite (bind_run _ _ _ _ _ Hl).
Qed.

Lemma state_ok w k cs lr rt tm ex :
  state (mts w k cs lr rt tm ex) = (Ok (mkMt (name rep 0) rt tm ∅ ex), mts w k cs lr rt tm ex).
Proof. done. Qed.

Lemma update_rt_ok i x f w k cs lr rt tm ex :
  rt !! i = Some x → update_rt i f (mts w k cs lr rt tm ex) = (Ok tt, mts w k cs lr (<[i := f x]> rt) tm ex).
Proof. intros Hi. unfold update_rt. rewrite (bind_run _ _ _ _ _ (state_ok _ _ _ _ _ _ _)). cbn [mt_threads]. by rewrite Hi. Qed.

Lemma take_resume_ok i p w k cs lr rt tm ex :
  rt !! i = Some (mkThreadRt p None) →
  mt_take_resume_signal i (mts w k cs lr rt tm ex) = (Ok None, mts w k cs lr rt tm ex).
Proof.
  intros Hi. unfold mt_take_resume_signal. rewrite (bind_run _ _ _ _ _ (state_ok _ _ _ _ _ _ _)).
  rewrite (bind_run _ _ _ _ _ (update_rt_ok _ _ _ _ _ _ _ _ _ _ Hi)). cbn [mt_threads rt_pending].
  rewrite Hi, insert_id by done. done.
Qed.

Lemma set_pending_ok i p q w k cs lr rt tm ex :
  rt !! i = Some (mkThreadRt p None) →
  set_rt_pending i q (mts w k cs lr rt tm ex) = (Ok tt, mts w k cs lr (<[i := mkThreadRt q None]> rt) tm ex).
Proof. intros Hi. exact (update_rt_ok _ _ _ _ _ _ _ _ _ _ Hi). Qed.

Lemma take_pending_ok i p w k cs lr rt tm ex :
  rt !! i = Some (mkThreadRt p None) →
  take_pending i (mts w k cs lr rt tm ex) = (Ok p, mts w k cs lr (<[i := mkThreadRt None None]> rt) tm ex).
Proof.
  intros Hi. unfold take_pending. rewrite (bind_run _ _ _ _ _ (state_ok _ _ _ _ _ _ _)).
  rewrite (bind_run _ _ _ _ _ (update_rt_ok _ _ _ _ _ _ _ _ _ _ Hi)). cbn [mt_threads]. by rewrite Hi.
Qed.

Lemma classify_pair nr argv : classify nr argv = (outside nr, injection_addr nr argv).
Proof.
  unfold classify. destruct (injection_addr nr argv) eqn:Hi; f_equal.
  - symmetry. apply (outside_injection nr argv). by eexists.
  - destruct (outside nr) eqn:Ho; [|done]. apply (outside_injection nr argv) in Ho as [? ?]. congruence.
Qed.

(** Cancelling a call at its entry. *)
Lemma suppress_ok i lc nr argv c sp w k cs lr rt tm ex :
  (i < length rep)%nat → w_threads w !! i = Some (MkThread lc (TEntry nr argv c) false sp) →
  on_kernel (suppress_syscall (name rep i)) (mts w k cs lr rt tm ex) =
    (Ok tt, mts (put i (MkThread lc (TEntry nr argv true) false sp) w) k cs lr rt tm ex).
Proof.
  intros Hlt Hi. unfold on_kernel, suppress_syscall, call, mbind, stm_bind. cbn. unfold get_regs, set_regs.
  rewrite (thread_of_name _ Hrep _ _ _ Hlt Hi). cbn. rewrite (thread_of_name _ Hrep _ _ _ Hlt Hi). cbn.
  by rewrite orb_true_r.
Qed.

Lemma advance_ok sq w k cs lr rt tm ex :
  advance sq (mts w k cs lr rt tm ex) = (Ok tt, mts w (S k) (Some sq) lr rt tm ex).
Proof. done. Qed.

Lemma parked_user (lc : local U) t :
  parked_as (lc, LUser) t →
  ∃ lc0 ph, t = MkThread lc0 ph false false ∧ in_user t = true ∧ is_born t = false ∧ same_code lc0 lc.
Proof. destruct t as [lc' [] [] []]; unfold parked_as; cbn; intros (? & ? & ?); try done; by do 2 eexists. Qed.

Lemma enter_replayed n sq st cur lc lc' mem nr argv ts ret0 w k cs lr rt tm ex :
  code_wf (C := C) → replays st cur w rt tm ex → l_threads st !! cur = Some (lc, LUser) →
  code_run lc (sh_mem (l_shared st)) = (lc', mem, (nr, argv)) →
  recs !! k = Some (mkRecord sq (as_written (enter_event ts (name rec cur) (mkSyscallRegs nr ret0 argv)))) →
  stepped (S n) k st (l_put cur (lc', LEntry nr argv) (MkShared mem (sh_env (l_shared st))) st) cur cur w cs lr rt tm ex.
Proof.
  intros Hwf Hrp Hl Hrun Hk. pose proof Hrp as [H1 H2 H3 H4 H5 H6]. assert (Hc : alive st cur) by (by eexists).
  pose proof (alive_rep _ _ _ H6 Hc) as Hlt. destruct (cw_call Hwf _ _ _ _ _ _ Hrun) as (Hnr & Hlen & Hargs & Hsl).
  destruct (alike_at _ _ _ _ H1 Hl) as (t & Hi & Hpk). destruct (parked_user _ _ Hpk) as (lc0 & ph & -> & Hu & Hb & Hcode).
  set (w1 := put cur (MkThread lc' (TEntry nr argv false) false false)
    (set_shared (MkShared mem (sh_env (w_shared w))) (put cur (go (MkThread lc0 ph false false)) w))).
  destruct (scheduled (A := option unit) st cur w rt tm ex
    (mkRecord sq (as_written (enter_event ts (name rec cur) (mkSyscallRegs nr ret0 argv)))) k cs lr Hrp Hc eq_refl) as (tm' & Htm & Hrun').
  destruct (step_ok n None cur _ w w1 (PtraceSyscall (name rep cur)) k cs lr rt tm' (Some (name rec cur)) Hlt Hi Hb
    eq_refl I) as (w2 & Hstep & Hsame).
  { intros late. unfold next_stop, in_user in *. cbn in *. destruct H1 as (Hsh & _).
    rewrite Hsh, (Hcode _), Hrun. unfold w1. rewrite Hsh. by destruct ph. }
  set (t1 := MkThread lc' (TEntry nr argv false) false false) in *.
  pose proof Hsame as (E1 & E2 & E3 & _). cbn in E1, E2, E3. rewrite insert_insert_eq in E2.
  assert (Hi2 : w_threads w2 !! cur = Some t1) by (by rewrite E2, lookup_insert_eq).
  set (w3 := if outside nr then put cur (MkThread lc' (TEntry nr argv true) false false) w2 else w2).
  assert (Hsup : ∀ lr', st_when (outside nr) (on_kernel (suppress_syscall (name rep cur)))
      (mts w2 k cs lr' rt tm' (Some (name rec cur))) = (Ok tt, mts w3 k cs lr' rt tm' (Some (name rec cur)))).
  { intros lr'. unfold w3. destruct (outside nr); [|done]. exact (suppress_ok cur lc' nr argv false false w2 k cs _ rt tm' _ Hlt Hi2). }
  unfold stepped. do 6 eexists. split.
  - eapply (unit_turn_run _ _ _ _ _ _ _ _ _ _ _ Hk); [reflexivity|]. etrans; [apply Hrun'|].
    rewrite (bind_run _ _ _ _ _ (take_resume_ok _ _ w k cs lr rt tm' _ (H2 _ _ Hl))).
    unfold stepping. rewrite (bind_run _ _ _ _ _ Hstep). rewrite bind_assoc.
    rewrite (bind_run _ _ _ _ _ (regs_read_ok _ _ _ _ _ _ _ _ _ Hlt Hi2)).
    cbn [thread_regs t1 t_phase regs_of_call orig_rax rax rdi rsi rdx r10 r8 r9].
    rewrite (argv_six argv Hlen). autorewrite with stm.
    cbn [set_last_regs event payload as_written enter_event Event_new_with_tid regs_nr regs_args].
    rewrite (enter_decode_encode (mkSyscallEnter nr argv) (conj Hnr (conj Hlen Hargs))). cbn [map_err enter_nr g_nr g_args].
    autorewrite with stm. rewrite Z.eqb_refl. cbn [negb].
    rewrite (classify_pair nr argv), bind_assoc.
    match goal with |- context [set_last_regs (Some ?r) _] =>
      change (set_last_regs (Some r) (mts w2 k cs lr rt tm' (Some (name rec cur))))
        with (mts w2 k cs (Some r) rt tm' (Some (name rec cur))) end.
    rewrite (bind_run _ _ _ _ _ (Hsup _)).
    rewrite bind_assoc, (bind_run _ _ _ _ _ (set_pending_ok _ _ _ _ _ _ _ _ _ _ (H2 _ _ Hl))).
    rewrite (bind_run _ _ _ _ _ (advance_ok _ _ _ _ _ _ _ _)). reflexivity.
  - assert (Hw3 : w_shared w3 = w_shared w2 ∧ w_next w3 = w_next w2 ∧
      w_threads w3 = <[cur := MkThread lc' (TEntry nr argv (outside nr)) false false]> (w_threads w)).
    { unfold w3. destruct (outside nr); cbn; rewrite E2; [by rewrite insert_insert_eq|done]. }
    destruct Hw3 as (F1 & F2 & F3). eapply replays_put; [exact Hrp|done|exact Htm| | | |by rewrite F2, E3|exact F3].
    + done.
    + done.
    + rewrite F1, E1. by destruct H1 as [-> _].
Qed.

Lemma write_ok i a data (w : P) k cs lr rt tm ex :
  on_kernel (write_memory i a data) (mts w k cs lr rt tm ex) =
    (Ok tt, mts (if bool_decide (data = []) then w
      else Threads.set_shared (MkShared (poke (sh_mem (w_shared w)) a data) (sh_env (w_shared w))) w) k cs lr rt tm ex).
Proof.
  unfold on_kernel, write_memory, call, mbind, stm_bind. case_bool_decide; cbn; [done|]. by rewrite Z.eqb_refl.
Qed.

Lemma set_return_ok i lc nr argv sp ret (w : P) k cs lr rt tm ex :
  (i < length rep)%nat → w_threads w !! i = Some (MkThread lc (TExit nr argv) false sp) →
  on_kernel (set_return (name rep i) ret) (mts w k cs lr rt tm ex) =
    (Ok tt, mts (put i (MkThread (MkLocal (lc_user lc) (as_u 64 ret)) (TExit nr argv) false sp) w) k cs lr rt tm ex).
Proof.
  intros Hlt Hi. unfold on_kernel, set_return, call, mbind, stm_bind. cbn. unfold get_regs, set_regs.
  rewrite (thread_of_name _ Hrep _ _ _ Hlt Hi). cbn. rewrite (thread_of_name _ Hrep _ _ _ Hlt Hi). done.
Qed.

(** The recorded result, put into a thread at the end of a call. *)
Lemma inject_ok i lc nr argv ret data (w : P) k cs lr rt tm ex :
  (i < length rep)%nat → w_threads w !! i = Some (MkThread lc (TExit nr argv) false false) →
  ∃ w', st_when (suppressed (pending_call nr argv))
      (match ps_inject_addr (pending_call nr argv) with
       | Some addr => on_kernel (write_memory (name rep i) addr data)
       | None => mret tt
       end;;
       on_kernel (set_return (name rep i) ret)) (mts w k cs lr rt tm ex) = (Ok tt, mts w' k cs lr rt tm ex) ∧
    let '(lc', sh') := injects nr argv ret data lc (w_shared w) in
    w_shared w' = sh' ∧ w_next w' = w_next w ∧ w_threads w' = <[i := MkThread lc' (TExit nr argv) false false]> (w_threads w).
Proof.
  intros Hlt Hi. unfold injects, pending_call. cbn [suppressed ps_inject_addr]. destruct (outside nr) eqn:Ho.
  - destruct (proj1 (outside_injection nr argv) Ho) as [a ->]. cbn [st_when].
    rewrite (bind_run _ _ _ _ _ (write_ok _ _ _ _ _ _ _ _ _ _)). eexists. split.
    + apply set_return_ok; [done|]. by case_bool_decide.
    + by case_bool_decide.
  - destruct (injection_addr nr argv) eqn:Ha; [rewrite (proj2 (outside_injection nr argv)) in Ho by eauto; done|].
    exists w. rewrite insert_id by done. done.
Qed.

(** The end of a call, once the thread is at it. *)
Lemma result_replayed n sq st cur lc ph nr argv lc1 lc' sh' ts (w w1 : P) k cs lr rt tm ex :
  replays st cur w rt tm ex → l_threads st !! cur = Some (lc, ph) → calling ph = Some (pending_call nr argv) →
  in_u 64 nr → length argv = 6%nat →
  (∀ t, w_threads w !! cur = Some t → parked_as (lc, ph) t → is_born t = false ∧
     ∀ late, next_stop rep late cur (go t) (put cur (go t) w) = (inl (PtraceSyscall (name rep cur)), w1)) →
  w_next w1 = w_next w → w_threads w1 = <[cur := MkThread lc1 (TExit nr argv) false false]> (w_threads w) →
  injects nr argv (result_ret lc') (result_data nr argv lc' sh') lc1 (w_shared w1) = (lc', sh') →
  (outside nr = true → result_ret lc' ≤ MAX_TRANSFER) →
  recs !! k = Some (mkRecord sq (as_written (result_event rec ts cur nr argv lc' sh'))) →
  stepped (S n) k st (l_put cur (lc', LUser) sh' st) cur cur w cs lr rt tm ex.
Proof.
  intros Hrp Hl Hph Hnr Hlen Hstop F2 F3 Hinj Hret Hk. pose proof Hrp as [H1 H2 H3 H4 H5 H6].
  assert (Hc : alive st cur) by (by eexists). pose proof (alive_rep _ _ _ H6 Hc) as Hlt.
  destruct (alike_at _ _ _ _ H1 Hl) as (t & Hi & Hpk). destruct (Hstop t Hi Hpk) as [Hb Hns].
  destruct (scheduled (A := option unit) st cur w rt tm ex
    (mkRecord sq (as_written (result_event rec ts cur nr argv lc' sh'))) k cs lr Hrp Hc eq_refl) as (tm' & Htm & Hrun).
  destruct (step_ok n None cur t w w1 (PtraceSyscall (name rep cur)) k cs lr rt tm' (Some (name rec cur)) Hlt Hi Hb
    ltac:(apply Hpk) I Hns) as (w2 & Hstep & E1 & E2 & E3 & _).
  set (t1 := MkThread lc1 (TExit nr argv) false false) in *.
  assert (Hi2 : w_threads w2 !! cur = Some t1) by (by rewrite E2, F3, lookup_insert_eq).
  pose proof (H2 _ _ Hl) as Hrt. cbn [snd] in Hrt. rewrite Hph in Hrt.
  destruct (inject_ok cur lc1 nr argv (result_ret lc') (result_data nr argv lc' sh') w2 k cs
    (Some (mkRegisters nr (as_i 64 (lc_rax lc1)) argv)) (<[name rep cur := mkThreadRt None None]> rt) tm'
    (Some (name rec cur)) Hlt Hi2) as (w3 & Hw3 & Hinj2).
  rewrite E1, Hinj in Hinj2. destruct Hinj2 as (G1 & G2 & G3). rewrite E2, F3, insert_insert_eq in G3.
  unfold stepped. do 6 eexists. split.
  - eapply (unit_turn_run _ _ _ _ _ _ _ _ _ _ _ Hk); [reflexivity|]. etrans; [apply Hrun|].
    unfold stepping. rewrite (bind_run _ _ _ _ _ Hstep). rewrite bind_assoc.
    rewrite (bind_run _ _ _ _ _ (regs_read_ok _ _ _ _ _ _ _ _ _ Hlt Hi2)).
    cbn [thread_regs t1 t_phase t_lc regs_of_call orig_rax rax rdi rsi rdx r10 r8 r9].
    rewrite (argv_six argv Hlen). autorewrite with stm.
    cbn [set_last_regs event payload as_written result_event Event_new_with_tid].
    fold (result_ret lc'). fold (result_data nr argv lc' sh').
    rewrite (exit_decode_encode _ (result_wf_thread nr argv lc' sh' Hnr Hret)). cbn [map_err exit_data exit_ret].
    autorewrite with stm.
    match goal with |- context [set_last_regs (Some ?r) _] =>
      change (set_last_regs (Some r) (mts w2 k cs lr rt tm' (Some (name rec cur))))
        with (mts w2 k cs (Some r) rt tm' (Some (name rec cur))) end.
    rewrite (bind_run _ _ _ _ _ (take_pending_ok _ _ _ _ _ _ _ _ _ Hrt)). rewrite bind_assoc.
    rewrite (bind_run _ _ _ _ _ Hw3). rewrite (bind_run _ _ _ _ _ (advance_ok _ _ _ _ _ _ _ _)). reflexivity.
  - eapply (replays_put st cur w rt tm tm' ex (lc', LUser) sh' w3 _ Hrp Hc Htm); [| |exact G1|by rewrite G2, E3|exact G3]; done.
Qed.

Lemma parked_call (lc : local U) nr argv t :
  parked_as (lc, LEntry nr argv) t → t = MkThread lc (TEntry nr argv (outside nr)) false false.
Proof. destruct t as [lc' [] [] []]; unfold parked_as; cbn; intros (? & ? & ?); naive_solver. Qed.

Lemma parked_cloned (lc : local U) nr argv child t :
  parked_as (lc, LCloned nr argv child) t → t = MkThread lc (TCloned nr argv child) false false.
Proof. destruct t as [lc' [] [] []]; unfold parked_as; cbn; intros (? & ? & ?); naive_solver. Qed.

Lemma exit_replayed n sq st cur lc nr argv lc' sh' ts w k cs lr rt tm ex :
  replays st cur w rt tm ex → l_threads st !! cur = Some (lc, LEntry nr argv) → dies nr = false → clones nr = false →
  completes cur nr argv lc (l_shared st) (lc', sh') →
  recs !! k = Some (mkRecord sq (as_written (result_event rec ts cur nr argv lc' sh'))) →
  stepped (S n) k st (l_put cur (lc', LUser) sh' st) cur cur w cs lr rt tm ex.
Proof.
  intros Hrp Hl Hd Hcl Hcomp Hk. pose proof Hrp as [(Hsh & _) _ _ _ H5 _]. destruct (H5 _ _ Hl) as (Hnr & Hlen & _ & Hsl).
  apply completes_inv in Hcomp as [(Ho & x & Hx & Hf)|[Ho Hf]].
  - eapply (result_replayed n sq st cur lc (LEntry nr argv) nr argv (returns (- ENOSYS) lc) lc' sh' ts w
      (put cur (MkThread (returns (- ENOSYS) lc) (TExit nr argv) false false)
        (put cur (MkThread lc (TEntry nr argv true) true false) w))); try done.
    + intros t _ ->%parked_call. rewrite Ho. done.
    + cbn. by rewrite insert_insert_eq.
    + cbn [put Threads.set_threads w_shared]. rewrite Hsh. by eapply injected_feed.
    + intros _. by eapply feed_ret.
  - eapply (result_replayed n sq st cur lc (LEntry nr argv) nr argv lc' lc' sh' ts w
      (put cur (MkThread lc' (TExit nr argv) false false)
        (Threads.set_shared sh' (put cur (MkThread lc (TEntry nr argv false) true false) w)))); try done; [| | |congruence].
    + intros t _ ->%parked_call. rewrite Ho. split; [done|]. intros late. cbn [next_stop go t_phase t_lc t_stop].
      unfold complete. rewrite Hd, Hcl, Ho. cbn [t_lc go put Threads.set_threads w_shared]. by rewrite Hsh, Hf.
    + cbn. by rewrite insert_insert_eq.
    + by apply injects_none.
Qed.

Lemma cloned_replayed n sq st cur lc nr argv child ts w k cs lr rt tm ex :
  replays st cur w rt tm ex → l_threads st !! cur = Some (lc, LCloned nr argv child) →
  let lc' := returns (visible child) lc in
  recs !! k = Some (mkRecord sq (as_written (result_event rec ts cur nr argv lc' (l_shared st)))) →
  stepped (S n) k st (l_put cur (lc', LUser) (l_shared st) st) cur cur w cs lr rt tm ex.
Proof.
  intros Hrp Hl lc' Hk. pose proof Hrp as [(Hsh & _) _ _ _ H5 _]. destruct (H5 _ _ Hl) as (Hnr & Hlen & _ & Hcl).
  pose proof (clones_not_outside _ Hcl) as Ho.
  eapply (result_replayed n sq st cur lc (LCloned nr argv child) nr argv lc' lc' (l_shared st) ts w
    (put cur (MkThread lc' (TExit nr argv) false false) (put cur (MkThread lc (TCloned nr argv child) true false) w)));
    try done; [| | |congruence].
  - by intros t _ ->%parked_cloned.
  - cbn. by rewrite insert_insert_eq.
  - rewrite injects_none by done. cbn. by rewrite Hsh.
Qed.

(** ** Creations and deaths *)

Lemma register_ok c t sq (w : P) k cs lr rt tm ex :
  (c < length rep)%nat → w_threads w !! c = Some t → is_born t = true →
  ∃ w', mt_register_child (name rep c) sq (mts w k cs lr rt tm ex) = (Ok tt, mts w' k cs lr rt tm ex) ∧
    same_procs (put c (parked (t_lc t) TUser t) w) w'.
Proof.
  intros Hlt Hc Hb. destruct (pop w) as [ch w2] eqn:Hpop. pose proof (pop_same _ _ _ Hpop) as (E1 & E2 & E3 & E4).
  exists (put c (parked (t_lc t) TUser t) w2). split; [|unfold same_procs; cbn; by rewrite E1, E2, E3, E4].
  unfold mt_register_child. erewrite bind_run.
  2:{ unfold on_kernel, call. cbn. unfold wait_for. rewrite Hpop.
      rewrite (thread_of_name _ Hrep c w2 t Hlt) by (by rewrite E2). by rewrite Hb. }
  done.
Qed.

Lemma alive_fresh st cur : numbered rec st cur → ¬ alive st (l_next st).
Proof. intros (Hn & _) Ha%Hn. lia. Qed.

Lemma bind_child_ok st cur tm sq child (w : P) k cs lr rt ex parent :
  numbered rec st cur → table st tm → ¬ alive st child → (child < length rec)%nat →
  ∃ tm', bind_child sq (name rec child) (name rep child) parent false (mts w k cs lr rt tm ex) =
      (Ok tt, mts w k cs lr (<[name rep child := ThreadRt_default]> rt) tm' ex) ∧
    ∀ st', (∀ i, alive st' i ↔ i = child ∨ alive st i) → table st' tm'.
Proof.
  intros Hn Ht Hf Hlt.
  assert (H1 : to_live tm !! name rec child = None).
  { apply eq_None_not_Some. intros [l (i & Hi & He & _)%Ht]. apply (name_inj _ Hrec) in He as <-; [done|done|].
    by eapply alive_rec. }
  assert (H2 : to_recorded tm !! name rep child = None).
  { apply eq_None_not_Some. intros [r (i & Hi & _ & He)%Ht]. apply (name_inj _ Hrep) in He as <-; [done|lia|].
    by eapply alive_rep. }
  exists (mkTidMap (<[name rec child := name rep child]> (to_live tm)) (<[name rep child := name rec child]> (to_recorded tm))).
  split.
  - unfold bind_child, bind_tid. rewrite bind_assoc, (bind_run _ _ _ _ _ (state_ok _ _ _ _ _ _ _)). cbn [mt_tidmap].
    rewrite tidmap_bind_run, H1, H2, decide_True by auto. unfold put_state. by autorewrite with stm.
  - intros st' Ha r l. cbn. rewrite !lookup_insert_Some. destruct (Ht r l) as [-> ->].
    assert (Hiff : ∀ i, alive st i → name rec i ≠ name rec child ∧ name rep i ≠ name rep child).
    { intros i Hi. split; intros He; [apply (name_inj _ Hrec) in He|apply (name_inj _ Hrep) in He]; subst; try done;
        try lia; by eapply alive_rec || by eapply alive_rep. }
    split; (split; [intros [[<- <-]|[_ (i & Hi & -> & ->)]]|intros (i & [->|Hi]%Ha & -> & ->)]);
      try (exists child; rewrite Ha; by auto); try (exists i; rewrite Ha; by auto); try (by left);
      right; destruct (Hiff i Hi); (split; [congruence|by eauto]).
Qed.

Lemma spawn_decodes i j : (i < length rec)%nat → (j < length rec)%nat →
  let x := mkThreadSpawn (name rec i) (name rec j) in ThreadSpawn_decode (ThreadSpawn_encode x) = Ok x.
Proof.
  intros Hi Hj x. refine (decode_encode x _). by split; apply pid_in_u32, name_ok.
Qed.

Lemma event_ok i t nr argv c (w : P) k cs lr rt tm ex :
  (i < length rep)%nat → w_threads w !! i = Some t → t_phase t = TCloned nr argv c →
  on_kernel (call RPtrace (pt_getevent (name rep i))) (mts w k cs lr rt tm ex) = (Ok (name rep c), mts w k cs lr rt tm ex).
Proof.
  intros Hlt Hi Hp. unfold on_kernel, call. cbn. unfold event_message.
  by rewrite (thread_of_name _ Hrep _ _ _ Hlt Hi), Hp.
Qed.

(** The live thread's own creation, up to its event. *)
Lemma clone_step st cur lc nr argv lc' mem (w : P) t late :
  alike st w → w_threads w !! cur = Some t → parked_as (lc, LEntry nr argv) t → clones nr = true →
  is_Some (rep !! l_next st) → code_clone (l_next st) argv lc (sh_mem (l_shared st)) = (lc', mem) →
  next_stop rep late cur (go t) (put cur (go t) w) =
    (inl (PtraceEvent (name rep cur) PTRACE_EVENT_CLONE),
     put cur (MkThread lc (TCloned nr argv (l_next st)) false false)
       (MkProcs (MkShared mem (sh_env (w_shared w)))
         (<[cur := MkThread lc (TCloning nr argv (l_next st)) true false]>
           (<[l_next st := MkThread lc' TBorn false false]> (<[cur := go t]> (w_threads w))))
         (S (l_next st)) (w_inputs w) (w_choices w) (w_clock w))).
Proof.
  intros (Hsh & Hnx & _) Hi ->%parked_call Hcl [p Hp] Hcode. rewrite (clones_not_outside _ Hcl) in *.
  cbn [next_stop go t_phase t_lc t_stop]. unfold complete. rewrite (clones_not_dies _ Hcl), Hcl.
  unfold start_clone. cbn [w_next put Threads.set_threads w_shared t_lc go]. rewrite Hnx, Hp. cbn [mbind option_bind].
  by rewrite Hsh, Hcode.
Qed.

(** A thread more, parked at its first instruction, its creator at the event. *)
Lemma replays_spawn st cur w w' rt tm tm' ex lc nr argv lc' mem :
  let child := l_next st in
  let st' := MkL (MkShared mem (sh_env (l_shared st)))
    (<[cur := (lc, LCloned nr argv child)]> (<[child := (lc', LUser)]> (l_threads st))) (S child) in
  replays st cur w rt tm ex → l_threads st !! cur = Some (lc, LEntry nr argv) → clones nr = true → (child < length rec)%nat →
  (∀ st', (∀ i, alive st' i ↔ i = child ∨ alive st i) → table st' tm') →
  w_shared w' = MkShared mem (sh_env (w_shared w)) → w_next w' = S child →
  w_threads w' = <[cur := MkThread lc (TCloned nr argv child) false false]>
    (<[child := MkThread lc' TUser false false]> (w_threads w)) →
  replays st' cur w' (<[name rep child := ThreadRt_default]> rt) tm' (Some (name rec cur)).
Proof.
  intros child st' [H1 H2 H3 H4 H5 H6] Hl Hcl Hclt Htm G1 G2 G3. destruct H1 as (Hsh & Hnx & Hth).
  assert (Hc : alive st cur) by (by eexists). pose proof (alive_fresh _ _ H6) as Hfresh. fold child in Hfresh.
  assert (Hne : cur ≠ child) by (by intros ->).
  assert (Hst' : ∀ i, alive st' i ↔ i = child ∨ alive st i).
  { intros i. unfold alive. cbn. rewrite put_thread_some, lookup_insert_is_Some'; [|].
    - naive_solver.
    - rewrite lookup_insert_ne by done. by eexists. }
  assert (Hne' : ∀ i, alive st i → i ≠ child ∧ name rep child ≠ name rep i).
  { intros i Ha. pose proof (alive_rep _ _ _ H6 Ha). split; [by intros ->|].
    intros He. apply (name_inj _ Hrep) in He; [by subst|lia|done]. }
  constructor.
  - split; [by rewrite G1, Hsh|]. split; [done|]. intros i. rewrite G3. cbn.
    destruct (decide (i = cur)) as [->|Hic]; [rewrite !lookup_insert_eq; by constructor|].
    rewrite !(lookup_insert_ne _ cur) by done.
    destruct (decide (i = child)) as [->|Hid]; [rewrite !lookup_insert_eq; by constructor|].
    by rewrite !lookup_insert_ne.
  - intros i x. cbn [l_threads st']. rewrite !lookup_insert_Some. intros [[<- <-]|[Hic [[<- <-]|[Hid Hx]]]].
    + right. split; [by apply Hne'|]. apply (H2 _ _ Hl).
    + by left.
    + right. split; [apply (Hne' i); by eexists|]. by apply H2.
  - left. by apply Htm.
  - by left.
  - intros i x. cbn [l_threads st']. rewrite !lookup_insert_Some. intros [[<- <-]|[Hic [[<- <-]|[Hid Hx]]]]; [|done|by eapply H5].
    by destruct (H5 _ _ Hl) as (? & ? & ? & _).
  - destruct H6 as (Hn & Hle & Hcl'). split; [|cbn; split; [lia|done]]. cbn. intros i Ha.
    apply (Hst' i) in Ha as [->|Ha%Hn]; lia.
Qed.

Lemma spawn_replayed n sq st cur lc nr argv lc' mem ts w k cs lr rt tm ex :
  replays st cur w rt tm ex → l_threads st !! cur = Some (lc, LEntry nr argv) → clones nr = true →
  is_Some (rec !! l_next st) → code_clone (l_next st) argv lc (sh_mem (l_shared st)) = (lc', mem) →
  recs !! k = Some (mkRecord sq (as_written (spawn_event rec ts cur (l_next st)))) →
  stepped (S n) k st
    (MkL (MkShared mem (sh_env (l_shared st)))
       (<[cur := (lc, LCloned nr argv (l_next st))]> (<[l_next st := (lc', LUser)]> (l_threads st))) (S (l_next st)))
    cur cur w cs lr rt tm ex.
Proof.
  intros Hrp Hl Hcl Hch Hcode Hk. pose proof Hrp as [H1 H2 H3 H4 H5 H6].
  set (child := l_next st) in *. assert (Hclt : (child < length rec)%nat) by (by apply lookup_lt_is_Some).
  assert (Hc : alive st cur) by (by eexists). pose proof (alive_rep _ _ _ H6 Hc) as Hlt. pose proof (alive_rec _ _ _ H6 Hc) as Hlt'.
  pose proof (alive_fresh _ _ H6) as Hfresh. fold child in Hfresh. assert (Hne : cur ≠ child) by (by intros ->).
  destruct (alike_at _ _ _ _ H1 Hl) as (t & Hi & Hpk). pose proof (parked_call _ _ _ _ Hpk) as Ht.
  assert (Hrch : is_Some (rep !! child)) by (apply lookup_lt_is_Some; lia).
  destruct (scheduled (A := option unit) st cur w rt tm ex
    (mkRecord sq (as_written (spawn_event rec ts cur child))) k cs lr Hrp Hc eq_refl) as (tm1 & Htm & Hrun).
  pose proof (λ late, clone_step st cur lc nr argv lc' mem w t late H1 Hi Hpk Hcl Hrch Hcode) as Hns.
  assert (Hex : plain (PtraceEvent (name rep cur) PTRACE_EVENT_CLONE)) by discriminate.
  destruct (step_ok n None cur t w _ _ k cs lr rt tm1 (Some (name rec cur)) Hlt Hi ltac:(by rewrite Ht) ltac:(by rewrite Ht) Hex Hns)
    as (w2 & Hstep & E1 & E2 & E3 & _). fold child in E2, E3. cbn [put Threads.set_threads w_shared w_threads w_next] in E1, E2, E3.
  set (tc := MkThread lc (TCloned nr argv child) false false) in *.
  assert (Hw2 : w_threads w2 = <[cur := tc]> (<[child := MkThread lc' TBorn false false]> (w_threads w))).
  { rewrite E2, insert_insert_eq, insert_insert_ne, insert_insert_eq, insert_insert_ne; done. }
  assert (Hcur2 : w_threads w2 !! cur = Some tc) by (by rewrite Hw2, lookup_insert_eq).
  assert (Hc2 : w_threads w2 !! child = Some (MkThread lc' TBorn false false)).
  { rewrite Hw2, lookup_insert_ne by done. by rewrite lookup_insert_eq. }
  destruct (register_ok child _ sq w2 k cs lr rt tm1 (Some (name rec cur)) ltac:(lia) Hc2 eq_refl) as (w3 & Hreg & G1 & G2 & G3 & _).
  destruct (bind_child_ok st cur tm1 sq child w3 k cs lr rt (Some (name rec cur)) (name rep cur) H6 Htm Hfresh Hclt)
    as (tm2 & Hbind & Htm2).
  unfold stepped. do 6 eexists. split.
  - eapply (unit_turn_run _ _ _ _ _ _ _ _ _ _ _ Hk); [reflexivity|]. etrans; [apply Hrun|].
    cbn [event payload as_written spawn_event Event_new_with_tid].
    rewrite (spawn_decodes _ _ Hlt' Hclt). cbn [map_err]. autorewrite with stm.
    rewrite (bind_run _ _ _ _ _ (take_resume_ok _ _ w k cs lr rt tm1 _ (H2 _ _ Hl))).
    unfold stepping. rewrite (bind_run _ _ _ _ _ Hstep).
    change (is_spawn_event PTRACE_EVENT_CLONE) with true. cbv iota. autorewrite with stm.
    rewrite (bind_run _ _ _ _ _ (event_ok cur tc nr argv child w2 k cs lr rt tm1 _ Hlt Hcur2 eq_refl)).
    rewrite (as_i_pid (name rep child)) by (apply (name_ok _ Hrep); lia). cbn [seq child_tid].
    rewrite bind_assoc, (bind_run _ _ _ _ _ Hreg). change (PTRACE_EVENT_CLONE =? PTRACE_EVENT_VFORK) with false.
    rewrite bind_assoc, (bind_run _ _ _ _ _ Hbind). autorewrite with stm. cbn [ss_watchpoint mts]. autorewrite with stm.
    rewrite (bind_run _ _ _ _ _ (advance_ok _ _ _ _ _ _ _ _)). reflexivity.
  - cbn [put Threads.set_threads w_shared w_threads w_next t_lc t_stop parked] in G1, G2, G3.
    rewrite Hw2, (insert_insert_ne _ child), insert_insert_eq in G2 by done.
    by eapply (replays_spawn st cur w w3); try done; [rewrite G1|rewrite G3].
Qed.

(** A death, of the leader or not. *)
Lemma death_run n sq st cur lc nr argv code ts w (w1 : P) k cs lr rt tm ex :
  replays st cur w rt tm ex → l_threads st !! cur = Some (lc, LEntry nr argv) → dies nr = true →
  (∀ t late, w_threads w !! cur = Some t → parked_as (lc, LEntry nr argv) t →
     next_stop rep late cur (go t) (put cur (go t) w) = (inl (Exited (name rep cur) code), w1)) →
  recs !! k = Some (mkRecord sq (as_written (death_event rec ts cur))) →
  ∃ w' tm', same_procs w1 w' ∧ table st tm' ∧
    let s := mts w' (S k) (Some sq) lr (delete (name rep cur) rt) (unbind_recorded (name rec cur) tm').2 (Some (name rec cur)) in
    mt_turn (S n) None (mts w k cs lr rt tm ex) =
      if decide (cur = 0%nat) then (Ok (Some (Return (OutExited code))), set_finished (Some (OutExited code)) s)
      else (Ok (Some Continue), s).
Proof.
  intros Hrp Hl Hd Hns Hk. pose proof Hrp as [H1 H2 H3 H4 H5 H6]. assert (Hc : alive st cur) by (by eexists).
  pose proof (alive_rep _ _ _ H6 Hc) as Hlt. destruct (alike_at _ _ _ _ H1 Hl) as (t & Hi & Hpk).
  pose proof (parked_call _ _ _ _ Hpk) as Ht.
  destruct (scheduled (A := option (option ExitOutcome)) st cur w rt tm ex
    (mkRecord sq (as_written (death_event rec ts cur))) k cs lr Hrp Hc eq_refl) as (tm' & Htm & Hrun).
  destruct (step_ok n None cur t w w1 (Exited (name rep cur) code) k cs lr rt tm' (Some (name rec cur)) Hlt Hi
    ltac:(by rewrite Ht) ltac:(by rewrite Ht) I (λ late, Hns t late Hi Hpk)) as (w2 & Hstep & Hsame).
  exists w2, tm'. split; [done|]. split; [done|]. cbv zeta.
  assert (Hl0 : (name rep cur =? name rep 0) = bool_decide (cur = 0%nat)).
  { apply eq_bool_prop_intro. rewrite bool_decide_spec, Is_true_true, Z.eqb_eq. split; [|by intros ->].
    intros He. apply (name_inj _ Hrep) in He; [done|done|lia]. }
  assert (Hx : on_thread_exit (S n) (mkRecord sq (as_written (death_event rec ts cur))) (mts w k cs lr rt tm ex) =
      (if bool_decide (cur = 0%nat) then
         _ ← st_modify (set_finished (Some (OutExited code))); mret (Some (Some (OutExited code)))
       else mret (Some None))
      (mts w2 (S k) (Some sq) lr (delete (name rep cur) rt) (unbind_recorded (name rec cur) tm').2 (Some (name rec cur)))).
  { etrans; [exact (Hrun _)|].
    rewrite (bind_run _ _ _ _ _ (take_resume_ok _ _ w k cs lr rt tm' _ (H2 _ _ Hl))).
    unfold stepping. rewrite (bind_run _ _ _ _ _ Hstep). autorewrite with stm.
    rewrite (bind_run _ _ _ _ _ (state_ok _ _ _ _ _ _ _)). cbn [mt_leader]. rewrite Hl0. unfold remove_thread.
    autorewrite with stm. rewrite (bind_run _ _ _ _ _ (state_ok _ _ _ _ _ _ _)). unfold put_state, advance.
    autorewrite with stm. cbn [mt_leader mt_threads mt_tidmap mt_vfork mt_expected]. rewrite delete_empty.
    by case_bool_decide. }
  case_bool_decide; [rewrite decide_True by done|rewrite decide_False by done]; by rewrite (turn_run _ _ _ _ _ _ _ _ _ _ _ Hk Hx).
Qed.

Lemma delete_pair st cur tm i :
  numbered rec st cur → alive st i → table st tm →
  ∀ st', (∀ j, alive st' j ↔ j ≠ i ∧ alive st j) → table st' (unbind_recorded (name rec i) tm).2.
Proof.
  intros Hn Hi Ht st' Ha r l. unfold unbind_recorded.
  assert (Hl : to_live tm !! name rec i = Some (name rep i)) by (apply Ht; eauto). rewrite Hl. cbn.
  rewrite !lookup_delete_Some. destruct (Ht r l) as [-> ->].
  assert (Hiff : ∀ j, alive st j → j ≠ i → name rec i ≠ name rec j ∧ name rep i ≠ name rep j).
  { intros j Hj Hne. split; intros He; apply Hne; symmetry; [apply (name_inj _ Hrec) in He|apply (name_inj _ Hrep) in He]; try done;
      by eapply alive_rec || by eapply alive_rep. }
  split; (split; [intros [Hne (j & Hj & -> & ->)]; exists j; rewrite Ha; split; [|done]; split; [by intros ->|done]
    |intros (j & [Hji Hj]%Ha & -> & ->); split; [by apply Hiff|by eauto]]).
Qed.

(** The machine where a thread has died. *)
Definition buried (i : nat) (w : P) : P :=
  MkProcs (code_bury i (w_shared w)) (delete i (w_threads w)) (w_next w) (w_inputs w) (w_choices w) (w_clock w).

Lemma death_step st cur lc nr argv (w : P) t late :
  alike st w → parked_as (lc, LEntry nr argv) t → dies nr = true → may_die cur nr (put cur (go t) w) = true →
  next_stop rep late cur (go t) (put cur (go t) w) =
    (inl (Exited (name rep cur) (exit_status argv)), buried cur (put cur (go t) w)).
Proof.
  intros _ ->%parked_call Hd Hm. rewrite (dies_not_outside _ Hd) in *. cbn [next_stop go t_phase t_lc t_stop].
  unfold complete. by rewrite Hd, Hm.
Qed.

Lemma death_replayed n sq st cur lc argv ts w k cs lr rt tm ex :
  replays st cur w rt tm ex → cur ≠ 0%nat → l_threads st !! cur = Some (lc, LEntry SYS_exit argv) →
  recs !! k = Some (mkRecord sq (as_written (death_event rec ts cur))) →
  stepped (S n) k st (MkL (code_bury cur (l_shared st)) (delete cur (l_threads st)) (l_next st)) cur cur w cs lr rt tm ex.
Proof.
  intros Hrp Hz Hl Hk. pose proof Hrp as [H1 H2 H3 H4 H5 H6]. assert (Hc : alive st cur) by (by eexists).
  destruct (alike_at _ _ _ _ H1 Hl) as (t & Hi & Hpk).
  destruct (death_run n sq st cur lc SYS_exit argv (exit_status argv) ts w (buried cur (put cur (go t) w)) k cs lr rt tm ex
    Hrp Hl eq_refl) as (w2 & tm' & (E1 & E2 & E3 & _) & Htm & Hrun); [|done|].
  { intros t' late Hi' Hpk'. rewrite Hi in Hi'. injection Hi' as <-. eapply death_step; [done..|].
    unfold may_die. by rewrite decide_False. }
  cbn in E1, E2, E3. rewrite delete_insert_eq in E2. destruct H1 as (Hsh & Hnx & Hth).
  assert (Ha : ∀ j, alive (MkL (code_bury cur (l_shared st)) (delete cur (l_threads st)) (l_next st)) j ↔ j ≠ cur ∧ alive st j).
  { intros j. unfold alive. cbn. rewrite lookup_delete_is_Some. naive_solver. }
  cbv zeta in Hrun. rewrite decide_False in Hrun by done. unfold stepped. do 6 eexists. split; [exact Hrun|]. constructor.
  - split; [by rewrite E1, Hsh|]. split; [by rewrite E3|]. intros i. rewrite E2. cbn.
    destruct (decide (i = cur)) as [->|Hic]; [rewrite !lookup_delete_eq; constructor|by rewrite !lookup_delete_ne].
  - intros i x. cbn [l_threads]. intros [Hic Hx]%lookup_delete_Some. rewrite lookup_delete_ne; [by apply H2|].
    intros He. apply (name_inj _ Hrep) in He; [done|by eapply alive_rep|eapply alive_rep; [done|by eexists]].
  - left. by eapply delete_pair.
  - by left.
  - intros i x. cbn [l_threads]. intros [_ Hx]%lookup_delete_Some. by eapply H5.
  - destruct H6 as (Hn & Hle). split; [|done]. intros i [_ Hi']%Ha. by apply Hn.
Qed.

(** Each record of the program's steps is replayed. *)
Lemma obs_replayed n sq st cur e st' cur' w k cs lr rt tm ex :
  code_wf (C := C) → obs rec st cur e st' cur' → replays st cur w rt tm ex →
  recs !! k = Some (mkRecord sq (as_written e)) → stepped (S n) k st st' cur cur' w cs lr rt tm ex.
Proof.
  intros Hwf Ho Hrp Hk. destruct Ho.
  - by eapply switch_replayed.
  - by eapply enter_replayed.
  - by eapply exit_replayed.
  - by eapply spawn_replayed.
  - by eapply cloned_replayed.
  - by eapply death_replayed.
Qed.

Lemma drive_more n m w k cs lr rt tm ex w' cs' lr' rt' tm' ex' :
  mt_turn n None (mts w k cs lr rt tm ex) = (Ok (Some Continue), mts w' (S k) cs' lr' rt' tm' ex') →
  mt_drive_loop (S m) n None (mts w k cs lr rt tm ex) = mt_drive_loop m n None (mts w' (S k) cs' lr' rt' tm' ex').
Proof. intros Ht. cbn [mt_drive_loop]. by rewrite (bind_run _ _ _ _ _ Ht). Qed.

(** A run of them, from the start of the records. *)
(** Replaying has nothing to do for a part of a thread's code. *)
Lemma part_replayed st cur lc w rt tm ex m :
  code_wf (C := C) → l_threads st !! cur = Some (lc, LUser) → replays st cur w rt tm ex →
  replays (l_put cur (code_step lc m, LUser) (l_shared st) st) cur w rt tm ex.
Proof.
  intros Hwf Hl [(Hsh & Hnx & Hth) H2 H3 H4 H5 H6]. assert (Hc : alive st cur) by (by eexists).
  constructor.
  - split; [done|]. split; [done|]. intros i. cbn. destruct (decide (cur = i)) as [<-|Hne].
    + rewrite lookup_insert_eq. specialize (Hth cur). rewrite Hl in Hth. inversion Hth as [x t Hp Hx Ht|]; subst.
      constructor. destruct Hp as (? & ? & Hp). split; [done|]. split; [done|]. cbn in *.
      destruct (t_phase t); try done; intros m'; by rewrite cw_step.
    + by rewrite lookup_insert_ne.
  - intros i x. cbn. rewrite lookup_insert_Some. intros [[<- <-]|[_ Hi]]; [apply (H2 _ _ Hl)|by apply H2].
  - destruct H3 as [H3|[-> Hz]]; [left; by apply table_put|right]. split; [done|]. intros i.
    unfold alive. cbn. rewrite put_thread_some by done. apply Hz.
  - done.
  - intros i x. cbn. rewrite lookup_insert_Some. intros [[_ <-]|[_ Hi]]; [done|by eapply H5].
  - by apply part_numbered.
Qed.

Lemma run_replayed n st0 es st cur w rt tm ex :
  code_wf (C := C) → obs_run rec st0 es st cur → replays st0 0 w rt tm ex → ∀ rest, recs = number 0 (es ++ rest) →
  ∀ m, ∃ w' cs lr rt' tm' ex',
    mt_drive_loop (length es + m) (S n) None (mts w 0 None None rt tm ex) =
      mt_drive_loop m (S n) None (mts w' (length es) cs lr rt' tm' ex') ∧ replays st cur w' rt' tm' ex'.
Proof.
  intros Hwf Hrun H0. induction Hrun as [|es st cur lc Hrun IH Hl|es st cur e st' cur' Hrun IH Ho]; intros rest Hrecs m.
  - do 6 eexists. split; [reflexivity|done].
  - destruct (IH rest Hrecs m) as (w1 & cs1 & lr1 & rt1 & tm1 & ex1 & Hm & H1).
    do 6 eexists. split; [exact Hm|]. by eapply part_replayed.
  - destruct (IH (e :: rest) ltac:(by rewrite Hrecs, <- app_assoc) (S m)) as (w1 & cs1 & lr1 & rt1 & tm1 & ex1 & Hm & H1).
    assert (Hk : recs !! length es = Some (mkRecord (0 + Z.of_nat (length es)) (as_written e))).
    { rewrite Hrecs, <- app_assoc. apply number_lookup. }
    destruct (obs_replayed n _ _ _ _ _ _ _ _ cs1 lr1 _ _ _ Hwf Ho H1 Hk) as (w2 & cs2 & lr2 & rt2 & tm2 & ex2 & Ht & H2).
    exists w2, cs2, lr2, rt2, tm2, ex2. split; [|done]. rewrite length_app, <- Nat.add_assoc. cbn [length Nat.add].
    rewrite Hm, (drive_more _ _ _ _ _ _ _ _ _ _ _ _ _ _ _ Ht). by rewrite Nat.add_1_r.
Qed.

(** The leader's death ends the replay. *)
Lemma leader_replayed n m sq st lc nr av ts w k cs lr rt tm ex :
  replays st 0 w rt tm ex → l_threads st = {[0%nat := (lc, LEntry nr av)]} → dies nr = true →
  recs !! k = Some (mkRecord sq (as_written (death_event rec ts 0))) →
  ∃ s', mt_drive_loop (S m) (S n) None (mts w k cs lr rt tm ex) = (Ok (Some (OutExited (exit_status av))), s') ∧
    ss_cursor s' = S k ∧ ss_finished s' = Some (OutExited (exit_status av)) ∧
    w_shared (ss_world s') = code_bury 0 (l_shared st).
Proof.
  intros Hrp Hst Hd Hk. pose proof Hrp as [H1 _ _ _ _ _].
  assert (Hl : l_threads st !! 0%nat = Some (lc, LEntry nr av)) by (by rewrite Hst, lookup_singleton_eq).
  destruct (alike_at _ _ _ _ H1 Hl) as (t & Hi & Hpk). pose proof H1 as (Hsh & _ & Hth).
  destruct (death_run n sq st 0 lc nr av (exit_status av) ts w (buried 0 (put 0 (go t) w)) k cs lr rt tm ex
    Hrp Hl Hd) as (w2 & tm' & (E1 & _) & _ & Hrun); [|done|].
  { intros t' late Hi' Hpk'. rewrite Hi in Hi'. injection Hi' as <-. eapply death_step; [done..|].
    unfold may_die. rewrite decide_True by done. cbn [put Threads.set_threads w_threads].
    assert (Hone : w_threads w = {[0%nat := t]}).
    { apply map_eq. intros i. specialize (Hth i). rewrite Hst in Hth. destruct (decide (i = 0%nat)) as [->|Hne].
      - by rewrite lookup_singleton_eq.
      - rewrite (lookup_singleton_ne 0%nat i) in Hth by done. rewrite lookup_singleton_ne by done. by inversion Hth. }
    by rewrite Hone, insert_singleton_eq, map_size_singleton. }
  cbv zeta in Hrun. rewrite decide_True in Hrun by done. cbn [mt_drive_loop]. rewrite (bind_run _ _ _ _ _ Hrun).
  eexists. split; [reflexivity|]. cbn. by rewrite E1, <- Hsh.
Qed.

End Replaying.

(** ** The log of an execution *)

Section Executed.
Context {U E : Type} {C : Code U E} (rec : list Z) (Hrec : pids_ok rec).

Lemma obs_fits st cur e st' cur' :
  code_wf (C := C) → numbered rec st cur → obs rec st cur e st' cur' → event_fits e.
Proof.
  intros Hwf (Hn & Hle & Hc) Ho.
  assert (Hp : ∀ i, (i < length rec)%nat → in_u 32 (name rec i)) by (intros i Hi; by apply pid_in_u32, name_ok).
  assert (Hres : ∀ ts nr argv lc sh, in_u 64 ts → (outside nr = true → result_ret lc ≤ MAX_TRANSFER) →
    event_fits (result_event (U := U) (E := E) rec ts cur nr argv lc sh)).
  { intros ts nr argv lc sh Hts Hr. split; [split; [done|split; [done|by apply Hp]]|].
    cbn [payload result_event Event_new_with_tid]. rewrite exit_encode_length. cbn [exit_data].
    assert (blen (result_data nr argv lc sh) ≤ MAX_TRANSFER).
    { destruct (outside nr) eqn:Ho'; [|by rewrite result_data_real].
      unfold result_data, captured. destruct (kernel_written_region _ _ _) as [[a len]|] eqn:Hk; [|done].
      pose proof (region_length _ _ _ _ _ Hk) as Hlen. unfold blen. rewrite peek_length.
      specialize (Hr eq_refl). assert (16 ≤ MAX_TRANSFER) by done. lia. }
    fold (result_ret lc). fold (result_data nr argv lc sh). unfold MAX_TRANSFER in *. lia. }
  destruct Ho as [st cur i ts Hts Hi|st cur lc lc' mem nr argv ts ret0 Hts Hl Hr|st cur lc nr argv lc' sh' ts Hts Hl Hd Hcl Hcomp|
    st cur lc nr argv lc' mem ts Hts Hl Hcl Hch Hcode|st cur lc nr argv child ts Hts Hl Hcl|st cur lc argv ts Hts Hz Hl].
  - split; [|done]. split; [done|]. split; [done|by apply Hp].
  - destruct (cw_call Hwf _ _ _ _ _ _ Hr) as (_ & Hlen & _). split; [split; [done|split; [done|by apply Hp]]|].
    cbn [payload enter_event Event_new_with_tid regs_nr regs_args]. by rewrite enter_encode_length.
  - apply Hres; [done|]. intros Ho. apply completes_inv in Hcomp as [(_ & x & Hx & Hf)|[? _]]; [|congruence].
    by eapply feed_ret.
  - split; [|done]. split; [done|]. split; [done|by apply Hp].
  - apply Hres; [done|]. rewrite clones_not_outside by done. done.
  - split; [|done]. split; [done|]. split; [done|by apply Hp].
Qed.

Lemma run_numbered st0 es st cur : obs_run rec st0 es st cur → numbered rec st0 0 → numbered rec st cur.
Proof.
  induction 1 as [|es st cur lc _ IH Hl|es st cur e st' cur' _ IH Ho]; [done|..]; intros H0.
  - by apply part_numbered; [apply IH|eexists].
  - by eapply obs_numbered, IH.
Qed.

Lemma run_fits st0 es st cur :
  code_wf (C := C) → numbered rec st0 0 → obs_run rec st0 es st cur → Forall event_fits es.
Proof.
  intros Hwf H0. induction 1 as [|es st cur lc Hr IH Hl|es st cur e st' cur' Hr IH Ho]; [constructor|done|].
  apply Forall_app_2; [done|]. apply Forall_singleton. by eapply obs_fits, Ho; [|eapply run_numbered].
Qed.

Lemma loaded_numbered prog argv : (0 < length rec)%nat → numbered rec (loaded (C := C) prog argv) 0.
Proof.
  intros Hlt. unfold loaded. destruct (code_load prog argv) as [lc sh]. split; [|done].
  cbn [l_threads l_next]. intros i [x [<- _]%lookup_singleton_Some]. lia.
Qed.

Lemma executes_fits prog argv es code (sh : shared E) :
  code_wf (C := C) → executes rec prog argv es code sh → Forall event_fits es.
Proof.
  intros Hwf (Hlt & es0 & st & lc & nr & av & ts & -> & Hts & Hr & _). apply Forall_app_2.
  - eapply run_fits; [done|by apply loaded_numbered|exact Hr].
  - apply Forall_singleton. split; [|done]. split; [done|]. split; [done|by apply pid_in_u32, name_ok].
Qed.

Lemma executes_multithreaded prog argv es code (sh : shared E) :
  executes rec prog argv es code sh → trace_is_multithreaded (number 0 es) = true.
Proof.
  intros (_ & es0 & st & lc & nr & av & ts & -> & _). apply existsb_exists. eexists. split.
  - apply list_elem_of_In. eapply list_elem_of_lookup_2, number_lookup.
  - done.
Qed.
End Executed.

(** ** The whole replay *)

Section Whole.
Context {U E : Type} {C : Code U E} (rec rep : list Z).
Context (Hrec : pids_ok rec) (Hrep : pids_ok rep) (Hmany : (length rec ≤ length rep)%nat).
#[local] Instance whole_kernel : Kernel (procs U E) := threads_kernel rep.
Context {UW : Unwind (procs U E)}.

Lemma spawn_ok pids prog argv (w : procs U E) : (0 < length pids)%nat →
  spawn pids prog argv w = let '(lc, sh) := code_load prog argv in
    (inl (name pids 0), MkProcs sh {[0%nat := MkThread lc TBorn false false]} 1 (w_inputs w) (w_choices w) (w_clock w)).
Proof. destruct pids; cbn; [lia|done]. Qed.

(** Launching stops the leader at its first instruction. *)
Lemma launch_threads cmd recs (v : procs U E) :
  (0 < length rep)%nat → trace_is_multithreaded recs = true →
  ∃ w0, launch (Ok (Some cmd, Ok recs)) v =
      (Ok (mkSession w0 (name rep 0) cmd recs 0 None None None None None 0 [] None [] None None true None), w0) ∧
    alike (loaded (C := C) (program cmd) (args cmd)) w0.
Proof.
  intros Hlt Hm. unfold launch. cbn [ok_or map_err]. autorewrite with stm. rewrite Hm. unfold loaded.
  pose proof (spawn_ok rep (program cmd) (args cmd) v Hlt) as Hsp. destruct (code_load (program cmd) (args cmd)) as [lc sh].
  set (w1 := MkProcs _ _ _ _ _ _) in Hsp. destruct (pop w1) as [c w2] eqn:Hpop. pose proof (pop_same _ _ _ Hpop) as (E1 & E2 & E3 & E4).
  rewrite (bind_run _ _ _ (name rep 0) w1) by (unfold call; cbn; by rewrite Hsp).
  set (t := MkThread lc TBorn false false) in *.
  assert (Hi : w_threads w2 !! 0%nat = Some t) by (rewrite E2; cbn [w1 w_threads]; by rewrite lookup_singleton_eq).
  rewrite (bind_run _ _ _ (Stopped (name rep 0) SIGTRAP) (put 0 (parked lc TUser t) w2)).
  2:{ unfold call. cbn. unfold wait_for. rewrite Hpop, (thread_of_name _ Hrep 0 w2 t Hlt Hi). done. }
  exists (put 0 (parked lc TUser t) w2). split; [done|]. split; [done|]. split; [done|]. intros i.
  cbn [put Threads.set_threads w_threads l_threads]. rewrite E2. cbn [w1 w_threads]. rewrite insert_singleton_eq.
  destruct (decide (i = 0%nat)) as [->|Hne]; [rewrite !lookup_singleton_eq; by constructor|].
  rewrite (lookup_singleton_ne 0%nat i), (lookup_singleton_ne 0%nat i) by done. constructor.
Qed.

Lemma loaded_replays prog argv w0 :
  (0 < length rec)%nat → alike (loaded (C := C) prog argv) w0 →
  replays rec rep (loaded prog argv) 0 w0 {[name rep 0 := ThreadRt_default]} TidMap_new None.
Proof.
  intros Hlt Ha. pose proof (loaded_numbered rec prog argv Hlt) as Hn. unfold loaded in *.
  destruct (code_load prog argv) as [lc sh]. constructor; try done.
  - intros i x. cbn [l_threads]. intros [<- <-]%lookup_singleton_Some. by rewrite lookup_singleton_eq.
  - right. split; [done|]. intros i [x Hx]. cbn [l_threads] in Hx. by apply lookup_singleton_Some in Hx as [<- _].
  - by right.
  - intros i x. cbn [l_threads]. by intros [<- <-]%lookup_singleton_Some.
Qed.

(** The replay of an execution's log. *)
Lemma execution_replayed cmd es code (sh : shared E) (v : procs U E) m n :
  code_wf (C := C) → executes rec (program cmd) (args cmd) es code sh →
  ∃ s0 v', launch (Ok (Some cmd, Ok (number 0 es))) v = (Ok s0, v') ∧ ss_records s0 = number 0 es ∧
    ∃ s1, run_to_end (length es + m) (S n) s0 = (Ok (Some (OutExited code)), s1) ∧
      ss_cursor s1 = length es ∧ w_shared (ss_world s1) = sh.
Proof.
  intros Hwf Hex. pose proof (executes_multithreaded _ _ _ _ _ _ Hex) as Hmt.
  destruct Hex as (Hlt & es0 & st & lc & nr & av & ts & -> & Hts & Hrun & Hst & Hd & -> & ->).
  destruct (launch_threads cmd _ v ltac:(lia) Hmt) as (w0 & Hl & Ha). do 2 eexists. split; [exact Hl|]. split; [done|].
  pose proof (loaded_replays _ _ _ Hlt Ha) as H0. rewrite length_app, <- Nat.add_assoc. cbn [length Nat.add].
  destruct (run_replayed rec rep Hrec Hrep Hmany cmd (number 0 (es0 ++ [death_event rec ts 0])) n _ _ _ _ _ _ _ _
    Hwf Hrun H0 [death_event rec ts 0] eq_refl (S m)) as (w1 & cs & lr & rt & tm & ex & Hm & H1).
  destruct (leader_replayed rec rep Hrep Hmany cmd _ n m _ _ _ _ _ ts _ _ cs lr _ _ _ H1 Hst Hd
    (number_lookup es0 0 (death_event rec ts 0) [])) as (s1 & Hend & Hcur & _ & Hsh).
  exists s1. split; [|split; [by rewrite Hcur, Nat.add_1_r|done]]. rewrite <- Hend, <- Hm. reflexivity.
Qed.
End Whole.

(** ** Properties *)

(** C2. Record, then replay, with threads.  Take any program of several threads
    whose code and whose other system calls are deterministic when one thread
    runs at a time, and which asks no [recvfrom] for the sender.  A thread the
    timer stops may be anywhere in its code, but has written no memory since its
    last call, and goes on as it would from there; calls do not wait for other
    threads; the leader dies last; no signal comes but the recorder's own stops.
    Run it under the recorder whenever the alarms come, in whatever order stops
    are reported and whatever the outside world answers, in results and writes
    as the kernel documents them; and let the recording complete into a file
    that takes every write.  That file reads back; launching the replay
    from it, where the threads get other pids, and running to the end reports
    the same exit code, has consumed every record, and leaves the memory and the
    process's kernel-side state exactly as the recorded run left them. *)
Theorem threads_record_then_replay {U E} `{Code U E} (rec rep : list Z) `{Unwind (procs U E)}
    (crc32 : list byte → Z) (c : Cmdline) (fuel : nat) (w w' : procs U E) (file0 file : sink) (o : RecordOutcome) (code : Z) :
  (∀ bs, in_u 32 (crc32 bs)) → cmdline_fits c →
  BASE_HEADER_LEN + blen (encode_cmdline (program c) (args c)) < 2 ^ 16 →
  pids_ok rec → pids_ok rep → (length rec ≤ length rep)%nat → code_wf → Forall input_wf (w_inputs w) →
  record_command (H := threads_kernel rec) crc32 (program c) (args c) fuel (w, file0) = (Ok (Some o), (w', file)) →
  accepts_all file0 → exit_code o = Some code → 1 < threads_followed o →
  ∀ src v fuel' steps, only_chunks src = true → src_data src = snk_data file →
    events_recorded o ≤ Z.of_nat fuel' → (0 < steps)%nat →
  ∃ r s0 v' s1, open src = Ok r ∧
    launch (H := threads_kernel rep) (Ok (r_cmdline r, collect crc32 (collect_fuel r) r)) v = (Ok s0, v') ∧
    run_to_end (H := threads_kernel rep) fuel' steps s0 = (Ok (Some (OutExited code)), s1) ∧
    drop (ss_cursor s1) (ss_records s0) = [] ∧ w_shared (ss_world s1) = w_shared w'.
Proof.
  intros Hcrc Hc Hlen Hrec Hrep Hmany Hwf Hin Hx Hh Hcode Hthreads src v fuel' steps Hsrc Hdata Hf Hsteps.
  destruct (record_command_threads rec Hrec _ _ _ _ _ _ _ _ _ Hwf Hc Hlen Hin Hx Hh Hcode Hthreads)
    as (es & Hd & Hex & Hn & Hb).
  rewrite Hd in Hdata. destruct (read_back crc32 c es src Hcrc Hc Hlen (executes_fits _ Hrec _ _ _ _ _ Hwf Hex) Hb Hsrc Hdata)
    as (r & Ho & _ & Hrc & Hcol). destruct steps as [|n]; [lia|].
  rewrite Hn in Hf. unfold blen in Hf. replace fuel' with (length es + (fuel' - length es))%nat by lia.
  destruct (execution_replayed rec rep Hrec Hrep Hmany c es code _ v (fuel' - length es) n Hwf Hex)
    as (s0 & v' & Hl & Hrecs & s1 & Hrun & Hcur & Hsh).
  exists r, s0, v', s1. rewrite Hrc, Hcol, Hrecs, Hcur. split; [done|]. split; [done|]. split; [done|]. split; [|done].
  apply length_zero_iff_nil. rewrite length_drop, number_length. lia.
Qed.

(** ** Witnesses *)

(** A leader that draws four random bytes, starts a thread, yields until that
    thread is dead, and exits with what it wrote; the thread copies the first
    random byte, makes a call, and exits.  Before each of its calls a thread
    counts down from five: which one it is, the calls made, the count. *)
Definition duo_run (lc : local (bool * nat * nat)) (m : memory) : local (bool * nat * nat) * memory * (Z * list Z) :=
  let '(child, pc, _) := lc_user lc in
  let next := MkLocal (child, S pc, 5%nat) (lc_rax lc) in
  match child, pc with
  | false, 0%nat => (next, m, (SYS_getrandom, [0x1000; 4; 0; 0; 0; 0]))
  | false, 1%nat => (next, m, (SYS_clone, [0; 0; 0; 0x3000; 0; 0]))
  | false, _ => if bool_decide (m 0x3000 = x01) then (next, m, (SYS_exit_group, [Z_of_byte (m 0x2000); 0; 0; 0; 0; 0]))
                else (MkLocal (child, pc, 5%nat) (lc_rax lc), m, (24, [0; 0; 0; 0; 0; 0]))
  | true, 0%nat => (next, poke m 0x2000 [m 0x1000], (39, [0; 0; 0; 0; 0; 0]))
  | true, _ => (next, m, (SYS_exit, [0; 0; 0; 0; 0; 0]))
  end.
Definition duo_step (lc : local (bool * nat * nat)) (_ : memory) : local (bool * nat * nat) :=
  let '(child, pc, count) := lc_user lc in MkLocal (child, pc, pred count) (lc_rax lc).

#[local] Instance duo : Code (bool * nat * nat) Z := {|
  code_run := duo_run;
  code_step := duo_step;
  code_call i nr argv lc sh := (MkLocal (lc_user lc) (as_u 64 (Z.of_nat i)), MkShared (sh_mem sh) (sh_env sh + 1));
  code_clone child argv lc m := (MkLocal (true, 0%nat, 5%nat) 0, m);
  code_bury i sh := if decide (i = 0%nat) then sh else MkShared (poke (sh_mem sh) 0x3000 [x01]) (sh_env sh);
  code_load _ _ := (MkLocal (false, 0%nat, 5%nat) 0, MkShared (λ _, x00) 0);
|}.

Definition duo_world (ins : list input) (cs : list choice) : procs (bool * nat * nat) Z :=
  MkProcs (MkShared (λ _, x00) 0) ∅ 0 ins cs 0.
Definition duo_inputs : list input := [mkInput 4 [x2a; x17; x99; x03] []].
(** The child's first stop before its creation; alarms, one part of the way, one
    with the thread's own stop first. *)
Definition duo_choices : list choice :=
  [Next; Next; Next; Alarm 2; Next; Next; ChildEarly; Alarm 0; Late; Next; Next].

#[local] Instance duo_unwind : Unwind (procs (bool * nat * nat) Z) := {|
  unwinder_for_pid _ := p_ok tt; unwinder_registers _ := p_ok 0; unwinder_backtrace _ _ := p_ok [] |}.

Lemma duo_wf : code_wf (C := duo).
Proof.
  split.
  - intros [[[child pc] count] rx] m lc' m' nr argv. cbn [code_run duo]. unfold duo_run. cbn [lc_user lc_rax].
    destruct child, pc as [|[|pc]]; try case_bool_decide; intros [= _ _ <- <-];
      (split; [by split|split; [done|split; [|done]]]); repeat constructor; try done.
    all: pose proof (Z_of_byte_range (m 0x2000)); unfold in_u; lia.
  - by intros [[[child pc] count] rx] m m'.
Qed.

#[local] Abbreviation duo_recording :=
  (record_command (H := threads_kernel [100; 105]) crc32_ieee (program sample_cmdline) (args sample_cmdline) 40
    (duo_world duo_inputs duo_choices, Sink [] [])).

(** Recorded as threads 100 and 105, replayed as 203 and 200, with no randomness
    and no alarm. *)
Lemma threads_record_then_replay_witness :
  ∃ w' file r s0 v' s1,
    duo_recording = (Ok (Some (mkOutcome (Some 42) 21 2)), (w', file)) ∧
    open (Source (snk_data file) []) = Ok r ∧
    launch (H := threads_kernel [203; 200]) (Ok (r_cmdline r, collect crc32_ieee (collect_fuel r) r)) (duo_world [] [])
      = (Ok s0, v') ∧
    run_to_end (H := threads_kernel [203; 200]) 21 1 s0 = (Ok (Some (OutExited 42)), s1) ∧
    w_shared (ss_world s1) = w_shared w'.
Proof.
  assert (Hok : duo_recording.1 = Ok (Some (mkOutcome (Some 42) 21 2))) by (vm_compute; reflexivity).
  destruct duo_recording as [res [w' file]] eqn:Hr. cbn [fst] in Hok. subst res.
  destruct (threads_record_then_replay [100; 105] [203; 200] crc32_ieee sample_cmdline 40 (duo_world duo_inputs duo_choices)
    w' (Sink [] []) file (mkOutcome (Some 42) 21 2) 42 crc32_ieee_range sample_cmdline_fits
    ltac:(reflexivity) ltac:(split; [apply (bool_decide_unpack _); exact I|repeat constructor])
    ltac:(split; [apply (bool_decide_unpack _); exact I|repeat constructor]) ltac:(cbn; lia)
    duo_wf ltac:(repeat constructor; done) Hr (Forall_nil_2 _) eq_refl ltac:(reflexivity)
    (Source (snk_data file) []) (duo_world [] []) 21 1 eq_refl eq_refl ltac:(cbn; lia) ltac:(lia))
    as (r & s0 & v' & s1 & H1 & H2 & H3 & _ & H5).
  exists w', file, r, s0, v', s1. split; [reflexivity|]. split; [exact H1|]. split; [exact H2|].
  split; [exact H3|exact H5].
Defined.
