(* ===== verification/Navigate.v ===== *)
(** * Moving about a replay

    The public moves of a session and what holds after any successful sequence
    of them; and whether the schedule a recording wrote is one the replay can
    enforce. *)

From S2P Require Import Prelude StdIo TraceFormat Crc32 TraceLog Payload Ptrace Capture Discipline Sched.
From S2P Require Import ToyKernel SchedLog Recording Watchpoint Schedule Replay Session Mt Follow Machine.
From S2P Require Import Solo EndToEnd.

Section Navigate.
Context {W : Type} {KW : Kernel W} {UW : Unwind W}.
#[local] Abbreviation Ses := (ReplaySession W).
#[local] Abbreviation M := (stm Ses ReplayError).

(** ** Moves *)

Inductive move :=
| MWatch (addr len : Z) (k : WatchKind)
| MClearWatch
| MTakeHits
| MInterval (n : Z)
| MRestoreTo (target : Z)
| MRunTo (target : Z)
| MStepTo (target : Z)
| MRunToEnd.

Definition move_wf (mv : move) : Prop := match mv with MInterval n => in_u 64 n | _ => True end.

(** The move, and whether the fuel lasted. *)
Definition perform (fuel steps : nat) (mv : move) : M bool :=
  match mv with
  | MWatch addr len k => watch addr len k;; mret true
  | MClearWatch => clear_watch;; mret true
  | MTakeHits => take_watch_hits;; mret true
  | MInterval n => set_interval n;; mret true
  | MRestoreTo target => restore_to target;; mret true
  | MRunTo target => o ← run_to fuel steps target; mret (bool_decide (is_Some o))
  | MStepTo target => o ← step_to fuel steps target; mret (bool_decide (is_Some o))
  | MRunToEnd => o ← run_to_end fuel steps; mret (bool_decide (is_Some o))
  end.

(** The sessions a client has in hand: launched on a trace, then moved without
    an error. *)
Inductive reachable (recs : list LogRecord) : Ses → Prop :=
| reach_launch cmd v s v' :
    launch (Ok (Some cmd, Ok recs)) v = (Ok s, v') → reachable recs s
| reach_move fuel steps mv s s' :
    reachable recs s → move_wf mv → perform fuel steps mv s = (Ok true, s') → reachable recs s'.

(** ** Lemmas *)

Lemma launch_ok cmd recs (v : W) s v' :
  records_wf recs → launch (Ok (Some cmd, Ok recs)) v = (Ok s, v') →
  session_ok s ∧ ss_records s = recs ∧ ss_mt s = None ∧ ss_finished s = None ∧ ss_cursor s = 0%nat ∧
  ss_multithreaded s = trace_is_multithreaded recs.
Proof.
  intros Hr Hx. unfold launch in Hx. st_inv. simplify_eq/=. split; [|done].
  split; try done; cbn.
  intros _. apply solo_log_nil.
Qed.

Lemma drive_ended fuel steps stop_at (s : Ses) o s' :
  session_ok s → drive fuel steps stop_at s = (Ok (Some o), s') →
  session_ok s' ∧ ss_records s' = ss_records s ∧ ss_multithreaded s' = ss_multithreaded s ∧
  (o = OutRunning → reached stop_at s' = true ∧ lands stop_at s s') ∧
  ss_finished s' = if decide (o = OutRunning) then None else Some o.
Proof.
  intros Hok Hx. unfold drive in Hx. rewrite bind_gets in Hx. destruct (ss_finished s) as [out|] eqn:Hf.
  { injection Hx as -> <-. assert (Ho : o ≠ OutRunning) by (intros ->; by apply (ok_finished s Hok)).
    split; [done|]. split; [done|]. split; [done|]. split; [done|]. by rewrite decide_False. }
  rewrite bind_gets in Hx.
  destruct (ss_multithreaded s) eqn:Hm.
  - unfold mt_drive in Hx. st_inv.
    match goal with He : ensure_state _ = _ |- _ => apply ensure_state_ok in He as (H1 & H2 & H3 & H4) end; [|done..].
    apply mt_drive_loop_ended in Hx as [(E1 & E2 & E3 & E4) _]; [|done..].
    split; [done|]. split; [rewrite E2; apply H3|]. split; [congruence|]. destruct (decide (o = OutRunning)) as [->|Ho].
    + destruct E4 as (Hr & Hl & Hfin). split; [|congruence]. split; [done|]. unfold lands in *.
      by rewrite (moved_consumed _ _ _ H3), app_nil_r in Hl.
    + split; [done|]. by destruct o.
  - apply drive_loop_ended in Hx as (E1 & E2 & E3 & E4); [|done..].
    split; [done|]. split; [done|]. split; [congruence|]. destruct (decide (o = OutRunning)) as [->|Ho].
    + destruct E4 as (Hr & Hl & Hfin). split; [done|congruence].
    + split; [done|]. by destruct o.
Qed.

Lemma restore_to_ok target (s : Ses) u s' :
  session_ok s → restore_to target s = (Ok u, s') →
  session_ok s' ∧ ss_records s' = ss_records s ∧ ss_multithreaded s' = ss_multithreaded s ∧
  ss_finished s' = None ∧ ∀ c, ss_current_seq s' = Some c → c ≤ target.
Proof.
  intros Hok Hx. unfold restore_to, plan_start in Hx. st_inv.
  pose proof (nearest_last (cp_seq <$> ss_checkpoints s) target) as Hn.
  destruct (nearest_at_or_before _ target) as [i|]; st_inv.
  - destruct Hn as (x & Hi & Hle & _). rewrite list_lookup_fmap in Hi.
    destruct (ss_checkpoints s !! i) as [cp|] eqn:Hcp; [|done]. injection Hi as <-.
    assert (Hm : ss_multithreaded s = false).
    { destruct (ss_multithreaded s) eqn:Hm; [|done]. destruct (ok_multi s Hok Hm) as [Hnil _].
      by rewrite Hnil in Hcp. }
    cbn [start_index] in Hx.
    destruct (restore_checkpoint_ok _ _ _ _ _ Hok Hm Hcp Hx) as (H1 & H2 & H3 & H4 & H5).
    split; [done|]. split; [done|]. split; [congruence|]. split; [done|]. intros c. rewrite H4. by intros [= <-].
  - destruct (respawn_ok _ _ _ Hok Hx) as (H1 & H2 & H3 & _ & H5 & H6).
    split; [done|]. split; [done|]. split; [done|]. split; [done|]. intros c. by rewrite H5.
Qed.

(** Where [run_to] starts driving from. *)
Lemma run_to_starts fuel steps target (s : Ses) r s' :
  session_ok s → run_to fuel steps target s = (Ok r, s') →
  ∃ s1, session_ok s1 ∧ ss_records s1 = ss_records s ∧ ss_multithreaded s1 = ss_multithreaded s ∧
    (∀ c, ss_current_seq s1 = Some c → c ≤ target) ∧ drive fuel steps (Some target) s1 = (Ok r, s').
Proof.
  intros Hok Hx. unfold run_to in Hx. st_inv.
  match goal with Hp : plan_start target s = (Ok ?st, ?x) |- _ => rename st into start; rename Hp into Hplan;
    assert (x = s) as -> by (unfold plan_start in Hplan; st_inv; destruct (nearest_at_or_before _ _); st_inv; done) end.
  destruct (should_restart (ss_current_seq s) (start_seq start) target) eqn:Hre; cbn [st_when] in *; st_inv.
  - match goal with Hr : match start_index start with _ => _ end s = (Ok ?u, ?x) |- _ =>
      assert (Hto : restore_to target s = (Ok u, x)) by (unfold restore_to; by rewrite (bind_run _ _ _ _ _ Hplan));
      rename x into s1 end.
    apply restore_to_ok in Hto as (H1 & H2 & H3 & H4 & H5); [|done]. by exists s1.
  - exists s. split; [done|]. split; [done|]. split; [done|]. split; [|done]. intros c Hc. rewrite Hc in Hre.
    cbn in Hre. apply orb_false_iff in Hre as [Hre _]. by apply Z.ltb_ge in Hre.
Qed.

Lemma ok_interval_set n (s : Ses) u s' :
  in_u 64 n → session_ok s → set_interval n s = (Ok u, s') →
  session_ok s' ∧ ss_records s' = ss_records s ∧ ss_multithreaded s' = ss_multithreaded s.
Proof. intros Hn [O1 O2 O3 O4 O5 O6 O7 O8] [= _ <-]. done. Qed.

Lemma core_move (m : M unit) (s : Ses) u s' :
  keeps core m → session_ok s → m s = (Ok u, s') →
  session_ok s' ∧ ss_records s' = ss_records s ∧ ss_multithreaded s' = ss_multithreaded s.
Proof.
  intros Hk Hok Hc%(keeps_run core); [|done]. split; [by eapply ok_core|].
  by apply core_fields in Hc as (_ & ? & _ & _ & _ & ? & _).
Qed.

Lemma perform_ok fuel steps mv (s s' : Ses) :
  session_ok s → move_wf mv → perform fuel steps mv s = (Ok true, s') →
  session_ok s' ∧ ss_records s' = ss_records s ∧ ss_multithreaded s' = ss_multithreaded s.
Proof.
  intros Hok Hwf Hx. destruct mv; cbn in Hx; st_inv.
  - by eapply core_move; [apply core_watch|..].
  - by eapply core_move; [apply core_clear_watch|..].
  - match goal with Ht : take_watch_hits _ = _ |- _ => apply (keeps_run core) in Ht; [|apply core_take_hits];
      rename Ht into Hc end.
    split; [by eapply ok_core|]. by apply core_fields in Hc as (_ & ? & _ & _ & _ & ? & _).
  - by eapply ok_interval_set.
  - match goal with Hr : restore_to _ _ = _ |- _ => by apply restore_to_ok in Hr as (? & ? & ? & _) end.
  - destruct a as [o|]; [|done].
    match goal with Hr : run_to _ _ _ _ = _ |- _ => apply run_to_starts in Hr as (s1 & H1 & H2 & H3 & _ & Hd) end; [|done].
    apply drive_ended in Hd as (D1 & D2 & D3 & _); [|done]. split; [done|split; congruence].
  - destruct a as [o|]; [|done].
    match goal with Hr : step_to _ _ _ _ = _ |- _ => by apply drive_ended in Hr as (? & ? & ? & _) end.
  - destruct a as [o|]; [|done].
    match goal with Hr : run_to_end _ _ _ = _ |- _ => by apply drive_ended in Hr as (? & ? & ? & _) end.
Qed.

Lemma reachable_ok recs (s : Ses) :
  records_wf recs → reachable recs s →
  session_ok s ∧ ss_records s = recs ∧ ss_multithreaded s = trace_is_multithreaded recs.
Proof.
  intros Hr. induction 1 as [cmd v s v' Hl|fuel steps mv s s' _ (H1 & H2 & H3) Hwf Hp].
  - by apply launch_ok in Hl as (? & ? & _ & _ & _ & ?).
  - destruct (perform_ok _ _ _ _ _ H1 Hwf Hp) as (? & ? & ?). split; [done|split; congruence].
Qed.

Lemma drive_lands fuel steps target (s s' : Ses) :
  session_ok s → (∀ c, ss_current_seq s = Some c → c ≤ target) →
  drive fuel steps (Some target) s = (Ok (Some OutRunning), s') →
  ∃ c r, consumed s' = c ++ [r] ∧ ss_current_seq s' = Some (seq r) ∧ target ≤ seq r ∧
    Forall (λ x, seq x < target) c.
Proof.
  intros Hok Hle Hx. apply drive_ended in Hx as (Hok' & _ & _ & Hl & _); [|done].
  destruct (Hl eq_refl) as [Hre Hland]. unfold reached in Hre.
  destruct (ss_current_seq s') as [q|] eqn:Hq; [|done]. apply Z.leb_le in Hre.
  pose proof (ok_seq s' Hok') as Hs. rewrite Hq in Hs.
  unfold lands in Hland. remember (consumed s') as l eqn:Hcons.
  destruct l as [|r c _] using rev_ind; [done|]. rewrite last_snoc in Hs. injection Hs as ->.
  exists c, r. split; [done|]. split; [done|]. split; [done|].
  destruct Hland as [Hsame|(c' & r' & [-> ->]%app_inj_tail & Hlow)]; [|by apply Hlow].
  pose proof (consumed_ascending s Hok) as Ha. rewrite <- Hsame in Ha. apply ascending_last in Ha.
  assert (seq r ≤ target).
  { apply Hle. rewrite (ok_seq s Hok), <- Hsame, last_snoc. done. }
  eapply Forall_impl; [exact Ha|]. cbn. lia.
Qed.

Lemma mt_end_schedule recs fuel steps (s s' : Ses) o :
  records_wf recs → trace_is_multithreaded recs = true → reachable recs s → ss_finished s = None →
  run_to_end fuel steps s = (Ok (Some o), s') →
  o ≠ OutRunning ∧ session_ok s' ∧ ss_records s' = recs ∧ leader_gone s' ∧
  is_Some (schedule_run (consumed s')) ∧ ss_finished s' = Some o.
Proof.
  intros Hr Hmt Hs Hf Hx. destruct (reachable_ok _ _ Hr Hs) as (Hok & Hrec & Hm). rewrite Hmt in Hm.
  unfold run_to_end, drive in Hx. st_inv. rewrite Hf in Hx. st_inv. rewrite Hm in Hx.
  unfold mt_drive in Hx. st_inv.
  match goal with He : ensure_state _ = _ |- _ => apply ensure_state_ok in He as (H1 & H2 & H3 & H4) end; [|done..].
  apply mt_drive_loop_ended in Hx as [(E1 & E2 & E3 & E4) Hl]; [|done..].
  assert (Ho : o ≠ OutRunning) by (intros ->; destruct E4 as [Hre _]; done).
  specialize (Hl Ho). split; [done|]. split; [done|]. split; [rewrite E2, <- Hrec; apply H3|]. split; [done|].
  split; [|by destruct o].
  destruct (ok_multi s' E1 ltac:(congruence)) as [_ Hsch]. destruct (ss_mt s'); [by eauto|].
  destruct Hl as (r & Hl & _). by rewrite Hsch in Hl.
Qed.

(** ** Properties *)

(** C8. The position of a replay is always exact.  After any successful
    sequence of public moves on a launched session, over any kernel: the
    current sequence number is that of the last record consumed; a
    single-threaded replay has consumed an alternation of syscall entries and
    exits (with signals between), and is inside a call exactly when the last
    entry has no exit; a schedule-enforced one has consumed records each made
    by the thread the last switch named; every checkpoint is a position of the
    same kind, between two calls, and they are listed in order of sequence
    number. *)
Theorem session_position (recs : list LogRecord) (s : Ses) :
  records_wf recs → reachable recs s →
  ss_records s = recs ∧ ss_current_seq s = seq <$> last (consumed s) ∧
  (trace_is_multithreaded recs = false → solo_log false (consumed s) (in_call s)) ∧
  (trace_is_multithreaded recs = true → ss_checkpoints s = [] ∧
    match ss_mt s with
    | Some m => schedule_run (consumed s) = Some (mt_expected m)
    | None => consumed s = []
    end) ∧
  Forall (checkpoint_ok recs) (ss_checkpoints s) ∧ nondecreasing (cp_seq <$> ss_checkpoints s).
Proof.
  intros Hr Hs. destruct (reachable_ok _ _ Hr Hs) as ([O1 O2 O3 O4 O5 O6 O7 O8] & Hrec & Hm).
  rewrite <- Hm, <- Hrec. by split_and!.
Qed.

(** C5. [run_to] is exact: from any session in hand, forwards or backwards,
    with or without checkpoints, single- or multi-threaded, if it reports that
    the program is still running then the last record consumed is the first
    one at or past the target. *)
Theorem run_to_lands (recs : list LogRecord) (s s' : Ses) (fuel steps : nat) (target : Z) :
  records_wf recs → reachable recs s →
  run_to fuel steps target s = (Ok (Some OutRunning), s') →
  ∃ c r, consumed s' = c ++ [r] ∧ ss_current_seq s' = Some (seq r) ∧ target ≤ seq r ∧
    Forall (λ x, seq x < target) c.
Proof.
  intros Hr Hs Hx. destruct (reachable_ok _ _ Hr Hs) as (Hok & _ & _).
  apply run_to_starts in Hx as (s1 & H1 & _ & _ & Hle & Hd); [|done].
  exact (drive_lands _ _ _ _ _ H1 Hle Hd).
Qed.

(** C7. A schedule-enforced replay that ends has followed the recording: the
    records it consumed are a prefix of the trace's, each made by the thread
    its schedule names, and the last is the exit of a thread. *)
Theorem replay_follows_schedule (recs : list LogRecord) (fuel steps : nat) (s s' : Ses) (o : ExitOutcome) :
  records_wf recs → trace_is_multithreaded recs = true → reachable recs s → ss_finished s = None →
  run_to_end fuel steps s = (Ok (Some o), s') →
  ∃ k r, consumed s' = real_records (take k recs) ∧ is_Some (schedule_run (real_records (take k recs))) ∧
    last (real_records (take k recs)) = Some r ∧ kind (event r) = EvThreadExit ∧ ss_finished s' = Some o.
Proof.
  intros Hr Hmt Hs Hf Hx. destruct (mt_end_schedule _ _ _ _ _ _ Hr Hmt Hs Hf Hx) as (Ho & Hok & <- & (r & Hl & Hk) & Hsch & Hfin).
  by exists (ss_cursor s'), r.
Qed.

End Navigate.

(** ** The recorded schedule, as the replay enforces it *)

(** Every thread's exit is recorded while that thread is the scheduled one. *)
Fixpoint own_exits (st : discipline_state) (es : list Event) : bool :=
  match es with
  | [] => true
  | e :: es =>
      (if bool_decide (kind e = EvThreadExit) then bool_decide (tid e = Some (owner st)) else true) &&
      match disc_step st e with Some st' => own_exits st' es | None => true end
  end.

Lemma disc_step_tid st e st' : disc_step st e = Some st' → ∃ t, tid e = Some t.
Proof. unfold disc_step. destruct (tid e) as [t|]; [eauto|done]. Qed.

(** One disciplined record, seen by the replay. *)
Lemma schedule_step_disc st e st' sq x :
  disc_step st e = Some st' → x = None ∨ x = Some (owner st) →
  (kind e = EvThreadExit → x = Some (owner st)) →
  schedule_step x (mkRecord sq (as_written e)) =
    if bool_decide (kind e = EvThreadExit) && negb (bool_decide (tid e = Some (owner st))) then None
    else Some (Some (owner st')).
Proof.
  intros Hd Hx Hex. destruct (disc_step_tid _ _ _ Hd) as [t Ht]. unfold disc_step in Hd. rewrite Ht in Hd.
  unfold schedule_step. cbn [event as_written kind tid payload]. rewrite Ht. cbn in Hd |- *.
  assert (Hown : t = owner st → owner st' = owner st → match x with
    | Some e0 => if e0 =? t then Some (Some e0) else None | None => Some (Some t) end = Some (Some (owner st'))).
  { intros -> ->. destruct Hx as [-> | ->]; [done|]. by rewrite Z.eqb_refl. }
  destruct (kind e) eqn:Hk; try done;
    try (rewrite (bool_decide_eq_false_2 (_ = EvThreadExit)) by done; cbn [andb]).
  - destruct (Z.eqb_spec t (owner st)) as [Ho|]; [|done]. destruct (bool_decide _); [|done].
    injection Hd as <-. by apply Hown.
  - destruct (Z.eqb_spec t (owner st)) as [Ho|]; [|done]. destruct (bool_decide _); [|done].
    injection Hd as <-. by apply Hown.
  - destruct (SchedSwitch_decode (payload e)) as [y| |]; try done.
    destruct (Z.eqb_spec (switch_tid y) t) as [<-|]; [|done]. by injection Hd as <-.
  - destruct (SignalDelivery_decode _); try done. destruct (Z.eqb_spec t (owner st)); [|done].
    injection Hd as <-. by apply Hown.
  - destruct (ThreadSpawn_decode _) as [y| |]; try done. destruct (Z.eqb_spec t (owner st)); [|done].
    destruct (_ =? _); [|done]. injection Hd as <-. by apply Hown.
  - destruct (ThreadExit_decode _) as [y| |]; try done. destruct (_ =? _); [|done]. injection Hd as <-.
    rewrite bool_decide_eq_true_2, (Hex eq_refl) by done. cbn [andb owner].
    destruct (Z.eqb_spec (owner st) t) as [<-|Hne].
    + by rewrite bool_decide_eq_true_2.
    + rewrite bool_decide_eq_false_2 by congruence. done.
Qed.

Lemma disc_not_checkpoint st e st' : disc_step st e = Some st' → kind e ≠ EvCheckpoint.
Proof. unfold disc_step. destruct (tid e); [|done]. cbn. by destruct (kind e). Qed.

Lemma schedule_fold_none l : foldl (λ acc r, e ← acc; schedule_step e r) None l = None.
Proof. by induction l. Qed.

Lemma disc_schedule es : ∀ st st' sq x,
  discipline st es = Some st' → x = None ∨ x = Some (owner st) →
  (∀ e, head es = Some e → kind e = EvThreadExit → x = Some (owner st)) →
  bool_decide (is_Some (foldl (λ acc r, e ← acc; schedule_step e r) (Some x) (number sq es))) = own_exits st es.
Proof.
  induction es as [|e es IH]; intros st st' sq x Hd Hx Hex; [done|].
  cbn in Hd. destruct (disc_step st e) as [st1|] eqn:Hst; [|done]. cbn in Hd.
  cbn [number foldl own_exits]. rewrite Hst. cbn [mbind option_bind].
  rewrite (schedule_step_disc st e st1 sq x Hst Hx) by (intros He; by apply (Hex e)).
  destruct (bool_decide (kind e = EvThreadExit)) eqn:Hk; cbn [andb];
    [destruct (bool_decide (tid e = Some (owner st))) eqn:Ht; cbn [andb negb]|].
  - apply (IH st1 st'); [done|by right|done].
  - by rewrite schedule_fold_none.
  - apply (IH st1 st'); [done|by right|done].
Qed.

Lemma real_all l : Forall (λ r, kind (event r) ≠ EvCheckpoint) l → real_records l = l.
Proof.
  induction 1 as [|r l Hr _ IH]; [done|]. unfold real_records in *. rewrite filter_cons_True by done. congruence.
Qed.

Lemma disc_real es : ∀ st st' sq, discipline st es = Some st' → real_records (number sq es) = number sq es.
Proof.
  induction es as [|e es IH]; intros st st' sq Hd; [done|]. cbn in Hd.
  destruct (disc_step st e) as [st1|] eqn:Hst; [|done]. unfold real_records in *. cbn [number].
  rewrite filter_cons_True by (cbn; by eapply disc_not_checkpoint). f_equal. by eapply IH.
Qed.

(** The first thread that dies while another is scheduled, as the replay's
    schedule meets it. *)
Lemma own_exits_fails es : ∀ st st' sq x,
  discipline st es = Some st' → x = None ∨ x = Some (owner st) →
  (∀ e, head es = Some e → kind e = EvThreadExit → x = Some (owner st)) →
  own_exits st es = false →
  ∃ i r o y, number sq es !! i = Some r ∧ kind (event r) = EvThreadExit ∧ tid (event r) = Some y ∧ o ≠ y ∧
    foldl (λ acc r, e ← acc; schedule_step e r) (Some x) (take i (number sq es)) = Some (Some o).
Proof.
  induction es as [|e es IH]; intros st st' sq x Hd Hx Hex Ho; [done|].
  cbn in Hd. destruct (disc_step st e) as [st1|] eqn:Hst; [|done]. cbn in Hd.
  cbn [own_exits] in Ho. rewrite Hst in Ho.
  pose proof (schedule_step_disc st e st1 sq x Hst Hx ltac:(intros He; by apply (Hex e))) as Hstep.
  destruct (bool_decide (kind e = EvThreadExit) && negb (bool_decide (tid e = Some (owner st)))) eqn:Hbad.
  - apply andb_true_iff in Hbad as [Hk%bool_decide_eq_true Ht%negb_true_iff%bool_decide_eq_false].
    destruct (disc_step_tid _ _ _ Hst) as [t He].
    exists 0%nat, (mkRecord sq (as_written e)), (owner st), t. cbn. split; [done|]. split; [done|].
    split; [by rewrite He|]. split; [congruence|]. by rewrite (Hex e eq_refl Hk).
  - assert (Hrest : own_exits st1 es = false).
    { destruct (bool_decide (kind e = EvThreadExit)); [|exact Ho]. cbn in Hbad.
      destruct (bool_decide (tid e = Some (owner st))); [exact Ho|done]. }
    destruct (IH st1 st' (sq + 1) (Some (owner st1)) Hd (or_intror eq_refl) (λ _ _ _, eq_refl) Hrest)
      as (i & r & o & y & H1 & H2 & H3 & H4 & H5).
    exists (S i), r, o, y. split; [exact H1|]. split; [done|]. split; [done|]. split; [done|].
    cbn [number take foldl mbind option_bind]. rewrite Hstep. exact H5.
Qed.

(** ** The code that enforces the schedule *)

Section Enforce.
Context {W : Type} `{Kernel W} `{!Unwind W}.
#[local] Abbreviation Ses := (ReplaySession W).
#[local] Abbreviation M := (stm Ses ReplayError).

(** What the driver does to the schedule on each record of a trace, the live
    threads aside: a switch sets the scheduled thread, any other record is
    checked against it. *)
Definition enforce_record (r : LogRecord) : M unit :=
  match kind (event r) with
  | EvSchedSwitch => on_sched_switch r
  | _ => enforce_tid r;; advance (seq r)
  end.

Fixpoint enforce_all (l : list LogRecord) : M unit :=
  match l with
  | [] => mret tt
  | r :: l => enforce_record r;; enforce_all l
  end.

Lemma enforce_tid_run r y (s : Ses) m :
  tid (event r) = Some y → ss_mt s = Some m →
  enforce_tid r s = match mt_expected m with
    | None => (Ok y, set_mt (Some (with_expected (Some y) m)) s)
    | Some x => if x =? y then (Ok y, s) else (Err (RScheduleDiverged (seq r) (WrongTid x y)), s)
    end.
Proof.
  intros Ht Hm. unfold enforce_tid, state, st_gets, st_lift, mbind, stm_bind. rewrite Ht. cbn. rewrite Hm. cbn.
  destruct (mt_expected m) as [x|]; [|done]. by destruct (x =? y).
Qed.

(** A record of a disciplined log. *)
Definition schedulable (r : LogRecord) : Prop := ∃ q st e st', disc_step st e = Some st' ∧ r = mkRecord q (as_written e).

Lemma disc_schedulable es : ∀ st st' sq, discipline st es = Some st' → Forall schedulable (number sq es).
Proof.
  induction es as [|e es IH]; intros st st' sq Hd; [constructor|]. cbn in Hd.
  destruct (disc_step st e) as [st1|] eqn:Hst; [|done]. constructor; [by exists sq, st, e, st1|by eapply IH].
Qed.

Lemma enforce_record_step r (s : Ses) m :
  schedulable r → ss_mt s = Some m →
  match schedule_step (mt_expected m) r with
  | Some x => ∃ s' m', enforce_record r s = (Ok tt, s') ∧ ss_mt s' = Some m' ∧ mt_expected m' = x
  | None => ∃ e, (enforce_record r s).1 = Err e
  end.
Proof.
  intros (q & st & e & st' & Hd & ->) Hm. destruct (disc_step_tid _ _ _ Hd) as [t Ht].
  set (r := mkRecord q (as_written e)). assert (Hrt : tid (event r) = Some t) by (cbn; by rewrite Ht).
  pose proof (enforce_tid_run r t s m Hrt Hm) as Hrun.
  assert (Hgen : match (match mt_expected m with None => Some (Some t)
      | Some e0 => if e0 =? t then Some (Some e0) else None end) with
    | Some x => ∃ s' m', (enforce_tid r;; advance (seq r)) s = (Ok tt, s') ∧ ss_mt s' = Some m' ∧ mt_expected m' = x
    | None => ∃ e, ((enforce_tid r;; advance (seq r)) s).1 = Err e
    end).
  { unfold mbind, stm_bind. rewrite Hrun. destruct (mt_expected m) as [x|] eqn:Hx.
    - destruct (x =? t); [|by eexists]. by do 2 eexists.
    - by do 2 eexists. }
  unfold enforce_record, schedule_step. rewrite Hrt. subst r. cbn [event as_written kind tid payload] in *.
  unfold disc_step in Hd. rewrite Ht in Hd. cbn in Hd.
  destruct (kind e); try done; try exact Hgen.
  destruct (SchedSwitch_decode (payload e)) as [y| |] eqn:Hy; [|done..].
  unfold on_sched_switch, state, st_gets, st_lift, mbind, stm_bind. cbn [event as_written payload]. rewrite Hy. cbn.
  rewrite Hm. cbn. by do 2 eexists.
Qed.

Lemma enforce_all_schedule l : ∀ (s : Ses) m,
  Forall schedulable l → ss_mt s = Some m →
  (∃ s', enforce_all l s = (Ok tt, s')) ↔
    is_Some (foldl (λ acc r, e ← acc; schedule_step e r) (Some (mt_expected m)) l).
Proof.
  induction l as [|r l IH]; intros s m Hl Hm.
  { cbn. split; [by eexists|by exists s]. }
  apply Forall_cons_iff in Hl as [Hr Hl]. pose proof (enforce_record_step r s m Hr Hm) as Hstep.
  cbn [enforce_all foldl mbind option_bind]. destruct (schedule_step (mt_expected m) r) as [x|].
  - destruct Hstep as (s1 & m1 & E & Hm1 & <-). unfold mbind, stm_bind. rewrite E. exact (IH s1 m1 Hl Hm1).
  - destruct Hstep as [e E]. rewrite schedule_fold_none. split; [|by intros [? ?]].
    intros [s' Hs']. unfold mbind, stm_bind in Hs'. by destruct (enforce_record r s) as [[]].
Qed.

(** Where a session that follows a schedule stands. *)
Lemma reachable_schedule recs (s : Ses) :
  records_wf recs → trace_is_multithreaded recs = true → real_records recs = recs → reachable recs s →
  (∃ x, schedule_run (take (ss_cursor s) recs) = Some x) ∧
  ∀ m, ss_mt s = Some m → schedule_run (take (ss_cursor s) recs) = Some (mt_expected m).
Proof.
  intros Hwf Hmt Hreal Hs. destruct (reachable_ok _ _ Hwf Hs) as (Hok & Hrec & Hm).
  destruct (ok_multi s Hok ltac:(congruence)) as [_ Hsch].
  assert (Hc : consumed s = take (ss_cursor s) recs).
  { unfold consumed. rewrite Hrec. apply real_all, Forall_take. rewrite <- Hreal. apply Forall_forall.
    intros r [Hk _]%list_elem_of_filter. exact Hk. }
  rewrite Hc in Hsch. destruct (ss_mt s) as [m|].
  - split; [by eexists|]. intros m' [= <-]. exact Hsch.
  - rewrite Hsch. split; [by eexists|done].
Qed.

Lemma schedule_take_none l i r o :
  l !! i = Some r → schedule_run (take i l) = Some o → schedule_step o r = None →
  ∀ n, (i < n)%nat → schedule_run (take n l) = None.
Proof.
  intros Hi Ho Hr n Hn. assert (Hs : schedule_run (take (S i) l) = None).
  { rewrite (take_S_r _ _ _ Hi). unfold schedule_run in *. by rewrite foldl_app, Ho. }
  replace n with (S i + (n - S i))%nat by lia. rewrite <- take_take_drop. unfold schedule_run in *.
  by rewrite foldl_app, Hs, schedule_fold_none.
Qed.

(** C11. The interface between recorder and replay.  Take any log that keeps
    the recorder's discipline and does not open with a thread's death.  The
    code that enforces the schedule ([enforce_tid], [on_sched_switch]) accepts
    the whole log exactly when every thread's exit was recorded while that
    thread was the scheduled one.  If it was, a session that replays the log,
    wherever successful moves took it, finds the next record to be of the
    scheduled thread.  If not, the first such death is a record no session
    gets past: one that stands at it reports that the scheduled thread was
    expected and the dead one found. *)
Theorem schedule_accepts_recording (t : Z) (es : list Event) (st : discipline_state) (sq : Z) (s : Ses) (m : MtState) :
  discipline (disc_start t) es = Some st → (∀ e, head es = Some e → kind e ≠ EvThreadExit) →
  ss_mt s = Some m → mt_expected m = None → records_wf (number sq es) →
  ((∃ s', enforce_all (number sq es) s = (Ok tt, s')) ↔ own_exits (disc_start t) es = true) ∧
  (own_exits (disc_start t) es = true → trace_is_multithreaded (number sq es) = true →
    ∀ (s1 : Ses) m1 r, reachable (number sq es) s1 → ss_mt s1 = Some m1 →
      number sq es !! ss_cursor s1 = Some r → kind (event r) ≠ EvSchedSwitch →
      ∃ y s2, tid (event r) = Some y ∧ enforce_tid r s1 = (Ok y, s2)) ∧
  (own_exits (disc_start t) es = false →
    ∃ i r x y, number sq es !! i = Some r ∧ kind (event r) = EvThreadExit ∧ tid (event r) = Some y ∧ x ≠ y ∧
      ∀ s1 : Ses, reachable (number sq es) s1 → (ss_cursor s1 ≤ i)%nat ∧
        ∀ m1, ss_mt s1 = Some m1 → ss_cursor s1 = i → ∀ steps,
          mt_dispatch steps r s1 = (Err (RScheduleDiverged (seq r) (WrongTid x y)), s1)).
Proof.
  intros Hd Hh Hm Hx Hwf. pose proof (disc_real _ _ _ sq Hd) as Hreal.
  assert (Hhead : ∀ e, head es = Some e → kind e = EvThreadExit → None = Some (owner (disc_start t)))
    by (intros e He Hk; by destruct (Hh e He)).
  pose proof (disc_schedule es _ _ sq None Hd (or_introl eq_refl) Hhead) as Hsch.
  split; [|split].
  - rewrite (enforce_all_schedule _ s m (disc_schedulable _ _ _ _ Hd) Hm), Hx, <- Hsch.
    by rewrite bool_decide_eq_true.
  - intros Ho Hmt s1 m1 r Hs1 Hm1 Hr Hk. rewrite Ho in Hsch. apply bool_decide_eq_true in Hsch.
    destruct (reachable_schedule _ _ Hwf Hmt Hreal Hs1) as [_ He]. specialize (He m1 Hm1).
    pose proof (disc_schedulable _ _ _ sq Hd) as Hall. rewrite Forall_lookup in Hall. specialize (Hall _ _ Hr).
    destruct Hall as (q & st1 & e & st2 & Hst & ->). destruct (disc_step_tid _ _ _ Hst) as [y Hy].
    set (r := mkRecord q (as_written e)) in *. assert (Hry : tid (event r) = Some y) by (cbn; by rewrite Hy).
    rewrite (enforce_tid_run r y s1 m1 Hry Hm1).
    destruct (mt_expected m1) as [x|] eqn:Hx1; [|by exists y; eexists].
    destruct (Z.eqb_spec x y) as [->|Hne]; [by exists y; eexists|exfalso].
    assert (Hnone : schedule_step (Some x) r = None).
    { unfold schedule_step. rewrite Hry. cbn [mbind option_bind]. rewrite (proj2 (Z.eqb_neq _ _)) by done.
      by destruct (kind (event r)) eqn:Hkr. }
    pose proof (schedule_take_none _ _ _ _ Hr He Hnone (length (number sq es))
      ltac:(by eapply lookup_lt_Some)) as Hfull.
    rewrite firstn_all in Hfull. unfold schedule_run in Hfull. rewrite Hfull in Hsch. by destruct Hsch.
  - intros Ho. destruct (own_exits_fails es _ _ sq None Hd (or_introl eq_refl) Hhead Ho)
      as (i & r & x & y & Hr & Hk & Hy & Hne & Hrun).
    exists i, r, x, y. split; [done|]. split; [done|]. split; [done|]. split; [done|]. intros s1 Hs1.
    assert (Hmt : trace_is_multithreaded (number sq es) = true).
    { apply existsb_exists. exists r. split; [by eapply list_elem_of_In, list_elem_of_lookup_2|by rewrite Hk]. }
    destruct (reachable_schedule _ _ Hwf Hmt Hreal Hs1) as [[z Hz] He].
    assert (Hnone : schedule_step (Some x) r = None).
    { unfold schedule_step. rewrite Hk, Hy. cbn [mbind option_bind]. by rewrite (proj2 (Z.eqb_neq _ _)). }
    split.
    + destruct (le_lt_dec (ss_cursor s1) i) as [Hle|Hlt]; [done|].
      by rewrite (schedule_take_none _ _ _ _ Hr Hrun Hnone _ Hlt) in Hz.
    + intros m1 Hm1 Hi steps. specialize (He m1 Hm1). rewrite Hi in He. unfold schedule_run in He.
      rewrite Hrun in He. injection He as He. unfold mt_dispatch. rewrite Hk. unfold on_thread_exit, mbind, stm_bind.
      rewrite (enforce_tid_run r y s1 m1 Hy Hm1), <- He. by rewrite (proj2 (Z.eqb_neq _ _)).
Qed.

End Enforce.

(** ** A recording that cannot be replayed *)

(** What the recorder writes, on the toy kernel, for a process of two threads
    whose first calls [exit_group]: the sibling dies while the first thread is
    the scheduled one. *)
Definition exit_group_log : list Event := writer (run_loop 20 sample_init).2.

Lemma exit_group_prefixes :
  forallb (λ k, match last (take k (number 0 exit_group_log)) with
    | Some r => negb (bool_decide (kind (event r) = EvThreadExit)) ||
                negb (bool_decide (is_Some (schedule_run (take k (number 0 exit_group_log)))))
    | None => true end) (List.seq 0 16) = true.
Proof. vm_compute. reflexivity. Qed.

Lemma exit_group_end k r :
  last (take k (number 0 exit_group_log)) = Some r → kind (event r) = EvThreadExit →
  schedule_run (take k (number 0 exit_group_log)) = None.
Proof.
  intros Hl Hk. assert (Hlen : length (number 0 exit_group_log) = 15%nat) by (vm_compute; reflexivity).
  set (k' := (k `min` 15)%nat). assert (Ht : take k (number 0 exit_group_log) = take k' (number 0 exit_group_log)).
  { unfold k'. destruct (decide (k ≤ 15)%nat); [by rewrite Nat.min_l by lia|].
    rewrite Nat.min_r by lia. by rewrite !take_ge by (rewrite Hlen; lia). }
  rewrite Ht in Hl |- *. pose proof exit_group_prefixes as Hp. rewrite forallb_forall in Hp.
  specialize (Hp k' ltac:(apply in_seq; unfold k'; lia)). cbv beta in Hp. rewrite Hl in Hp.
  rewrite bool_decide_eq_true_2 in Hp by done. cbn in Hp. apply negb_true_iff, bool_decide_eq_false in Hp.
  by apply eq_None_not_Some.
Qed.

Lemma exit_group_real k : real_records (take k (number 0 exit_group_log)) = take k (number 0 exit_group_log).
Proof.
  apply real_all, Forall_take. apply (bool_decide_unpack _). vm_compute. exact I.
Qed.

Lemma number_wf es : ∀ sq, 0 ≤ sq → sq + blen es ≤ 2 ^ 64 → records_wf (number sq es).
Proof.
  assert (Hlow : ∀ es sq, Forall (λ r, sq ≤ TraceFormat.seq r) (number sq es)).
  { intros l. induction l as [|e l IH]; intros sq; [constructor|]. constructor; [cbn; lia|].
    eapply Forall_impl; [apply IH|]. cbn. lia. }
  induction es as [|e es IH]; intros sq H0 Hb; [by split; [constructor|intros i j x y _ Hi]|].
  rewrite blen_cons in Hb. pose proof (blen_nonneg es). destruct (IH (sq + 1)) as [IH1 IH2]; [lia..|].
  split; cbn [number].
  - constructor; [unfold in_u; cbn; lia|done].
  - rewrite fmap_cons, ascending_cons. split; [|done]. apply Forall_fmap.
    eapply Forall_impl; [apply (Hlow es (sq + 1))|]. cbn. lia.
Qed.

(** C18. The recorder and the replay disagree on [exit_group].  On a lawful
    kernel the recorder completes the recording of a two-threaded process
    whose first thread calls [exit_group], and writes a disciplined log; but
    the sibling's death is recorded while the first thread is the scheduled
    one, so no replay of that log, on any kernel, ever reaches its end. *)
Theorem exit_group_diverges {W} `{Kernel W} `{Unwind W} (cmd : Cmdline) (v v' : W) (s : ReplaySession W)
    (fuel steps : nat) :
  launch (Ok (Some cmd, Ok (number 0 exit_group_log))) v = (Ok s, v') →
  (run_loop 20 sample_init).1 = Ok (Some (mkOutcome (Some 7) 15 2)) ∧
  is_Some (discipline (disc_start 100) exit_group_log) ∧
  own_exits (disc_start 100) exit_group_log = false ∧
  ¬ ∃ o s', run_to_end fuel steps s = (Ok (Some o), s').
Proof.
  intros Hl. split; [by vm_compute|]. split; [apply (bool_decide_unpack _); by vm_compute|].
  split; [by vm_compute|]. intros (o & s' & Hx).
  assert (Hwf : records_wf (number 0 exit_group_log)) by (apply number_wf; [done|by vm_compute]).
  destruct (launch_ok _ _ _ _ _ Hwf Hl) as (_ & _ & _ & Hf & _).
  assert (Hmt : trace_is_multithreaded (number 0 exit_group_log) = true) by (by vm_compute).
  destruct (mt_end_schedule _ _ _ _ _ _ Hwf Hmt (reach_launch _ _ _ _ _ Hl) Hf Hx)
    as (_ & _ & Hrec & (r & Hlast & Hk) & Hsch & _).
  unfold consumed in *. rewrite Hrec, exit_group_real in *.
  rewrite (exit_group_end _ _ Hlast Hk) in Hsch. by destruct Hsch.
Qed.

(** ** Witnesses *)

(** A recording of the dice program, on its own events. *)
Definition dice_log : list Event :=
  writer (run_loop (H := machine_kernel 100 dice_run dice_real dice_load) 20
    (Scheduler_init (mkMachine (dice_load [] []) InUser false dice_inputs 0) [] 100)).2.

#[local] Instance dice_kernel : Kernel (machine nat) := machine_kernel 200 dice_run dice_real dice_load.
#[local] Existing Instance no_unwind.

Definition dice_launch := launch (Ok (Some sample_cmdline, Ok (number 0 dice_log))) (dice_world []).

Lemma dice_records_wf : records_wf (number 0 dice_log).
Proof. apply number_wf; [done|by vm_compute]. Qed.

Definition is_running {E} (r : result E (option ExitOutcome)) : bool :=
  match r with Ok (Some OutRunning) => true | _ => false end.
Definition is_done {E} (r : result E bool) : bool := match r with Ok true => true | _ => false end.

Lemma is_running_ok {S E} (m : stm S E (option ExitOutcome)) s :
  is_running (m s).1 = true → m s = (Ok (Some OutRunning), (m s).2).
Proof. destruct (m s) as [[[[| |]|]| |] s']; done. Qed.

Lemma is_done_ok {S E} (m : stm S E bool) s : is_done (m s).1 = true → m s = (Ok true, (m s).2).
Proof. destruct (m s) as [[[]| |] s']; done. Qed.

(** Launched, the dice replay goes forward to record 3 and back to record 1. *)
Lemma dice_there_and_back :
  ∃ s, reachable (number 0 dice_log) s ∧ ss_current_seq s = Some 3 ∧
    run_to 9 1 1 s = (Ok (Some OutRunning), (run_to 9 1 1 s).2).
Proof.
  assert (Hl : match dice_launch.1 with
    | Ok s0 => is_done (perform 9 1 (MRunTo 3) s0).1 &&
        bool_decide (ss_current_seq (perform 9 1 (MRunTo 3) s0).2 = Some 3) &&
        is_running (run_to 9 1 1 (perform 9 1 (MRunTo 3) s0).2).1
    | _ => false end = true) by (vm_compute; reflexivity).
  destruct dice_launch as [[s0| |] v] eqn:Hs0; try done. cbn [fst] in Hl.
  apply andb_true_iff in Hl as [[H1 H2]%andb_true_iff H3]. apply is_done_ok in H1. apply bool_decide_eq_true in H2.
  exists (perform 9 1 (MRunTo 3) s0).2. split; [|split; [exact H2|by apply is_running_ok]].
  eapply (reach_move _ _ _ (MRunTo 3)); [by eapply reach_launch|exact I|exact H1].
Qed.

Lemma session_position_witness :
  ∃ s, reachable (number 0 dice_log) s ∧ ss_current_seq s = Some 3 ∧
    seq <$> last (consumed s) = Some 3 ∧ solo_log false (consumed s) (in_call s).
Proof.
  destruct dice_there_and_back as (s & Hs & Hseq & _).
  destruct (session_position _ _ dice_records_wf Hs) as (_ & Hq & Hsolo & _).
  exists s. split; [exact Hs|]. split; [exact Hseq|]. split; [rewrite <- Hq; exact Hseq|].
  apply Hsolo. vm_compute. reflexivity.
Defined.

Lemma run_to_lands_witness :
  ∃ s s' c r, reachable (number 0 dice_log) s ∧ ss_current_seq s = Some 3 ∧
    run_to 9 1 1 s = (Ok (Some OutRunning), s') ∧ consumed s' = c ++ [r] ∧ 1 ≤ seq r ∧
    Forall (λ x, seq x < 1) c.
Proof.
  destruct dice_there_and_back as (s & Hs & Hseq & Hrun).
  destruct (run_to_lands _ _ _ _ _ _ dice_records_wf Hs Hrun) as (c & r & H1 & _ & H3 & H4).
  exists s, (run_to 9 1 1 s).2, c, r. split; [exact Hs|]. split; [exact Hseq|]. split; [exact Hrun|].
  split; [exact H1|]. split; [exact H3|exact H4].
Defined.

(** Two threads, each scheduled when it exits. *)
Definition pair_script : list (wait_status + Z) :=
  [inl (PtraceSyscall 100); inl (PtraceEvent 100 PTRACE_EVENT_CLONE); inl (Stopped 101 SIGSTOP);
   inl (PtraceSyscall 100); inl (Exited 101 0); inl (Exited 100 7)].
Definition pair_init : Scheduler toy (list Event) := Scheduler_init (sample_world {[100]} pair_script) [] 100.
Definition pair_log : list Event := writer (run_loop 20 pair_init).2.

#[local] Instance toy_unwind : Unwind toy := {|
  unwinder_for_pid _ := quiet tt; unwinder_registers _ := quiet 0; unwinder_backtrace _ _ := quiet [] |}.

(** The replay's own stops: the spawned process's first, then the thread's. *)
Definition pair_replay : toy :=
  sample_world ∅ [inl (Stopped 100 SIGTRAP); inl (PtraceSyscall 100); inl (PtraceEvent 100 PTRACE_EVENT_CLONE);
    inl (Stopped 101 SIGSTOP); inl (PtraceSyscall 100); inl (Exited 101 0); inl (Exited 100 7)].
Definition pair_launch := launch (Ok (Some sample_cmdline, Ok (number 0 pair_log))) pair_replay.

Definition is_exit {E} (c : Z) (r : result E (option ExitOutcome)) : bool :=
  match r with Ok (Some (OutExited c')) => c =? c' | _ => false end.

Lemma is_exit_ok {S E} c (m : stm S E (option ExitOutcome)) s :
  is_exit c (m s).1 = true → m s = (Ok (Some (OutExited c)), (m s).2).
Proof. destruct (m s) as [[[[c'| |]|]| |] s']; cbn; try done. by intros ->%Z.eqb_eq. Qed.

(** The first log is accepted; the second is refused, 101 having died while
    100 was scheduled. *)
Lemma schedule_accepts_recording_witness :
  (run_loop 20 pair_init).1 = Ok (Some (mkOutcome (Some 7) 7 2)) ∧
  ∃ s : ReplaySession toy, (∃ s', enforce_all (number 0 pair_log) s = (Ok tt, s')) ∧
    (¬ ∃ s', enforce_all (number 0 exit_group_log) s = (Ok tt, s')) ∧
    ∃ i r x y, number 0 exit_group_log !! i = Some r ∧ kind (event r) = EvThreadExit ∧ tid (event r) = Some y ∧
      x ≠ y ∧ ∀ s1 : ReplaySession toy, reachable (number 0 exit_group_log) s1 → (ss_cursor s1 ≤ i)%nat.
Proof.
  split; [vm_compute; reflexivity|].
  assert (Hd : is_Some (discipline (disc_start 100) pair_log)) by (apply (bool_decide_unpack _); vm_compute; exact I).
  assert (Hd' : is_Some (discipline (disc_start 100) exit_group_log))
    by (apply (bool_decide_unpack _); vm_compute; exact I).
  destruct Hd as [st Hd], Hd' as [st' Hd'].
  assert (Hl : match pair_launch.1 with Ok _ => true | _ => false end = true) by (vm_compute; reflexivity).
  destruct pair_launch as [[s0| |] v]; try discriminate Hl. clear Hl.
  exists (set_mt (Some (MtState_new 100)) s0).
  assert (W1 : records_wf (number 0 pair_log)) by (apply number_wf; [done|by vm_compute]).
  assert (W2 : records_wf (number 0 exit_group_log)) by (apply number_wf; [done|by vm_compute]).
  destruct (schedule_accepts_recording 100 pair_log st 0 (set_mt (Some (MtState_new 100)) s0) _ Hd
    ltac:(vm_compute; intros e [= <-]; discriminate) eq_refl eq_refl W1) as (A1 & _ & _).
  destruct (schedule_accepts_recording 100 exit_group_log st' 0 (set_mt (Some (MtState_new 100)) s0) _ Hd'
    ltac:(vm_compute; intros e [= <-]; discriminate) eq_refl eq_refl W2) as (B1 & _ & B3).
  assert (Ho : own_exits (disc_start 100) exit_group_log = false) by (vm_compute; reflexivity).
  split; [apply A1; vm_compute; reflexivity|]. split; [rewrite B1, Ho; discriminate|].
  destruct (B3 Ho) as (i & r & x & y & H1 & H2 & H3 & H4 & H5). exists i, r, x, y.
  split_and!; [exact H1|exact H2|exact H3|exact H4|]. intros s1 Hs1. apply (H5 s1 Hs1).
Defined.

Lemma replay_follows_schedule_witness :
  ∃ (s s' : ReplaySession toy) k r, reachable (number 0 pair_log) s ∧ run_to_end 9 3 s = (Ok (Some (OutExited 7)), s') ∧
    consumed s' = real_records (take k (number 0 pair_log)) ∧
    is_Some (schedule_run (real_records (take k (number 0 pair_log)))) ∧
    last (real_records (take k (number 0 pair_log))) = Some r ∧ kind (event r) = EvThreadExit.
Proof.
  assert (Hl : match pair_launch.1 with
    | Ok s0 => bool_decide (ss_finished s0 = None) && is_exit 7 (run_to_end 9 3 s0).1
    | _ => false end = true) by (vm_compute; reflexivity).
  destruct pair_launch as [[s0| |] v] eqn:Hs0; try done. cbn [fst] in Hl.
  apply andb_true_iff in Hl as [Hf H2]. apply bool_decide_eq_true in Hf. apply is_exit_ok in H2.
  assert (Hr : reachable (number 0 pair_log) s0) by by eapply reach_launch.
  destruct (replay_follows_schedule (number 0 pair_log) 9 3 s0 (run_to_end 9 3 s0).2 (OutExited 7))
    as (k & r & K1 & K2 & K3 & K4 & _);
    [apply number_wf; [done|by vm_compute]|vm_compute; reflexivity|exact Hr|exact Hf|exact H2|].
  exists s0, (run_to_end 9 3 s0).2, k, r. split; [exact Hr|]. split; [exact H2|].
  split; [exact K1|]. split; [exact K2|]. split; [exact K3|exact K4].
Defined.

Lemma exit_group_diverges_witness :
  ∃ s v', launch (Ok (Some sample_cmdline, Ok (number 0 exit_group_log))) pair_replay = (Ok s, v') ∧
    own_exits (disc_start 100) exit_group_log = false ∧
    ¬ ∃ o s', run_to_end 20 3 s = (Ok (Some o), s').
Proof.
  assert (Hl : match (launch (Ok (Some sample_cmdline, Ok (number 0 exit_group_log))) pair_replay).1 with
    | Ok s0 => true | _ => false end = true) by (vm_compute; reflexivity).
  destruct (launch (Ok (Some sample_cmdline, Ok (number 0 exit_group_log))) pair_replay) as [[s0| |] v] eqn:Hs0;
    try done.
  destruct (exit_group_diverges sample_cmdline pair_replay v s0 20 3 Hs0) as (_ & _ & H3 & H4).
  exists s0, v. split; [reflexivity|]. split; [exact H3|exact H4].
Defined.
