(* ===== verification/Halts.v ===== *)
(** * The loops of a replay are bounded

    Both drivers spend a record of the trace on every system-call stop, so the
    loops of [session.rs] and [mt.rs] run out of records, or fail, as soon as
    the kernel stops reporting other things about the tracees, whatever the
    program does.  Each wait they make is taken to return ([Ptrace]). *)

From S2P Require Import Prelude StdIo TraceFormat Crc32 TraceLog Payload Ptrace Capture Discipline Sched.
From S2P Require Import ToyKernel SchedLog Recording Watchpoint Schedule Replay Session Mt Follow Machine.
From S2P Require Import Solo EndToEnd Navigate.

(** A kernel with finitely many reports left that are not system-call stops:
    signals, [exec] and [clone] events, watchpoint traps, deaths.  It may
    report system calls for ever, and a program started afresh has [fresh]
    other reports at most. *)
Class QuietKernel (W : Type) `{Kernel W} `{Unwind W} := {
  stops : W → nat;
  less_stops (w w' : W) : Prop := (stops w' ≤ stops w)%nat;
  stops_waitpid p w : match sys_waitpid p w with
    | (inl (PtraceSyscall _), w') | (inr _, w') => less_stops w w'
    | (inl _, w') => (stops w' < stops w)%nat end;
  fresh : nat;
  stops_spawn prog argv w : (stops (sys_spawn_traced prog argv w).2 ≤ Nat.max (stops w) fresh)%nat;
  stops_syscall p sig w : less_stops w (pt_syscall p sig w).2;
  stops_step p w : less_stops w (pt_step p w).2;
  stops_kill p w : less_stops w (pt_kill p w).2;
  stops_getregs p w : less_stops w (pt_getregs p w).2;
  stops_setregs p r w : less_stops w (pt_setregs p r w).2;
  stops_getevent p w : less_stops w (pt_getevent p w).2;
  stops_setoptions p o w : less_stops w (pt_setoptions p o w).2;
  stops_siginfo p w : less_stops w (pt_getsiginfo_code p w).2;
  stops_pokeuser p a x w : less_stops w (pt_pokeuser p a x w).2;
  stops_readv p a n w : less_stops w (vm_readv p a n w).2;
  stops_writev p a d w : less_stops w (vm_writev p a d w).2;
  stops_unwinder p w : less_stops w (unwinder_for_pid p w).2;
  stops_unwinder_regs p w : less_stops w (unwinder_registers p w).2;
  stops_backtrace p pc w : less_stops w (unwinder_backtrace p pc w).2;
}.

Section Halts.
Context {W : Type} {KW : Kernel W} {UW : Unwind W} {QW : QuietKernel W}.
#[local] Abbreviation Ses := (ReplaySession W).
#[local] Abbreviation M := (stm Ses ReplayError).

(** ** Reports are not made up *)

Definition quiet (s : Ses) : nat := stops (ss_world s).

Lemma less_waitpid p w : less_stops w (sys_waitpid p w).2.
Proof.
  pose proof (stops_waitpid p w) as Hw. destruct (sys_waitpid p w) as [[[]|e] w']; unfold less_stops in *; cbn; lia.
Qed.

Lemma lowers_call {E A} (f : Z → E) (k : kop W A) :
  (∀ w, less_stops w (k w).2) → lowers stops (call f k).
Proof. intros Hk w. unfold call. specialize (Hk w). by destruct (k w) as [[a|e] w']. Qed.
#[local] Hint Resolve lowers_call less_waitpid stops_syscall stops_step stops_kill stops_getregs
  stops_setregs stops_getevent stops_setoptions stops_siginfo stops_pokeuser stops_readv stops_writev
  stops_unwinder stops_unwinder_regs stops_backtrace : lowers.

Lemma lowers_with_err {E A} (f : E → ReplayError) (m : stm W E A) : lowers stops m → lowers stops (with_err f m).
Proof. intros Hm w. unfold with_err. specialize (Hm w). by destruct (m w). Qed.

Lemma lowers_poke p a x : lowers stops (poke_user p a x).
Proof.
  intros w. unfold poke_user. pose proof (stops_pokeuser p a x w) as Hp. by destruct (pt_pokeuser p a x w).
Qed.
#[local] Hint Resolve lowers_with_err lowers_poke : lowers.

Lemma lowers_arm p a n k : lowers stops (arm p a n k).
Proof. unfold arm. auto 10 with lowers. Qed.

Lemma lowers_regs p : lowers stops (regs_read p).
Proof. unfold regs_read. auto 10 with lowers. Qed.

Lemma lowers_suppress p : lowers stops (suppress_syscall p).
Proof. unfold suppress_syscall. auto 10 with lowers. Qed.

Lemma lowers_set_return p r : lowers stops (set_return p r).
Proof. unfold set_return. auto 10 with lowers. Qed.

Lemma lowers_write p a d : lowers stops (write_memory p a d).
Proof. unfold write_memory. auto 10 with lowers. Qed.

Lemma lowers_read p a n : lowers stops (read_memory p a n).
Proof. unfold read_memory. auto 10 with lowers. Qed.

Lemma lowers_hw_hit p : lowers stops (hw_is_watch_hit p).
Proof. unfold hw_is_watch_hit. auto 10 with lowers. Qed.
#[local] Hint Resolve lowers_arm lowers_regs lowers_suppress lowers_set_return lowers_write lowers_read
  lowers_hw_hit : lowers.

Lemma lowers_options p : lowers stops (setup_options p).
Proof. unfold setup_options. auto with lowers. Qed.

Lemma lowers_snapshot p : lowers stops (fork_snapshot p).
Proof.
  unfold fork_snapshot, save_full, restore_full, wait_for_fork_child, setup_options. auto 40 with lowers.
Qed.
#[local] Hint Resolve lowers_options lowers_snapshot : lowers.

Lemma lowers_on_kernel {A} (m : stm W ReplayError A) : lowers stops m → lowers quiet (on_kernel m).
Proof. intros Hm s. unfold on_kernel, quiet. specialize (Hm (ss_world s)). by destruct (m (ss_world s)). Qed.

Lemma lowers_ignoring {A} (k : kop W A) : (∀ w, less_stops w (k w).2) → lowers quiet (ignoring k).
Proof. intros Hk s. apply Hk. Qed.
#[local] Hint Resolve lowers_on_kernel lowers_ignoring : lowers.

Lemma lowers_for_each l (f : Z → M unit) : (∀ x, lowers quiet (f x)) → lowers quiet (for_each l f).
Proof. intros Hf. induction l as [|x l IH]; cbn; auto with lowers. Qed.
#[local] Hint Resolve lowers_for_each : lowers.

Lemma lowers_is_hit p : lowers quiet (is_watch_hit p).
Proof. unfold is_watch_hit. auto 10 with lowers. Qed.

Lemma lowers_on_hit p : lowers quiet (on_watch_hit p).
Proof. unfold on_watch_hit, capture_backtrace, step_over_watch, clear_status. auto 30 with lowers. Qed.

Lemma lowers_rearm : lowers quiet rearm_watchpoint.
Proof. unfold rearm_watchpoint. auto 20 with lowers. Qed.

Lemma lowers_kill_active : lowers quiet kill_active.
Proof. unfold kill_active. auto 20 with lowers. Qed.
#[local] Hint Resolve lowers_is_hit lowers_on_hit lowers_rearm lowers_kill_active : lowers.

Lemma lowers_restore i : lowers quiet (restore_to_checkpoint i).
Proof. unfold restore_to_checkpoint. auto 40 with lowers. Qed.
#[local] Hint Resolve lowers_restore : lowers.

Lemma lowers_checkpoint : lowers quiet maybe_checkpoint.
Proof. unfold maybe_checkpoint. auto 30 with lowers. Qed.
#[local] Hint Resolve lowers_checkpoint : lowers.

(** ** The single-threaded driver *)

Lemma lowers_on_entry regs : lowers quiet (on_entry regs).
Proof. unfold on_entry, next_record, skip_checkpoints. auto 30 with lowers. Qed.

Lemma lowers_on_exit p : lowers quiet (on_exit p).
Proof. unfold on_exit, next_record, skip_checkpoints. auto 30 with lowers. Qed.
#[local] Hint Resolve lowers_on_entry lowers_on_exit : lowers.

Lemma lowers_syscall_stop : lowers quiet on_syscall_stop.
Proof. unfold on_syscall_stop. auto 30 with lowers. Qed.

Lemma lowers_signal_stop sig : lowers quiet (on_signal_stop sig).
Proof. unfold on_signal_stop, skip_checkpoints. auto 30 with lowers. Qed.
#[local] Hint Resolve lowers_syscall_stop lowers_signal_stop : lowers.

#[local] Hint Resolve core_on_kernel core_is_watch_hit core_watch_hit : keeps.

(** What is left to do: the records not reached and the other reports. *)
Definition left (s : Ses) : nat := (length (ss_records s) - ss_cursor s) + quiet s.

Lemma wait_spends p (s : Ses) st s' :
  on_kernel (call RPtrace (sys_waitpid p)) s = (Ok st, s') →
  core s' = core s ∧ (quiet s' ≤ quiet s)%nat ∧
  match st with PtraceSyscall _ => True | _ => (quiet s' < quiet s)%nat end.
Proof.
  intros Hx. split; [by apply (keeps_run core _ _ _ _ (core_on_kernel _) Hx)|].
  pose proof (stops_waitpid p (ss_world s)) as Hw. unfold on_kernel, call in Hx. unfold quiet.
  destruct (sys_waitpid p (ss_world s)) as [[x|e] w]; [|done]. injection Hx as -> <-. cbn.
  unfold less_stops in Hw. destruct st; lia.
Qed.

Lemma core_quiet {A} (m : M A) s a s' :
  keeps core m → lowers quiet m → m s = (Ok a, s') →
  ss_records s' = ss_records s ∧ ss_cursor s' = ss_cursor s ∧ (quiet s' ≤ quiet s)%nat.
Proof.
  intros Hk Hl Hm. apply (lowers_run _ _ _ _ _ Hl) in Hm as L. apply (keeps_run _ _ _ _ _ Hk) in Hm.
  apply core_fields in Hm as (_ & ? & ? & _). done.
Qed.

Lemma moved_forward r (s s' : Ses) :
  moved [r] s s' → (ss_cursor s < ss_cursor s')%nat ∧ (ss_cursor s < length (ss_records s))%nat.
Proof.
  intros [R C _]. unfold consumed in C. rewrite R in C. apply (f_equal length) in C.
  rewrite length_app in C. cbn in C. set (l := ss_records s) in *. split.
  - destruct (decide (ss_cursor s < ss_cursor s')%nat) as [|Hn]; [done|].
    replace (ss_cursor s) with (ss_cursor s' + (ss_cursor s - ss_cursor s'))%nat in C by lia.
    rewrite <- (take_drop (ss_cursor s') (take (ss_cursor s' + _) l)), take_take, Nat.min_l in C by lia.
    unfold real_records in C. rewrite filter_app, length_app in C. lia.
  - destruct (decide (ss_cursor s < length l)%nat) as [|Hn]; [done|].
    rewrite (take_ge l (ss_cursor s)) in C by lia.
    destruct (decide (ss_cursor s' < length l)%nat) as [Hs|]; [|rewrite (take_ge l) in C by lia; lia].
    rewrite <- (take_drop (ss_cursor s') l) in C at 2. unfold real_records in C.
    rewrite filter_app, length_app in C. lia.
Qed.

Lemma signal_forward sig (s : Ses) u s' :
  on_signal_stop sig s = (Ok u, s') → ss_records s' = ss_records s ∧ (ss_cursor s ≤ ss_cursor s')%nat.
Proof.
  unfold on_signal_stop, skip_checkpoints. intros Hx. st_inv.
  match goal with Hc : match _ with _ => _ end _ = (Ok _, _) |- _ => rename Hc into Hm end.
  cbn [ss_records ss_cursor set_cursor] in Hm. destruct (_ !! _) as [r|]; [case_bool_decide|]; st_inv;
    [destruct (negb _); st_inv| |]; (split; [done|cbn; lia]).
Qed.

Lemma checkpoint_cursor : keeps (λ s : Ses, (ss_records s, ss_cursor s)) maybe_checkpoint.
Proof.
  unfold maybe_checkpoint. assert (Hk : ∀ A (m : stm W ReplayError A),
    keeps (λ s : Ses, (ss_records s, ss_cursor s)) (on_kernel m)).
  { intros A m s. unfold on_kernel. by destruct (m (ss_world s)). }
  auto 30 with keeps.
Qed.

(** A turn that goes on uses something up. *)
Lemma turn_spends stop_at (s s' : Ses) : drive_turn stop_at s = (Ok Continue, s') → (left s' < left s)%nat.
Proof.
  unfold drive_turn. intros Hx. st_inv. destruct (reached stop_at s); st_inv; [done|].
  match goal with Hp : on_kernel (call RPtrace (pt_syscall _ _)) _ = _,
      Hw : on_kernel (call RPtrace (sys_waitpid _)) _ = (Ok ?st, _) |- _ =>
    apply core_quiet in Hp as (R1 & K1 & L1); [|apply core_on_kernel|auto with lowers];
    apply wait_spends in Hw as ((_ & R2 & K2 & _)%core_fields & L2 & L3); rename st into status end.
  change (quiet (set_resume_sig None s)) with (quiet s) in L1.
  cbn [ss_records ss_cursor set_resume_sig] in R1, K1. rewrite R1 in R2. rewrite K1 in K2. unfold left.
  destruct status as [p|p ev|p sg|p code|p sg|]; st_inv; try done; try (rewrite R2, K2; lia).
  - match goal with Hc : maybe_checkpoint _ = _, Hs : on_syscall_stop _ = _ |- _ =>
      apply (lowers_run quiet) in Hc as L4; [|exact lowers_checkpoint];
      apply (lowers_run quiet) in Hs as L5; [|exact lowers_syscall_stop];
      apply (keeps_run _ _ _ _ _ checkpoint_cursor) in Hc; injection Hc as R3 K3;
      apply on_syscall_stop_stepped in Hs as (r & [Hm _ _]) end.
    pose proof (moved_records _ _ _ Hm) as R4. apply moved_forward in Hm as [F1 F2].
    rewrite R2 in *. rewrite K2 in *. rewrite R3, K3, R4. lia.
  - match goal with Hk : (if sg =? SIGTRAP then _ else _) _ = (Ok ?b, _) |- _ =>
      apply core_quiet in Hk as (R3 & K3 & L4); [|auto with keeps|auto with lowers]; destruct b end.
    + match goal with Hk : on_watch_hit _ _ = _ |- _ =>
        apply core_quiet in Hk as (R4 & K4 & L5); [|auto with keeps|auto with lowers] end.
      rewrite R4, K4, R3, K3, R2, K2. lia.
    + match goal with Hk : on_signal_stop _ _ = _ |- _ =>
        apply (lowers_run quiet) in Hk as L5; [|auto with lowers]; apply signal_forward in Hk as [R4 K4] end.
      rewrite R4, R3, R2. lia.
Qed.

Lemma drive_loop_ends stop_at fuel : ∀ s, (left s < fuel)%nat → (drive_loop fuel stop_at s).1 ≠ Ok None.
Proof.
  induction fuel as [|fuel IH]; intros s Hf; [lia|]. cbn. unfold mbind, stm_bind.
  destruct (drive_turn stop_at s) as [[[|o]| |] s1] eqn:Ht; try done.
  apply IH. apply turn_spends in Ht. lia.
Qed.

(** ** The schedule-enforcing driver *)

Lemma lowers_update live f : lowers quiet (update_rt live f).
Proof. unfold update_rt, state, put_state. auto 20 with lowers. Qed.

Lemma lowers_state : lowers quiet state.
Proof. unfold state. auto with lowers. Qed.

Lemma lowers_put m : lowers quiet (put_state m).
Proof. unfold put_state. auto with lowers. Qed.
#[local] Hint Resolve lowers_update lowers_state lowers_put : lowers.

Lemma lowers_bind_tid sq t live : lowers quiet (bind_tid sq t live).
Proof. unfold bind_tid. auto 20 with lowers. Qed.

Lemma lowers_enforce record : lowers quiet (enforce_tid record).
Proof. unfold enforce_tid. auto 20 with lowers. Qed.
#[local] Hint Resolve lowers_bind_tid lowers_enforce : lowers.

Lemma lowers_live_for t sq : lowers quiet (live_for t sq).
Proof. unfold live_for. auto 20 with lowers. Qed.

Lemma lowers_take_signal live : lowers quiet (mt_take_resume_signal live).
Proof. unfold mt_take_resume_signal. auto 20 with lowers. Qed.

Lemma lowers_take_pending live : lowers quiet (take_pending live).
Proof. unfold take_pending. auto 20 with lowers. Qed.

Lemma lowers_advance sq : lowers quiet (advance sq).
Proof. unfold advance. auto with lowers. Qed.

Lemma lowers_step_thread fuel : ∀ live sig, lowers quiet (step_thread fuel live sig).
Proof. induction fuel as [|fuel IH]; intros live sig; cbn; auto 20 with lowers. Qed.
#[local] Hint Resolve lowers_live_for lowers_take_signal lowers_take_pending lowers_advance lowers_step_thread : lowers.

Lemma lowers_stepping {A} (m : M (option wait_status)) (f : wait_status → M A) :
  lowers quiet m → (∀ st, lowers quiet (f st)) → lowers quiet (stepping m f).
Proof. intros Hm Hf. unfold stepping. auto 20 with lowers. Qed.

Lemma lowers_register child sq : lowers quiet (mt_register_child child sq).
Proof. unfold mt_register_child. auto 20 with lowers. Qed.

Lemma lowers_bind_child sq t child parent v : lowers quiet (bind_child sq t child parent v).
Proof. unfold bind_child. auto 20 with lowers. Qed.
#[local] Hint Resolve lowers_stepping lowers_register lowers_bind_child : lowers.

Lemma lowers_dispatch steps record : lowers quiet (mt_dispatch steps record).
Proof.
  unfold mt_dispatch, on_sched_switch, on_syscall_enter, on_syscall_exit, on_thread_spawn, on_thread_exit,
    on_signal, set_rt_pending, remove_thread, wrong_stop. cbv zeta. auto 60 with lowers.
Qed.

(** Enough steps for the stops that are swallowed. *)
Definition lasts {A} (steps : nat) (m : M (option A)) : Prop :=
  ∀ s, (quiet s < steps)%nat → (m s).1 ≠ Ok None.

Lemma lasts_bind {A B} steps (m : M A) (k : A → M (option B)) :
  lowers quiet m → (∀ a, lasts steps (k a)) → lasts steps (mbind k m).
Proof.
  intros Hm Hk s Hs. unfold mbind, stm_bind. specialize (Hm s). destruct (m s) as [[a| |] s1]; [|done..].
  apply Hk. cbn in Hm. lia.
Qed.

Lemma lasts_some {A} steps (a : A) : lasts steps (mret (Some a)).
Proof. done. Qed.

Lemma lasts_step_thread steps : ∀ live sig, lasts steps (step_thread steps live sig).
Proof.
  induction steps as [|steps IH]; intros live sig s Hs; [lia|]. cbn [step_thread].
  unfold mbind at 1, stm_bind at 1. destruct (on_kernel _ s) as [[[]| |] s1] eqn:Hp; try done.
  apply (lowers_run quiet) in Hp; [|auto with lowers].
  unfold mbind at 1, stm_bind at 1. destruct (on_kernel _ s1) as [[status| |] s2] eqn:Hw; try done.
  apply wait_spends in Hw as (_ & _ & L).
  destruct status as [p|p ev|p sg|p code|p sg|]; try done.
  - destruct (ev =? PTRACE_EVENT_EXEC); [apply IH; lia|done].
  - destruct (sg =? SIGTRAP); [|done].
    assert (H2 : (quiet s2 < steps)%nat) by lia. revert H2. generalize s2.
    change (lasts steps (hit ← is_watch_hit live; if (hit : bool) then on_watch_hit live;; step_thread steps live None
      else mret (Some (Stopped p sg)))).
    apply lasts_bind; [auto with lowers|]. intros [|]; [|apply lasts_some].
    apply lasts_bind; [auto with lowers|]. intros _. apply IH.
Qed.

Lemma lasts_stepping {A} steps (m : M (option wait_status)) (f : wait_status → M A) :
  lasts steps m → lasts steps (stepping m f).
Proof.
  intros Hm s Hs. unfold stepping. specialize (Hm s Hs). unfold mbind, stm_bind.
  destruct (m s) as [[[st|]| |] s1]; try done. by destruct (f st s1) as [[]].
Qed.

Lemma lasts_unit steps (m : M (option unit)) :
  lasts steps m → lasts steps (r ← m; mret ((λ _, None : option ExitOutcome) <$> r)).
Proof.
  intros Hm s Hs. specialize (Hm s Hs). unfold mbind, stm_bind. by destruct (m s) as [[[]| |] s1].
Qed.

Lemma lasts_dispatch steps record : lasts steps (mt_dispatch steps record).
Proof.
  unfold mt_dispatch. cbv zeta.
  assert (Hst : ∀ A live sig (f : wait_status → M A), lasts steps (stepping (step_thread steps live sig) f))
    by (intros; apply lasts_stepping, lasts_step_thread).
  destruct (kind (event record)); try apply lasts_unit; try done;
    unfold on_sched_switch, on_syscall_enter, on_syscall_exit, on_thread_spawn, on_thread_exit, on_signal;
    repeat first [apply Hst|apply lasts_some|apply lasts_bind; [by auto 20 with lowers|intros]].
Qed.

Lemma lasts_turn steps stop_at : lasts steps (mt_turn steps stop_at).
Proof.
  unfold mt_turn. apply lasts_bind; [auto with lowers|]. intros [|]; [apply lasts_some|].
  apply lasts_bind; [auto with lowers|]. intros records. apply lasts_bind; [auto with lowers|]. intros cursor.
  destruct (records !! cursor) as [record|]; [|done]. intros s Hs.
  pose proof (lasts_dispatch steps record s Hs) as Hd. unfold mbind, stm_bind.
  by destruct (mt_dispatch steps record s) as [[[[]|]| |] s1].
Qed.

Lemma lowers_turn steps stop_at : lowers quiet (mt_turn steps stop_at).
Proof. pose proof lowers_dispatch. unfold mt_turn. auto 20 with lowers. Qed.

Lemma stepped_forward r (s s' : Ses) :
  mt_stepped r s s' → ss_records s' = ss_records s ∧ ss_cursor s' = S (ss_cursor s).
Proof. intros (e & e' & _ & _ & Hc). unfold mcore in Hc. by injection Hc as ? ? _ _ _ _ _ _. Qed.

Lemma dispatch_forward steps record (s s' : Ses) :
  mt_dispatch steps record s = (Ok (Some None), s') →
  ss_records s' = ss_records s ∧ ss_cursor s' = S (ss_cursor s).
Proof.
  intros Hx. unfold mt_dispatch in Hx. destruct (kind (event record)) eqn:Hk; st_inv; try done;
    try (match goal with Hh : ?f ?s0 = (Ok ?o, ?x) |- ss_records ?x = _ ∧ _ => is_var o; destruct o as [?|]; [|done] end);
    try (eapply stepped_forward; first [by eapply on_syscall_enter_stepped|by eapply on_syscall_exit_stepped
      |by eapply on_signal_stepped|by eapply on_thread_spawn_stepped|by eapply on_sched_switch_stepped]).
  destruct (on_thread_exit_stepped _ _ _ _ _ Hx Hk) as (s1 & Hs & Hc). apply stepped_forward in Hs as [R K].
  unfold mcore in Hc. by injection Hc as -> -> _ _ _ _ _ _.
Qed.

Lemma mt_turn_spends steps stop_at (s s' : Ses) :
  mt_turn steps stop_at s = (Ok (Some Continue), s') → (left s' < left s)%nat.
Proof.
  intros Hx. pose proof (lowers_run _ _ _ _ _ (lowers_turn _ _) Hx) as L. unfold mt_turn in Hx. st_inv.
  destruct (reached stop_at s); st_inv; [done|].
  destruct (ss_records s !! ss_cursor s) as [record|] eqn:Hr; st_inv.
  destruct a as [[o|]|]; try done. apply lookup_lt_Some in Hr.
  match goal with Hd : mt_dispatch _ _ _ = _ |- _ => apply dispatch_forward in Hd as [R K] end.
  unfold left. rewrite R, K. lia.
Qed.

Lemma mt_loop_ends steps stop_at fuel : ∀ s, (left s < fuel)%nat → (quiet s < steps)%nat →
  (mt_drive_loop fuel steps stop_at s).1 ≠ Ok None.
Proof.
  induction fuel as [|fuel IH]; intros s Hf Hs; [lia|]. cbn. unfold mbind, stm_bind.
  pose proof (lasts_turn steps stop_at s Hs) as Hl. pose proof (lowers_turn steps stop_at s) as L.
  destruct (mt_turn steps stop_at s) as [[[[|o]|]| |] s1] eqn:Ht; try done.
  apply IH; [|cbn in L; lia]. apply mt_turn_spends in Ht. lia.
Qed.

(** ** The moves *)

(** The other reports ahead of a session that may respawn its program. *)
Definition ahead (s : Ses) : nat := Nat.max (quiet s) fresh.

Lemma lowers_ahead {A} (m : M A) : lowers quiet m → lowers ahead m.
Proof. intros Hm s. specialize (Hm s). unfold ahead. lia. Qed.

Lemma lowers_spawn {A} prog argv (k : Z → M A) :
  (∀ pid, lowers quiet (k pid)) →
  lowers ahead (pid ← on_kernel (call RSpawn (sys_spawn_traced prog argv)); k pid).
Proof.
  intros Hk. apply lowers_bind; [|intros; by apply lowers_ahead].
  intros s. pose proof (stops_spawn prog argv (ss_world s)) as Hs. unfold ahead, quiet, on_kernel, call.
  destruct (sys_spawn_traced prog argv (ss_world s)) as [[p|e] w]; cbn in *; lia.
Qed.

Lemma lowers_respawn : lowers ahead respawn.
Proof.
  unfold respawn. apply lowers_bind; [apply lowers_ahead; auto with lowers|]. intros _.
  apply lowers_bind; [apply lowers_gets|]. intros cmd. apply lowers_spawn. auto 40 with lowers.
Qed.

Lemma ensure_forward (s s' : Ses) u : ensure_state s = (Ok u, s') → ss_records s' = ss_records s.
Proof.
  unfold ensure_state, put_state. intros Hx. st_inv. case_bool_decide; st_inv; [done|]. cbn.
  match goal with Hk : on_kernel _ _ = _ |- _ => apply (keeps_run core) in Hk; [|apply core_on_kernel];
    by apply core_fields in Hk as (_ & ? & _) end.
Qed.

Lemma lowers_ensure : lowers quiet ensure_state.
Proof. unfold ensure_state. auto 20 with lowers. Qed.

Lemma drive_ends fuel steps stop_at (s : Ses) :
  (length (ss_records s) + quiet s < fuel)%nat → (quiet s < steps)%nat → (drive fuel steps stop_at s).1 ≠ Ok None.
Proof.
  unfold drive. intros Hf Hs. rewrite bind_gets. destruct (ss_finished s); [done|].
  rewrite bind_gets. destruct (ss_multithreaded s).
  - unfold mt_drive, mbind, stm_bind. destruct (ensure_state s) as [[u| |] s1] eqn:He; try done.
    pose proof (lowers_run _ _ _ _ _ lowers_ensure He) as L. apply ensure_forward in He as R.
    apply mt_loop_ends; unfold left; rewrite ?R; lia.
  - apply drive_loop_ends. unfold left. lia.
Qed.

Lemma records_restart :
  keeps (λ s : Ses, ss_records s) respawn ∧ ∀ i, keeps (λ s : Ses, ss_records s) (restore_to_checkpoint i).
Proof.
  assert (Hk : ∀ A (m : stm W ReplayError A), keeps (λ s : Ses, ss_records s) (on_kernel m)).
  { intros A m s. unfold on_kernel. by destruct (m (ss_world s)). }
  assert (Hi : ∀ A (k : kop W A), keeps (λ s : Ses, ss_records s) (ignoring k)) by done.
  unfold respawn, restore_to_checkpoint, rearm_watchpoint, kill_active. split; intros; auto 60 with keeps.
Qed.

Lemma plan_start_same target (s : Ses) r s' : plan_start target s = (r, s') → s' = s.
Proof.
  unfold plan_start. rewrite bind_gets. destruct (nearest_at_or_before _ _); [|by intros [= _ <-]].
  unfold mbind, stm_bind, st_lift. destruct (expect _); by intros [= _ <-].
Qed.

Lemma run_to_ends fuel steps target (s : Ses) :
  (length (ss_records s) + ahead s < fuel)%nat → (ahead s < steps)%nat → (run_to fuel steps target s).1 ≠ Ok None.
Proof.
  intros Hf Hs. unfold run_to. unfold mbind at 1, stm_bind at 1.
  destruct (plan_start target s) as [[start| |] s0] eqn:Hp; try done.
  apply plan_start_same in Hp as ->. rewrite bind_gets. unfold mbind, stm_bind.
  destruct (st_when _ _ s) as [[u| |] s1] eqn:Hw; try done.
  assert (H1 : ss_records s1 = ss_records s ∧ (ahead s1 ≤ ahead s)%nat).
  { destruct (should_restart _ _ _); cbn [st_when] in Hw; [|by injection Hw as _ <-].
    destruct records_restart as [K1 K2]. destruct (start_index start) as [i|].
    - by split; [apply (keeps_run _ _ _ _ _ (K2 i) Hw)|
        apply (lowers_run _ _ _ _ _ (lowers_ahead _ (lowers_restore i)) Hw)].
    - by split; [apply (keeps_run _ _ _ _ _ K1 Hw)|apply (lowers_run _ _ _ _ _ lowers_respawn Hw)]. }
  destruct H1 as [R L]. apply drive_ends; rewrite ?R; unfold ahead in *; lia.
Qed.

(** The records a trace opened to. *)
Definition trace_length (opened : result TraceError (option Cmdline * result TraceError (list LogRecord))) : nat :=
  match opened with Ok (_, Ok recs) => length recs | _ => 0 end.

Lemma launch_ahead opened w (s : Ses) w' :
  launch opened w = (Ok s, w') →
  (length (ss_records s) = trace_length opened ∧ stops (ss_world s) ≤ Nat.max (stops w) fresh)%nat ∧ w' = ss_world s.
Proof.
  unfold launch. destruct opened as [[cmd col]| |]; try done. intros Hx. st_inv.
  destruct cmd as [cmd|]; [|done]. destruct col as [recs| |]; try done. simplify_eq/=.
  split; [|done]. split; [done|].
  repeat match goal with Hk : call _ (sys_spawn_traced ?a ?b) ?x = (Ok _, ?y) |- _ =>
    pose proof (stops_spawn a b x) as L1; unfold call in Hk; destruct (sys_spawn_traced a b x) as [[]]; [|done];
    injection Hk as _ -> | Hk : _ ?x = (Ok _, ?y) |- _ => apply (lowers_run stops) in Hk; [|by auto with lowers] end.
  cbn in L1. lia.
Qed.

Lemma watch_forward addr len k (s : Ses) u s' :
  watch addr len k s = (Ok u, s') → ss_records s' = ss_records s ∧ (quiet s' ≤ quiet s)%nat.
Proof.
  intros Hx. split.
  - apply (keeps_run core) in Hx; [|apply core_watch]. by apply core_fields in Hx as (_ & ? & _).
  - apply (lowers_run quiet) in Hx; [done|]. unfold watch, live_threads. auto 30 with lowers.
Qed.

(** ** The bound *)

(** The loops of a replay are bounded.  On a kernel with finitely many reports
    ahead that are not system-call stops, and however many system calls the
    program makes, each move of a session in any state takes at most one turn
    per record and per such report: stepping, running to the end, running to a
    target in either direction with whatever restore or respawn it starts from.
    So does a watchpoint scan of any trace file.  It is the turns that are
    bounded: every wait of a turn is taken to return, as it always does in the
    model.  The wait of [kill_active] for the leader of a group whose siblings
    live does not, and this says nothing of it. *)
Theorem replay_terminates (fuel steps : nat) :
  (∀ (s : ReplaySession W) (target : Z),
     (length (ss_records s) + ahead s < fuel)%nat → (ahead s < steps)%nat →
     (step_to fuel steps target s).1 ≠ Ok None ∧ (run_to fuel steps target s).1 ≠ Ok None ∧
     (run_to_end fuel steps s).1 ≠ Ok None) ∧
  (∀ opened sc (w : W),
     (trace_length opened + Nat.max (stops w) fresh < fuel)%nat → (Nat.max (stops w) fresh < steps)%nat →
     (scan_run fuel steps opened sc w).1 ≠ Ok None).
Proof.
  split.
  - intros s target Hf Hs. unfold step_to, run_to_end.
    split; [|split]; [..|]; [apply drive_ends|apply run_to_ends|apply drive_ends]; unfold ahead in *; lia.
  - intros opened sc w Hf Hs. unfold scan_run. destruct (launch opened w) as [[s| |] w1] eqn:Hl; try done.
    apply launch_ahead in Hl as ([R L] & ->).
    replace (Replay.set_world (ss_world s) s) with s by (by destruct s).
    destruct (scan_session fuel steps sc s) as [r s2] eqn:Hx. cbn. intros ->. unfold scan_session in Hx.
    apply st_bind_ok in Hx as (u & s1 & Hw & Hx). apply watch_forward in Hw as [R1 L1].
    apply st_bind_ok in Hx as (o & s3 & Hr & Hx). destruct o as [o|]; [by st_inv|].
    apply (drive_ends fuel steps None s1); [rewrite R1, R; unfold quiet in *; lia|unfold quiet in *; lia|].
    unfold run_to_end in Hr. by rewrite Hr.
Qed.

End Halts.

(** ** A kernel without surprises: the machine of [Machine] *)

Section Machine.
Context {U : Type} (pid : Z).
Context (run : program_state U → program_state U * action).
Context (real : Z → list Z → program_state U → program_state U).
Context (load : list byte → list (list byte) → program_state U).
Context (no_unwind : Unwind (machine U)).
Context (Hfor : ∀ p w, (unwinder_for_pid p w).2 = w) (Hregs : ∀ p w, (unwinder_registers p w).2 = w).
Context (Hback : ∀ p pc w, (unwinder_backtrace p pc w).2 = w).
#[local] Existing Instance no_unwind.
#[local] Instance quiet_machine_kernel : Kernel (machine U) := machine_kernel pid run real load.

(** The first stop and the death. *)
Definition machine_stops (w : machine U) : nat :=
  match m_phase w with Spawned => 2 | Dead => 0 | _ => 1 end.

#[local] Program Instance quiet_machine : QuietKernel (machine U) := {|
  stops := machine_stops; fresh := 2 |}.
Next Obligation.
  intros p w. cbn. unfold m_wait, machine_stops. destruct (_ || _); [cbn; lia|].
  destruct w as [ps ph going ins clock]. cbn. destruct ph as [| |nr argv []|nr argv|]; cbn;
    repeat case_match; simplify_eq/=; lia.
Qed.
Next Obligation. intros prog argv w. cbn. unfold machine_stops. cbn. lia. Qed.
Next Obligation. intros. apply Nat.le_refl. Qed.
Next Obligation. intros. apply Nat.le_refl. Qed.
Next Obligation. intros. apply Nat.le_refl. Qed.
Next Obligation. intros p w. cbn. unfold m_getregs. destruct (m_phase w); apply Nat.le_refl. Qed.
Next Obligation.
  intros p r w. cbn. unfold m_setregs, machine_stops. destruct w as [ps [] going ins clock]; apply Nat.le_refl.
Qed.
Next Obligation. intros. apply Nat.le_refl. Qed.
Next Obligation. intros. apply Nat.le_refl. Qed.
Next Obligation. intros. apply Nat.le_refl. Qed.
Next Obligation. intros. apply Nat.le_refl. Qed.
Next Obligation. intros. apply Nat.le_refl. Qed.
Next Obligation. intros. apply Nat.le_refl. Qed.
Next Obligation. intros p w. cbn. rewrite Hfor. apply Nat.le_refl. Qed.
Next Obligation. intros p w. cbn. rewrite Hregs. apply Nat.le_refl. Qed.
Next Obligation. intros p pc w. cbn. rewrite Hback. apply Nat.le_refl. Qed.

End Machine.

(** A program that does nothing but draw random numbers, for ever, replayed
    from a trace of two records: it ends, in an error. *)
Definition greedy_run (s : program_state nat) : program_state nat * action :=
  (s, ACall SYS_getrandom [0x1000; 1; 0; 0; 0; 0]).
Definition greedy_log : list LogRecord := take 2 (number 0 dice_log).

#[local] Instance greedy_kernel : Kernel (machine nat) := machine_kernel 200 greedy_run dice_real dice_load.
#[local] Existing Instance EndToEnd.no_unwind.
#[local] Instance greedy_quiet : QuietKernel (machine nat) :=
  quiet_machine 200 greedy_run dice_real dice_load EndToEnd.no_unwind
    (λ _ _, eq_refl) (λ _ _, eq_refl) (λ _ _ _, eq_refl).

Lemma replay_terminates_witness :
  ∃ s w, launch (Ok (Some sample_cmdline, Ok greedy_log)) (dice_world []) = (Ok s, w) ∧
    (run_to_end 5 3 s).1 ≠ Ok None ∧ (run_to_end 5 3 s).1 = Err RTraceExhausted.
Proof.
  destruct (launch (Ok (Some sample_cmdline, Ok greedy_log)) (dice_world [])) as [[s| |] w] eqn:Hl;
    [|vm_compute in Hl; discriminate Hl..].
  exists s, w. split; [reflexivity|]. split.
  - destruct (replay_terminates 5 3) as [Hm _]. destruct (Hm s 0) as (_ & _ & H); [| |exact H];
      vm_compute in Hl; injection Hl as <- _; vm_compute; lia.
  - vm_compute in Hl. injection Hl as <- _. vm_compute. reflexivity.
Defined.
