(* ===== verification/Output.v ===== *)
(** * What the replayed program prints: the output pipes of [replay/session.rs]

    Each spawn of the target pipes its standard output and error to the
    session, and a thread per pipe reads to the end of it; [read_stdout] and
    [read_stderr] join those threads.  The threads, the traced processes and
    the session's moves interleave, so they are a step relation over the pipes:
    what was ever written to each, what is still in it, and which processes
    hold its write end (a fork, and so a snapshot, holds its parent's). *)

From S2P Require Import Prelude TraceFormat Payload Watchpoint Schedule Replay.

(** ** Pipes and the threads that drain them *)

(** A pipe: all that was written to it, what is unread, and the holders of its
    write end. *)
Record pipe := Pipe { p_log : list byte; p_content : list byte; p_writers : gset Z }.

(** What [JoinHandle::join] gives: the closure's [io::Result], or a panic. *)
Inductive thread_end := Returned (r : result Z (list byte)) | ThreadPanicked.

(** [drain_thread]: [read_to_end] into [buf], and then its result. *)
Inductive drain := Draining (buf : list byte) | Ended (e : thread_end).

(** The pipes, each with its thread under the same key; the next key. *)
Record pipes_state := PipesState { pipes : gmap Z pipe; drains : gmap Z drain; next_key : Z }.

Definition map_pipes (f : pipe → pipe) (y : pipes_state) : pipes_state :=
  PipesState (f <$> pipes y) (drains y) (next_key y).

(** [fork]: the child holds what its parent holds. *)
Definition inherit (p c : Z) (y : pipes_state) : pipes_state :=
  map_pipes (λ P, if decide (p ∈ p_writers P) then Pipe (p_log P) (p_content P) ({[c]} ∪ p_writers P) else P) y.

(** The death of a process. *)
Definition release (p : Z) (y : pipes_state) : pipes_state :=
  map_pipes (λ P, Pipe (p_log P) (p_content P) (p_writers P ∖ {[p]})) y.

(** [Stdio::piped()] for the process [pid], and [.take().map(drain_thread)]. *)
Definition piped (pid : Z) (y : pipes_state) : Z * pipes_state :=
  let k := next_key y in
  (k, PipesState (<[k := Pipe [] [] {[pid]}]> (pipes y)) (<[k := Draining []]> (drains y)) (k + 1)).

(** [join_drain]; [None] while the thread runs, where [join] blocks. *)
Definition join_drain (handle : option Z) (y : pipes_state) : option (result ReplayError (list byte)) :=
  match handle with
  | Some k =>
      match drains y !! k with
      | Some (Ended ThreadPanicked) => Some (Err ROutput)
      | Some (Ended (Returned r)) => Some (map_err (λ _, ROutput) r)
      | _ => None
      end
  | None => Some (Ok [])
  end.

(** ** The session's side *)

(** The fields of the session that matter here, over the pipes. *)
Record outputs := Outputs {
  o_pipes : pipes_state;
  o_pid : Z;
  o_finished : bool;
  o_snapshots : list Z;
  o_stdout : option Z;
  o_stderr : option Z
}.

Definition with_pipes (y : pipes_state) (o : outputs) : outputs :=
  Outputs y (o_pid o) (o_finished o) (o_snapshots o) (o_stdout o) (o_stderr o).

(** [spawn_traced], and the two drain threads. *)
Definition spawn_piped (pid : Z) (snapshots : list Z) (y : pipes_state) : outputs :=
  let '(out, y) := piped pid y in
  let '(err, y) := piped pid y in
  Outputs y pid false snapshots (Some out) (Some err).

Definition no_pipes : pipes_state := PipesState ∅ ∅ 0.

Definition launch_outputs (pid : Z) : outputs := spawn_piped pid [] no_pipes.

(** [kill_active]. *)
Definition kill_output (o : outputs) : pipes_state :=
  if o_finished o then o_pipes o else release (o_pid o) (o_pipes o).

Definition respawn_outputs (pid : Z) (o : outputs) : outputs :=
  spawn_piped pid (o_snapshots o) (kill_output o).

(** [maybe_checkpoint], when one is taken: the child [c] of [fork_snapshot]. *)
Definition checkpoint_outputs (c : Z) (o : outputs) : outputs :=
  Outputs (inherit (o_pid o) c (o_pipes o)) (o_pid o) (o_finished o) (o_snapshots o ++ [c]) (o_stdout o) (o_stderr o).

(** [restore_to_checkpoint]: the handles are left as they are. *)
Definition restore_outputs (snapshot c : Z) (o : outputs) : outputs :=
  let o := with_pipes (inherit snapshot c (o_pipes o)) o in
  Outputs (kill_output o) c false (o_snapshots o) (o_stdout o) (o_stderr o).

(** [read_stdout] and [read_stderr]: the handle is taken; blocked while
    [join_drain] is. *)
Definition read_stdout (o : outputs) : option (result ReplayError (list byte)) * outputs :=
  (join_drain (o_stdout o) (o_pipes o),
   Outputs (o_pipes o) (o_pid o) (o_finished o) (o_snapshots o) None (o_stderr o)).
Definition read_stderr (o : outputs) : option (result ReplayError (list byte)) * outputs :=
  (join_drain (o_stderr o) (o_pipes o),
   Outputs (o_pipes o) (o_pid o) (o_finished o) (o_snapshots o) (o_stdout o) None).

(** ** Steps *)

Section Steps.
(** The bytes a pipe holds at most. *)
Context (capacity : nat).

(** What the drain thread of [k] does next: a [read] hands over some of what
    is in the pipe, reports its end once no write end is open, or fails. *)
Inductive drain_step (k : Z) : pipes_state → pipes_state → Prop :=
| drain_read y P buf a b :
    pipes y !! k = Some P → drains y !! k = Some (Draining buf) → p_content P = a ++ b → a ≠ [] →
    drain_step k y (PipesState (<[k := Pipe (p_log P) b (p_writers P)]> (pipes y))
                      (<[k := Draining (buf ++ a)]> (drains y)) (next_key y))
| drain_eof y P buf :
    pipes y !! k = Some P → drains y !! k = Some (Draining buf) → p_content P = [] → p_writers P = ∅ →
    drain_step k y (PipesState (pipes y) (<[k := Ended (Returned (Ok buf))]> (drains y)) (next_key y))
| drain_fails y buf e :
    drains y !! k = Some (Draining buf) → match e with Returned (Err _) | ThreadPanicked => True | _ => False end →
    drain_step k y (PipesState (pipes y) (<[k := Ended e]> (drains y)) (next_key y)).

(** What a process that is not stopped does to the pipes: write some bytes
    that fit, close a write end, fork, exit. *)
Inductive process_step (stopped : list Z) : pipes_state → pipes_state → Prop :=
| process_write y k P p bs :
    p ∉ stopped → pipes y !! k = Some P → p ∈ p_writers P → (length (p_content P ++ bs) ≤ capacity)%nat →
    process_step stopped y
      (PipesState (<[k := Pipe (p_log P ++ bs) (p_content P ++ bs) (p_writers P)]> (pipes y)) (drains y) (next_key y))
| process_close y k P p :
    p ∉ stopped → pipes y !! k = Some P →
    process_step stopped y
      (PipesState (<[k := Pipe (p_log P) (p_content P) (p_writers P ∖ {[p]})]> (pipes y)) (drains y) (next_key y))
| process_fork y p c : p ∉ stopped → c ∉ stopped → process_step stopped y (inherit p c y)
| process_exit y p : p ∉ stopped → process_step stopped y (release p y).

(** The session, its tracees and its threads; a pid the kernel hands out is no
    live tracee's. *)
Inductive output_step : outputs → outputs → Prop :=
| step_thread k o y : drain_step k (o_pipes o) y → output_step o (with_pipes y o)
| step_process o y : process_step (o_snapshots o) (o_pipes o) y → output_step o (with_pipes y o)
| step_finish o :
    output_step o (Outputs (o_pipes o) (o_pid o) true (o_snapshots o) (o_stdout o) (o_stderr o))
| step_checkpoint o c :
    c ∉ o_snapshots o → c ≠ o_pid o → output_step o (checkpoint_outputs c o)
| step_restore o s c :
    s ∈ o_snapshots o → c ∉ o_snapshots o → c ≠ o_pid o → output_step o (restore_outputs s c o)
| step_respawn o pid : pid ∉ o_snapshots o → output_step o (respawn_outputs pid o)
| step_read_stdout o r : (read_stdout o).1 = Some r → output_step o (read_stdout o).2
| step_read_stderr o r : (read_stderr o).1 = Some r → output_step o (read_stderr o).2.

Definition reachable_outputs (o : outputs) : Prop := ∃ pid, rtc output_step (launch_outputs pid) o.

End Steps.

(** ** The invariant *)

Section Invariant.
Context (capacity : nat).

(** A running thread holds what left the pipe; one that ended well holds all
    that was ever written, and nobody can write more. *)
Definition thread_ok (P : pipe) (d : drain) : Prop :=
  match d with
  | Draining buf => p_log P = buf ++ p_content P
  | Ended (Returned (Ok bs)) => bs = p_log P ∧ p_writers P = ∅
  | Ended (Returned Panic) => False
  | Ended _ => True
  end.

Record pipes_ok (y : pipes_state) : Prop := mkPipesOk {
  ok_threads : ∀ k P, pipes y !! k = Some P → ∃ d, drains y !! k = Some d ∧ thread_ok P d;
  ok_room : ∀ k P, pipes y !! k = Some P → (length (p_content P) ≤ capacity)%nat;
  ok_keys : ∀ k, is_Some (pipes y !! k) → k < next_key y;
}.

Definition holds (c k : Z) (y : pipes_state) : Prop := ∃ P, pipes y !! k = Some P ∧ c ∈ p_writers P.

(** A change of who holds the write ends that gives none away for nothing. *)
Definition only_writers (f : pipe → pipe) : Prop :=
  ∀ P, p_log (f P) = p_log P ∧ p_content (f P) = p_content P ∧ (p_writers P = ∅ → p_writers (f P) = ∅).

Lemma thread_ok_writers P Q d :
  p_log Q = p_log P → p_content Q = p_content P → (p_writers P = ∅ → p_writers Q = ∅) →
  thread_ok P d → thread_ok Q d.
Proof. intros H1 H2 H3. unfold thread_ok. rewrite H1, H2. destruct d as [|[[]|]]; naive_solver. Qed.

Lemma map_pipes_ok f y : only_writers f → pipes_ok y → pipes_ok (map_pipes f y).
Proof.
  intros Hf [H1 H2 H3]. split; cbn; intros k.
  - intros Q (P & <- & HP)%lookup_fmap_Some. destruct (H1 _ _ HP) as (d & Hd & Ht). exists d.
    destruct (Hf P) as (? & ? & ?). split; [done|]. by eapply thread_ok_writers.
  - intros Q (P & <- & HP)%lookup_fmap_Some. destruct (Hf P) as (_ & -> & _). by eapply H2.
  - rewrite lookup_fmap, fmap_is_Some. apply H3.
Qed.

Lemma inherit_ok p c y : pipes_ok y → pipes_ok (inherit p c y).
Proof.
  apply map_pipes_ok. intros P. case_decide as Hp; [|done]. cbn. split; [done|]. split; [done|].
  intros He. rewrite He in Hp. set_solver.
Qed.

Lemma release_ok p y : pipes_ok y → pipes_ok (release p y).
Proof. apply map_pipes_ok. intros P. cbn. split; [done|]. split; [done|]. set_solver. Qed.

(** An update of one pipe and its thread. *)
Lemma update_ok y k P d :
  pipes_ok y → k < next_key y → thread_ok P d → (length (p_content P) ≤ capacity)%nat →
  pipes_ok (PipesState (<[k := P]> (pipes y)) (<[k := d]> (drains y)) (next_key y)).
Proof.
  intros [H1 H2 H3] Hk Ht Hr. split; cbn; intros j.
  - intros Q [[<- <-]|[Hne HQ]]%lookup_insert_Some.
    + exists d. by rewrite lookup_insert_eq.
    + rewrite lookup_insert_ne by done. by apply H1.
  - intros Q [[<- <-]|[Hne HQ]]%lookup_insert_Some; [done|]. by eapply H2.
  - intros [Q [[<- _]|[_ HQ]]%lookup_insert_Some]; [done|]. by apply H3.
Qed.

Lemma drain_step_ok k y y' : drain_step k y y' → pipes_ok y → pipes_ok y'.
Proof.
  intros Hs Hok. pose proof Hok as [H1 H2 H3]. destruct Hs as [y P buf a b HP Hd Hc Ha|y P buf HP Hd Hc Hw|y buf e Hd He].
  - destruct (H1 _ _ HP) as (d & Hd' & Ht). rewrite Hd in Hd'. injection Hd' as <-. cbn in Ht.
    apply update_ok; [done|by apply H3| |].
    + cbn. by rewrite <- app_assoc, <- Hc.
    + specialize (H2 _ _ HP). rewrite Hc, length_app in H2. cbn. lia.
  - destruct (H1 _ _ HP) as (d & Hd' & Ht). rewrite Hd in Hd'. injection Hd' as <-. cbn in Ht.
    rewrite <- (insert_id _ _ _ HP). apply update_ok; [done|by apply H3| |by eapply H2].
    cbn. by rewrite Ht, Hc, app_nil_r.
  - destruct (pipes y !! k) as [P|] eqn:HP.
    + rewrite <- (insert_id _ _ _ HP). apply update_ok; [done|by apply H3| |by eapply H2].
      cbn. by destruct e as [[]|].
    + split; cbn; [|done|done]. intros j Q HQ. rewrite lookup_insert_ne by congruence. by apply H1.
Qed.

Lemma process_step_ok stopped y y' : process_step capacity stopped y y' → pipes_ok y → pipes_ok y'.
Proof.
  intros Hs Hok. pose proof Hok as [H1 H2 H3].
  destruct Hs as [y k P p bs Hp HP Hw Hr|y k P p Hp HP|y p c Hp Hc|y p Hp].
  - destruct (H1 _ _ HP) as (d & Hd & Ht). rewrite <- (insert_id _ _ _ Hd) at 1.
    apply update_ok; [done|by apply H3| |done]. unfold thread_ok in *. cbn.
    destruct d as [buf|[[bs'| |]|]]; try done; [by rewrite Ht, app_assoc|]. destruct Ht as [_ He]. set_solver.
  - destruct (H1 _ _ HP) as (d & Hd & Ht). rewrite <- (insert_id _ _ _ Hd) at 1.
    apply update_ok; [done|by apply H3| |exact (H2 _ _ HP)].
    eapply thread_ok_writers; [..|exact Ht]; cbn; [done|done|set_solver].
  - by apply inherit_ok.
  - by apply release_ok.
Qed.

Lemma piped_ok pid y k y' :
  piped pid y = (k, y') → pipes_ok y →
  pipes_ok y' ∧ holds pid k y' ∧ (∀ j, is_Some (pipes y !! j) → pipes y' !! j = pipes y !! j).
Proof.
  intros [= <- <-] [H1 H2 H3]. split; [|split].
  - assert (Hok : pipes_ok (PipesState (pipes y) (drains y) (next_key y + 1))).
    { split; cbn; [done|done|]. intros j Hj. specialize (H3 j Hj). lia. }
    apply (update_ok _ (next_key y) (Pipe [] [] {[pid]}) (Draining [])) in Hok; [done|cbn; lia|done|cbn; lia].
  - exists (Pipe [] [] {[pid]}). cbn. rewrite lookup_insert_eq. split; [done|]. set_solver.
  - intros j Hj. cbn. rewrite lookup_insert_ne; [done|]. intros <-. specialize (H3 _ Hj). lia.
Qed.

(** ** Who can still write *)

Lemma map_pipes_some f y k : is_Some (pipes (map_pipes f y) !! k) ↔ is_Some (pipes y !! k).
Proof. cbn. by rewrite lookup_fmap, fmap_is_Some. Qed.

Lemma inherit_holds p c k y : holds p k y → holds c k (inherit p c y).
Proof.
  intros (P & HP & Hp). unfold holds, inherit. cbn. rewrite lookup_fmap, HP. cbn. rewrite decide_True by done.
  eexists. split; [done|]. cbn. set_solver.
Qed.

Lemma inherit_kept p c q k y : holds q k y → holds q k (inherit p c y).
Proof.
  intros (P & HP & Hq). unfold holds, inherit. cbn. rewrite lookup_fmap, HP. cbn. eexists. split; [done|].
  case_decide; cbn; set_solver.
Qed.

Lemma release_kept p q k y : p ≠ q → holds q k y → holds q k (release p y).
Proof.
  intros Hne (P & HP & Hq). unfold holds, release. cbn. rewrite lookup_fmap, HP. cbn. eexists. split; [done|].
  cbn. set_solver.
Qed.

Lemma update_kept y k P Q d n q j :
  pipes y !! k = Some P → (q ∈ p_writers P → q ∈ p_writers Q) → holds q j y →
  holds q j (PipesState (<[k := Q]> (pipes y)) d n).
Proof.
  intros HP Hw (R & HR & Hq). unfold holds. cbn. destruct (decide (k = j)) as [<-|Hne].
  - rewrite lookup_insert_eq. exists Q. split; [done|]. apply Hw. congruence.
  - rewrite lookup_insert_ne by done. eauto.
Qed.

Lemma drain_step_kept k y y' q j : drain_step k y y' → holds q j y → holds q j y'.
Proof.
  intros [y0 P buf a b HP Hd Hc Ha|y0 P buf HP Hd Hc Hw|y0 buf e Hd He] Hq; [|done..].
  eapply update_kept; [done| |done]. done.
Qed.

(** A stopped process keeps its write ends. *)
Lemma process_step_kept stopped y y' q j :
  q ∈ stopped → process_step capacity stopped y y' → holds q j y → holds q j y'.
Proof.
  intros Hq [y0 k P p bs Hp HP Hw Hr|y0 k P p Hp HP|y0 p c Hp Hc|y0 p Hp] Hj.
  - eapply update_kept; [done| |done]. done.
  - eapply update_kept; [done| |done]. cbn. assert (p ≠ q) by (by intros ->). set_solver.
  - by apply inherit_kept.
  - apply release_kept; [by intros ->|done].
Qed.

Lemma drain_step_some k y y' j : drain_step k y y' → is_Some (pipes y !! j) → is_Some (pipes y' !! j).
Proof. intros [] Hj; cbn; [|done..]. rewrite lookup_insert_is_Some. by destruct (decide (k = j)); auto. Qed.

Lemma process_step_some stopped y y' j :
  process_step capacity stopped y y' → is_Some (pipes y !! j) → is_Some (pipes y' !! j).
Proof.
  intros [] Hj; [cbn; rewrite lookup_insert_is_Some; destruct (decide (k = j)); auto..| |]; by apply map_pipes_some.
Qed.

(** ** The session *)

Record outputs_ok (o : outputs) : Prop := mkOutputsOk {
  ok_pipes : pipes_ok (o_pipes o);
  ok_pid : o_pid o ∉ o_snapshots o;
  ok_stdout : ∀ k, o_stdout o = Some k → is_Some (pipes (o_pipes o) !! k);
  ok_stderr : ∀ k, o_stderr o = Some k → is_Some (pipes (o_pipes o) !! k);
}.

Lemma spawn_piped_ok pid snapshots y :
  pipes_ok y → pid ∉ snapshots →
  outputs_ok (spawn_piped pid snapshots y) ∧
  ∀ q k, holds q k y → holds q k (o_pipes (spawn_piped pid snapshots y)).
Proof.
  intros Hy Hpid. unfold spawn_piped. destruct (piped pid y) as [k1 y1] eqn:E1.
  destruct (piped_ok _ _ _ _ E1 Hy) as (Hy1 & H1 & K1). destruct (piped pid y1) as [k2 y2] eqn:E2.
  destruct (piped_ok _ _ _ _ E2 Hy1) as (Hy2 & H2 & K2).
  assert (S1 : is_Some (pipes y1 !! k1)) by (destruct H1 as (P & -> & _); done).
  assert (S2 : is_Some (pipes y2 !! k2)) by (destruct H2 as (P & -> & _); done).
  split.
  - split; cbn; [done|done| |]; intros k [= <-]; [by rewrite K2|done].
  - intros q k (P & HP & Hq). exists P. cbn. split; [|done].
    assert (Hk1 : pipes y1 !! k = Some P) by (rewrite K1; [done|by rewrite HP]). rewrite K2; [done|by rewrite Hk1].
Qed.

Lemma kill_output_ok o :
  outputs_ok o → pipes_ok (kill_output o) ∧
  (∀ k, is_Some (pipes (o_pipes o) !! k) → is_Some (pipes (kill_output o) !! k)) ∧
  ∀ q k, q ≠ o_pid o → holds q k (o_pipes o) → holds q k (kill_output o).
Proof.
  intros Ho. unfold kill_output. destruct (o_finished o).
  - split; [apply Ho|]. by split.
  - split; [apply release_ok, Ho|]. split; [intros k; apply map_pipes_some|]. intros q k Hq. by apply release_kept.
Qed.

Lemma output_step_ok o o' :
  output_step capacity o o' → outputs_ok o →
  outputs_ok o' ∧ (∀ c k, c ∈ o_snapshots o → holds c k (o_pipes o) → c ∈ o_snapshots o' ∧ holds c k (o_pipes o')).
Proof.
  intros Hs Ho. pose proof Ho as [H1 H2 H3 H4]. destruct Hs as [k o y Hd|o y Hp|o|o c Hc Hne|o s c Hs Hc Hne|o pid Hpid|o r Hr|o r Hr].
  - split; [split; cbn; [by eapply drain_step_ok|done|..]; eauto using drain_step_some|].
    intros c j Hc Hh. split; [done|]. by eapply drain_step_kept.
  - split; [split; cbn; [by eapply process_step_ok|done|..]; eauto using process_step_some|].
    intros c j Hc Hh. split; [done|]. by eapply process_step_kept.
  - by split; [split|].
  - split; [split; cbn; [by apply inherit_ok|rewrite elem_of_app, list_elem_of_singleton; naive_solver|..];
      intros k Hk; apply map_pipes_some; auto|].
    intros q k Hq Hh. cbn. split; [by apply elem_of_app; left|]. by apply inherit_kept.
  - assert (Ho' : outputs_ok (with_pipes (inherit s c (o_pipes o)) o)).
    { split; cbn; [by apply inherit_ok|done|..]; intros k Hk; apply map_pipes_some; auto. }
    destruct (kill_output_ok _ Ho') as (K1 & K2 & K3). pose proof Ho' as [_ _ G3 G4].
    split; [split; [done|done|..]; intros k Hk; apply K2; [by apply G3|by apply G4]|].
    intros q k Hq Hh. split; [done|]. apply K3; [cbn; by intros ->|]. by apply inherit_kept.
  - destruct (kill_output_ok _ Ho) as (K1 & K2 & K3). unfold respawn_outputs.
    destruct (spawn_piped_ok pid (o_snapshots o) (kill_output o) K1 Hpid) as [G1 G2]. split; [done|].
    intros q k Hq Hh. split; [done|]. apply G2, K3; [by intros ->|done].
  - by split; [split|].
  - by split; [split|].
Qed.

Lemma output_steps_ok o o' :
  rtc (output_step capacity) o o' → outputs_ok o →
  outputs_ok o' ∧ (∀ c k, c ∈ o_snapshots o → holds c k (o_pipes o) → c ∈ o_snapshots o' ∧ holds c k (o_pipes o')).
Proof.
  induction 1 as [o|o o1 o' Hs _ IH]; intros Ho; [done|].
  destruct (output_step_ok _ _ Hs Ho) as [Ho1 K1]. destruct (IH Ho1) as [Ho' K']. split; [done|].
  intros c k Hc Hh. destruct (K1 c k Hc Hh) as [Hc1 Hh1]. by apply K'.
Qed.

Lemma reachable_outputs_ok o : reachable_outputs capacity o → outputs_ok o.
Proof.
  intros [pid Hs]. apply (output_steps_ok _ _ Hs). apply spawn_piped_ok; [by split; cbn; intros; [..|destruct H]|].
  apply not_elem_of_nil.
Qed.

(** ** Properties *)

(** A pipe nobody can write any more, and its thread: the bytes still to come. *)
Definition to_read (k : Z) (y : pipes_state) : nat :=
  match pipes y !! k, drains y !! k with
  | Some P, Some (Draining _) => S (length (p_content P))
  | _, _ => 0
  end.

Definition shut (k : Z) (log : list byte) (y : pipes_state) : Prop :=
  pipes_ok y ∧ ∃ P, pipes y !! k = Some P ∧ p_log P = log ∧ p_writers P = ∅.

Lemma shut_step k log y y' : shut k log y → drain_step k y y' → shut k log y' ∧ (to_read k y' < to_read k y)%nat.
Proof.
  intros (Hok & P & HP & Hl & Hw) Hs. pose proof (drain_step_ok _ _ _ Hs Hok) as Hok'. unfold to_read.
  destruct Hs as [y P' buf a b HP' Hd Hc Ha|y P' buf HP' Hd Hc Hw'|y buf e Hd He]; simplify_eq; rewrite Hd, HP; cbn.
  - rewrite !lookup_insert_eq. split.
    + split; [done|]. cbn. rewrite lookup_insert_eq. by eexists.
    + rewrite Hc, length_app. destruct a; [done|]. cbn. lia.
  - rewrite HP, lookup_insert_eq. split; [|lia]. split; [done|]. by exists P.
  - rewrite HP, lookup_insert_eq. split; [|lia]. split; [done|]. by exists P.
Qed.

Lemma shut_answers k log y :
  shut k log y →
  join_drain (Some k) y = Some (Ok log) ∨ join_drain (Some k) y = Some (Err ROutput) ∨
  join_drain (Some k) y = None ∧ ∃ y', drain_step k y y'.
Proof.
  intros (Hok & P & HP & <- & Hw). destruct (ok_threads _ Hok _ _ HP) as (d & Hd & Ht). unfold join_drain. rewrite Hd.
  destruct d as [buf|[[bs|e|]|]]; cbn in *; auto.
  - right. right. split; [done|]. destruct (p_content P) as [|x l] eqn:Hc.
    + eexists. by eapply drain_eof.
    + eexists. eapply (drain_read _ _ _ _ (x :: l) []); [done..|by rewrite app_nil_r|done].
  - left. by destruct Ht as [-> _].
  - done.
Qed.

Lemma shut_steps k log n y y' :
  shut k log y → nsteps (drain_step k) n y y' → shut k log y' ∧ (n + to_read k y' ≤ to_read k y)%nat.
Proof.
  intros Hy Hs. revert Hy. induction Hs as [y|n y y1 y' Hs _ IH]; intros Hy; [by split|].
  destruct (shut_step _ _ _ _ Hy Hs) as [Hy1 L]. destruct (IH Hy1) as [Hy' L']. split; [done|]. lia.
Qed.

(** C37. What the session reads back is what the target printed.  However the
    target, its children, the reader threads and the session's own moves
    interleave, in any reachable state: a read that returns gives every byte
    ever written to that pipe, in order, and no process can write more; the
    thread is never stuck on a pipe with something in it, so a full pipe never
    stops the target for good; once no process holds the write end the thread
    ends, within one step more than the bytes left, with all of them (or a
    reported failure).  But a fork snapshot holds the write ends of the process
    it was taken of: while the session keeps it, the read never gives
    anything. *)
Theorem output_read_exact (o : outputs) (k : Z) :
  reachable_outputs capacity o → (o_stdout o = Some k ∨ o_stderr o = Some k) →
  ∃ P, pipes (o_pipes o) !! k = Some P ∧
    (∀ bs, join_drain (Some k) (o_pipes o) = Some (Ok bs) → bs = p_log P ∧ p_writers P = ∅) ∧
    (join_drain (Some k) (o_pipes o) = None → p_content P ≠ [] → ∃ y, drain_step k (o_pipes o) y) ∧
    (p_writers P = ∅ → ∀ n y, nsteps (drain_step k) n (o_pipes o) y →
       (n ≤ S (length (p_content P)))%nat ∧
       (join_drain (Some k) y = Some (Ok (p_log P)) ∨ join_drain (Some k) y = Some (Err ROutput) ∨
        join_drain (Some k) y = None ∧ ∃ y', drain_step k y y')) ∧
    (∀ c, c ∈ o_snapshots o → c ∈ p_writers P → ∀ o' bs, rtc (output_step capacity) o o' →
       join_drain (Some k) (o_pipes o') ≠ Some (Ok bs)).
Proof.
  intros Hr Hk. pose proof (reachable_outputs_ok _ Hr) as Ho. pose proof Ho as [Hy _ H3 H4].
  assert (HP : is_Some (pipes (o_pipes o) !! k)) by (destruct Hk; auto). destruct HP as [P HP]. exists P.
  assert (Hj : ∀ y Q bs, pipes_ok y → pipes y !! k = Some Q → join_drain (Some k) y = Some (Ok bs) →
    bs = p_log Q ∧ p_writers Q = ∅).
  { intros y Q bs Hok HQ. destruct (ok_threads _ Hok _ _ HQ) as (d & Hd & Ht). unfold join_drain. rewrite Hd.
    destruct d as [buf|[[bs'| |]|]]; cbn in *; try done. intros [= <-]. done. }
  split; [done|]. split; [|split; [|split]].
  - intros bs. by apply Hj.
  - destruct (ok_threads _ Hy _ _ HP) as (d & Hd & Ht). unfold join_drain. rewrite Hd.
    destruct d as [buf|[[]|]]; try done. intros _ Hc. eexists.
    eapply (drain_read _ _ _ _ _ []); [done..|by rewrite app_nil_r|done].
  - intros Hw n y Hs. assert (Hsh : shut k (p_log P) (o_pipes o)) by (split; [done|]; by exists P).
    destruct (shut_steps _ _ _ _ _ Hsh Hs) as [Hsh' L]. split; [|by apply shut_answers].
    unfold to_read in L. rewrite HP in L. destruct (drains (o_pipes o) !! k) as [[]|]; lia.
  - intros c Hc Hw o' bs Hs Hb. destruct (output_steps_ok _ _ Hs Ho) as [[Hy' _ _ _] K].
    destruct (K c k Hc) as (_ & Q & HQ & Hcw); [by exists P|]. apply (Hj _ _ _ Hy' HQ) in Hb as [_ Hb].
    rewrite Hb in Hcw. by apply not_elem_of_empty in Hcw.
Qed.

End Invariant.

(** ** Samples *)

Definition hi : list byte := [x68; x69].

(** The target prints, its thread reads what it printed, the target exits, the
    thread sees the end. *)
Definition printed : pipes_state :=
  PipesState {[0 := Pipe hi hi {[7]}; 1 := Pipe [] [] {[7]}]} {[0 := Draining []; 1 := Draining []]} 2.
Definition passed_on : pipes_state :=
  PipesState {[0 := Pipe hi [] {[7]}; 1 := Pipe [] [] {[7]}]} {[0 := Draining hi; 1 := Draining []]} 2.
Definition drained : pipes_state :=
  PipesState {[0 := Pipe hi [] ∅; 1 := Pipe [] [] ∅]} {[0 := Ended (Returned (Ok hi)); 1 := Draining []]} 2.

Lemma hi_read : reachable_outputs 16 (Outputs drained 7 true [] (Some 0) (Some 1)).
Proof.
  exists 7. apply rtc_l with (Outputs printed 7 false [] (Some 0) (Some 1)).
  { refine (step_process 16 (launch_outputs 7) printed _).
    refine (process_write 16 [] (o_pipes (launch_outputs 7)) 0 (Pipe [] [] {[7]}) 7 hi _ _ _ _).
    - apply not_elem_of_nil.
    - reflexivity.
    - cbn [p_writers]. set_solver.
    - cbn. lia. }
  apply rtc_l with (Outputs passed_on 7 false [] (Some 0) (Some 1)).
  { refine (step_thread 16 0 (Outputs printed 7 false [] (Some 0) (Some 1)) passed_on _).
    by refine (drain_read 0 printed (Pipe hi hi {[7]}) [] hi [] _ _ _ _). }
  apply rtc_l with (Outputs (release 7 passed_on) 7 false [] (Some 0) (Some 1)).
  { refine (step_process 16 (Outputs passed_on 7 false [] (Some 0) (Some 1)) _ (process_exit 16 [] _ 7 _)).
    apply not_elem_of_nil. }
  apply rtc_l with (Outputs (release 7 passed_on) 7 true [] (Some 0) (Some 1)).
  { refine (step_finish 16 (Outputs (release 7 passed_on) 7 false [] (Some 0) (Some 1))). }
  apply rtc_once. refine (step_thread 16 0 (Outputs (release 7 passed_on) 7 true [] (Some 0) (Some 1)) drained _).
  by refine (drain_eof 0 (release 7 passed_on) (Pipe hi [] ∅) hi _ _ _ _).
Qed.

Lemma output_read_exact_witness :
  (read_stdout (Outputs drained 7 true [] (Some 0) (Some 1))).1 = Some (Ok hi) ∧
  ∃ P, pipes drained !! 0 = Some P ∧ p_log P = hi.
Proof.
  split; [reflexivity|].
  destruct (output_read_exact 16 (Outputs drained 7 true [] (Some 0) (Some 1)) 0 hi_read (or_introl eq_refl))
    as (P & HP & He & _).
  exists P. split; [exact HP|]. symmetry. apply (He hi). reflexivity.
Defined.

(** Checkpoints taken on the way: the target has exited, its reader waits for
    the snapshot 8. *)
Lemma snapshot_blocks_read :
  let o := checkpoint_outputs 8 (launch_outputs 7) in
  let o := Outputs (release 7 (o_pipes o)) 7 true (o_snapshots o) (o_stdout o) (o_stderr o) in
  (read_stdout o).1 = None ∧ holds 8 0 (o_pipes o).
Proof. split; [reflexivity|]. exists (Pipe [] [] {[8]}). split; [reflexivity|]. vm_compute. reflexivity. Qed.

(** A respawn between a checkpoint and the return to it: the target writes to
    its first pipe, the session reads another. *)
Lemma restored_target_unread :
  let o := restore_outputs 8 10 (respawn_outputs 9 (checkpoint_outputs 8 (launch_outputs 7))) in
  o_pid o = 10 ∧ o_stdout o = Some 2 ∧ holds 10 0 (o_pipes o) ∧ ¬ holds 10 2 (o_pipes o).
Proof.
  split; [reflexivity|]. split; [reflexivity|]. split.
  - exists (Pipe [] [] {[10; 8]}). split; [reflexivity|]. vm_compute. reflexivity.
  - intros (P & HP & Hin). vm_compute in HP. injection HP as <-. vm_compute in Hin. discriminate Hin.
Qed.
