(* ===== verification/Arch.v ===== *)
(** * The two architectures of the replay: [replay/regs.rs],
    [replay/watchpoint_hw.rs], [recorder/capture/syscall.rs]

    The x86-64 register access is in [Replay] and [Watchpoint]; here are its
    aarch64 counterparts, the interface both implement ([RegisterPort] with
    [PortLaws]), and the snapshot of [checkpoint.rs] over that interface: it
    leaves the process it forks exactly as it found it. *)

From S2P Require Import Prelude StdIo TraceFormat TraceLog Payload Ptrace Capture Watchpoint Schedule Replay.

(** ** The aarch64 calls *)

(** [user_pt_regs], the general registers [x0]..[x30] in order. *)
Record user_pt_regs := mkPtRegs { x_regs : list Z; a_sp : Z; a_pc : Z; a_pstate : Z }.

#[export] Instance user_pt_regs_eq_dec : EqDecision user_pt_regs.
Proof. solve_decision. Defined.

(** One [DBGWVR]/[DBGWCR] pair, and the [NT_ARM_HW_WATCH] payload. *)
Record HwDebugReg := mkHwReg { hw_addr : Z; hw_ctrl : Z; hw_pad : Z }.
Record HwDebugState := mkHwState { hw_dbg_info : Z; hw_state_pad : Z; hw_reg : HwDebugReg }.

Definition HwDebugState_default : HwDebugState := mkHwState 0 0 (mkHwReg 0 0 0).

(** [PTRACE_GETREGSET] and [PTRACE_SETREGSET] with the notes the code uses. *)
Class Regsets (W : Type) := {
  get_prstatus : Z → kop W user_pt_regs;
  set_prstatus : Z → user_pt_regs → kop W unit;
  set_system_call : Z → Z → kop W unit;
  set_watch_regset : Z → HwDebugState → kop W unit;
}.

Definition xreg (i : nat) (r : user_pt_regs) : Z := default 0 (x_regs r !! i).
Definition with_xreg (i : nat) (v : Z) (r : user_pt_regs) : user_pt_regs :=
  mkPtRegs (<[i := v]> (x_regs r)) (a_sp r) (a_pc r) (a_pstate r).
Definition with_pc (v : Z) (r : user_pt_regs) : user_pt_regs :=
  mkPtRegs (x_regs r) (a_sp r) v (a_pstate r).

(** [SYS_clone] of this architecture. *)
Definition A64_SYS_clone : Z := 220.

Section A64.
Context {W : Type} {KW : Kernel W} {UW : Unwind W} {RW : Regsets W}.
#[local] Abbreviation M := (stm W ReplayError).

(** ** Registers ([regs.rs], aarch64) *)

Definition a64_read (pid : Z) : M Registers :=
  regs ← call RPtrace (get_prstatus pid);
  mret (mkRegisters (xreg 8 regs) (as_i 64 (xreg 0 regs))
          [xreg 0 regs; xreg 1 regs; xreg 2 regs; xreg 3 regs; xreg 4 regs; xreg 5 regs]).

Definition set_syscall_nr (pid nr : Z) : M unit := call RPtrace (set_system_call pid nr).

Definition a64_suppress_syscall (pid : Z) : M unit := set_syscall_nr pid (-1).

Definition a64_set_return (pid ret : Z) : M unit :=
  regs ← call RPtrace (get_prstatus pid);
  call RPtrace (set_prstatus pid (with_xreg 0 (as_u 64 ret) regs)).

Definition a64_save_full (pid : Z) : M user_pt_regs := call RPtrace (get_prstatus pid).
Definition a64_restore_full (pid : Z) (regs : user_pt_regs) : M unit := call RPtrace (set_prstatus pid regs).

Definition a64_prepare_fork (r : user_pt_regs) : user_pt_regs :=
  let r := with_pc (as_u 64 (a_pc r - 4)) r in
  let r := with_xreg 8 A64_SYS_clone r in
  let r := with_xreg 0 SIGCHLD r in
  with_xreg 4 0 (with_xreg 3 0 (with_xreg 2 0 (with_xreg 1 0 r))).

(** ** The recorder's register read ([syscall.rs], aarch64) *)

Definition a64_read_syscall_regs (pid : Z) : stm W CaptureError SyscallRegs :=
  regs ← call CapPtrace (get_prstatus pid);
  mret (mkSyscallRegs (xreg 8 regs) (as_i 64 (xreg 0 regs))
          [xreg 0 regs; xreg 1 regs; xreg 2 regs; xreg 3 regs; xreg 4 regs; xreg 5 regs]).

(** ** Watchpoints ([watchpoint_hw.rs], aarch64) *)

Definition set_hw_watch (pid : Z) (state : HwDebugState) : stm W arm_error unit := λ w,
  let '(r, w) := set_watch_regset pid state w in
  (match r with inl _ => Ok tt | inr _ => Err ArmFailed end, w).

Definition a64_arm (pid addr len : Z) (kind : WatchKind) : stm W arm_error unit :=
  '(aligned, ctrl) ← st_lift (map_err ArmRequest (aarch64_control addr len kind));
  set_hw_watch pid (mkHwState 0 0 (mkHwReg aligned ctrl 0)).

Definition a64_disarm (pid : Z) : stm W arm_error unit := set_hw_watch pid HwDebugState_default.

(** [step_over_watch] of [session.rs], aarch64: the trap comes before the
    access. *)
Definition a64_step_over_watch (pid : Z) : stm (ReplaySession W) ReplayError unit :=
  wp ← st_gets ss_watchpoint;
  match wp with
  | None => mret tt
  | Some wp =>
      on_kernel (with_err arm_replay (a64_disarm pid));;
      on_kernel (call RPtrace (pt_step pid));;
      status ← on_kernel (call RPtrace (sys_waitpid pid));
      match status with
      | Stopped _ sig => if sig =? SIGTRAP then mret tt else st_throw RWatchpoint
      | _ => st_throw RWatchpoint
      end;;
      on_kernel (with_err arm_replay (a64_arm pid (wp_addr wp) (wp_len wp) (wp_kind wp)))
  end.

End A64.

(** ** The interface *)

(** What [regs.rs] gives the rest of the crate, over the register file [R]. *)
Class RegisterPort (W R : Type) := {
  port_read : Z → stm W ReplayError Registers;
  port_suppress : Z → stm W ReplayError unit;
  port_set_return : Z → Z → stm W ReplayError unit;
  port_save : Z → stm W ReplayError R;
  port_restore : Z → R → stm W ReplayError unit;
  port_prepare : R → R;
}.

Definition x86_port {W} `{Kernel W} : RegisterPort W user_regs := {|
  port_read := regs_read; port_suppress := suppress_syscall; port_set_return := set_return;
  port_save := save_full; port_restore := restore_full; port_prepare := prepare_fork |}.

Definition a64_port {W} `{Regsets W} : RegisterPort W user_pt_regs := {|
  port_read := a64_read; port_suppress := a64_suppress_syscall; port_set_return := a64_set_return;
  port_save := a64_save_full; port_restore := a64_restore_full; port_prepare := a64_prepare_fork |}.

(** The parts of a register file a system call is about: its number, its
    result, its arguments, the address of the next instruction; and the length
    of the instruction that makes one. *)
Class CallLayout (R : Type) := {
  r_number : R → Z; r_result : R → Z; r_arguments : R → list Z; r_next : R → Z;
  insn_len : Z; clone_number : Z; r_wf : R → Prop;
}.

#[export] Instance x86_layout : CallLayout user_regs := {|
  r_number := orig_rax; r_result := rax;
  r_arguments r := [rdi r; rsi r; rdx r; r10 r; r8 r; r9 r];
  r_next := rip; insn_len := 2; clone_number := SYS_clone; r_wf _ := True |}.

#[export] Instance a64_layout : CallLayout user_pt_regs := {|
  r_number := xreg 8; r_result := xreg 0;
  r_arguments r := [xreg 0 r; xreg 1 r; xreg 2 r; xreg 3 r; xreg 4 r; xreg 5 r];
  r_next := a_pc; insn_len := 4; clone_number := A64_SYS_clone; r_wf r := length (x_regs r) = 31%nat |}.

(** What the port promises of stopped tracees: [file] is a tracee's register
    file, [dispatched] the number of the call it is about to make. *)
Class PortLaws (W R : Type) {P : RegisterPort W R} {L : CallLayout R} := {
  file : Z → W → option R;
  dispatched : Z → W → option Z;
  frame (p : Z) (w w' : W) : Prop := ∀ q, q ≠ p → file q w' = file q w;
  read_law p w r : file p w = Some r →
    port_read p w = (Ok (mkRegisters (r_number r) (as_i 64 (r_result r)) (r_arguments r)), w);
  suppress_law p w r : file p w = Some r → ∃ w' r',
    port_suppress p w = (Ok tt, w') ∧ dispatched p w' = Some (-1) ∧ file p w' = Some r' ∧ frame p w w' ∧
    r_arguments r' = r_arguments r ∧ r_next r' = r_next r;
  set_return_law p w r ret : file p w = Some r → r_wf r → ∃ w' r',
    port_set_return p ret w = (Ok tt, w') ∧ file p w' = Some r' ∧ frame p w w' ∧
    r_result r' = as_u 64 ret ∧ r_next r' = r_next r ∧ tail (r_arguments r') = tail (r_arguments r);
  save_law p w r w' : port_save p w = (Ok r, w') → w' = w ∧ file p w = Some r;
  restore_law p r w w' : port_restore p r w = (Ok tt, w') → file p w' = Some r ∧ frame p w w';
  prepare_law r : r_wf r →
    r_number (port_prepare r) = clone_number ∧ r_next (port_prepare r) = as_u 64 (r_next r - insn_len) ∧
    take 5 (r_arguments (port_prepare r)) = [SIGCHLD; 0; 0; 0; 0];
}.

(** ** The snapshot, over the interface *)

Section Snapshot.
Context {W R : Type} {KW : Kernel W} {P : RegisterPort W R}.
#[local] Abbreviation M := (stm W ReplayError).

Definition port_fork_snapshot (pid : Z) : M Z :=
  saved ← port_save pid;
  port_restore pid (port_prepare saved);;
  call RPtrace (pt_step pid);;
  child ← wait_for_fork_child pid;
  status ← call RPtrace (sys_waitpid child);
  match status with
  | Stopped _ _ | PtraceEvent _ _ => mret tt
  | _ => st_throw (RCheckpoint None)
  end;;
  setup_options child;;
  call RPtrace (pt_syscall pid None);;
  status ← call RPtrace (sys_waitpid pid);
  match status with
  | PtraceSyscall _ => mret tt
  | _ => st_throw (RCheckpoint None)
  end;;
  port_restore pid saved;;
  port_restore child saved;;
  mret child.

End Snapshot.

(** On x86-64 it is the snapshot of [Replay]. *)
Lemma x86_snapshot {W} `{Kernel W} pid : fork_snapshot pid = port_fork_snapshot (P := x86_port) pid.
Proof. reflexivity. Qed.

(** ** Both architectures keep the interface *)

(** [PTRACE_GETREGS] and [PTRACE_SETREGS] of a stopped tracee. *)
Class StoppedX86 (W : Type) `{Kernel W} := {
  x_file : Z → W → option user_regs;
  x_getregs p w : pt_getregs p w = match x_file p w with Some r => (inl r, w) | None => (inr ESRCH, w) end;
  x_setregs p r w : match x_file p w with
    | Some _ => ∃ w', pt_setregs p r w = (inl tt, w') ∧ x_file p w' = Some r ∧ ∀ q, q ≠ p → x_file q w' = x_file q w
    | None => pt_setregs p r w = (inr ESRCH, w) end;
}.

(** The regsets of a stopped tracee; the number of the call in flight is one of
    its own. *)
Class StoppedA64 (W : Type) `{Regsets W} := {
  a_file : Z → W → option user_pt_regs;
  a_call : Z → W → option Z;
  a_watch : Z → W → option HwDebugState;
  a_getregs p w : get_prstatus p w = match a_file p w with Some r => (inl r, w) | None => (inr ESRCH, w) end;
  a_setregs p r w : match a_file p w with
    | Some _ => ∃ w', set_prstatus p r w = (inl tt, w') ∧ a_file p w' = Some r ∧ ∀ q, q ≠ p → a_file q w' = a_file q w
    | None => set_prstatus p r w = (inr ESRCH, w) end;
  a_setcall p n w : match a_file p w with
    | Some r => ∃ w', set_system_call p n w = (inl tt, w') ∧ a_call p w' = Some n ∧ ∀ q, a_file q w' = a_file q w
    | None => set_system_call p n w = (inr ESRCH, w) end;
  a_setwatch p x w : match set_watch_regset p x w with
    | (inl _, w') => a_watch p w' = Some x
    | (inr _, w') => w' = w end;
}.

Section X86.
Context {W : Type} {KW : Kernel W} {SX : StoppedX86 W}.

Lemma x86_write p f w r :
  x_file p w = Some r → ∃ w', (regs ← call RPtrace (pt_getregs p); call RPtrace (pt_setregs p (f regs))) w = (Ok tt, w') ∧
    x_file p w' = Some (f r) ∧ ∀ q, q ≠ p → x_file q w' = x_file q w.
Proof.
  intros Hr. pose proof (x_setregs p (f r) w) as Hs. rewrite Hr in Hs. destruct Hs as (w' & Hs & Hf & Hq).
  exists w'. split; [|done]. erewrite bind_run; [by apply call_run|]. apply call_run. by rewrite x_getregs, Hr.
Qed.

#[export, program] Instance x86_lawful : PortLaws W user_regs (P := x86_port) := {|
  file := x_file; dispatched p w := (λ r, as_i 64 (orig_rax r)) <$> x_file p w |}.
Next Obligation.
  intros p w r Hr. cbn. unfold regs_read. erewrite bind_run; [|apply call_run; by rewrite x_getregs, Hr]. done.
Qed.
Next Obligation.
  intros p w r Hr. destruct (x86_write p (with_orig_rax U64_MAX) w r Hr) as (w' & Hw & Hf & Hq).
  exists w', (with_orig_rax U64_MAX r). split; [exact Hw|]. by rewrite Hf.
Qed.
Next Obligation.
  intros p w r ret Hr _. destruct (x86_write p (with_rax (as_u 64 ret)) w r Hr) as (w' & Hw & Hf & Hq).
  exists w', (with_rax (as_u 64 ret) r). split; [exact Hw|]. done.
Qed.
Next Obligation.
  intros p w r w' Hs%call_ok. rewrite x_getregs in Hs. by destruct (x_file p w); simplify_eq.
Qed.
Next Obligation.
  intros p r w w' Hs%call_ok. pose proof (x_setregs p r w) as Hl. destruct (x_file p w); [|by rewrite Hs in Hl].
  destruct Hl as (w1 & Hl & Hf & Hq). rewrite Hs in Hl. by injection Hl as <-.
Qed.
Next Obligation. done. Qed.

End X86.

Section A64Laws.
Context {W : Type} {KW : Kernel W} {UW : Unwind W} {RW : Regsets W} {SA : StoppedA64 W}.

Lemma xreg_with i j v r :
  (j < length (x_regs r))%nat → xreg i (with_xreg j v r) = if decide (i = j) then v else xreg i r.
Proof.
  intros Hj. unfold xreg, with_xreg. cbn. case_decide as Hij; [subst; by rewrite list_lookup_insert_eq|].
  by rewrite list_lookup_insert_ne.
Qed.

#[export, program] Instance a64_lawful : PortLaws W user_pt_regs (P := a64_port) := {|
  file := a_file; dispatched := a_call |}.
Next Obligation.
  intros p w r Hr. cbn. unfold a64_read. erewrite bind_run; [|apply call_run; by rewrite a_getregs, Hr]. done.
Qed.
Next Obligation.
  intros p w r Hr. pose proof (a_setcall p (-1) w) as Hs. rewrite Hr in Hs. destruct Hs as (w' & Hs & Hc & Hf).
  exists w', r. split; [by apply call_run|]. split; [done|]. rewrite Hf. split; [done|]. split; [|done].
  intros q _. apply Hf.
Qed.
Next Obligation.
  intros p w r ret Hr Hwf. pose proof (a_setregs p (with_xreg 0 (as_u 64 ret) r) w) as Hs. rewrite Hr in Hs.
  destruct Hs as (w' & Hs & Hf & Hq). exists w', (with_xreg 0 (as_u 64 ret) r). split.
  { cbn. unfold a64_set_return. erewrite bind_run; [by apply call_run|]. apply call_run. by rewrite a_getregs, Hr. }
  split; [done|]. split; [done|]. cbn in Hwf |- *. by rewrite !xreg_with by (rewrite Hwf; lia).
Qed.
Next Obligation.
  intros p w r w' Hs%call_ok. rewrite a_getregs in Hs. by destruct (a_file p w); simplify_eq.
Qed.
Next Obligation.
  intros p r w w' Hs%call_ok. pose proof (a_setregs p r w) as Hl. destruct (a_file p w); [|by rewrite Hs in Hl].
  destruct Hl as (w1 & Hl & Hf & Hq). rewrite Hs in Hl. by injection Hl as <-.
Qed.
Next Obligation.
  intros r Hwf. cbn in Hwf |- *. unfold a64_prepare_fork. cbv zeta.
  rewrite !xreg_with by (cbn; rewrite ?length_insert, Hwf; lia). done.
Qed.

End A64Laws.

(** A hit on aarch64 is stepped over with the watchpoint off, and left with it
    armed again as it was. *)
Lemma a64_rearmed {W} `{Kernel W, Unwind W, Regsets W, !StoppedA64 W} pid (s s' : ReplaySession W) wp :
  ss_watchpoint s = Some wp → a64_step_over_watch pid s = (Ok tt, s') →
  ∃ aligned ctrl, aarch64_control (wp_addr wp) (wp_len wp) (wp_kind wp) = Ok (aligned, ctrl) ∧
    a_watch pid (ss_world s') = Some (mkHwState 0 0 (mkHwReg aligned ctrl 0)) ∧
    ss_watchpoint s' = ss_watchpoint s.
Proof.
  intros Hwp Hx. unfold a64_step_over_watch in Hx. rewrite bind_gets, Hwp in Hx. st_inv.
  assert (Hk : ∀ A (m : stm W ReplayError A), keeps ss_watchpoint (on_kernel m)).
  { intros A m x. unfold on_kernel. by destruct (m (ss_world x)). }
  assert (Hst : ss_watchpoint s3 = ss_watchpoint s).
  { repeat match goal with
    | Hm : on_kernel _ _ = (Ok _, _) |- _ => apply (keeps_run _ _ _ _ _ (Hk _ _)) in Hm
    | Hm : match ?st with _ => _ end _ = (Ok _, _) |- _ => destruct st; try destruct (_ =? SIGTRAP); st_inv; try done
    end; congruence. }
  pose proof (keeps_run _ _ _ _ _ (Hk _ _) Hx) as Hx'. unfold on_kernel, with_err, a64_arm in Hx.
  clear Hx'. revert Hx. destruct (aarch64_control (wp_addr wp) (wp_len wp) (wp_kind wp)) as [[al c]| |]; [|done..].
  cbn [map_err]. rewrite bind_lift. unfold set_hw_watch.
  pose proof (a_setwatch pid (mkHwState 0 0 (mkHwReg al c 0)) (ss_world s3)) as Hw.
  destruct (set_watch_regset _ _ _) as [[[]|e] w]; intros Hx; [|done]. injection Hx as <-.
  exists al, c. split; [done|]. by split.
Qed.

(** ** Property *)

Section Lawful.
Context {W R : Type} {KW : Kernel W} {P : RegisterPort W R} {L : CallLayout R} {PL : PortLaws W R}.

Lemma lawful_restore p r (w w' : W) u : port_restore p r w = (Ok u, w') → file p w' = Some r ∧ frame p w w'.
Proof. destruct u. apply restore_law. Qed.

Lemma restores_both p c r (w w1 w2 : W) u v :
  port_restore p r w = (Ok u, w1) → port_restore c r w1 = (Ok v, w2) → file p w2 = Some r ∧ file c w2 = Some r.
Proof.
  intros [Hp _]%lawful_restore [Hc Hf]%lawful_restore. split; [|done].
  destruct (decide (p = c)) as [->|Hne]; [done|]. by rewrite Hf.
Qed.

(** C38. On either architecture a snapshot leaves no trace: whatever the kernel
    does with the registers while the injected [clone] runs, when
    [fork_snapshot] succeeds the process has exactly the register file it had
    before, and so has the child, which makes it a source of further snapshots;
    what was stepped is the system-call instruction the process stands after,
    as a plain [clone(SIGCHLD)].  And a result set at an exit stop is the
    result read back there. *)
Theorem snapshot_leaves_no_trace :
  (∀ (pid child : Z) (w w' : W), port_fork_snapshot pid w = (Ok child, w') →
     ∃ saved w1, file pid w = Some saved ∧ file pid w' = Some saved ∧ file child w' = Some saved ∧
       port_restore pid (port_prepare saved) w = (Ok tt, w1) ∧ file pid w1 = Some (port_prepare saved) ∧
       (r_wf saved →
          r_number (port_prepare saved) = clone_number ∧
          r_next (port_prepare saved) = as_u 64 (r_next saved - insn_len) ∧
          take 5 (r_arguments (port_prepare saved)) = [SIGCHLD; 0; 0; 0; 0])) ∧
  (∀ (pid ret : Z) (w : W) (r : R), file pid w = Some r → r_wf r → in_i 64 ret →
     ∃ w' x, port_set_return pid ret w = (Ok tt, w') ∧ port_read pid w' = (Ok x, w') ∧ g_ret x = ret).
Proof.
  split.
  - intros pid child w w' Hx. unfold port_fork_snapshot in Hx. st_inv.
    match goal with Hs : port_save pid w = _ |- _ => apply save_law in Hs as [-> Hs]; rename Hs into Hfile end.
    match goal with Hp : port_restore pid (port_prepare ?sv) _ = (Ok ?u, ?w1) |- _ =>
      destruct u; destruct (lawful_restore _ _ _ _ _ Hp) as [Hf1 _]; exists sv, w1; rename Hp into Hprep end.
    match goal with Hp : port_restore pid a _ = (Ok _, _), Hc : port_restore _ a _ = (Ok _, _) |- _ =>
      pose proof (restores_both _ _ _ _ _ _ _ _ Hp Hc) as Hboth end.
    split; [done|]. split; [apply Hboth|]. split; [apply Hboth|]. split; [done|]. split; [done|]. apply prepare_law.
  - intros pid ret w r Hr Hwf Hi. destruct (set_return_law pid w r ret Hr Hwf) as (w' & r' & Hs & Hf & _ & Hres & _).
    exists w'. eexists. split; [exact Hs|]. split; [by apply read_law|]. cbn. rewrite Hres. apply as_i_mod; [lia|done].
Qed.

End Lawful.

(** ** A kernel for both: tracees as register files *)

Record lab (R : Type) := Lab {
  l_files : gmap Z R; l_calls : gmap Z Z; l_watch : gmap Z HwDebugState; l_waits : list wait_status; l_child : Z
}.
Arguments Lab {R}. Arguments l_files {R}. Arguments l_calls {R}. Arguments l_watch {R}. Arguments l_waits {R}.
Arguments l_child {R}.

Section Lab.
Context {R : Type}.

Definition with_files (x : gmap Z R) (w : lab R) : lab R := Lab x (l_calls w) (l_watch w) (l_waits w) (l_child w).

Definition lab_get (p : Z) : kop (lab R) R := λ w,
  match l_files w !! p with Some r => (inl r, w) | None => (inr ESRCH, w) end.

Definition lab_set (p : Z) (r : R) : kop (lab R) unit := λ w,
  match l_files w !! p with Some _ => (inl tt, with_files (<[p := r]> (l_files w)) w) | None => (inr ESRCH, w) end.

(** The clone: the child is there, and both have other registers. *)
Definition lab_step (scramble : R → R) (p : Z) : kop (lab R) unit := λ w,
  match l_files w !! p with
  | Some r => (inl tt, with_files (<[l_child w := scramble r]> (<[p := scramble r]> (l_files w))) w)
  | None => (inr ESRCH, w)
  end.

Definition lab_wait : kop (lab R) wait_status := λ w,
  match l_waits w with
  | s :: sc => (inl s, Lab (l_files w) (l_calls w) (l_watch w) sc (l_child w))
  | [] => (inr ECHILD, w)
  end.

Definition lab_ok {A} (a : A) : kop (lab R) A := λ w, (inl a, w).

Definition lab_kernel (getregs : Z → kop (lab R) user_regs) (setregs : Z → user_regs → kop (lab R) unit)
    (scramble : R → R) : Kernel (lab R) := {|
  sys_waitpid_any := lab_wait; sys_waitpid _ := lab_wait; sys_kill _ _ := lab_ok tt; sys_setaffinity _ _ := lab_ok tt;
  sys_spawn_traced _ _ := lab_ok 1; pt_syscall _ _ := lab_ok tt; pt_step := lab_step scramble; pt_kill _ := lab_ok tt;
  pt_getregs := getregs; pt_setregs := setregs; pt_getevent _ := λ w, (inl (l_child w), w);
  pt_setoptions _ _ := lab_ok tt; pt_getsiginfo_code _ := lab_ok 0; pt_pokeuser _ _ _ := lab_ok tt;
  vm_readv _ _ n := lab_ok (replicate (Z.to_nat n) x00); vm_writev _ _ d := lab_ok (blen d);
  timer_install := lab_ok tt; timer_arm := lab_ok tt; timer_disarm := lab_ok tt; clock_elapsed_ns w := (0, w) |}.

Lemma lab_get_law p (w : lab R) :
  lab_get p w = match l_files w !! p with Some r => (inl r, w) | None => (inr ESRCH, w) end.
Proof. done. Qed.

Lemma lab_set_law p r (w : lab R) :
  match l_files w !! p with
  | Some _ => ∃ w', lab_set p r w = (inl tt, w') ∧ l_files w' !! p = Some r ∧
      ∀ q, q ≠ p → l_files w' !! q = l_files w !! q
  | None => lab_set p r w = (inr ESRCH, w)
  end.
Proof.
  unfold lab_set. destruct (l_files w !! p); [|done]. eexists. split; [done|]. cbn.
  rewrite lookup_insert_eq. split; [done|]. intros q Hq. by rewrite lookup_insert_ne.
Qed.

End Lab.

Definition scramble_x86 (r : user_regs) : user_regs := with_rax 0xdead r.
Definition scramble_a64 (r : user_pt_regs) : user_pt_regs := with_pc 0xdead (with_xreg 0 7 r).

#[local] Instance x86_lab : Kernel (lab user_regs) := lab_kernel lab_get lab_set scramble_x86.
#[local] Instance x86_lab_lawful : StoppedX86 (lab user_regs) := {|
  x_file p w := l_files w !! p; x_getregs := lab_get_law; x_setregs := lab_set_law |}.

#[local] Instance a64_lab : Kernel (lab user_pt_regs) :=
  lab_kernel (λ _ w, (inr ESRCH, w)) (λ _ _ w, (inr ESRCH, w)) scramble_a64.
#[local] Instance a64_lab_regsets : Regsets (lab user_pt_regs) := {|
  get_prstatus := lab_get; set_prstatus := lab_set;
  set_system_call p n w := match l_files w !! p with
    | Some _ => (inl tt, Lab (l_files w) (<[p := n]> (l_calls w)) (l_watch w) (l_waits w) (l_child w))
    | None => (inr ESRCH, w) end;
  set_watch_regset p x w := (inl tt, Lab (l_files w) (l_calls w) (<[p := x]> (l_watch w)) (l_waits w) (l_child w)) |}.

#[local, program] Instance a64_lab_lawful : StoppedA64 (lab user_pt_regs) := {|
  a_file p w := l_files w !! p; a_call p w := l_calls w !! p; a_watch p w := l_watch w !! p;
  a_getregs := lab_get_law; a_setregs := lab_set_law |}.
Next Obligation.
  intros p n w. cbn. destruct (l_files w !! p); [|done]. eexists. split; [done|]. cbn. by rewrite lookup_insert_eq.
Qed.
Next Obligation. intros p x w. cbn. by rewrite lookup_insert_eq. Qed.

Definition fork_waits : list wait_status := [PtraceEvent 5 PTRACE_EVENT_FORK; Stopped 6 SIGSTOP; PtraceSyscall 5].
Definition x86_stopped : user_regs := mkRegs 0 3 1 2 3 4 5 6 0x401002 [9].
Definition a64_stopped : user_pt_regs := mkPtRegs (seqZ 0 31) 0x7000 0x401004 0.

Lemma snapshot_leaves_no_trace_witness :
  (∃ w', fork_snapshot 5 (Lab {[5 := x86_stopped]} ∅ ∅ fork_waits 6) = (Ok 6, w') ∧
     l_files w' !! 5 = Some x86_stopped ∧ l_files w' !! 6 = Some x86_stopped) ∧
  (∃ w', port_fork_snapshot (P := a64_port) 5 (Lab {[5 := a64_stopped]} ∅ ∅ fork_waits 6) = (Ok 6, w') ∧
     l_files w' !! 5 = Some a64_stopped ∧ l_files w' !! 6 = Some a64_stopped).
Proof.
  split.
  - destruct (port_fork_snapshot (P := x86_port) 5 (Lab {[5 := x86_stopped]} ∅ ∅ fork_waits 6)) as [r w'] eqn:E.
    assert (Hr : r = Ok 6) by (apply (f_equal fst) in E; vm_compute in E; symmetry; exact E).
    subst r. exists w'. split; [exact E|].
    destruct (proj1 (snapshot_leaves_no_trace (PL := x86_lawful)) 5 6 _ w' E) as (saved & w1 & H1 & H2 & H3 & _).
    assert (Hs : saved = x86_stopped) by (vm_compute in H1; injection H1 as <-; reflexivity).
    subst saved. exact (conj H2 H3).
  - destruct (port_fork_snapshot (P := a64_port) 5 (Lab {[5 := a64_stopped]} ∅ ∅ fork_waits 6)) as [r w'] eqn:E.
    assert (Hr : r = Ok 6) by (apply (f_equal fst) in E; vm_compute in E; symmetry; exact E).
    subst r. exists w'. split; [reflexivity|].
    destruct (proj1 (snapshot_leaves_no_trace (PL := a64_lawful)) 5 6 _ w' E) as (saved & w1 & H1 & H2 & H3 & _).
    assert (Hs : saved = a64_stopped) by (vm_compute in H1; injection H1 as <-; reflexivity).
    subst saved. exact (conj H2 H3).
Defined.
