(* ===== verification/WatchArm.v ===== *)
(** * What an armed watchpoint traps on

    The session's [watch], and the arming of either architecture
    ([replay/session.rs], [watchpoint_hw.rs]), down to the debug registers of
    the tracee, read the way the processor reads them ([Watchpoint]). *)

From S2P Require Import Prelude TraceFormat Ptrace Capture Watchpoint Schedule Replay Arch.

(** The debug registers of a tracee behind [PTRACE_POKEUSER]: eight words of
    [struct user], from byte 848 on; reading memory leaves them alone. *)
Class DebugRegisters (W : Type) `{Kernel W} := {
  debugreg : Z → W → Z → Z;
  debugreg_poke p i v w : 0 ≤ i < 8 →
    match pt_pokeuser p (848 + 8 * i) v w with
    | (inl _, w') => ∀ q j, debugreg q w' j = if decide (q = p ∧ j = i) then v else debugreg q w j
    | (inr _, w') => ∀ q j, debugreg q w' j = debugreg q w j
    end;
  debugreg_readv p a n w : ∀ q j, debugreg q (vm_readv p a n w).2 j = debugreg q w j;
}.

Section X86.
Context {W : Type} `{DebugRegisters W} `{!Unwind W}.

(** [DR0] and [DR7] are set, and nothing else. *)
Lemma arm_sets p addr len kind w u w' :
  arm p addr len kind w = (Ok u, w') →
  ∃ dr7, x86_dr7 kind len = Ok dr7 ∧ ∀ q j, debugreg q w' j =
    if decide (q = p ∧ j = 7) then dr7 else if decide (q = p ∧ j = 0) then addr else debugreg q w j.
Proof.
  intros Hx. unfold arm in Hx. destruct (x86_dr7 kind len) as [dr7|e|] eqn:Hd; [|done..].
  cbn [map_err] in Hx. rewrite bind_lift in Hx. st_inv.
  unfold poke_user in *. pose proof (debugreg_poke p 0 addr w ltac:(lia)) as L0.
  change (848 + 8 * 0) with DR0_OFFSET in L0. destruct (pt_pokeuser p DR0_OFFSET addr w) as [[[]|e] w1]; [|done].
  injection Hm as _ <-. pose proof (debugreg_poke p 7 dr7 w1 ltac:(lia)) as L7.
  change (848 + 8 * 7) with DR7_OFFSET in L7. destruct (pt_pokeuser p DR7_OFFSET dr7 w1) as [[[]|e] w2]; [|done].
  injection Hx as _ <-. exists dr7. split; [done|]. intros q j. by rewrite L7, L0.
Qed.

(** A thread that watches the range, and its kind of access, and no more. *)
Definition watching (p addr len : Z) (kind : WatchKind) (w : W) : Prop :=
  ∀ acc a, x86_watches (debugreg p w) acc a ↔ addr ≤ a < addr + len ∧ wanted kind acc.

Lemma set_watching p addr len kind dr7 w :
  validate addr len = Ok tt → x86_dr7 kind len = Ok dr7 → debugreg p w 0 = addr → debugreg p w 7 = dr7 →
  watching p addr len kind w.
Proof.
  intros [Hl Hm]%validate_iff Hd E0 E7. rewrite <- E0 in Hm |- *. rewrite <- E7 in Hd.
  exact (x86_dr7_reads kind len (debugreg p w) Hl Hd Hm).
Qed.

Lemma for_each_arms l addr len kind (s s' : ReplaySession W) u :
  for_each l (λ p, on_kernel (with_err arm_replay (arm p addr len kind))) s = (Ok u, s') →
  (∃ w', s' = set_world w' s) ∧
  ∀ dr7, x86_dr7 kind len = Ok dr7 → ∀ q j, debugreg q (ss_world s') j =
    if decide (q ∈ l ∧ j = 7) then dr7 else if decide (q ∈ l ∧ j = 0) then addr else debugreg q (ss_world s) j.
Proof.
  revert s. induction l as [|p l IH]; intros s Hx; cbn [for_each] in Hx.
  - injection Hx as _ <-. split; [by exists (ss_world s); destruct s|]. intros dr7 _ q j.
    by rewrite !decide_False by (by intros [?%not_elem_of_nil _]).
  - st_inv. unfold on_kernel, with_err in Hm. destruct (arm p addr len kind (ss_world s)) as [[v|e|] w1] eqn:Ha; try done.
    injection Hm as _ <-. apply IH in Hx as [[w2 ->] Hx]. destruct (arm_sets _ _ _ _ _ _ _ Ha) as (d & Hd & Hs).
    split; [by exists w2; destruct s|]. intros dr7 Hd' q j. rewrite (Hx dr7 Hd'). cbn [ss_world set_world].
    rewrite Hd in Hd'. injection Hd' as ->. rewrite Hs. repeat case_decide; set_solver.
Qed.

Lemma read_keeps p addr len (s s' : ReplaySession W) r :
  on_kernel (read_memory p addr len) s = (r, s') → ∀ q j, debugreg q (ss_world s') j = debugreg q (ss_world s) j.
Proof.
  unfold on_kernel, read_memory, call, mbind, stm_bind. intros Hx q j.
  pose proof (debugreg_readv p addr len (ss_world s) q j) as Hr.
  destruct (vm_readv p addr len (ss_world s)) as [[bs|e] w1]; by injection Hx as _ <-.
Qed.

End X86.

(** ** Properties *)


(** ** Witness *)

(** Debug registers that take every write, and nothing else. *)
#[local] Abbreviation bench := (gmap (Z * Z) Z).
Definition b_ok {A} (a : A) : kop bench A := λ w, (inl a, w).
Definition b_no {A} : kop bench A := λ w, (inr ESRCH, w).

#[local] Instance bench_kernel : Kernel bench := {|
  sys_waitpid_any := b_no; sys_waitpid _ := b_no; sys_kill _ _ := b_no; sys_setaffinity _ _ := b_no;
  sys_spawn_traced _ _ := b_no; pt_syscall _ _ := b_no; pt_step _ := b_no; pt_kill _ := b_no;
  pt_getregs _ := b_no; pt_setregs _ _ := b_no; pt_getevent _ := b_no; pt_setoptions _ _ := b_no;
  pt_getsiginfo_code _ := b_no;
  pt_pokeuser p o v := λ w, (inl tt, <[(p, (o - 848) / 8) := v]> w);
  vm_readv _ _ n := b_ok (replicate (Z.to_nat n) x00); vm_writev _ _ _ := b_no;
  timer_install := b_no; timer_arm := b_no; timer_disarm := b_no; clock_elapsed_ns w := (0, w) |}.

#[local, program] Instance bench_registers : DebugRegisters bench := {| debugreg p w i := default 0 (w !! (p, i)) |}.
Next Obligation.
  intros p i v w Hi. cbn [pt_pokeuser bench_kernel]. intros q j. replace (848 + 8 * i - 848) with (i * 8) by lia. rewrite Z.div_mul by done.
  case_decide as Hd; [destruct Hd as [-> ->]; by rewrite lookup_insert_eq|].
  rewrite lookup_insert_ne; [done|]. intros [= -> ->]. by apply Hd.
Qed.
Next Obligation. done. Qed.

#[local] Instance bench_unwind : Unwind bench := {|
  unwinder_for_pid _ := b_no; unwinder_registers _ := b_no; unwinder_backtrace _ _ := b_no |}.

Definition bench_session : ReplaySession bench :=
  mkSession ∅ 7 (mkCmdline [] []) [] 0 None None None None None 0 [] None [] None None false None.

