(* ===== verification/ReplayBackend.v ===== *)
(** * The replay backend of the debug adapter: [dap/src/replay_backend.rs]

    A session of the replay engine ([Session], [Mt]) driven over the syscall
    exits of its trace: where each request stops, what it renders, and how the
    server takes the backend over.  The views of a stopped process
    ([PtraceProcessView], [RemoteUnwinder]) come from the interface
    [Inspector]; the texts of errors from other crates are parameters. *)

From S2P Require Import Prelude StdIo TraceFormat Crc32 TraceLog Payload Ptrace Capture Discipline Sched.
From S2P Require Import ToyKernel SchedLog Recording Watchpoint Schedule Replay Session Mt Follow Machine.
From S2P Require Import Solo EndToEnd Navigate.
From S2P Require Import Text.
From S2P Require Import TaskModel.
From S2P Require Import TaskTree.
From S2P Require Import View.
From S2P Require Import BufIo.
From S2P Require Import Transport.
From S2P Require Import SampleJson.
From S2P Require Import Server.

(** ** Rendering *)

(** [{value:#018x}]: [0x] and sixteen digits. *)
Definition hex018 (value : Z) : list byte :=
  str "0x" ++ replicate (16 - length (hex value)) x30 ++ hex value.

(** [Path::file_name]: the last component, when it is a plain name. *)
Definition path_components (path : list byte) : list (list byte) :=
  filter (λ c, c ≠ [] ∧ c ≠ str ".") (split_on (byte_is x2f) path).

Definition file_name (path : list byte) : list byte :=
  match last (path_components path) with
  | Some c => if bool_decide (c = str "..") then path else c
  | None => path
  end.

Definition task_kind_label (k : task_kind) : list byte :=
  match k with
  | TaskKind.Thread => str "thread"
  | TaskKind.AsyncTask => str "async_task"
  | TaskKind.Goroutine => str "goroutine"
  | TaskKind.Coroutine => str "coroutine"
  end.

Definition task_state_label (s : task_state) : list byte :=
  match s with
  | TaskState.Runnable => str "runnable"
  | TaskState.Running => str "running"
  | TaskState.Blocked _ => str "blocked"
  | TaskState.Completed => str "completed"
  end.

Section rendering.
Context {SJ : SerdeJson}.

Definition register_var (name : list byte) (value : Z) : Value :=
  j_object [(str "name", j_string name); (str "value", j_string (hex018 value));
            (str "type", j_string (str "u64")); (str "variablesReference", j_int 0)].

Definition logical_frame_to_dap (index : nat) (frame : LogicalFrame) : Value :=
  let head := [(str "id", j_int (Z.of_nat index + 1)); (str "name", j_string (display_name frame))] in
  match location frame with
  | Some l =>
      j_object (head ++ [(str "line", j_int (line l)); (str "column", j_int (column l));
        (str "source", j_object [(str "name", j_string (file_name (path l))); (str "path", j_string (path l))])])
  | None => j_object (head ++ [(str "line", j_int 0); (str "column", j_int 0)])
  end.

Definition serialize_task (i : TaskId) (n : TaskNode) : Value :=
  j_object [(str "id", j_int i); (str "name", j_string (name n));
            (str "kind", j_string (task_kind_label (TaskModel.kind n)));
            (str "state", j_string (task_state_label (state n)));
            (str "parent", match parent n with Some p => j_int p | None => j_null end)].

(** The [threads] body. *)
Definition thread_entry (t : TaskTree) (index : nat) (i : TaskId) : Value :=
  j_object [(str "id", j_int (Z.of_nat index + 1));
            (str "name", j_string (from_option name [] (node t i)))].

Definition threads_body (t : TaskTree) : Value :=
  j_object [(str "threads", j_array (imap (thread_entry t) (roots t)))].

Definition stack_body (frames : list LogicalFrame) : Value :=
  j_object [(str "stackFrames", j_array (imap logical_frame_to_dap frames));
            (str "totalFrames", j_int (blen frames))].

(** The [taskTimeline] body; the flattening is given the fuel it needs. *)
Definition tasks_body (t : TaskTree) : option Value :=
  out ← flatten_preorder (Z.to_nat (len t)) t;
  Some (j_object [(str "tasks", j_array (omap (λ i, serialize_task i <$> node t i) out))]).

Definition REGISTERS_REF : Z := 1000.

Definition registers_scope : Value :=
  j_object [(str "scopes", j_array
    [j_object [(str "name", j_string (str "Registers")); (str "variablesReference", j_int REGISTERS_REF);
               (str "expensive", j_bool false)]])].

Definition LOCALS_NOTE : list byte :=
  str "DWARF local-variable evaluation is not yet implemented (Layer 5, issue-tracked); showing registers only.".

End rendering.

(** [unwind::InitialRegs]. *)
Record InitialRegs := MkInitialRegs { ir_pc : Z; ir_sp : Z; ir_fp : Z; ir_lr : Z }.

(** What the backend asks about a stopped process, as it stands. *)
Class Inspector (W : Type) := {
  view_for_pid : Z → W → result (list byte) ProcessView;
  registers_for_pid : Z → W → result (list byte) InitialRegs
}.

(** [to_string] of the errors the backend passes on. *)
Class ErrorTexts := {
  replay_error_text : ReplayError → list byte;
  trace_error_text : TraceError → list byte
}.

(** ** The trace's metadata *)

Definition exit_seqs (records : list LogRecord) : list Z :=
  seq <$> filter (λ r, TraceFormat.kind (TraceFormat.event r) = EvSyscallExit) records.

(** [read_trace_meta], on what opening the file and reading it gave. *)
Definition read_trace_meta {ET : ErrorTexts}
    (opened : result (list byte) (result TraceError (list LogRecord)))
    : result backend_error (list Z * bool) :=
  opened ← map_err (λ source, Engine (str "opening trace: " ++ source)) opened;
  records ← map_err (λ e, Engine (trace_error_text e)) opened;
  Ok (exit_seqs records, trace_is_multithreaded records).

Section backend.
Context {SJ : SerdeJson} {W : Type} {KW : Kernel W} {UW : Unwind W} {IW : Inspector W} {ET : ErrorTexts}.
(** Enough for the session's loops, when they end. *)
Context (fuel steps : nat).

(** ** The backend *)

Record ReplayBackend := MkReplayBackend {
  rb_session : ReplaySession W;
  rb_events : list Z;
  rb_cursor : nat;
  rb_exited : option Z;
  rb_multithreaded : bool
}.

Definition set_session s b := MkReplayBackend s (rb_events b) (rb_cursor b) (rb_exited b) (rb_multithreaded b).
Definition set_cursor i b := MkReplayBackend (rb_session b) (rb_events b) i (rb_exited b) (rb_multithreaded b).
Definition set_exited e b := MkReplayBackend (rb_session b) (rb_events b) (rb_cursor b) e (rb_multithreaded b).

#[local] Abbreviation M := (stm ReplayBackend backend_error).

Definition engine (e : ReplayError) : backend_error := Engine (replay_error_text e).

(** [open]: the session is launched from one reading of the file, the metadata
    read from another; when that fails the session is dropped. *)
Definition open (launched : result TraceError (option Cmdline * result TraceError (list LogRecord)))
    (opened : result (list byte) (result TraceError (list LogRecord))) (checkpoint_interval : Z)
    : stm W backend_error ReplayBackend := λ w,
  match launch launched w with
  | (Ok s, w) =>
      let s := (set_interval checkpoint_interval s).2 in
      match read_trace_meta opened with
      | Ok (events, multithreaded) => (Ok (MkReplayBackend s events 0 None multithreaded), w)
      | Err e => (Err e, ss_world (session_drop s).2)
      | Panic => (Panic, w)
      end
  | (Err e, w) => (Err (engine e), w)
  | (Panic, w) => (Panic, w)
  end.

(** A call of the session. *)
Definition on_session {A} (m : stm (ReplaySession W) ReplayError A) : M A := λ b,
  let '(r, s) := m (rb_session b) in (map_err engine r, set_session s b).

Definition classify (outcome : ExitOutcome) (reason : list byte) : M StopInfo :=
  match outcome with
  | OutRunning => st_modify (set_exited None);; mret (Stopped reason MAIN_THREAD_ID)
  | OutExited code => st_modify (set_exited (Some code));; mret (Exited code)
  | OutSignaled signal =>
      let code := 128 + signal in st_modify (set_exited (Some code));; mret (Exited code)
  end.

Definition goto (index : nat) (reason : list byte) : M (option StopInfo) :=
  events ← st_gets rb_events;
  seq ← st_lift (expect (events !! index));
  outcome ← on_session (run_to fuel steps seq);
  match outcome with
  | None => mret None
  | Some outcome => st_modify (set_cursor index);; s ← classify outcome reason; mret (Some s)
  end.

Definition backend_run_to_end : M (option StopInfo) :=
  outcome ← on_session (run_to_end fuel steps);
  match outcome with
  | None => mret None
  | Some outcome =>
      st_modify (λ b, set_cursor (length (rb_events b)) b);;
      s ← classify outcome (str "step"); mret (Some s)
  end.

Definition tracee_pid : M Z :=
  exited ← st_gets rb_exited;
  match exited with
  | Some _ => st_throw NoTracee
  | None => st_gets (λ b, ss_pid (rb_session b))
  end.

(** [decode]: [select_decoder] is the native decoder. *)
Definition decode : M ProcessView :=
  pid ← tracee_pid;
  w ← st_gets (λ b, ss_world (rb_session b));
  st_lift (map_err Engine (view_for_pid pid w)).

Definition decoder_text {A} (r : result decoder_error A) : result backend_error A :=
  map_err (λ e, Engine (decoder_error_display e)) r.

(** ** [impl DebugBackend] *)

Definition replay_launch (_ : Value) : M (option StopInfo) :=
  events ← st_gets rb_events;
  match events with
  | [] => backend_run_to_end
  | _ => goto 0 (str "entry")
  end.

Definition replay_threads : M Value :=
  view ← decode;
  tree ← st_lift (decoder_text (native_decode_tasks view));
  mret (threads_body tree).

Definition replay_stack_trace (_ : Value) : M Value :=
  view ← decode;
  tree ← st_lift (decoder_text (native_decode_tasks view));
  match roots tree with
  | [] => mret (stack_body [])
  | task :: _ =>
      frames ← st_lift (decoder_text (native_logical_stack view task));
      mret (stack_body frames)
  end.

Definition replay_variables (arguments : Value) : M Value :=
  if bool_decide (j_get arguments (str "variablesReference") ≫= as_u64 = Some REGISTERS_REF) then
    pid ← tracee_pid;
    w ← st_gets (λ b, ss_world (rb_session b));
    regs ← st_lift (map_err Engine (registers_for_pid pid w));
    mret (j_object [(str "variables", j_array
      [register_var (str "pc") (ir_pc regs); register_var (str "sp") (ir_sp regs);
       register_var (str "fp") (ir_fp regs); register_var (str "lr") (ir_lr regs);
       j_object [(str "name", j_string (str "(locals)")); (str "value", j_string LOCALS_NOTE);
                 (str "variablesReference", j_int 0)]])])
  else mret (j_object [(str "variables", j_array [])]).

Definition NO_EVENTS : list byte := str "no recorded events to step back over".

Definition replay_resume (k : resume_kind) : M (option StopInfo) :=
  events ← st_gets rb_events;
  cursor ← st_gets rb_cursor;
  match k with
  | Continue => backend_run_to_end
  | ReverseContinue =>
      match events with [] => backend_run_to_end | _ => goto 0 (str "step") end
  | StepBack =>
      match events with
      | [] => st_throw (NotSupported NO_EVENTS)
      | _ => goto (cursor - 1) (str "step")
      end
  | Next | StepIn | StepOut =>
      let next := S cursor in
      if (length events <=? next)%nat then backend_run_to_end else goto next (str "step")
  end.

Definition replay_list_checkpoints : M Value :=
  cps ← st_gets (λ b, ss_checkpoints (rb_session b));
  mret (j_object [(str "checkpoints",
    j_array (map (λ cp, j_object [(str "seq", j_int (cp_seq cp))]) cps))]).

Definition replay_task_timeline : M Value :=
  view ← decode;
  tree ← st_lift (decoder_text (native_decode_tasks view));
  st_lift (expect (tasks_body tree)).

(** [rposition(|s| s <= reached)], or 0. *)
Definition cursor_at (events : list Z) (reached : Z) : nat :=
  default 0%nat (nearest_at_or_before events reached).

Definition BAD_SEQ : list byte := str "jumpToEvent requires a numeric " ++ quote ++ str "seq" ++ quote.

Definition replay_jump_to_event (arguments : Value) : M (option StopInfo) :=
  seq ← st_lift (ok_or (BadArgs BAD_SEQ) (j_get arguments (str "seq") ≫= as_u64));
  outcome ← on_session (run_to fuel steps seq);
  match outcome with
  | None => mret None
  | Some outcome =>
      reached ← st_gets (λ b, default 0 (ss_current_seq (rb_session b)));
      st_modify (λ b, set_cursor (cursor_at (rb_events b) reached) b);;
      s ← classify outcome (str "step"); mret (Some s)
  end.

Definition CHECKPOINT_NOTE : list byte :=
  str "checkpointing disabled: this trace records a multi-threaded schedule, and fork snapshots can only capture a single live thread, so listCheckpoints will stay empty and stepBack/reverseContinue re-execute from process entry.".

Definition replay_checkpoint_note (b : ReplayBackend) : option (list byte) :=
  if rb_multithreaded b then Some CHECKPOINT_NOTE else None.

#[export] Instance replay_backend : DebugBackend ReplayBackend := {|
  bk_launch := replay_launch;
  bk_threads := replay_threads;
  bk_stack_trace := replay_stack_trace;
  bk_scopes _ := mret registers_scope;
  bk_variables := replay_variables;
  bk_resume := replay_resume;
  bk_list_checkpoints := replay_list_checkpoints;
  bk_task_timeline := replay_task_timeline;
  bk_jump_to_event := replay_jump_to_event;
  bk_checkpoint_note := replay_checkpoint_note |}.

(** ** The server over a stub or a replay *)

Inductive target := StubTarget (w : W) | ReplayTarget (b : ReplayBackend).

Definition on_target {A} (stub : stm unit backend_error A) (replay : M A) : stm target backend_error A := λ t,
  match t with
  | StubTarget w => ((stub tt).1, StubTarget w)
  | ReplayTarget b => let '(r, b) := replay b in (r, ReplayTarget b)
  end.

#[export] Instance target_backend : DebugBackend target := {|
  bk_launch a := on_target (bk_launch a) (bk_launch a);
  bk_threads := on_target bk_threads bk_threads;
  bk_stack_trace a := on_target (bk_stack_trace a) (bk_stack_trace a);
  bk_scopes a := on_target (bk_scopes a) (bk_scopes a);
  bk_variables a := on_target (bk_variables a) (bk_variables a);
  bk_resume k := on_target (bk_resume k) (bk_resume k);
  bk_list_checkpoints := on_target bk_list_checkpoints bk_list_checkpoints;
  bk_task_timeline := on_target bk_task_timeline bk_task_timeline;
  bk_jump_to_event a := on_target (bk_jump_to_event a) (bk_jump_to_event a);
  bk_checkpoint_note t := match t with StubTarget _ => None | ReplayTarget b => bk_checkpoint_note b end |}.

(** What a path opens to, each time. *)
Definition files := list byte →
  result TraceError (option Cmdline * result TraceError (list LogRecord)) *
  result (list byte) (result TraceError (list LogRecord)).

(** [select_replay_backend] on Linux; a replaced session is dropped once the
    new one stands. *)
Definition select_replay (fs : files) (trace : list byte) (checkpoint_interval : Z)
    : stm target (list byte) (option target) := λ t,
  let '(launched, opened) := fs trace in
  match t with
  | StubTarget w =>
      match open launched opened checkpoint_interval w with
      | (Ok b, w) => (Ok (Some (ReplayTarget b)), StubTarget w)
      | (Err e, w) => (Err (backend_error_display e), StubTarget w)
      | (Panic, w) => (Panic, StubTarget w)
      end
  | ReplayTarget old =>
      match open launched opened checkpoint_interval (ss_world (rb_session old)) with
      | (Ok b, w) =>
          let dropped := (session_drop (set_world (ss_world (rb_session b)) (rb_session old))).2 in
          (Ok (Some (ReplayTarget (set_session (set_world (ss_world dropped) (rb_session b)) b))),
           ReplayTarget (set_session dropped old))
      | (Err e, w) =>
          (Err (backend_error_display e), ReplayTarget (set_session (set_world w (rb_session old)) old))
      | (Panic, w) => (Panic, t)
      end
  end.

(** ** Where a replay stands *)

(** The records the replay has been through when it stands at [e]. *)
Definition upto (recs : list LogRecord) (e : Z) : list LogRecord :=
  filter (λ r, seq r ≤ e) (real_records recs).

(** The backends in hand: opened on a trace, then moved without an error. *)
Inductive attached (recs : list LogRecord) : ReplayBackend → Prop :=
| at_open cmd interval w b w' :
    in_u 64 interval → open (Ok (Some cmd, Ok recs)) (Ok (Ok recs)) interval w = (Ok b, w') → attached recs b
| at_launch a b stop b' : attached recs b → replay_launch a b = (Ok (Some stop), b') → attached recs b'
| at_resume k b stop b' : attached recs b → replay_resume k b = (Ok (Some stop), b') → attached recs b'
| at_jump a b stop b' :
    attached recs b → replay_jump_to_event a b = (Ok (Some stop), b') → attached recs b'.

Record backend_ok (recs : list LogRecord) (b : ReplayBackend) : Prop := {
  bo_session : reachable recs (rb_session b);
  bo_events : rb_events b = exit_seqs recs;
  bo_cursor : (rb_cursor b ≤ length (rb_events b))%nat
}.

Lemma ascending_split (l k : list LogRecord) x y :
  ascending (seq <$> l ++ k) → x ∈ l → y ∈ k → seq x < seq y.
Proof.
  intros Ha (i & Hi)%list_elem_of_lookup (j & Hj)%list_elem_of_lookup.
  pose proof (lookup_lt_Some _ _ _ Hi).
  apply (Ha i (length l + j)%nat); [lia|..]; rewrite list_lookup_fmap.
  - by rewrite lookup_app_l, Hi by done.
  - rewrite lookup_app_r by lia. replace (length l + j - length l)%nat with j by lia. by rewrite Hj.
Qed.

Lemma exit_seqs_real recs e :
  e ∈ exit_seqs recs → ∃ r, r ∈ real_records recs ∧ seq r = e.
Proof.
  intros (r & -> & [Hk Hr]%list_elem_of_filter)%list_elem_of_fmap. exists r. split; [|done].
  apply list_elem_of_filter. split; [congruence|done].
Qed.

Lemma filter_keeps {A} (P : A → Prop) `{∀ x, Decision (P x)} l k :
  Forall P l → Forall (λ x, ¬ P x) k → filter P (l ++ k) = l.
Proof.
  intros Hl Hk. rewrite filter_app. assert (filter P k = []) as ->.
  { induction Hk as [|x k Hx _ IH]; [done|]. by rewrite filter_cons, decide_False. }
  rewrite app_nil_r. induction Hl as [|x l Hx _ IH]; [done|]. by rewrite filter_cons, decide_True, IH.
Qed.

(** [run_to] to an event of the trace stops exactly there. *)
Lemma run_to_event recs s s' e :
  records_wf recs → reachable recs s → e ∈ exit_seqs recs →
  run_to fuel steps e s = (Ok (Some OutRunning), s') →
  consumed s' = upto recs e ∧ ss_current_seq s' = Some e.
Proof.
  intros Hr Hs He Hx. destruct (reachable_ok _ _ Hr Hs) as (Hok & Hrec & _).
  pose proof Hx as Hx'. apply run_to_starts in Hx' as (s1 & H1 & Hrec1 & _ & Hle & Hd); [|done].
  pose proof (drive_ended _ _ _ _ _ _ H1 Hd) as (Hok' & Hrec' & _ & _).
  destruct (drive_lands _ _ _ _ _ H1 Hle Hd) as (c & r & Hc & Hq & Hge & Hlow).
  destruct (exit_seqs_real _ _ He) as (r0 & Hr0 & Hseq0).
  assert (Hsplit : real_records recs = consumed s' ++ real_records (drop (ss_cursor s') recs)).
  { unfold consumed, real_records. rewrite Hrec', Hrec1, Hrec, <- filter_app. by rewrite take_drop. }
  assert (Ha : ascending (seq <$> real_records recs)) by apply ascending_real, Hr.
  rewrite Hsplit in Ha, Hr0. rewrite Hc in Hr0.
  assert (r0 = r) as ->.
  { rewrite !elem_of_app, list_elem_of_singleton in Hr0. destruct Hr0 as [[Hin| ->]|Hin]; [|done|].
    - rewrite Forall_forall in Hlow. apply Hlow in Hin. lia.
    - assert (Hrc : r ∈ consumed s') by (rewrite Hc; set_solver).
      pose proof (ascending_split _ _ r r0 Ha Hrc Hin). lia. }
  split; [|by rewrite Hq, Hseq0]. unfold upto. rewrite Hsplit. symmetry. apply filter_keeps.
  - rewrite Hc. apply Forall_app. split; [|apply Forall_singleton; lia].
    eapply Forall_impl; [exact Hlow|]. cbn. lia.
  - apply Forall_forall. intros x Hx1 Hx2.
    assert (Hrc : r ∈ consumed s') by (rewrite Hc; set_solver).
    pose proof (ascending_split _ _ r x Ha Hrc Hx1). lia.
Qed.

(** A session that stands at [e] has been through exactly the records up to it. *)
Lemma standing_upto recs s e :
  records_wf recs → reachable recs s → ss_current_seq s = Some e → consumed s = upto recs e.
Proof.
  intros Hr Hs Hq. destruct (reachable_ok _ _ Hr Hs) as (Hok & Hrec & _).
  assert (Hsplit : real_records recs = consumed s ++ real_records (drop (ss_cursor s) recs)).
  { unfold consumed, real_records. rewrite Hrec, <- filter_app. by rewrite take_drop. }
  assert (Ha : ascending (seq <$> real_records recs)) by apply ascending_real, Hr.
  rewrite Hsplit in Ha. rewrite (ok_seq s Hok) in Hq.
  destruct (consumed s) as [|r c _] eqn:Hc using rev_ind; [done|]. rewrite last_snoc in Hq. injection Hq as Hq.
  unfold upto. rewrite Hsplit. symmetry. apply filter_keeps.
  - apply Forall_app. split; [|apply Forall_singleton; lia].
    rewrite fmap_app in Ha. apply Forall_forall. intros x Hx.
    pose proof (ascending_split c [r] x r) as H. cbn in H.
    pose proof (consumed_ascending s Hok) as Hac. rewrite Hc in Hac.
    specialize (H Hac Hx ltac:(set_solver)). lia.
  - apply Forall_forall. intros x Hx1 Hx2.
    pose proof (ascending_split _ _ r x Ha ltac:(set_solver) Hx1). lia.
Qed.

Definition stop_of (o : ExitOutcome) (reason : list byte) : StopInfo :=
  match o with
  | OutRunning => Stopped reason MAIN_THREAD_ID
  | OutExited code => Exited code
  | OutSignaled signal => Exited (128 + signal)
  end.

Definition code_of (o : ExitOutcome) : option Z :=
  match o with OutRunning => None | OutExited code => Some code | OutSignaled signal => Some (128 + signal) end.

Lemma classify_run o reason b : classify o reason b = (Ok (stop_of o reason), set_exited (code_of o) b).
Proof. by destruct o. Qed.

Lemma on_session_ok {A} (m : stm (ReplaySession W) ReplayError A) b x b' :
  on_session m b = (Ok x, b') → ∃ s', m (rb_session b) = (Ok x, s') ∧ b' = set_session s' b.
Proof.
  unfold on_session. destruct (m (rb_session b)) as [[y|e|] s']; intros [= <- <-]. eauto.
Qed.

Lemma goto_ok i reason b stop b' :
  goto i reason b = (Ok (Some stop), b') →
  ∃ e o s', rb_events b !! i = Some e ∧ run_to fuel steps e (rb_session b) = (Ok (Some o), s') ∧
    stop = stop_of o reason ∧
    b' = MkReplayBackend s' (rb_events b) i (code_of o) (rb_multithreaded b).
Proof.
  unfold goto. intros Hx. st_inv. destruct (rb_events b !! i) as [e|]; [|done].
  match goal with H : on_session _ _ = _ |- _ => apply on_session_ok in H as (s' & Hrun & ->) end.
  match goal with H : expect (Some _) = Ok _ |- _ => injection H as <- end.
  match goal with H : run_to _ _ _ _ = (Ok ?x, _) |- _ => destruct x as [o|]; [|by st_inv] end.
  exists e, o, s'. st_inv. rewrite classify_run in *. simplify_eq. done.
Qed.

Lemma backend_end_ok b stop b' :
  backend_run_to_end b = (Ok (Some stop), b') →
  ∃ o s', run_to_end fuel steps (rb_session b) = (Ok (Some o), s') ∧ stop = stop_of o (str "step") ∧
    b' = MkReplayBackend s' (rb_events b) (length (rb_events b)) (code_of o) (rb_multithreaded b).
Proof.
  unfold backend_run_to_end. intros Hx. st_inv.
  match goal with H : on_session _ _ = _ |- _ => apply on_session_ok in H as (s' & Hrun & ->) end.
  match goal with H : run_to_end _ _ _ = (Ok ?x, _) |- _ => destruct x as [o|]; [|by st_inv] end.
  exists o, s'. st_inv. rewrite classify_run in *. simplify_eq. done.
Qed.

Lemma jump_ok a b stop b' :
  replay_jump_to_event a b = (Ok (Some stop), b') →
  ∃ q o s', j_get a (str "seq") ≫= as_u64 = Some q ∧ run_to fuel steps q (rb_session b) = (Ok (Some o), s') ∧
    stop = stop_of o (str "step") ∧
    b' = MkReplayBackend s' (rb_events b) (cursor_at (rb_events b) (default 0 (ss_current_seq s')))
           (code_of o) (rb_multithreaded b).
Proof.
  unfold replay_jump_to_event. intros Hx. st_inv. destruct (_ ≫= as_u64) as [q|]; [|done].
  match goal with H : on_session _ _ = _ |- _ => apply on_session_ok in H as (s' & Hrun & ->) end.
  match goal with H : ok_or _ (Some _) = Ok _ |- _ => injection H as <- end.
  match goal with H : run_to _ _ _ _ = (Ok ?x, _) |- _ => destruct x as [o|]; [|by st_inv] end.
  exists q, o, s'. st_inv.
  rewrite classify_run in *. simplify_eq. done.
Qed.

Lemma reach_run_to recs s q o s' :
  reachable recs s → run_to fuel steps q s = (Ok (Some o), s') → reachable recs s'.
Proof.
  intros Hs Hx. eapply (reach_move _ fuel steps (MRunTo q)); [exact Hs|done|].
  cbn. rewrite (bind_run _ _ _ _ _ Hx). by rewrite bool_decide_true by eauto.
Qed.

Lemma reach_run_to_end recs s o s' :
  reachable recs s → run_to_end fuel steps s = (Ok (Some o), s') → reachable recs s'.
Proof.
  intros Hs Hx. eapply (reach_move _ fuel steps MRunToEnd); [exact Hs|done|].
  cbn. rewrite (bind_run _ _ _ _ _ Hx). by rewrite bool_decide_true by eauto.
Qed.

Lemma goto_backend_ok recs i reason b stop b' :
  backend_ok recs b → goto i reason b = (Ok (Some stop), b') → backend_ok recs b'.
Proof.
  intros [H1 H2 H3] (e & o & s' & He & Hrun & _ & ->)%goto_ok. split; cbn; [by eapply reach_run_to|done|].
  apply lookup_lt_Some in He. lia.
Qed.

Lemma end_backend_ok recs b stop b' :
  backend_ok recs b → backend_run_to_end b = (Ok (Some stop), b') → backend_ok recs b'.
Proof.
  intros [H1 H2 H3] (o & s' & Hrun & _ & ->)%backend_end_ok. split; cbn; [by eapply reach_run_to_end|done..].
Qed.

Lemma cursor_at_bound events reached : (cursor_at events reached ≤ length events)%nat.
Proof.
  unfold cursor_at. pose proof (nearest_last events reached) as H. destruct (nearest_at_or_before _ _) as [i|]; [|cbn; lia].
  destruct H as (x & Hx & _). apply lookup_lt_Some in Hx. cbn. lia.
Qed.

Lemma attached_ok recs b : records_wf recs → attached recs b → backend_ok recs b.
Proof.
  intros Hr. induction 1 as [cmd interval w b w' Hi Ho|a b stop b' _ IH Hx|k b stop b' _ IH Hx|a b stop b' _ IH Hx].
  - unfold open in Ho. destruct (launch _ w) as [[s| |] w1] eqn:El; [|done..].
    injection Ho as <- _. split; cbn; [|done|lia].
    eapply (reach_move _ fuel steps (MInterval interval)); [by eapply reach_launch|exact Hi|]. done.
  - unfold replay_launch in Hx. st_inv. destruct (rb_events b); [by eapply end_backend_ok|by eapply goto_backend_ok].
  - unfold replay_resume in Hx. st_inv.
    destruct k; [by eapply end_backend_ok| | |destruct (_ <=? _)%nat; [by eapply end_backend_ok|by eapply goto_backend_ok]..].
    + destruct (rb_events b); [by eapply end_backend_ok|by eapply goto_backend_ok].
    + destruct (rb_events b); [by st_inv|by eapply goto_backend_ok].
  - apply jump_ok in Hx as (q & o & s' & _ & Hrun & _ & ->). destruct IH as [H1 H2 H3].
    split; cbn; [by eapply reach_run_to|done|]. apply cursor_at_bound.
Qed.

Lemma goto_panic i reason b :
  (i < length (rb_events b))%nat → (goto i reason b).1 = Panic →
  ∃ e, (run_to fuel steps e (rb_session b)).1 = Panic.
Proof.
  intros [e He]%lookup_lt_is_Some_2. unfold goto. rewrite bind_gets, He. cbn [expect]. rewrite bind_lift.
  unfold mbind, stm_bind, on_session. destruct (run_to fuel steps e (rb_session b)) as [[[o|]| |] s'] eqn:E; cbn; try done.
  - by destruct o.
  - intros _. exists e. by rewrite E.
Qed.

Lemma end_panic b :
  (backend_run_to_end b).1 = Panic → (run_to_end fuel steps (rb_session b)).1 = Panic.
Proof.
  unfold backend_run_to_end, mbind, stm_bind, on_session.
  destruct (run_to_end fuel steps (rb_session b)) as [[[o|]| |] s'] eqn:E; cbn; try done.
  by destruct o.
Qed.

(** ** What the requests mean *)

(** What is reported is what became of the target. *)
Definition reports (reason : list byte) (stop : StopInfo) (b : ReplayBackend) : Prop :=
  match ss_finished (rb_session b) with
  | None => stop = Stopped reason MAIN_THREAD_ID ∧ rb_exited b = None
  | Some (OutExited code) => stop = Exited code ∧ rb_exited b = Some code
  | Some (OutSignaled signal) => stop = Exited (128 + signal) ∧ rb_exited b = Some (128 + signal)
  | Some OutRunning => False
  end.

(** The target stopped at event [i], or it ended on the way. *)
Definition stands (recs : list LogRecord) (i : nat) (reason : list byte) (stop : StopInfo) (b : ReplayBackend) : Prop :=
  reports reason stop b ∧ rb_cursor b = i ∧
  (ss_finished (rb_session b) = None →
     ∃ e, exit_seqs recs !! i = Some e ∧ ss_current_seq (rb_session b) = Some e ∧
          consumed (rb_session b) = upto recs e).

(** The target ran to its end. *)
Definition ran_out (stop : StopInfo) (b : ReplayBackend) : Prop :=
  reports (str "step") stop b ∧ ss_finished (rb_session b) ≠ None ∧ rb_cursor b = length (rb_events b).

(** The last event at or before a record; the first, when there is none. *)
Definition last_event (recs : list LogRecord) (q : Z) (i : nat) : Prop :=
  (∃ e, exit_seqs recs !! i = Some e ∧ e ≤ q ∧
     ∀ j e', exit_seqs recs !! j = Some e' → e' ≤ q → (j ≤ i)%nat) ∨
  (i = 0%nat ∧ Forall (λ e, q < e) (exit_seqs recs)).

Definition forward (k : resume_kind) : bool :=
  match k with Next | StepIn | StepOut => true | _ => false end.

(** Where a request to resume goes, from event [cursor] of [n]: an event, or
    the end. *)
Definition destination (k : resume_kind) (cursor n : nat) : option nat :=
  match k with
  | Continue => None
  | ReverseContinue => if decide (n = 0%nat) then None else Some 0%nat
  | StepBack => Some (cursor - 1)%nat
  | Next | StepIn | StepOut => if decide (S cursor < n)%nat then Some (S cursor) else None
  end.

Lemma run_to_finished recs s q o s' :
  records_wf recs → reachable recs s → run_to fuel steps q s = (Ok (Some o), s') →
  ss_finished s' = if decide (o = OutRunning) then None else Some o.
Proof.
  intros Hr Hs Hx. destruct (reachable_ok _ _ Hr Hs) as (Hok & _).
  apply run_to_starts in Hx as (s1 & H1 & _ & _ & _ & Hd); [|done]. by apply drive_ended in Hd as (_ & _ & _ & _ & ?).
Qed.

Lemma reports_stop reason o s' events i m :
  ss_finished s' = (if decide (o = OutRunning) then None else Some o) →
  reports reason (stop_of o reason) (MkReplayBackend s' events i (code_of o) m).
Proof. intros Hf. unfold reports. cbn [rb_session rb_exited]. rewrite Hf. by destruct o. Qed.

Lemma cursor_at_last recs q : last_event recs q (cursor_at (exit_seqs recs) q).
Proof.
  unfold last_event, cursor_at. pose proof (nearest_last (exit_seqs recs) q) as H.
  destruct (nearest_at_or_before _ _) as [i|]; cbn [default from_option].
  - destruct H as (x & Hx & Hle & Hmax). left. exists x. split; [done|]. split; [done|]. intros j e' Hj Hle'.
    destruct (le_lt_dec j i) as [|Hlt]; [done|]. specialize (Hmax j e' Hlt Hj). lia.
  - by right.
Qed.

Lemma goto_stands recs i reason b stop b' :
  records_wf recs → backend_ok recs b → goto i reason b = (Ok (Some stop), b') → stands recs i reason stop b'.
Proof.
  intros Hr [H1 H2 H3] (e & o & s' & He & Hrun & -> & ->)%goto_ok.
  pose proof (run_to_finished _ _ _ _ _ Hr H1 Hrun) as Hf.
  split; [by apply reports_stop|]. split; [done|]. cbn [rb_session]. rewrite Hf. case_decide as Ho; [|done].
  subst o. intros _. exists e. rewrite <- H2. split; [done|].
  assert (Hin : e ∈ exit_seqs recs) by (rewrite <- H2; by eapply list_elem_of_lookup_2).
  destruct (run_to_event _ _ _ _ Hr H1 Hin Hrun). done.
Qed.

Lemma end_ran_out recs b stop b' :
  records_wf recs → backend_ok recs b → backend_run_to_end b = (Ok (Some stop), b') → ran_out stop b'.
Proof.
  intros Hr [H1 H2 H3] (o & s' & Hrun & -> & ->)%backend_end_ok.
  destruct (reachable_ok _ _ Hr H1) as (Hok & _). apply drive_ended in Hrun as (_ & _ & _ & Ho & Hf); [|done].
  split; [by apply reports_stop|]. split; [|done]. cbn [rb_session]. rewrite Hf. case_decide as E; [|done].
  destruct (Ho E) as [Hre _]. unfold reached in Hre. by destruct (ss_current_seq s').
Qed.

(** What a stop says of where it is. *)
Lemma stands_stopped recs i reason r t b :
  stands recs i reason (Stopped r t) b →
  rb_cursor b = i ∧ ∃ e, exit_seqs recs !! i = Some e ∧ ss_current_seq (rb_session b) = Some e ∧
    consumed (rb_session b) = upto recs e.
Proof.
  intros (Hrep & Hc & He). split; [done|]. apply He. unfold reports in Hrep.
  by destruct (ss_finished (rb_session b)) as [[]|]; [destruct Hrep..|].
Qed.

Lemma stopped_short r t b : ¬ ran_out (Stopped r t) b.
Proof.
  intros (Hrep & Hf & _). unfold reports in Hrep.
  by destruct (ss_finished (rb_session b)) as [[]|]; [destruct Hrep..|].
Qed.

(** The common case of [next], [stepIn] and [stepOut]. *)
Lemma next_stands recs b stop b' :
  records_wf recs → backend_ok recs b →
  (if (length (rb_events b) <=? S (rb_cursor b))%nat then backend_run_to_end
   else goto (S (rb_cursor b)) (str "step")) b = (Ok (Some stop), b') →
  match (if decide (S (rb_cursor b) < length (rb_events b))%nat then Some (S (rb_cursor b)) else None) with
  | Some i => stands recs i (str "step") stop b'
  | None => ran_out stop b'
  end.
Proof.
  intros Hr Hok. destruct (Nat.leb_spec (length (rb_events b)) (S (rb_cursor b))); intros Hx.
  - rewrite decide_False by lia. by eapply end_ran_out.
  - rewrite decide_True by lia. by eapply goto_stands.
Qed.

Lemma resume_stands recs k b stop b' :
  records_wf recs → backend_ok recs b → replay_resume k b = (Ok (Some stop), b') →
  match destination k (rb_cursor b) (length (exit_seqs recs)) with
  | Some i => stands recs i (str "step") stop b'
  | None => ran_out stop b'
  end.
Proof.
  intros Hr Hok Hx. pose proof Hok as [_ He _]. unfold replay_resume in Hx. st_inv. rewrite <- He.
  destruct k; cbn [destination]; [by eapply end_ran_out| | |by eapply next_stands..].
  - destruct (rb_events b) eqn:E; [by eapply end_ran_out|by eapply goto_stands].
  - destruct (rb_events b) eqn:E; [by st_inv|by eapply goto_stands].
Qed.

Lemma resume_panic k b :
  (rb_cursor b ≤ length (rb_events b))%nat → (replay_resume k b).1 = Panic →
  (∃ e, (run_to fuel steps e (rb_session b)).1 = Panic) ∨ (run_to_end fuel steps (rb_session b)).1 = Panic.
Proof.
  intros Hc. unfold replay_resume. rewrite !bind_gets.
  destruct k; [by right; apply end_panic| | |
    destruct (Nat.leb_spec (length (rb_events b)) (S (rb_cursor b)));
      [by right; apply end_panic|left; by eapply goto_panic]..].
  - destruct (rb_events b) eqn:E; [by right; apply end_panic|]. left. eapply goto_panic; [|done]. rewrite E. cbn. lia.
  - destruct (rb_events b) eqn:E; [done|]. left. eapply goto_panic; [|done]. rewrite E in *. cbn in *. lia.
Qed.

(** ** Properties *)

(** C28. The adapter's stepping is exact.  On a backend opened on a trace and
    moved about without errors, over any kernel: every stop reported is what
    became of the target, stopped on the main thread for the reason of the
    request while the session runs, its exit code when it has ended.  A request
    that resumes goes to the event [destination] names (the previous, the next,
    the first, or the end), and if the target is then still running the session
    stands exactly at that system call's exit, having been through precisely the
    records up to it; running to the end never stops short.  A jump that leaves
    the target running stands at the first record at or past its target, an
    event or not, with the cursor at the last event not after it.  No request
    to resume indexes past the events: it panics only if the engine does. *)
Theorem replay_stops_at_events (recs : list LogRecord) (b : ReplayBackend) :
  records_wf recs → attached recs b →
  (∀ a stop b', replay_launch a b = (Ok (Some stop), b') →
     if decide (exit_seqs recs = []) then ran_out stop b' else stands recs 0 (str "entry") stop b') ∧
  (∀ k stop b', replay_resume k b = (Ok (Some stop), b') →
     match destination k (rb_cursor b) (length (exit_seqs recs)) with
     | Some i => stands recs i (str "step") stop b'
     | None => ran_out stop b'
     end) ∧
  (∀ a stop b', replay_jump_to_event a b = (Ok (Some stop), b') →
     reports (str "step") stop b' ∧
     last_event recs (default 0 (ss_current_seq (rb_session b'))) (rb_cursor b') ∧
     ∃ q, j_get a (str "seq") ≫= as_u64 = Some q ∧
       (ss_finished (rb_session b') = None →
          ∃ c r, consumed (rb_session b') = c ++ [r] ∧ ss_current_seq (rb_session b') = Some (seq r) ∧
            q ≤ seq r ∧ Forall (λ x, seq x < q) c)) ∧
  (∀ k, (replay_resume k b).1 = Panic →
     (∃ e, (run_to fuel steps e (rb_session b)).1 = Panic) ∨ (run_to_end fuel steps (rb_session b)).1 = Panic).
Proof.
  intros Hr Hb. pose proof (attached_ok _ _ Hr Hb) as Hok. pose proof Hok as [Hs He Hc]. split_and!.
  - intros a stop b' Hx. unfold replay_launch in Hx. st_inv. rewrite <- He.
    destruct (rb_events b) eqn:E; [by eapply end_ran_out|]. by eapply goto_stands.
  - intros k stop b' Hx. by eapply resume_stands.
  - intros a stop b' (q & o & s' & Hq & Hrun & -> & ->)%jump_ok.
    pose proof (run_to_finished _ _ _ _ _ Hr Hs Hrun) as Hf. split; [by apply reports_stop|].
    cbn [rb_session rb_cursor]. rewrite He. split; [apply cursor_at_last|].
    exists q. split; [done|]. rewrite Hf. case_decide as Ho; [subst o|done]. intros _.
    destruct (reachable_ok _ _ Hr Hs) as (Hsok & _).
    apply run_to_starts in Hrun as (s1 & H1 & _ & _ & Hle & Hd); [|done].
    destruct (drive_lands _ _ _ _ _ H1 Hle Hd) as (c & r & E1 & E2 & E3 & E4). by exists c, r.
  - intros k. by apply resume_panic.
Qed.

(** C29. Stepping is undone by stepping.  Take a backend at a stop at an event,
    and two requests that each come to a stop (neither ends the target nor
    fails).  A step forward ([next], [stepIn] or [stepOut]) and a step back, or,
    past the first event, a step back and a step forward, come to rest in the
    same place: the same cursor, the same event, the same records consumed.  At
    the first event a step back stays there, so the step forward after it comes
    to the second. *)
Theorem steps_undone (recs : list LogRecord) (b b1 b2 : ReplayBackend) (e : Z) (k : resume_kind)
    (r1 r2 : list byte) (t1 t2 : Z) :
  records_wf recs → attached recs b →
  exit_seqs recs !! rb_cursor b = Some e → ss_current_seq (rb_session b) = Some e → forward k = true →
  (replay_resume k b = (Ok (Some (Stopped r1 t1)), b1) →
   replay_resume StepBack b1 = (Ok (Some (Stopped r2 t2)), b2) →
   rb_cursor b2 = rb_cursor b ∧ ss_current_seq (rb_session b2) = Some e ∧
   consumed (rb_session b2) = consumed (rb_session b)) ∧
  (replay_resume StepBack b = (Ok (Some (Stopped r1 t1)), b1) →
   replay_resume k b1 = (Ok (Some (Stopped r2 t2)), b2) →
   if decide (rb_cursor b = 0%nat)
   then rb_cursor b1 = 0%nat ∧ ss_current_seq (rb_session b1) = Some e ∧
        consumed (rb_session b1) = consumed (rb_session b) ∧ rb_cursor b2 = 1%nat ∧
        ss_current_seq (rb_session b2) = exit_seqs recs !! 1%nat
   else rb_cursor b2 = rb_cursor b ∧ ss_current_seq (rb_session b2) = Some e ∧
        consumed (rb_session b2) = consumed (rb_session b)).
Proof.
  intros Hr Hb He Hq Hk. pose proof (attached_ok _ _ Hr Hb) as Hok.
  rewrite (standing_upto recs (rb_session b) e) by (done || apply Hok).
  pose proof (lookup_lt_Some _ _ _ He) as Hlt.
  assert (Hd : ∀ c n, destination k c n = if decide (S c < n)%nat then Some (S c) else None)
    by (intros c n; by destruct k).
  split; intros H1 H2; assert (Hb1 : attached recs b1) by (by eapply at_resume);
    pose proof (resume_stands _ _ _ _ _ Hr Hok H1) as D1;
    pose proof (resume_stands _ _ _ _ _ Hr (attached_ok _ _ Hr Hb1) H2) as D2; rewrite Hd in *;
    cbn [destination] in D1, D2.
  - case_decide; [|by apply stopped_short in D1]. apply stands_stopped in D1 as (E1 & _).
    rewrite E1, Nat.sub_succ, Nat.sub_0_r in D2. apply stands_stopped in D2 as (E2 & e' & He' & Hq' & Hc').
    rewrite He in He'. injection He' as <-. done.
  - apply stands_stopped in D1 as (E1 & e1 & He1 & Hq1 & Hc1). rewrite E1 in D2.
    case_decide as Hn; [|by apply stopped_short in D2]. apply stands_stopped in D2 as (E2 & e2 & He2 & Hq2 & Hc2).
    case_decide as Hz.
    + rewrite Hz in *. cbn [Nat.sub] in *. rewrite He in He1. injection He1 as <-. by rewrite He2.
    + replace (S (rb_cursor b - 1)) with (rb_cursor b) in * by lia. rewrite He in He2. injection He2 as <-. done.
Qed.

End backend.

(** ** Samples: the dice program under the adapter *)

#[local] Existing Instance dice_kernel.
#[local] Existing Instance EndToEnd.no_unwind.

#[local] Instance blind : Inspector (machine nat) := {|
  view_for_pid _ _ := Ok two_threads;
  registers_for_pid _ _ := Ok (MkInitialRegs 0 0 0 0) |}.

#[local] Instance terse : ErrorTexts := {|
  replay_error_text _ := str "replay failed"; trace_error_text _ := str "bad trace" |}.

Definition dice_recs : list LogRecord := number 0 dice_log.

(** Opened and launched: at the first event. *)
Definition dice_open := open (Ok (Some sample_cmdline, Ok dice_recs)) (Ok (Ok dice_recs)) 200 (dice_world []).

Definition is_stopped (r : result backend_error (option StopInfo)) : bool :=
  match r with Ok (Some (Stopped _ _)) => true | _ => false end.

Lemma is_stopped_ok {S} (m : stm S backend_error (option StopInfo)) s :
  is_stopped (m s).1 = true → ∃ r t, m s = (Ok (Some (Stopped r t)), (m s).2).
Proof. destruct (m s) as [[[[]|]| |] s']; try done. by eexists _, _. Qed.

Definition no_arguments : @Value sample_json := JNull.

(** The adapter at the first event, one step on, and back. *)
Lemma dice_steps :
  ∃ (b : ReplayBackend (W := machine nat)) r1 t1 r2 t2, attached 9 1 dice_recs b ∧
    exit_seqs dice_recs !! rb_cursor b = Some 1 ∧ ss_current_seq (rb_session b) = Some 1 ∧
    replay_resume 9 1 Next b = (Ok (Some (Stopped r1 t1)), (replay_resume 9 1 Next b).2) ∧
    replay_resume 9 1 StepBack (replay_resume 9 1 Next b).2 =
      (Ok (Some (Stopped r2 t2)), (replay_resume 9 1 StepBack (replay_resume 9 1 Next b).2).2).
Proof.
  assert (Hl : match dice_open.1 with
    | Ok b0 => let b := (replay_launch 9 1 no_arguments b0).2 in
        is_stopped (replay_launch 9 1 no_arguments b0).1 &&
        bool_decide (exit_seqs dice_recs !! rb_cursor b = Some 1) &&
        bool_decide (ss_current_seq (rb_session b) = Some 1) &&
        is_stopped (replay_resume 9 1 Next b).1 &&
        is_stopped (replay_resume 9 1 StepBack (replay_resume 9 1 Next b).2).1
    | _ => false end = true) by (vm_compute; reflexivity).
  destruct dice_open as [[b0| |] w] eqn:Hopen; try done. cbn [fst] in Hl. cbv zeta in Hl.
  rewrite !andb_true_iff in Hl. destruct Hl as [[[[H1 H2] H3] H4] H5].
  apply is_stopped_ok in H1 as (r & t & H1), H4 as (r1 & t1 & H4), H5 as (r2 & t2 & H5).
  apply bool_decide_eq_true in H2, H3.
  exists (replay_launch 9 1 no_arguments b0).2, r1, t1, r2, t2.
  split; [|exact (conj H2 (conj H3 (conj H4 H5)))].
  eapply at_launch; [|exact H1]. eapply at_open; [|exact Hopen]. by split.
Qed.

Lemma replay_stops_at_events_witness :
  ∃ (b b' : ReplayBackend (W := machine nat)) r t, attached 9 1 dice_recs b ∧ replay_resume 9 1 Next b = (Ok (Some (Stopped r t)), b') ∧
    match destination Next (rb_cursor b) (length (exit_seqs dice_recs)) with
    | Some i => stands dice_recs i (str "step") (Stopped r t) b'
    | None => ran_out (Stopped r t) b'
    end.
Proof.
  destruct dice_steps as (b & r1 & t1 & r2 & t2 & Hb & _ & _ & H & _).
  exists b, (replay_resume 9 1 Next b).2, r1, t1. split; [exact Hb|]. split; [exact H|].
  destruct (replay_stops_at_events 9 1 dice_recs b dice_records_wf Hb) as (_ & Hres & _).
  exact (Hres _ _ _ H).
Defined.

Lemma steps_undone_witness :
  ∃ b b2 : ReplayBackend (W := machine nat), attached 9 1 dice_recs b ∧ rb_cursor b2 = rb_cursor b ∧
    ss_current_seq (rb_session b2) = Some 1 ∧ consumed (rb_session b2) = consumed (rb_session b).
Proof.
  destruct dice_steps as (b & r1 & t1 & r2 & t2 & Hb & He & Hq & H1 & H2).
  exists b, (replay_resume 9 1 StepBack (replay_resume 9 1 Next b).2).2. split; [exact Hb|].
  exact (proj1 (steps_undone 9 1 dice_recs b _ _ 1 Next _ _ _ _ dice_records_wf Hb He Hq eq_refl) H1 H2).
Defined.

(** A jump between two events leaves the cursor at the event before, so the
    next step back skips it; a jump before the first event leaves it at the
    first, so the next step forward skips that one. *)
Definition after_jump (q : Z) (k : resume_kind) : option Z :=
  match dice_open.1 with
  | Ok b =>
      let b := (replay_jump_to_event 9 1 (JObject [(str "seq", JInt q)]) b).2 in
      ss_current_seq (rb_session (replay_resume 9 1 k b).2)
  | _ => None
  end.

Lemma jumps_skip_events :
  exit_seqs dice_recs = [1; 3; 5] ∧ after_jump 4 StepBack = Some 1 ∧ after_jump 0 Next = Some 3.
Proof. vm_compute. done. Qed.
