(* ===== verification/Unwind.v ===== *)
(** * Native stacks: [unwind/src]

    Reading the modules of [/proc/<pid>/maps], the sections the unwinder is
    given, symbolizing addresses through the first module that covers them, and
    the unwinder of a stopped process.  What the crates [object], [framehop] and
    [addr2line] answer, and the files on disk, are the class [UnwindLibs]; what
    the kernel answers about the stopped process is a record; the architecture
    is the class [Host]. *)

From S2P Require Import Prelude StdIo TraceFormat Crc32 TraceLog Payload Ptrace Capture Discipline Sched.
From S2P Require Import ToyKernel SchedLog Recording Watchpoint Schedule Replay Session Mt Follow Machine.
From S2P Require Import Solo EndToEnd Navigate.
From S2P Require Arch.
From S2P Require Import Text BufIo Transport SampleJson Server TaskModel TaskTree.
From S2P Require Import Maps ReplayBackend.

Inductive host_arch := HostX86_64 | HostAarch64.
Class Host := host : host_arch.

(** ** The stopped process *)

Record user_regs := MkUserRegs { u_rip : Z; u_rsp : Z; u_rbp : Z; u_fs_base : Z }.

(** What the kernel answers while the process is stopped: the entries of
    [/proc/<pid>/task] (a name that is not UTF-8 is [None]), a thread's [comm],
    the target of [/proc/<pid>/exe], [/proc/<pid>/maps], a thread's registers
    ([PTRACE_GETREGS], or the regsets [NT_PRSTATUS] and [NT_ARM_TLS]), and the
    bytes [process_vm_readv] transfers. *)
Record proc := MkProc {
  pr_task_dir : Z → result (list byte) (list (result (list byte) (option (list byte))));
  pr_comm : Z → Z → result (list byte) (list byte);
  pr_exe : Z → option (list byte);
  pr_maps : Z → result (list byte) (list byte);
  pr_getregs : Z → result (list byte) user_regs;
  pr_prstatus : Z → result (list byte) Arch.user_pt_regs;
  pr_tls : Z → result (list byte) Z;
  pr_readv : Z → Z → Z → result (list byte) (list byte)
}.

(** A buffer of zeros overwritten from its start. *)
Definition filled (len : Z) (bs : list byte) : list byte :=
  take (Z.to_nat len) (bs ++ replicate (Z.to_nat len - length bs) x00).

(** ** The libraries *)

(** An object file as the code asks about it: the address and size of each
    loadable segment, and a section by its name. *)
Record object_section := MkSection { os_address : Z; os_size : Z; os_data : result (list byte) (list byte) }.
Record object_file := MkObject { of_segments : list (Z * Z); of_section : list byte → option object_section }.

(** A frame of the loader: its demangled name, and its location. *)
Record raw_frame := MkRawFrame { rf_function : option (list byte); rf_location : option (option (list byte) * option Z) }.

(** [addr2line::Loader]: the frames at an address up to a read error, and the
    symbol table. *)
Record Loader := MkLoader { find_frames : Z → option (list raw_frame); find_symbol : Z → option (list byte) }.

(** A section's stated range, and its bytes. *)
Record SectionData := MkSectionData { svma : Z * Z; section_bytes : list byte }.

Record ElfLayout := MkElfLayout {
  base_avma : Z; avma_range : Z * Z;
  text : option SectionData; eh_frame : option SectionData; eh_frame_hdr : option SectionData;
  got_svma : option (Z * Z)
}.

(** [framehop]: a module as it is described to it, and the native registers. *)
Record ExplicitModuleSectionInfo := MkSectionInfo {
  si_base_svma : Z;
  si_text_svma : option (Z * Z); si_text : option (list byte);
  si_eh_frame_svma : option (Z * Z); si_eh_frame : option (list byte);
  si_eh_frame_hdr_svma : option (Z * Z); si_eh_frame_hdr : option (list byte);
  si_got_svma : option (Z * Z)
}.
Record StackModule := MkStackModule {
  st_name : list byte; st_range : Z * Z; st_base : Z; st_sections : ExplicitModuleSectionInfo
}.
Inductive UnwindRegsNative := UnwindRegsX86_64 (ip sp bp : Z) | UnwindRegsAarch64 (lr sp fp : Z).

(** The files, [object], [addr2line] and [framehop]; [iter_frames] is what the
    successive [next()] give. *)
Class UnwindLibs := {
  fs_read : list byte → result (list byte) (list byte);
  parse_object : list byte → result (list byte) object_file;
  loader_of : list byte → result (list byte) Loader;
  frame_address : Type;
  address_for_lookup : frame_address → Z;
  iter_frames : list StackModule → Z → UnwindRegsNative → (Z → option Z) → list (result unit (option frame_address));
}.

(** [UnwindError], and its [Display]. *)
Inductive unwind_error := UwIo (path source : list byte) | UwElf (e : list byte) | UwSymbol (e : list byte).

Definition unwind_error_display (e : unwind_error) : list byte :=
  match e with
  | UwIo path source => str "failed to read module " ++ path ++ str ": " ++ source
  | UwElf e => str "malformed or unsupported ELF module: " ++ e
  | UwSymbol e => str "symbolization backend failed: " ++ e
  end.

Section Stacks.
Context {HO : Host} {UL : UnwindLibs}.

(** ** [elf.rs] *)

Definition read_object (path : list byte) : result unwind_error object_file :=
  data ← map_err (UwIo path) (fs_read path);
  map_err (λ e, UwElf (path ++ str ": " ++ e)) (parse_object data).

Definition elf_bounds (file : object_file) (mapping_base : Z) : result unwind_error (Z * (Z * Z)) :=
  map_err (λ _, UwElf (str "no loadable segments")) (bounds (of_segments file) mapping_base).

Definition module_bounds (path : list byte) (mapping_base : Z) : result unwind_error (Z * (Z * Z)) :=
  file ← read_object path; elf_bounds file mapping_base.

(** [s.address()..s.address() + s.size()]. *)
Definition section_range (s : object_section) : result unwind_error (Z * Z) :=
  hi ← expect (checked_add 64 (os_address s) (os_size s)); Ok (os_address s, hi).

Definition elf_section (file : object_file) (name : list byte) : result unwind_error (option SectionData) :=
  match of_section file name with
  | None => Ok None
  | Some s =>
      match os_data s with
      | Ok bytes => range ← section_range s; Ok (Some (MkSectionData range bytes))
      | Err _ => Ok None
      | Panic => Panic
      end
  end.

Definition read_layout (path : list byte) (mapping_base : Z) : result unwind_error ElfLayout :=
  file ← read_object path;
  '(base, range) ← elf_bounds file mapping_base;
  text ← elf_section file (str ".text");
  eh_frame ← elf_section file (str ".eh_frame");
  eh_frame_hdr ← elf_section file (str ".eh_frame_hdr");
  got ← (match of_section file (str ".got") with
         | Some s => r ← section_range s; Ok (Some r)
         | None => Ok None
         end);
  Ok (MkElfLayout base range text eh_frame eh_frame_hdr got).

(** ** [unwinder.rs] *)

Definition split (s : option SectionData) : option (Z * Z) * option (list byte) :=
  match s with Some s => (Some (svma s), Some (section_bytes s)) | None => (None, None) end.

Definition StackUnwinder_add_module (path : list byte) (mapping_base : Z) (ms : list StackModule)
    : result unwind_error (list StackModule) :=
  layout ← read_layout path mapping_base;
  let '(text_svma, text) := split (text layout) in
  let '(eh_frame_svma, eh_frame) := split (eh_frame layout) in
  let '(eh_frame_hdr_svma, eh_frame_hdr) := split (eh_frame_hdr layout) in
  let section_info := MkSectionInfo 0 text_svma text eh_frame_svma eh_frame eh_frame_hdr_svma eh_frame_hdr (got_svma layout) in
  Ok (ms ++ [MkStackModule path (avma_range layout) (base_avma layout) section_info]).

Definition native_regs (regs : InitialRegs) : UnwindRegsNative :=
  match host with
  | HostX86_64 => UnwindRegsX86_64 (ir_pc regs) (ir_sp regs) (ir_fp regs)
  | HostAarch64 => UnwindRegsAarch64 (ir_lr regs) (ir_sp regs) (ir_fp regs)
  end.

(** [while let Ok(Some(frame)) = iter.next()]. *)
Fixpoint lookup_addresses (frames : list (result unit (option frame_address))) : list Z :=
  match frames with
  | Ok (Some f) :: frames => address_for_lookup f :: lookup_addresses frames
  | _ => []
  end.

Definition stack_unwind (ms : list StackModule) (regs : InitialRegs) (read_stack : Z → option Z) : result unwind_error (list Z) :=
  Ok (lookup_addresses (iter_frames ms (ir_pc regs) (native_regs regs) read_stack)).

(** ** [symbolize.rs] *)

Record SymModule := MkSymModule { sm_base : Z; sm_lo : Z; sm_hi : Z; sm_loader : Loader }.

Definition Symbolizer_add_module (path : list byte) (mapping_base : Z) (ms : list SymModule)
    : result unwind_error (list SymModule) :=
  '(base_avma, (lo, hi)) ← module_bounds path mapping_base;
  loader ← map_err UwSymbol (loader_of path);
  Ok (ms ++ [MkSymModule base_avma lo hi loader]).

Definition sm_contains (avma : Z) (m : SymModule) : bool := (sm_lo m <=? avma) && (avma <? sm_hi m).

Definition symbolized (avma : Z) (f : raw_frame) : SymbolizedFrame :=
  mkFrame (rf_function f) (rf_location f ≫= fst) (rf_location f ≫= snd) avma.

(** It does not fail. *)
Definition resolve {E} (ms : list SymModule) (avma : Z) : result E (list SymbolizedFrame) :=
  match find (sm_contains avma) ms with
  | None => Ok []
  | Some m =>
      svma ← expect (if sm_base m <=? avma then Some (avma - sm_base m) else None);
      match symbolized avma <$> default [] (find_frames (sm_loader m) svma) with
      | [] => Ok [mkFrame (find_symbol (sm_loader m) svma) None None avma]
      | frames => Ok frames
      end
  end.

(** ** [memory.rs] *)

Inductive memory_error := MemoryRead (addr len : Z).

(** [SelfMemory] over the content of [/proc/self/mem]; [read_exact_at] of eight
    bytes. *)
Definition self_read_u64 (read_exact_at : Z → Z → option (list byte)) (addr : Z) : result memory_error Z :=
  match read_exact_at addr 8 with Some bs => Ok (le_value bs) | None => Err (MemoryRead addr 8) end.

Context (p : proc).

(** The count of bytes transferred is not looked at. *)
Definition remote_read_u64 (pid addr : Z) : result memory_error Z :=
  match pr_readv p pid addr 8 with Ok bs => Ok (le_value (filled 8 bs)) | _ => Err (MemoryRead addr 8) end.

(** ** [lib.rs] *)

Fixpoint resolve_all {E} (ms : list SymModule) (addresses : list Z) : result E (list SymbolizedFrame) :=
  match addresses with
  | [] => Ok []
  | a :: addresses => fs ← resolve ms a; rest ← resolve_all ms addresses; Ok (fs ++ rest)
  end.

Definition unwind_symbolized (us : list StackModule) (ss : list SymModule) (regs : InitialRegs)
    (mem : Z → result memory_error Z) : result unwind_error (list SymbolizedFrame) :=
  addresses ← stack_unwind us regs (λ addr, match mem addr with Ok v => Some v | _ => None end);
  resolve_all ss addresses.

(** ** [remote.rs] *)

Inductive remote_error := RemMaps (pid : Z) (e : list byte) | RemPtrace (pid : Z) (e : list byte) | RemUnwind (e : unwind_error).

Definition remote_error_display (e : remote_error) : list byte :=
  match e with
  | RemMaps pid e => str "failed to read /proc/" ++ dec_i pid ++ str "/maps: " ++ e
  | RemPtrace pid e => str "ptrace register read failed for pid " ++ dec_i pid ++ str ": " ++ e
  | RemUnwind e => unwind_error_display e
  end.

Record RemoteUnwinder := MkRemoteUnwinder {
  ru_pid : Z; ru_modules : list StackModule; ru_symbols : list SymModule
}.

(** [let _ = ...add_module(..)]: an error leaves the list as it was. *)
Definition kept {A} (old : A) (r : result unwind_error A) : result remote_error A :=
  match r with Ok a => Ok a | Err _ => Ok old | Panic => Panic end.

Fixpoint load_modules (modules : list ModuleMapping) (us : list StackModule) (ss : list SymModule)
    : result remote_error (list StackModule * list SymModule) :=
  match modules with
  | [] => Ok (us, ss)
  | m :: modules =>
      us ← kept us (StackUnwinder_add_module (mm_path m) (mm_base m) us);
      ss ← kept ss (Symbolizer_add_module (mm_path m) (mm_base m) ss);
      load_modules modules us ss
  end.

Definition RemoteUnwinder_for_pid (pid : Z) : result remote_error RemoteUnwinder :=
  content ← map_err (RemMaps pid) (pr_maps p (as_u 32 pid));
  '(us, ss) ← load_modules (parse_maps content) [] [];
  Ok (MkRemoteUnwinder pid us ss).

(** [read_registers], of either architecture. *)
Definition read_registers (pid : Z) : result remote_error InitialRegs :=
  match host with
  | HostX86_64 =>
      r ← map_err (RemPtrace pid) (pr_getregs p pid);
      Ok (MkInitialRegs (u_rip r) (u_rsp r) (u_rbp r) 0)
  | HostAarch64 =>
      r ← map_err (RemPtrace pid) (pr_prstatus p pid);
      Ok (MkInitialRegs (Arch.a_pc r) (Arch.a_sp r) (Arch.xreg 29 r) (Arch.xreg 30 r))
  end.

Definition remote_registers (u : RemoteUnwinder) : result remote_error InitialRegs := read_registers (ru_pid u).

Definition remote_backtrace (u : RemoteUnwinder) (regs : InitialRegs) : result remote_error (list SymbolizedFrame) :=
  map_err RemUnwind (unwind_symbolized (ru_modules u) (ru_symbols u) regs (remote_read_u64 (ru_pid u))).

Definition backtrace_now (u : RemoteUnwinder) : result remote_error (list SymbolizedFrame) :=
  regs ← remote_registers u; remote_backtrace u regs.

(** ** Lemmas *)

(** Module addresses are unsigned. *)
Definition unsigned_segments : Prop := ∀ data file, parse_object data = Ok file → Forall (λ s, 0 ≤ s.1) (of_segments file).

Context (Hsegs : unsigned_segments).

Lemma segment_extent_lo segs lo hi lo' hi' :
  Forall (λ s, 0 ≤ s.1) segs → 0 ≤ lo → segment_extent segs lo hi = Ok (lo', hi') → 0 ≤ lo'.
Proof.
  intros Hs. revert lo hi. induction Hs as [|[a n] segs Ha _ IH]; intros lo hi Hlo; cbn [segment_extent].
  - by intros [= <- <-].
  - destruct (checked_add 64 a n) as [e|]; [|done]. cbn [expect mbind result_bind]. apply IH. cbn in Ha. lia.
Qed.

Lemma module_bounds_base path base b lo hi : module_bounds path base = Ok (b, (lo, hi)) → b ≤ lo.
Proof.
  unfold module_bounds, read_object, elf_bounds. destruct (fs_read path) as [data| |]; [|done..]. cbn [map_err mbind result_bind].
  destruct (parse_object data) as [f| |] eqn:E; [|done..]. cbn [map_err mbind result_bind].
  unfold bounds. destruct (segment_extent (of_segments f) _ _) as [[mn mx]| |] eqn:Ex; [|done..]. cbn [mbind result_bind].
  apply segment_extent_lo in Ex; [|by eapply Hsegs|lia].
  destruct (mn =? _); [done|].
  destruct (checked_add 64 _ mn) as [lo1|] eqn:E1; cbn [expect mbind result_bind map_err]; [|done].
  destruct (checked_add 64 _ mx) as [hi1|]; cbn [expect mbind result_bind map_err]; [|done].
  intros [= <- <- _]. unfold checked_add in E1. destruct (_ <? _); [injection E1 as <-; lia|done].
Qed.

Definition sound_module (m : SymModule) : Prop := sm_base m ≤ sm_lo m.

Lemma load_modules_sound modules us ss us' ss' :
  Forall sound_module ss → load_modules modules us ss = Ok (us', ss') → Forall sound_module ss'.
Proof.
  revert us ss. induction modules as [|m modules IH]; intros us ss Hs; cbn [load_modules].
  { by intros [= <- <-]. }
  destruct (kept us _) as [us1| |]; [|done..]. cbn [mbind result_bind].
  destruct (Symbolizer_add_module (mm_path m) (mm_base m) ss) as [ss1|e|] eqn:E; cbn [kept mbind result_bind];
    [|by apply IH|done].
  apply IH. revert E. unfold Symbolizer_add_module.
  destruct (module_bounds _ _) as [[b [lo hi]]| |] eqn:Eb; [|done..]. cbn [mbind result_bind].
  destruct (loader_of _); [|done..]. intros [= <-]. apply Forall_app. split; [done|].
  constructor; [|constructor]. by apply module_bounds_base in Eb.
Qed.

Lemma unwinder_for_pid_sound pid u :
  RemoteUnwinder_for_pid pid = Ok u → ru_pid u = pid ∧ Forall sound_module (ru_symbols u).
Proof.
  unfold RemoteUnwinder_for_pid. destruct (pr_maps p (as_u 32 pid)); [|done..]. cbn [map_err mbind result_bind].
  destruct (load_modules _ _ _) as [[us ss]| |] eqn:E; [|done..]. intros [= <-].
  split; [done|]. by eapply load_modules_sound.
Qed.

(** A covered address has frames, an uncovered one none; no address panics. *)
Lemma resolve_total {E} ms avma :
  Forall sound_module ms →
  ∃ fs, resolve (E := E) ms avma = Ok fs ∧ (fs = [] ↔ find (sm_contains avma) ms = None) ∧
    Forall (λ f, f_address f = avma) fs.
Proof.
  intros Hms. unfold resolve. destruct (find (sm_contains avma) ms) as [m|] eqn:Ef; [|by exists []].
  apply find_some in Ef as [Hin Hc%andb_true_iff]. destruct Hc as [Hc%Z.leb_le _].
  assert (Hm : sound_module m) by (by rewrite Forall_forall in Hms; apply Hms, list_elem_of_In).
  unfold sound_module in Hm. rewrite (proj2 (Z.leb_le _ _)) by lia. cbn [expect mbind result_bind].
  destruct (default [] _) as [|f fs]; cbn; eexists; (split; [done|]); (split; [done|]).
  - by repeat constructor.
  - constructor; [done|]. apply Forall_fmap, Forall_true. done.
Qed.

Lemma resolve_all_total {E} ms addresses :
  Forall sound_module ms → ∃ fs, resolve_all (E := E) ms addresses = Ok fs.
Proof.
  intros Hms. induction addresses as [|a addresses [rest IH]]; cbn [resolve_all]; [by eexists|].
  destruct (resolve_total (E := E) ms a Hms) as (fs & -> & _). cbn. rewrite IH. by eexists.
Qed.

(** [framehop]'s first failure ends the walk and keeps what it gave before. *)
Lemma lookup_addresses_prefix good rest :
  match rest with Ok (Some _) :: _ => False | _ => True end →
  lookup_addresses (((λ f, Ok (Some f)) <$> good) ++ rest) = address_for_lookup <$> good.
Proof.
  intros Hr. induction good as [|f good IH]; cbn; [by destruct rest as [|[[]| |] rest]|]. by rewrite IH.
Qed.

(** A backtrace is one group of frames per address, innermost first, each frame
    carrying its address; only an address that no module covers has none. *)
Lemma backtrace_groups u regs fs :
  Forall sound_module (ru_symbols u) → remote_backtrace u regs = Ok fs →
  ∃ groups, fs = concat groups ∧
    Forall2 (λ a g, Forall (λ f, f_address f = a) g ∧ (g = [] ↔ find (sm_contains a) (ru_symbols u) = None))
      (lookup_addresses (iter_frames (ru_modules u) (ir_pc regs) (native_regs regs)
         (λ addr, match remote_read_u64 (ru_pid u) addr with Ok v => Some v | _ => None end))) groups.
Proof.
  intros Hms Hx. unfold remote_backtrace, unwind_symbolized, stack_unwind in Hx. cbn [mbind result_bind] in Hx.
  destruct (resolve_all _ _) as [fs'| |] eqn:Hr; [|done..]. injection Hx as <-. revert fs' Hr.
  induction (lookup_addresses _) as [|a addresses IH]; intros fs Hr; cbn [resolve_all] in Hr.
  { injection Hr as <-. by exists []. }
  destruct (resolve_total (E := unwind_error) (ru_symbols u) a Hms) as (g & Hg & Hnil & Haddr).
  rewrite Hg in Hr. cbn [mbind result_bind] in Hr. destruct (resolve_all _ addresses) as [rest| |]; [|done..].
  injection Hr as <-. destruct (IH _ eq_refl) as (groups & -> & Hf). exists (g :: groups). split; [done|].
  by constructor.
Qed.
End Stacks.
