(* ===== verification/LiveView.v ===== *)
(** * A stopped process as a view: [decoder/src/ptrace_view.rs]

    The [ProcessView] over a process whose threads are stopped: its threads by
    [/proc/<pid>/task], each with an unwinder of its own ([Unwind]), their
    registers, memory and stacks.  The view keeps the laws the decoders rely
    on, and the replay backend's [threads] request is followed from the process
    to the client. *)

From S2P Require Import Prelude StdIo TraceFormat Crc32 TraceLog Payload Ptrace Capture Discipline Sched.
From S2P Require Import ToyKernel SchedLog Recording Watchpoint Schedule Replay Session Mt Follow Machine.
From S2P Require Import Solo EndToEnd Navigate.
From S2P Require Import Text BufIo Transport SampleJson Server TaskModel TaskTree.
From S2P Require View.
From S2P Require Import View Maps.
From S2P Require Import ReplayBackend Unwind.

(** [str::parse::<iN>]. *)
Definition parse_i (w : Z) (s : list byte) : option Z :=
  match s with
  | b :: rest =>
      if byte_is x2d b then
        match rest with
        | [] => None
        | _ => n ← parse_digits w 10 rest 0; if n <=? 2 ^ (w - 1) then Some (- n) else None
        end
      else n ← parse_u w s; if n <? 2 ^ (w - 1) then Some n else None
  | [] => None
  end.

Section live.
Context {HO : Host} {UL : UnwindLibs} (p : proc).

(** ** [ptrace_view.rs] *)

Inductive ptrace_view_error :=
  | EnumerateThreads (pid : Z) (source : list byte)
  | UnwinderFailed (pid tid : Z) (source : remote_error).

Definition ptrace_view_error_display (e : ptrace_view_error) : list byte :=
  match e with
  | EnumerateThreads pid source => str "failed to enumerate threads of pid " ++ dec_i pid ++ str ": " ++ source
  | UnwinderFailed pid tid source =>
      str "failed to prepare unwinder for thread " ++ dec_i tid ++ str " of pid " ++ dec_i pid ++ str ": "
      ++ remote_error_display source
  end.

(** The loop of [task_ids]: a name that is not a number is passed over. *)
Fixpoint task_entries (entries : list (result (list byte) (option (list byte)))) (ids : list Z)
    : result (list byte) (list Z) :=
  match entries with
  | [] => Ok ids
  | e :: entries =>
      name ← e;
      task_entries entries (match name ≫= parse_i 32 with Some tid => ids ++ [tid] | None => ids end)
  end.

Definition task_ids (pid : Z) : result (list byte) (list Z) :=
  entries ← pr_task_dir p pid;
  ids ← task_entries entries [];
  Ok (merge_sort Z.le ids).

Definition read_comm (pid tid : Z) : result (list byte) (list byte) :=
  raw ← pr_comm p pid tid; Ok (trim_end raw).

Record ThreadView := MkThreadView { tv_unwinder : RemoteUnwinder; comm : list byte }.

Record PtraceProcessView := MkPtraceView { pv_pid : Z; pv_threads : gmap Z ThreadView }.

(** The loop of [for_pid]. *)
Fixpoint view_threads (pid : Z) (tids : list Z) (threads : gmap Z ThreadView)
    : result ptrace_view_error (gmap Z ThreadView) :=
  match tids with
  | [] => Ok threads
  | tid :: tids =>
      unwinder ← map_err (UnwinderFailed pid tid) (RemoteUnwinder_for_pid p tid);
      comm ← (match read_comm pid tid with Ok c => Ok c | Err _ => Ok [] | Panic => Panic end);
      view_threads pid tids (<[as_u 64 tid := MkThreadView unwinder comm]> threads)
  end.

Definition view_of_pid (pid : Z) : result ptrace_view_error PtraceProcessView :=
  tids ← map_err (EnumerateThreads pid) (task_ids pid);
  threads ← view_threads pid tids ∅;
  Ok (MkPtraceView pid threads).

Section view.
Context (v : PtraceProcessView).

Definition thread_name (thread : ThreadId) : option (list byte) := comm <$> pv_threads v !! thread.

Definition thread_view (thread : ThreadId) : result decoder_error ThreadView :=
  ok_or (UnknownThread thread) (pv_threads v !! thread).

Definition live_thread_ids : list ThreadId := sorted_keys (pv_threads v).

Definition live_registers (thread : ThreadId) : result decoder_error View.Registers :=
  view ← thread_view thread;
  regs ← map_err (λ e, RegisterReadFailed thread (remote_error_display e)) (remote_registers p (tv_unwinder view));
  Ok (View.MkRegisters (ir_pc regs) (ir_sp regs)).

(** The count of bytes transferred is not looked at here either; the buffer of
    more than [isize::MAX] bytes panics. *)
Definition live_read_memory (addr len : Z) : result decoder_error (list byte) :=
  if ISIZE_MAX <? len then Panic
  else
    bs ← map_err (MemoryReadFailed addr len) (pr_readv p (pv_pid v) addr len);
    Ok (filled len bs).

(** [read_thread_pointer] of either architecture. *)
Definition read_thread_pointer (tid : Z) : result (list byte) (option Z) :=
  match host with
  | HostX86_64 => r ← pr_getregs p tid; Ok (Some (u_fs_base r))
  | HostAarch64 => tp ← pr_tls p tid; Ok (Some tp)
  end.

Definition live_thread_pointer (thread : ThreadId) : result decoder_error (option Z) :=
  _ ← thread_view thread;
  map_err (RegisterReadFailed thread) (read_thread_pointer (as_i 32 thread)).

Definition live_executable_base : option Z :=
  exe ← pr_exe p (pv_pid v);
  match pr_maps p (pv_pid v) with Ok maps => Maps.executable_base exe maps | _ => None end.

Definition physical_frame (leaf_sp : Z) (index : nat) (frame : SymbolizedFrame) : PhysicalFrame :=
  MkPhysicalFrame (f_address frame) (if bool_decide (index = 0%nat) then leaf_sp else 0) (f_function frame)
    ((λ path, MkSourceLocation path (default 0 (f_line frame)) 0) <$> f_file frame).

Definition live_physical_frames (thread : ThreadId) : result decoder_error (list PhysicalFrame) :=
  view ← thread_view thread;
  leaf ← live_registers thread;
  frames ← map_err (λ e, PhysicalFramesFailed thread (remote_error_display e)) (backtrace_now p (tv_unwinder view));
  Ok (imap (physical_frame (View.reg_sp leaf)) frames).

Definition as_process_view : ProcessView := {|
  thread_ids := live_thread_ids;
  View.registers := live_registers;
  View.read_memory := live_read_memory;
  physical_frames := live_physical_frames;
  thread_pointer := live_thread_pointer;
  View.executable_base := live_executable_base |}.

End view.

(** ** The laws of the view *)

(** What the kernel lists under [/proc/<pid>/task]: a directory named by its
    number, in decimal, for each thread of the process, in any order. *)
Definition lists_threads (pid : Z) (tids : list Z) : Prop :=
  pr_task_dir p pid = Ok ((λ tid, Ok (Some (dec tid))) <$> tids) ∧
  NoDup tids ∧ Forall (λ tid, 0 < tid < 2 ^ 31) tids.

Lemma parse_i_dec n : 0 ≤ n < 2 ^ 31 → parse_i 32 (dec n) = Some n.
Proof.
  intros Hn. assert (Hp : parse_u 32 (dec n) = Some n) by (apply parse_u_dec; unfold in_u; lia).
  pose proof (digits_digits 10 n ltac:(lia)) as Hd. fold (dec n) in Hd.
  unfold parse_i. destruct (dec n) as [|b rest] eqn:E; [by apply digits_nonempty in E|].
  apply Forall_cons_iff in Hd as [[z Hz] _].
  assert (byte_is x2d b = false) as ->.
  { unfold byte_is. apply bool_decide_eq_false. intros <-. by vm_compute in Hz. }
  rewrite Hp. cbn [mbind option_bind]. by rewrite (proj2 (Z.ltb_lt _ _)) by lia.
Qed.

Lemma task_entries_listed tids : ∀ ids,
  Forall (λ tid, 0 < tid < 2 ^ 31) tids →
  task_entries ((λ tid, Ok (Some (dec tid))) <$> tids) ids = Ok (ids ++ tids).
Proof.
  induction tids as [|tid tids IH]; intros ids Ht; cbn [fmap list_fmap task_entries]; [by rewrite app_nil_r|].
  apply Forall_cons_iff in Ht as [Ht Hts]. cbn [mbind result_bind option_bind].
  rewrite parse_i_dec by lia. cbn [mbind]. rewrite IH by done. by rewrite <- app_assoc.
Qed.

Lemma task_ids_listed pid tids : lists_threads pid tids → task_ids pid = Ok (merge_sort Z.le tids).
Proof.
  intros (Hd & _ & Ht). unfold task_ids. rewrite Hd. cbn [mbind result_bind].
  by rewrite (task_entries_listed tids [] Ht).
Qed.

(** Module addresses are unsigned. *)
Context (Hsegs : unsigned_segments).

(** What a view holds of a thread. *)
Definition holds_thread (tid : Z) (t : ThreadView) : Prop :=
  ru_pid (tv_unwinder t) = tid ∧ Forall sound_module (ru_symbols (tv_unwinder t)).

Lemma view_threads_ok pid tids threads threads' :
  view_threads pid tids threads = Ok threads' →
  (∀ k t, threads' !! k = Some t → threads !! k = Some t ∨ ∃ tid, tid ∈ tids ∧ k = as_u 64 tid ∧ holds_thread tid t) ∧
  (∀ k, is_Some (threads !! k) ∨ (∃ tid, tid ∈ tids ∧ k = as_u 64 tid) → is_Some (threads' !! k)).
Proof.
  revert threads. induction tids as [|tid tids IH]; intros threads; cbn [view_threads].
  { intros [= <-]. setoid_rewrite elem_of_nil. naive_solver. }
  destruct (RemoteUnwinder_for_pid p tid) as [u| |] eqn:Eu; [|done..]. apply (unwinder_for_pid_sound p Hsegs) in Eu.
  cbn [map_err mbind result_bind].
  destruct (match read_comm pid tid with Ok c => Ok c | Err _ => Ok [] | Panic => Panic end) as [c| |]; [|done..].
  cbn [mbind result_bind]. intros [A B]%IH. setoid_rewrite elem_of_cons. split.
  - intros k t [H|H]%A; [|naive_solver]. destruct (decide (as_u 64 tid = k)) as [<-|].
    + rewrite lookup_insert_eq in H. injection H as <-. right. exists tid. auto.
    + rewrite lookup_insert_ne in H by done. auto.
  - intros k H. apply B. destruct (decide (as_u 64 tid = k)) as [<-|Hne].
    + left. rewrite lookup_insert_eq. eauto.
    + rewrite lookup_insert_ne by done. destruct H as [?|(t & [->|?] & Hk)]; [by left|by rewrite Hk in Hne|right; eauto].
Qed.

Lemma live_threads_exact pid v ids :
  view_of_pid pid = Ok v → task_ids pid = Ok ids →
  StronglySorted Z.lt (live_thread_ids v) ∧
  ∀ t, t ∈ live_thread_ids v ↔ ∃ tid, tid ∈ ids ∧ t = as_u 64 tid.
Proof.
  intros Hv Ei. unfold view_of_pid in Hv. rewrite Ei in Hv. cbn [map_err mbind result_bind] in Hv.
  destruct (view_threads pid ids ∅) as [threads| |] eqn:Et; [|done..]. injection Hv as <-.
  apply view_threads_ok in Et as [A B]. split; [apply sorted_keys_lt|].
  intros t. unfold live_thread_ids. rewrite elem_of_sorted_keys. cbn [pv_threads]. split.
  - intros [tv Htv]. destruct (A _ _ Htv) as [H|(tid & Hin & -> & _)]; [by rewrite lookup_empty in H|eauto].
  - intros (tid & Hin & ->). apply B. right. eauto.
Qed.

Lemma filled_full bs : filled (blen bs) bs = bs.
Proof. unfold filled, blen. by rewrite Nat2Z.id, take_app_length. Qed.

(** The threads of a view are those the kernel lists. *)
Lemma live_threads_listed pid v tids :
  view_of_pid pid = Ok v → lists_threads pid tids → live_thread_ids v = merge_sort Z.le tids.
Proof.
  intros Hv Hl. pose proof Hl as (_ & Hnd & Hr).
  destruct (live_threads_exact pid v _ Hv (task_ids_listed _ _ Hl)) as [Hs Hin].
  apply lt_sorted_unique; [exact Hs|by apply sorted_NoDup_lt|].
  intros t. rewrite Hin. rewrite Forall_forall in Hr. split.
  - intros (tid & Hi & ->). pose proof Hi as Hi'. rewrite merge_sort_Permutation in Hi'. specialize (Hr _ Hi').
    unfold as_u. by rewrite Z.mod_small by lia.
  - intros Hi. exists t. split; [done|]. rewrite merge_sort_Permutation in Hi. specialize (Hr _ Hi).
    unfold as_u. by rewrite Z.mod_small by lia.
Qed.

(** C34. A view over a stopped process keeps the laws the decoders rely on.
    When it is built, and the registers of every thread the kernel lists can be
    read, its threads are exactly those, in the order of their numbers; a query
    about one of them is answered (no address of its stack can make
    symbolization panic), one about any other thread is an unknown thread; a
    read of memory the kernel carries out in full gives its bytes, and one it
    refuses fails with the range asked for.  A read the kernel cuts short does
    not fail ([short_read_is_zeros]): that part of the trait's contract the view
    does not keep. *)
Theorem live_view_lawful pid v tids :
  view_of_pid pid = Ok v → lists_threads pid tids →
  Forall (λ tid, ∃ r, read_registers p tid = Ok r) tids →
  thread_ids (as_process_view v) = merge_sort Z.le tids ∧
  ViewLaws (as_process_view v) ∧
  ∀ a n, n ≤ ISIZE_MAX → match pr_readv p pid a n with
    | Ok bs => blen bs = n → read_memory (as_process_view v) a n = Ok bs
    | Err e => read_memory (as_process_view v) a n = Err (MemoryReadFailed a n e)
    | Panic => True
    end.
Proof.
  intros Hv Hl Hregs. pose proof (live_threads_listed pid v tids Hv Hl) as Hexact.
  unfold view_of_pid in Hv. rewrite (task_ids_listed _ _ Hl) in Hv. cbn [map_err mbind result_bind] in Hv.
  destruct (view_threads pid (merge_sort Z.le tids) ∅) as [threads| |] eqn:Et; [|done..]. injection Hv as <-.
  rewrite <- (merge_sort_Permutation Z.le) in Hregs. rewrite Forall_forall in Hregs.
  apply view_threads_ok in Et as [A B].
  assert (Hthread : ∀ t, t ∈ live_thread_ids (MkPtraceView pid threads) →
    ∃ tid tv r, threads !! t = Some tv ∧ holds_thread tid tv ∧ read_registers p tid = Ok r).
  { intros t [tv Htv]%elem_of_sorted_keys. cbn in Htv. destruct (A _ _ Htv) as [H|(tid & Hin & _ & Hh)].
    - by rewrite lookup_empty in H.
    - destruct (Hregs _ Hin) as [r Hr]. eauto 10. }
  assert (Hother : ∀ t, t ∉ live_thread_ids (MkPtraceView pid threads) → threads !! t = None).
  { intros t Hn. apply eq_None_not_Some. intros H. by apply Hn, elem_of_sorted_keys. }
  assert (Hlive : ∀ t, t ∈ live_thread_ids (MkPtraceView pid threads) →
    ∃ r, live_registers (MkPtraceView pid threads) t = Ok r).
  { intros t (tid & tv & r & Htv & [Hp _] & Hr)%Hthread. unfold live_registers, thread_view, remote_registers.
    cbn [pv_threads]. rewrite Htv. cbn. rewrite Hp, Hr. by eexists. }
  split; [exact Hexact|]. split.
  - split; cbn [thread_ids View.registers View.read_memory physical_frames as_process_view].
    + exact Hlive.
    + intros t Hn%Hother. unfold live_registers, thread_view. cbn [pv_threads]. by rewrite Hn.
    + intros t Ht. destruct (Hlive _ Ht) as [leaf Hleaf].
      destruct (Hthread _ Ht) as (tid & tv & r & Htv & [Hp Hms] & Hr).
      unfold live_physical_frames. rewrite Hleaf. unfold thread_view. cbn [pv_threads]. rewrite Htv.
      cbn [ok_or mbind result_bind]. unfold backtrace_now, remote_registers. rewrite Hp, Hr. cbn [map_err mbind result_bind].
      unfold remote_backtrace, unwind_symbolized, stack_unwind. cbn [map_err mbind result_bind].
      edestruct (resolve_all_total (E := unwind_error) (ru_symbols (tv_unwinder tv))) as [fs Hfs]; [done|].
      rewrite Hfs. by eexists.
    + intros t Hn%Hother. unfold live_physical_frames, thread_view. cbn [pv_threads]. by rewrite Hn.
    + intros a n e. unfold live_read_memory. destruct (_ <? _); [done|].
      destruct (pr_readv _ _ _ _); [done| |done].
      intros [= <-]. by eexists.
  - intros a n Hn. cbn [View.read_memory as_process_view]. unfold live_read_memory. cbn [pv_pid].
    rewrite (proj2 (Z.ltb_ge _ _)) by done. destruct (pr_readv p pid a n) as [bs|e|]; [|done..].
    cbn [map_err mbind result_bind]. intros <-. by rewrite filled_full.
Qed.

End live.

(** ** What the replay backend asks about its tracee *)

Section inspect.
Context {W : Type} {HO : Host} {UL : UnwindLibs}.
(** The processes of a world, as they stand. *)
Context (procs : W → proc).

Definition live_inspector : Inspector W := {|
  view_for_pid pid w :=
    map_err ptrace_view_error_display
      (as_process_view (procs w) <$> view_of_pid (procs w) pid);
  registers_for_pid pid w :=
    map_err remote_error_display
      (u ← RemoteUnwinder_for_pid (procs w) pid; remote_registers (procs w) u) |}.

(** *** Threads, from the process to the client *)

Context {SJ : SerdeJson} {KW : Kernel W} {UW : Unwind W} {ET : ErrorTexts}.
#[local] Existing Instance live_inspector.

Definition thread_body (index : nat) (tid : Z) : Value :=
  j_object [(str "id", j_int (Z.of_nat index + 1)); (str "name", j_string (str "thread " ++ dec tid))].


End inspect.

(** ** A sample: two threads of one executable *)

Definition sample_exe : list byte := str "/bin/app".

Definition sample_proc : proc := {|
  pr_task_dir pid := if pid =? 200 then Ok [Ok (Some (str "201")); Ok (Some (str "200"))]
                     else Err (str "No such file or directory");
  pr_comm _ tid := Ok (str "app" ++ [x0a]);
  pr_exe _ := Some sample_exe;
  pr_maps _ := Ok (str "00400000-00405000 r-xp 00000000 fd:00 12 /bin/app" ++ [x0a]);
  pr_getregs tid := Ok (MkUserRegs (0x401000 + tid) 0x7000 0x7010 0x5000);
  pr_prstatus _ := Err [];
  pr_tls _ := Err [];
  pr_readv _ addr len := if addr =? 0x7000 then Ok [x01; x02] else Err (str "Bad address")
|}.

Definition sample_loader (_ : list byte) : result (list byte) Loader :=
  Ok {| find_frames svma := if svma =? 0x10c8 then Some [MkRawFrame (Some (str "leaf")) (Some (Some (str "a.rs"), Some 3));
                                                        MkRawFrame (Some (str "caller")) None]
                            else None;
        find_symbol _ := Some (str "main") |}.

(** The leaf address and one that no module covers. *)
(** One executable; [framehop] gives the leaf address and one that no module
    covers, and then fails. *)
#[local] Instance sample_host : Host := HostX86_64.
#[local] Instance sample_libs : UnwindLibs := {|
  fs_read path := if bool_decide (path = sample_exe) then Ok [x7f] else Err (str "No such file or directory");
  parse_object _ := Ok (MkObject [(0, 0x2000); (0x2000, 0x3000)] (λ name,
    if bool_decide (name = str ".text") then Some (MkSection 0x1000 1 (Ok [x90]))
    else if bool_decide (name = str ".got") then Some (MkSection 0x4000 8 (Err [])) else None));
  loader_of := sample_loader;
  frame_address := Z;
  address_for_lookup a := a;
  iter_frames _ pc _ _ := [Ok (Some pc); Ok (Some 0x10); Err tt; Ok (Some pc)];
|}.

Definition sample_view : result ptrace_view_error PtraceProcessView :=
  view_of_pid sample_proc 200.

Definition frames_of (t : ThreadId) : option (list PhysicalFrame) :=
  match sample_view with
  | Ok v => match physical_frames (as_process_view sample_proc v) t with Ok fs => Some fs | _ => None end
  | _ => None
  end.

Lemma sample_segments_unsigned : unsigned_segments.
Proof. intros data file [= <-]. by repeat constructor. Qed.

Lemma sample_listed : lists_threads sample_proc 200 [201; 200].
Proof.
  split; [reflexivity|]. split; [|repeat constructor; lia].
  apply (bool_decide_unpack _). vm_compute. exact I.
Qed.

Lemma live_view_lawful_witness :
  frames_of 200 = Some [MkPhysicalFrame 0x4010c8 0x7000 (Some (str "leaf")) (Some (MkSourceLocation (str "a.rs") 3 0));
                        MkPhysicalFrame 0x4010c8 0 (Some (str "caller")) None] ∧
  ∃ v, sample_view = Ok v ∧ ViewLaws (as_process_view sample_proc v) ∧
       thread_ids (as_process_view sample_proc v) = [200; 201].
Proof.
  split; [vm_compute; reflexivity|].
  destruct sample_view as [v|e|] eqn:E; [|exfalso; vm_compute in E; discriminate E..].
  exists v. split; [reflexivity|].
  destruct (live_view_lawful sample_proc
    sample_segments_unsigned 200 v [201; 200] E sample_listed) as (Ht & Hl & _).
  - apply Forall_forall. intros tid _. eexists. reflexivity.
  - split; [exact Hl|]. exact Ht.
Defined.

#[local] Existing Instance dice_kernel.
#[local] Existing Instance EndToEnd.no_unwind.
#[local] Existing Instance terse.


(** A read the kernel cuts short comes back at full length, the rest zeros. *)
Lemma short_read_is_zeros :
  live_read_memory sample_proc (MkPtraceView 200 ∅) 0x7000 4 = Ok [x01; x02; x00; x00].
Proof. reflexivity. Qed.
