(* ===== verification/Cli.v ===== *)
(** * The command line: [mirrorscope-cli/src/main.rs]

    Parsing of each command's arguments, and what [replay] and [watch] do with
    the replay engine: the exit code and the lines they print. *)

From S2P Require Import Prelude StdIo TraceFormat Crc32 TraceLog Payload Ptrace Capture Discipline Sched.
From S2P Require Import ToyKernel SchedLog Recording Watchpoint Schedule Replay Session Mt Follow Machine.
From S2P Require Import Solo EndToEnd Navigate.
From S2P Require Import Text Ebpf EbpfRecord.
From S2P Require Import ReplayBackend.

Inductive ExitCode := SUCCESS | FAILURE.

(** ** [record] *)

Record RecordArgs := MkRecordArgs {
  ra_trace_path : list byte;
  ra_ebpf : bool;
  ra_ebpf_object : option (list byte);
  ra_program : list byte;
  ra_program_args : list (list byte)
}.

Definition set_trace_path p a :=
  MkRecordArgs p (ra_ebpf a) (ra_ebpf_object a) (ra_program a) (ra_program_args a).
Definition set_ebpf a :=
  MkRecordArgs (ra_trace_path a) true (ra_ebpf_object a) (ra_program a) (ra_program_args a).
Definition set_ebpf_object p a :=
  MkRecordArgs (ra_trace_path a) (ra_ebpf a) (Some p) (ra_program a) (ra_program_args a).

Definition DEFAULT_TRACE : list byte := str "trace.mscope".

(** The loop over the options. *)
Fixpoint record_options (options : list (list byte)) (a : RecordArgs) : option RecordArgs :=
  match options with
  | [] => Some a
  | o :: options =>
      if bool_decide (o = str "-o") then
        match options with v :: options => record_options options (set_trace_path v a) | [] => None end
      else if bool_decide (o = str "--ebpf") then record_options options (set_ebpf a)
      else if bool_decide (o = str "--ebpf-object") then
        match options with v :: options => record_options options (set_ebpf_object v a) | [] => None end
      else None
  end.

(** [position] of the separator, and the two sides of it. *)
Fixpoint split_at_separator (args : list (list byte)) : option (list (list byte) * list (list byte)) :=
  match args with
  | [] => None
  | a :: args =>
      if bool_decide (a = str "--") then Some ([], args)
      else '(options, target) ← split_at_separator args; Some (a :: options, target)
  end.

Definition parse_record_args (args : list (list byte)) : option RecordArgs :=
  '(options, target) ← split_at_separator args;
  match target with
  | [] => None
  | program :: program_args =>
      record_options options (MkRecordArgs DEFAULT_TRACE false None program program_args)
  end.

(** ** [replay] *)

Fixpoint replay_options (args : list (list byte)) (trace_path : list byte) (to : option Z)
    : option (list byte * option Z) :=
  match args with
  | [] => Some (trace_path, to)
  | o :: args =>
      if bool_decide (o = str "-t") then
        match args with v :: args => replay_options args v to | [] => None end
      else if bool_decide (o = str "--to") then
        match args with
        | v :: args => n ← parse_u 64 v; replay_options args trace_path (Some n)
        | [] => None
        end
      else None
  end.

Definition parse_replay_args (args : list (list byte)) : option (list byte * option Z) :=
  replay_options args DEFAULT_TRACE None.

(** ** [watch] *)

Definition cli_parse_int (text : list byte) : option Z :=
  match strip_prefix (str "0x") text, strip_prefix (str "0X") text with
  | Some h, _ | None, Some h => from_str_radix 64 16 h
  | None, None => parse_u 64 text
  end.

Record WatchArgs := MkWatchArgs { wa_trace_path : list byte; wa_addr : Z; wa_len : Z; wa_reads : bool }.

(** The variables of the loop. *)
Record watch_state := MkWatchState {
  wst_trace : option (list byte); wst_addr : option Z; wst_len : option Z; wst_reads : bool
}.

Fixpoint watch_options (args : list (list byte)) (s : watch_state) : option watch_state :=
  match args with
  | [] => Some s
  | o :: args =>
      if bool_decide (o = str "--addr") then
        match args with
        | v :: args =>
            a ← cli_parse_int v; watch_options args (MkWatchState (wst_trace s) (Some a) (wst_len s) (wst_reads s))
        | [] => None
        end
      else if bool_decide (o = str "--len") then
        match args with
        | v :: args =>
            n ← parse_u 8 v; watch_options args (MkWatchState (wst_trace s) (wst_addr s) (Some n) (wst_reads s))
        | [] => None
        end
      else if bool_decide (o = str "--rw") then
        watch_options args (MkWatchState (wst_trace s) (wst_addr s) (wst_len s) true)
      else if starts_with (str "-") o then None
      else match wst_trace s with
           | Some _ => None
           | None => watch_options args (MkWatchState (Some o) (wst_addr s) (wst_len s) (wst_reads s))
           end
  end.

Definition parse_watch_args (args : list (list byte)) : option WatchArgs :=
  s ← watch_options args (MkWatchState None None None false);
  trace ← wst_trace s;
  addr ← wst_addr s;
  len ← wst_len s;
  Some (MkWatchArgs trace addr len (wst_reads s)).

(** [format_value]: a little-endian value in hexadecimal; more than sixteen
    bytes shift past the width of [u128]. *)
Fixpoint or_value (i : Z) (bytes : list byte) (value : Z) : result unit Z :=
  match bytes with
  | [] => Ok value
  | b :: bytes =>
      if i <? 16 then or_value (i + 1) bytes (Z.lor value (Z.shiftl (Z_of_byte b) (8 * i))) else Panic
  end.

Definition format_value (bytes : list byte) : result unit (list byte) :=
  value ← or_value 0 bytes 0; Ok (str "0x" ++ hex value).

Section commands.
Context {W : Type} {KW : Kernel W} {UW : Unwind W} {ET : ErrorTexts}.
Context (fuel steps : nat).
(** What [TraceReader::open] and [collect] give for a path. *)
Context (opened : list byte → result TraceError (option Cmdline * result TraceError (list LogRecord))).

(** The exit code and what is printed; [None] when the target does not come to
    rest within the fuel. *)
Definition report : Type := option (ExitCode * list (list byte)).

Definition REPLAY_USAGE : list byte := str "usage: mirrorscope replay [-t <trace>] [--to <seq>]".

Definition debug_seq (s : option Z) : list byte :=
  match s with Some n => str "Some(" ++ dec n ++ str ")" | None => str "None" end.

Definition report_replay (session : ReplaySession W) (outcome : ExitOutcome) : list byte :=
  match outcome with
  | OutExited code => str "replay finished: target exited with code " ++ dec_i code
  | OutSignaled sig => str "replay finished: target killed by signal " ++ dec_i sig
  | OutRunning => str "replay stopped at seq " ++ debug_seq (ss_current_seq session)
  end.

Definition replay_failed (e : ReplayError) : ExitCode * list (list byte) :=
  (FAILURE, [str "mirrorscope replay: " ++ replay_error_text e]).

(** [run_replay]; the session is dropped on every path out. *)
Definition run_replay (args : list (list byte)) : stm W unit report := λ w,
  match parse_replay_args args with
  | None => (Ok (Some (FAILURE, [REPLAY_USAGE])), w)
  | Some (trace_path, to) =>
      match launch (opened trace_path) w with
      | (Err e, w) => (Ok (Some (replay_failed e)), w)
      | (Panic, w) => (Panic, w)
      | (Ok session, w) =>
          let '(outcome, session) :=
            match to with
            | Some seq => step_to fuel steps seq (Replay.set_world w session)
            | None => run_to_end fuel steps (Replay.set_world w session)
            end in
          let r := match outcome with
                   | Ok (Some o) => Ok (Some (SUCCESS, [report_replay session o]))
                   | Ok None => Ok None
                   | Err e => Ok (Some (replay_failed e))
                   | Panic => Panic
                   end in
          (r, ss_world (session_drop session).2)
      end
  end.

Definition WATCH_USAGE : list byte :=
  str "usage: mirrorscope watch <trace> --addr <addr> --len <1|2|4|8> [--rw]".

(** One line of [report_watch]. *)
Definition hit_location (f : option SymbolizedFrame) : list byte :=
  match f ≫= f_file with
  | Some file => match f ≫= f_line with
                 | Some n => file ++ str ":" ++ dec n
                 | None => file
                 end
  | None => str "<no source>"
  end.

Definition hit_line (hit : WatchHit) : result unit (list byte) :=
  let frame := head (hit_backtrace hit) in
  value ← format_value (hit_new hit);
  Ok (str "  seq " ++ from_option dec (str "-") (hit_seq hit) ++ str "  pc " ++ hex018 (hit_pc hit)
      ++ str "  " ++ default (str "<unknown>") (frame ≫= f_function)
      ++ str "  (" ++ hit_location frame ++ str ")  = " ++ value).

Fixpoint hit_lines (hits : list WatchHit) : result unit (list (list byte)) :=
  match hits with
  | [] => Ok []
  | h :: hits => l ← hit_line h; ls ← hit_lines hits; Ok (l :: ls)
  end.

Definition watch_headline (n addr len : Z) : list byte :=
  dec n ++ str " access(es) to " ++ dec len ++ str " byte(s) at 0x" ++ hex addr ++ str " across history:".

Definition run_watch (args : list (list byte)) : stm W unit report := λ w,
  match parse_watch_args args with
  | None => (Ok (Some (FAILURE, [WATCH_USAGE])), w)
  | Some a =>
      let scan := scan_new (wa_addr a) (wa_len a) in
      let scan := if wa_reads a then watch_reads scan else scan in
      match scan_run fuel steps (opened (wa_trace_path a)) scan w with
      | (Ok (Some hits), w) =>
          (ls ← hit_lines hits;
           Ok (Some (SUCCESS, watch_headline (blen hits) (wa_addr a) (wa_len a) :: ls)), w)
      | (Ok None, w) => (Ok None, w)
      | (Err e, w) => (Ok (Some (FAILURE, [str "mirrorscope watch: " ++ replay_error_text e])), w)
      | (Panic, w) => (Panic, w)
      end
  end.

(** [capture::error]: what [to_string] gives for the errors of a recording. *)
Context (capture_error_text : CaptureError → list byte).

Definition RECORD_USAGE : list byte :=
  str "usage: mirrorscope record [-o <trace>] [--ebpf [--ebpf-object <path>]] -- <cmd> [args" ++ [xe2; x80; xa6] ++ str "]".

(** The build's [ebpf] feature, the variable [MIRRORSCOPE_EBPF_OBJECT], and
    the texts of the errors inside an [EbpfCaptureError]. *)
Context {AW : Aya W} (ebpf_feature : bool) (ebpf_object_var : option (list byte)) (nix_text io_text : Z → list byte).

(** [run_record_ebpf] of a build without the feature. *)
Definition NO_EBPF : list byte :=
  str "mirrorscope record --ebpf: this build was compiled without the `ebpf` feature (cargo build --features ebpf -p mirrorscope-cli)".

Definition NO_OBJECT : list byte :=
  str "mirrorscope record --ebpf: no BPF object given (--ebpf-object <path> or $MIRRORSCOPE_EBPF_OBJECT); build it first " ++ [xe2; x80; x94]
  ++ str " see crates/recorder-ebpf-programs/README.md".

Definition debug_exit (code : option Z) : list byte :=
  match code with Some n => str "Some(" ++ dec_i n ++ str ")" | None => str "None" end.

(** The line of either recording; [via] is what the second adds. *)
Definition recorded_line (trace_path via : list byte) (o : RecordOutcome) : list byte :=
  str "recorded " ++ dec (events_recorded o) ++ str " events to " ++ trace_path ++ via
  ++ str " (target exit: " ++ debug_exit (exit_code o) ++ str ")".

(** [run_record_ebpf]. *)
Definition run_record_ebpf (crc32 : list byte → Z) (a : RecordArgs) : stm (W * sink) unit report := λ w,
  if negb ebpf_feature then (Ok (Some (FAILURE, [NO_EBPF])), w)
  else
    match (match ra_ebpf_object a with Some path => Some path | None => ebpf_object_var end) with
    | None => (Ok (Some (FAILURE, [NO_OBJECT])), w)
    | Some object_path =>
        match ebpf_record_command crc32 (ra_program a) (ra_program_args a) (ra_trace_path a) object_path fuel steps w with
        | (Ok (Some o), w) => (Ok (Some (SUCCESS, [recorded_line (ra_trace_path a) (str " via eBPF") o])), w)
        | (Ok None, w) => (Ok None, w)
        | (Err e, w) =>
            (Ok (Some (FAILURE, [str "mirrorscope record --ebpf: " ++ ebpf_error_display nix_text io_text trace_error_text e])), w)
        | (Panic, w) => (Panic, w)
        end
    end.

(** [run_record], the file being the one created at the trace's path. *)
Definition run_record (crc32 : list byte → Z) (args : list (list byte)) : stm (W * sink) unit report := λ w,
  match parse_record_args args with
  | None => (Ok (Some (FAILURE, [RECORD_USAGE])), w)
  | Some a =>
      if ra_ebpf a then run_record_ebpf crc32 a w
      else
        match record_command crc32 (ra_program a) (ra_program_args a) fuel w with
        | (Ok (Some o), w) => (Ok (Some (SUCCESS, [recorded_line (ra_trace_path a) [] o])), w)
        | (Ok None, w) => (Ok None, w)
        | (Err e, w) => (Ok (Some (FAILURE, [str "mirrorscope record: " ++ capture_error_text e])), w)
        | (Panic, w) => (Panic, w)
        end
  end.

End commands.

(** *** Off Linux *)

(** Each of the three commands says what it needs. *)
Definition elsewhere {W} (needs : list byte) (_ : list (list byte)) : stm W unit report := λ w,
  (Ok (Some (FAILURE, [needs])), w).

Definition run_record_elsewhere {W} : list (list byte) → stm W unit report :=
  elsewhere (str "mirrorscope record: recording requires Linux (ptrace, or eBPF with --ebpf)").
Definition run_replay_elsewhere {W} : list (list byte) → stm W unit report :=
  elsewhere (str "mirrorscope replay: replay requires Linux (ptrace)").
Definition run_watch_elsewhere {W} : list (list byte) → stm W unit report :=
  elsewhere (str "mirrorscope watch: retroactive watchpoints require Linux (ptrace)").

(** ** [main] *)

Definition usage : list (list byte) :=
  [str "usage: mirrorscope <command>"; []; str "commands:";
   str "  dap                                             serve DAP over stdio";
   str "  record [-o <trace>] [--ebpf [--ebpf-object <path>]] -- <cmd> [args]";
   str "                                                  record a target (Linux)";
   str "  replay [-t <trace>] [--to <seq>]                replay a trace (Linux)";
   str "  watch <trace> --addr <a> --len <n>              every write to an address (Linux)";
   str "  --version                                       print the version"].

(** The arguments after the program's name; a command is what its function
    does with the words after it, and [version] the package's. *)
Definition main {A : Type} (serve_stdio : A) (record replay watch : list (list byte) → A)
    (print : ExitCode → list (list byte) → A) (version : list byte) (args : list (list byte)) : A :=
  match args with
  | [] => print SUCCESS usage
  | c :: rest =>
      if bool_decide (c = str "dap") then serve_stdio
      else if bool_decide (c = str "record") then record rest
      else if bool_decide (c = str "replay") then replay rest
      else if bool_decide (c = str "watch") then watch rest
      else if bool_decide (c = str "--version") then print SUCCESS [str "mirrorscope " ++ version]
      else print FAILURE ((str "unknown command: " ++ c) :: usage)
  end.

(** ** What the command lines are *)

(** The options of [record], the words each is written with, and what each
    does to the request. *)
Inductive record_option := OptTrace (p : list byte) | OptEbpf | OptEbpfObject (p : list byte).

Definition record_words (o : record_option) : list (list byte) :=
  match o with
  | OptTrace p => [str "-o"; p]
  | OptEbpf => [str "--ebpf"]
  | OptEbpfObject p => [str "--ebpf-object"; p]
  end.

Definition record_apply (a : RecordArgs) (o : record_option) : RecordArgs :=
  match o with
  | OptTrace p => set_trace_path p a
  | OptEbpf => set_ebpf a
  | OptEbpfObject p => set_ebpf_object p a
  end.

(** Those of [replay]. *)
Inductive replay_option := OptReplayTrace (p : list byte) | OptTo (text : list byte) (n : Z).

Definition replay_words (o : replay_option) : list (list byte) :=
  match o with
  | OptReplayTrace p => [str "-t"; p]
  | OptTo text _ => [str "--to"; text]
  end.

Definition replay_written (o : replay_option) : Prop :=
  match o with OptReplayTrace _ => True | OptTo text n => parse_u 64 text = Some n end.

Definition replay_apply (r : list byte * option Z) (o : replay_option) : list byte * option Z :=
  match o with OptReplayTrace p => (p, r.2) | OptTo _ n => (r.1, Some n) end.

(** Those of [watch]; the trace is a word of its own. *)
Inductive watch_option :=
  | OptAddr (text : list byte) (n : Z)
  | OptLen (text : list byte) (n : Z)
  | OptRw
  | OptPath (p : list byte).

Definition watch_words (o : watch_option) : list (list byte) :=
  match o with
  | OptAddr text _ => [str "--addr"; text]
  | OptLen text _ => [str "--len"; text]
  | OptRw => [str "--rw"]
  | OptPath p => [p]
  end.

Definition watch_written (o : watch_option) : Prop :=
  match o with
  | OptAddr text n => cli_parse_int text = Some n
  | OptLen text n => parse_u 8 text = Some n
  | OptRw => True
  | OptPath p => starts_with (str "-") p = false
  end.

Definition watch_apply (s : watch_state) (o : watch_option) : watch_state :=
  match o with
  | OptAddr _ n => MkWatchState (wst_trace s) (Some n) (wst_len s) (wst_reads s)
  | OptLen _ n => MkWatchState (wst_trace s) (wst_addr s) (Some n) (wst_reads s)
  | OptRw => MkWatchState (wst_trace s) (wst_addr s) (wst_len s) true
  | OptPath p => MkWatchState (Some p) (wst_addr s) (wst_len s) (wst_reads s)
  end.

Definition watch_path (o : watch_option) : option (list byte) :=
  match o with OptPath p => Some p | _ => None end.

(** The paths among the options: [watch] takes one at most, [cap] more here. *)
Definition watch_paths (opts : list watch_option) : list (list byte) := omap watch_path opts.

(** Settle the comparisons of an option word with the known ones. *)
Ltac option_words :=
  repeat first
    [ rewrite bool_decide_true by reflexivity
    | rewrite bool_decide_false by (intros E; vm_compute in E; discriminate E) ].

(** Words are read one or two at a time. *)
Lemma words_ind (P : list (list byte) → Prop) :
  P [] → (∀ a, P [a]) → (∀ a b l, P (b :: l) → P l → P (a :: b :: l)) → ∀ l, P l.
Proof.
  intros H0 H1 H2. fix IH 1. intros [|a [|b l]]; [exact H0 | exact (H1 a) |].
  apply H2; [|apply IH].
  revert b. induction l as [|c l IHl]; intros b; [apply H1 | apply H2; [apply IHl | apply IH]].
Qed.

Lemma record_options_cons o l a :
  record_options (o :: l) a =
  if bool_decide (o = str "-o") then
    match l with v :: l => record_options l (set_trace_path v a) | [] => None end
  else if bool_decide (o = str "--ebpf") then record_options l (set_ebpf a)
  else if bool_decide (o = str "--ebpf-object") then
    match l with v :: l => record_options l (set_ebpf_object v a) | [] => None end
  else None.
Proof. reflexivity. Qed.

Lemma record_options_exact options a r :
  record_options options a = Some r ↔
  ∃ opts, options = opts ≫= record_words ∧ r = foldl record_apply a opts.
Proof.
  split.
  - revert a. induction options as [|o|o v l IH1 IH2] using words_ind; intros a H.
    + injection H as <-. by exists [].
    + simpl in H. repeat case_bool_decide; simplify_eq/=. by exists [OptEbpf].
    + rewrite record_options_cons in H. repeat case_bool_decide; simplify_eq.
      * destruct (IH2 _ H) as (opts & -> & ->). by exists (OptTrace v :: opts).
      * destruct (IH1 _ H) as (opts & -> & ->). by exists (OptEbpf :: opts).
      * destruct (IH2 _ H) as (opts & -> & ->). by exists (OptEbpfObject v :: opts).
  - intros (opts & -> & ->). revert a.
    induction opts as [|[p| |p] opts IH]; intros a; [done|..]; cbn [mbind list_bind foldl];
      rewrite <- (IH (record_apply a _)); simpl; by option_words.
Qed.

Lemma replay_options_exact args t to r :
  replay_options args t to = Some r ↔
  ∃ opts, args = opts ≫= replay_words ∧ Forall replay_written opts ∧ r = foldl replay_apply (t, to) opts.
Proof.
  split.
  - revert t to. induction args as [|o|o v l IH1 IH2] using words_ind; intros t to H.
    + injection H as <-. by exists [].
    + simpl in H. repeat case_bool_decide; simplify_eq/=.
    + simpl in H. repeat case_bool_decide; simplify_eq/=.
      * destruct (IH2 _ _ H) as (opts & -> & ? & ->). by exists (OptReplayTrace v :: opts); repeat constructor.
      * destruct (parse_u 64 v) as [n|] eqn:En; simplify_eq/=.
        destruct (IH2 _ _ H) as (opts & -> & ? & ->). by exists (OptTo v n :: opts); repeat constructor.
  - intros (opts & -> & Hw & ->). revert t to.
    induction Hw as [|[p|x n] opts Hn Hw IH]; intros t to; [done|..]; cbn [mbind list_bind foldl];
      unfold replay_apply at 2; rewrite <- IH; simpl; option_words; [done|].
    simpl in Hn. by rewrite Hn.
Qed.

Lemma watch_options_cons o l s :
  watch_options (o :: l) s =
  if bool_decide (o = str "--addr") then
    match l with
    | v :: l => a ← cli_parse_int v; watch_options l (MkWatchState (wst_trace s) (Some a) (wst_len s) (wst_reads s))
    | [] => None
    end
  else if bool_decide (o = str "--len") then
    match l with
    | v :: l => n ← parse_u 8 v; watch_options l (MkWatchState (wst_trace s) (wst_addr s) (Some n) (wst_reads s))
    | [] => None
    end
  else if bool_decide (o = str "--rw") then
    watch_options l (MkWatchState (wst_trace s) (wst_addr s) (wst_len s) true)
  else if starts_with (str "-") o then None
  else match wst_trace s with
       | Some _ => None
       | None => watch_options l (MkWatchState (Some o) (wst_addr s) (wst_len s) (wst_reads s))
       end.
Proof. reflexivity. Qed.

(** How many paths the options and the state hold together. *)
Definition paths (s : watch_state) (opts : list watch_option) : nat :=
  (if wst_trace s is Some _ then 1 else 0) + length (watch_paths opts).

Lemma watch_options_exact args s r :
  watch_options args s = Some r ↔
  ∃ opts, args = opts ≫= watch_words ∧ Forall watch_written opts ∧ (paths s opts ≤ 1)%nat ∧
          r = foldl watch_apply s opts.
Proof.
  unfold paths. split.
  - revert s. induction args as [|o|o v l IH1 IH2] using words_ind; intros s H.
    + injection H as <-. exists []. repeat split; [constructor|]. destruct (wst_trace s); simpl; lia.
    + simpl in H. repeat case_bool_decide; simplify_eq/=.
      * exists [OptRw]. repeat split; [repeat constructor|]. destruct (wst_trace s); simpl; lia.
      * repeat case_match; simplify_eq/=. exists [OptPath o]. repeat split; [|simpl; lia].
        by repeat constructor.
    + rewrite watch_options_cons in H. repeat case_bool_decide; simplify_eq.
      * destruct (cli_parse_int v) as [n|] eqn:En; simplify_eq/=.
        destruct (IH2 _ H) as (opts & -> & ? & Hc & ->).
        exists (OptAddr v n :: opts). repeat split; [by constructor|exact Hc].
      * destruct (parse_u 8 v) as [n|] eqn:En; simplify_eq/=.
        destruct (IH2 _ H) as (opts & -> & ? & Hc & ->).
        exists (OptLen v n :: opts). repeat split; [by constructor|exact Hc].
      * destruct (IH1 _ H) as (opts & -> & ? & Hc & ->).
        exists (OptRw :: opts). repeat split; [by constructor|exact Hc].
      * destruct (starts_with _ o) eqn:Eo; [done|]. destruct (wst_trace s) eqn:Es; [done|].
        destruct (IH1 _ H) as (opts & -> & ? & Hc & ->).
        exists (OptPath o :: opts). repeat split; [by constructor|].
        exact Hc.
  - intros (opts & -> & Hw & Hc & ->). revert s Hc.
    induction Hw as [|[x n|x n| |p] opts Hn Hw IH]; intros s Hc; [done|..]; cbn [mbind list_bind foldl];
      cbn [watch_words app]; rewrite watch_options_cons; option_words; simpl in Hn.
    + rewrite Hn. apply IH, Hc.
    + rewrite Hn. apply IH, Hc.
    + apply IH, Hc.
    + rewrite !bool_decide_false by (intros ->; discriminate Hn).
      rewrite Hn. destruct (wst_trace s) eqn:Es; [exfalso; cbn in Hc; lia|].
      rewrite IH; [done|]. exact Hc.
Qed.

(** The path of the final state is the one among the options. *)
Lemma watch_trace_kept opts s :
  wst_trace (foldl watch_apply s opts) =
  match last (watch_paths opts) with Some p => Some p | None => wst_trace s end.
Proof.
  revert s. induction opts as [|[x n|x n| |p] opts IH]; intros s; [done|..]; simpl; rewrite IH; [done..|].
  unfold watch_paths at 2. simpl. fold (watch_paths opts). rewrite last_cons. by destruct (last _).
Qed.

Lemma only_path opts addr len reads t :
  (paths (MkWatchState None addr len reads) opts ≤ 1)%nat →
  wst_trace (foldl watch_apply (MkWatchState None addr len reads) opts) = Some t →
  watch_paths opts = [t].
Proof.
  rewrite watch_trace_kept. unfold paths. simpl.
  destruct (watch_paths opts) as [|p [|q ps]]; simpl; intros; [done| |lia]. congruence.
Qed.

Lemma split_at_separator_exact args options target :
  split_at_separator args = Some (options, target) ↔
  args = options ++ str "--" :: target ∧ str "--" ∉ options.
Proof.
  revert options. induction args as [|a args IH]; intros options; simpl.
  - split; [done|]. intros [H _]. by destruct options.
  - case_bool_decide as Ha.
    + split; [intros [= <- <-]; subst a; split; [done|apply not_elem_of_nil]|].
      intros [H Hn]. destruct options as [|o options]; simplify_eq/=; [done|].
      destruct Hn. left.
    + split.
      * destruct (split_at_separator args) as [[o t]|] eqn:E; simpl; [|done]. intros [= <- <-].
        destruct (proj1 (IH o)) as [-> Hn]; [done|]. split; [done|].
        intros [He|?]%elem_of_cons; [by apply Ha|done].
      * intros [H Hn]. destruct options as [|o options]; simplify_eq/=.
        rewrite (proj2 (IH options)); [done|]. split; [done|]. intros ?. apply Hn. by right.
Qed.

(** C31. The command lines [record], [replay] and [watch] accept are exactly
    those of their grammars, and what they ask for is the options applied in
    order, the last of each kind winning: [record] takes its options up to the
    first [--] (a value may not be [--]) and a program after it; [replay] any
    sequence of [-t] and [--to] with 64-bit numbers; [watch] exactly one word
    that does not begin with a dash, an address and a length that fits eight
    bits, in any order. Everything else is refused, and no argument panics. *)
Theorem command_lines_exact args :
  (∀ r, parse_record_args args = Some r ↔
     ∃ opts program program_args,
       args = (opts ≫= record_words) ++ str "--" :: program :: program_args ∧
       str "--" ∉ (opts ≫= record_words) ∧
       r = foldl record_apply (MkRecordArgs DEFAULT_TRACE false None program program_args) opts) ∧
  (∀ r, parse_replay_args args = Some r ↔
     ∃ opts, args = opts ≫= replay_words ∧ Forall replay_written opts ∧
             r = foldl replay_apply (DEFAULT_TRACE, None) opts) ∧
  (∀ r, parse_watch_args args = Some r ↔
     ∃ opts s, args = opts ≫= watch_words ∧ Forall watch_written opts ∧
       s = foldl watch_apply (MkWatchState None None None false) opts ∧
       watch_paths opts = [wa_trace_path r] ∧ wst_trace s = Some (wa_trace_path r) ∧
       wst_addr s = Some (wa_addr r) ∧ wst_len s = Some (wa_len r) ∧ wst_reads s = wa_reads r).
Proof.
  split_and!; intros r.
  - unfold parse_record_args. split.
    + destruct (split_at_separator args) as [[options target]|] eqn:E; simpl; [|done].
      apply split_at_separator_exact in E as [-> Hn]. destruct target as [|program rest]; [done|].
      intros (opts & -> & ->)%record_options_exact. eauto 10.
    + intros (opts & program & rest & -> & Hn & ->).
      rewrite (proj2 (split_at_separator_exact _ _ _) (conj eq_refl Hn)). simpl.
      apply record_options_exact. eauto.
  - apply replay_options_exact.
  - unfold parse_watch_args. split.
    + destruct (watch_options args _) as [s|] eqn:E; simpl; [|done].
      apply watch_options_exact in E as (opts & -> & Hw & Hc & ->).
      set (s := foldl _ _ _). intros H.
      destruct (wst_trace s) as [t|] eqn:Et; simplify_eq/=.
      destruct (wst_addr s) as [ad|] eqn:Ea; simplify_eq/=.
      destruct (wst_len s) as [n|] eqn:En; simplify_eq/=.
      exists opts, s. split_and!; try done.
      eapply only_path; [exact Hc|exact Et].
    + intros (opts & s & -> & Hw & Hs & Hp & Ht & Ha & Hn & Hr).
      rewrite (proj2 (watch_options_exact _ _ s)).
      * simpl. rewrite Ht, Ha, Hn, Hr. by destruct r.
      * exists opts. unfold paths. rewrite Hp. repeat split; try done; simpl; lia.
Qed.
